(* ===== verification/_CoqProject ===== *)
-Q . S2P
Prelude.v
World.v
GoStrings.v
Utf8.v
Sha256.v
ShellQuote.v
ProjectPath.v
GoPath.v
SshExec.v
ConfigData.v
Config.v
Dsn.v
DbKey.v
ReadOnly.v
Reconciler.v
Failover.v
Promotion.v
Webhook.v
Logging.v
LocalCmd.v
Signals.v
Rsync.v
GitFetch.v
Registry.v
GoFloat.v
Verdict.v
Consistency.v
ApiValidator.v
PostgresRec.v
ObjectStorage.v
PgSetup.v
Doctor.v
Sla.v
Metrics.v
InitCmd.v
Build.v
Receiver.v
Template.v
Runbook.v
Sweep.v
Reports.v
Cli.v
Commands.v
Serve.v
System.v
Monitoring.v
