(* ===== verification/Prelude.v ===== *)
(** * syncctl: a verification development

    syncctl mirrors a self-hosted GitLab site (the primary) onto others (the
    secondaries): it bootstraps PostgreSQL standbys, keeps repositories and
    blobs in step with rsync, git and S3 listings, audits the copies, fails
    over to a secondary and swaps roles.  This library models the Go code
    under src/ and proves what makes each part correct.  This file holds the
    shared vocabulary; the map from parts to files follows.

    ** Foundations

    - Prelude.v (this file): Go strings as byte lists with literals, integers
      and their wrap-around, errors ([error], [Errorf], [errors_Is]), the
      state monad [ST], results ([res]), hints and tactics ([closed_decide]
      decides closed facts).
    - World.v: the outside.  Every effect is an [event] of a [history]; an
      [Env] answers processes, HTTP requests and their redirects, SQL, the
      disk, random draws, the context and the timers as a function of the
      whole history, so that nothing is assumed of remote hosts.  [IO] reads the environment and extends the history;
      [Extends] and [Only] are the classes of computations that never
      rewrite the past and that only do events of a given kind.
    - Signals.v: what a computation tells through its metrics; [Tells]
      relates its result to the signals it sends, [counted] composes the
      failures of a loop.
    - GoStrings.v, Utf8.v, GoPath.v, GoFloat.v, Sha256.v: what the source
      uses of strings, strconv, unicode/utf8, path/filepath, float64
      conversions and crypto/sha256, executable.

    ** The parts and their files

    - internal/shellquote: ShellQuote.v.  [Quote], against a lexer for POSIX
      shell words.
    - internal/projectpath: ProjectPath.v.  [Validate].
    - internal/sshexec: SshExec.v.  Endpoints, ssh command lines, the
      interface [Runner] (a class; [RunnerOk] is what its clients rely on).
    - internal/config: ConfigData.v (the structs and their reflection as
      generic values), Config.v (secret audit, environment expansion,
      validation with defaults, [Load]), Dsn.v (connection strings, against
      the grammar of libpq).
    - internal/dbkey: DbKey.v.  internal/readonly: ReadOnly.v.
    - internal/reconciler (runner.go, retry.go): Reconciler.v.
    - internal/failover: Failover.v.  The state [fstate] holds the two atomic
      fields of the controller and the history; [check] is one turn of the
      health loop [Run], [Promote] and [AdoptAsSecondary] the two scripts.
      Promotion.v says what the errors of [Promote] mean, and that automatic
      failover acts when the primary stays away.
    - internal/webhook: Webhook.v (the server behind its routes and the
      debouncing [TriggerManager], as step relations over goroutines and
      critical sections) and Receiver.v (their composition with the trigger
      of cmd/syncctl: from a request to a fetch).
    - internal/metrics: Metrics.v (the collectors, their registration, the
      values that a history leaves in them and their scrape).
    - internal/runbook: Template.v (the part of text/template that it uses,
      with a parser, an evaluator and a type system that is sound) and
      Runbook.v (the template, its functions, [Generate]).
    - internal/logging: Logging.v.  internal/localcmd: LocalCmd.v.
    - internal/reconciler/gitrsync and fsstorage: Rsync.v; gitfetch:
      GitFetch.v (the errgroup of a sweep is a step relation); registry:
      Registry.v; consistency: Consistency.v; apivalidator: ApiValidator.v
      (both report through the verdict lists of Verdict.v); postgres:
      PostgresRec.v (connection pools are numbered resources);
      objectstorage: ObjectStorage.v.
    - internal/pgsetup: PgSetup.v.  internal/doctor: Doctor.v.
      internal/sla: Sla.v.  internal/initcmd: InitCmd.v.
    - cmd/syncctl/main.go: Build.v (construction of the reconcilers and of
      the webhook receiver), Sweep.v (the calls of [Reconcile] through the
      interface, as relations, since a sweep of fetches is one), Cli.v (the
      bodies of the commands), Commands.v (the table of commands and flags,
      [main], and internal/version), Serve.v (the goroutines of serve, which
      end or panic as [Reconciler.Run], [Failover.Run] and the [Start] of the
      two listeners do, as a step relation) and System.v
      (everything that a running serve does, as an interleaving).
    - Across the parts: Reports.v (the contract [report_ok] between the
      result of a reconciler and its metrics, with an instance of [Honest]
      for each) and Monitoring.v (from a failed reconcile in a running serve
      to the figures of the sla command).

    Functions, methods and fields keep their Go names, with a prefix where
    two packages share one ([gr_] gitrsync, [fs_] fsstorage, [gf_] gitfetch,
    [os_] objectstorage, [pg_] postgres, [con_] consistency, [api_]
    apivalidator, [ck_] doctor, [an_] the wizard).

    ** What is shown

    The theorems that state properties carry an identifier (C1, C2, ...) in
    their comment, in order of importance.

    - Failover and role swap: a promotion is gated and its script runs in
      order, and its error names the step that failed and tells a key
      mismatch ([Promote_errors]); the health loop acts only after three
      failures in a row
      (refinement of an abstract counter); the staged password file is
      removed and data is wiped only on demand; no destructive command runs
      without being asked (Cli.v).
    - Configuration: [Load] accepts exactly the valid files; a connection
      string read back by libpq's grammar gives the fields; the endpoints
      that are accepted are those of a grammar.
    - Text that reaches a shell, ssh, rsync, git or libpq: one word per
      value, no value read as an option, no password printed.
    - Replication: mirroring goes one way, a sweep of fetches ends, accounts
      for every project and stays below its root, the reports of the
      registry, bucket, lag, row-count and API checks say what was measured,
      and a registry's token stays with its host.
    - Composition: every secondary gets its reconcilers under distinct
      names, each with that secondary's own settings and pool ([serves]),
      every pool that is opened is closed, and a whole sweep only
      observes, mirrors and fetches from the primary into local directories
      of a secondary, and changes nothing in a dry run ([sweep_one_way]);
      serve goes on until its context is done or a listener fails; a webhook
      acts only with the secret and for the project it names, and none that
      is accepted is lost ([webhook_effects], [accepted_is_triggered]); and
      all that a running serve does is replication, the configured read-only
      mode, probes, and a promotion when automatic failover may act
      ([serve_effects]).
    - Diagnosis: the doctor's report is complete and honest and its run only
      looks; the sla report does not depend on the order of a map, and its
      figures are those of the server's history ([sla_tells_history]), so
      that no failed reconcile is missing from its drift count
      ([failures_reach_the_report]); the file of the wizard is its template.
    - Documents: the runbook's template is well typed, so that it is written
      for every configuration; how far what it says agrees with the
      controller is stated; and the command lines that the runbook and the wizard print are read by
      the shell and by cobra as the commands they stand for.

    Examples at the end of each file evaluate the definitions on concrete
    inputs; some of them exhibit defects of the code.

    ** Bounds and fuel

    Integers are [Z] with [wrap64] where the code computes with int64 or
    int; a time.Duration is a [Z] of nanoseconds.  Recursions on text
    (trimming, expansion, redaction, the conninfo reader, SHA-256 blocks)
    take the length as fuel, and each step consumes a byte, so that it is
    enough; lemmas say so where a specification needs it.  The listing loop
    of a bucket ends within one turn more than there are pages
    ([bucketStats_total]).  The loops of [Reconciler.Run] and [Failover.Run]
    have no end of their own: their fuel bounds the turns that are observed.
    The template is parsed with its length as fuel.  Concurrent code has
    no fuel, being a relation; [sweep_ends] shows that it ends.

    ** Parameters

    Code that is not in the repository is an argument: the YAML and JSON
    decoders, net/url, strings.ToLower outside ASCII, the AWS paginator, the
    pgx pools and column decoders, the parser of the metrics format, the
    files that commands read and write, the clock, the order in which Go
    traverses a map, cobra's parser of command lines, and what
    text/template prints of values that are not text, numbers or booleans.
    What a theorem relies on is a named hypothesis (for instance
    [ctx_cancels], [range_perm]) or a class of laws ([CobraLaws]; [Machine]:
    a directory lists an entry once, and a random draw is below its bound),
    and its witness instantiates it.  In System.v each
    goroutine has an environment of its own, since what it observes depends
    on what the others do; nothing is assumed of any.

    ** Not modelled

    - Log lines; durations inside the details of a result.
    - net/http around the modelled handlers (timeouts, TLS itself) and the
      rendering of the metrics; the buckets of the histogram.
    - The redirects of a GET, but for the registry's requests, where what is
      sent along matters ([Registry.client_Do]): an answer is that of the
      last.
    - Signals: they end the context.
    - The pgx adapters (poolAdapter, defaultPoolFactory): the pools are
      parameters.
    - Test-only entry points (WithRunner, PathPairs, newReconcilerWithListers).
*)
From Stdlib Require Import Ascii String ZArith Lia.
From stdpp Require Import prelude strings gmap list.

(** ** Byte strings

    A Go string is a sequence of bytes; it is modelled as a list of
    [ascii], so that the list lemmas of stdpp apply.  String literals of
    [go_scope] denote such lists directly. *)
Abbreviation gostr := (list ascii).

Inductive byte_string_literal := Lnil | Lcons (a : ascii) (l : byte_string_literal).

Fixpoint literal_parse (l : list Byte.byte) : byte_string_literal :=
  match l with
  | [] => Lnil
  | b :: l => Lcons (ascii_of_byte b) (literal_parse l)
  end.

Fixpoint literal_print (l : byte_string_literal) : list Byte.byte :=
  match l with
  | Lnil => []
  | Lcons a l => byte_of_ascii a :: literal_print l
  end.

Definition byte_string := list ascii.

Declare Scope go_scope.
Delimit Scope go_scope with go.
#[warnings="-via-type-remapping,-via-type-mismatch"]
String Notation byte_string literal_parse literal_print
  (via byte_string_literal mapping [ [nil] => Lnil, [cons] => Lcons ]) : go_scope.
Open Scope go_scope.

(** The double quote and the other bytes that have no readable literal. *)
Definition DQ : ascii := "034"%char.
Definition SQ : ascii := "'"%char.
Definition BSL : ascii := "\"%char.
Definition TAB : ascii := "009"%char.
Definition LF : ascii := "010"%char.
Definition CR : ascii := "013"%char.
Definition NUL : ascii := "000"%char.
Definition SPC : ascii := " "%char.

(** ** Errors

    Go errors are values.  [ErrSentinel] is a package-level variable
    created by [errors.New] that callers compare against with
    [errors.Is]; [Errorf] is [fmt.Errorf] with its format string split
    into fragments ([FW] for [%w], [FV] for [%v], [FQ] for [%q], [FS] for
    literal text and [%s], [FZ] for [%d], [FD] for a duration);
    [ErrJoin] is [errors.Join]; [ErrExternal] is an error value built by
    code outside the repository. *)
#[warnings="-register-all"]
Inductive error :=
| ErrNew (msg : gostr)
| ErrSentinel (id : gostr)
| ErrExternal (msg : gostr)
| Errorf (l : list frag)
| ErrJoin (l : list error)
with frag :=
| FS (s : gostr)
| FQ (s : gostr)
| FZ (z : Z)
| FD (d : Z)
| FW (e : error)
| FV (e : error).

(** [errors.Is(e, target)] for a sentinel target: the chain of [%w]
    wrappings and the members of a join are searched; [%v] does not wrap. *)
Fixpoint errors_Is (e : error) (target : gostr) : bool :=
  match e with
  | ErrSentinel id => bool_decide (id = target)
  | ErrNew _ | ErrExternal _ => false
  | Errorf l =>
      (fix go (l : list frag) : bool :=
         match l with
         | [] => false
         | FW e :: l => errors_Is e target || go l
         | _ :: l => go l
         end) l
  | ErrJoin l =>
      (fix go (l : list error) : bool :=
         match l with
         | [] => false
         | e :: l => errors_Is e target || go l
         end) l
  end.

Definition ctx_Canceled : error := ErrSentinel "context.Canceled".
Definition ctx_DeadlineExceeded : error := ErrSentinel "context.DeadlineExceeded".

(** A fallible result: Go's [(T, error)] with exactly one of the two
    meaningful. *)
Inductive res (A : Type) :=
| Ok (a : A)
| Err (e : error).
Arguments Ok {A} a.
Arguments Err {A} e.

Definition is_Ok {A} (r : res A) : bool := match r with Ok _ => true | Err _ => false end.

Global Instance res_ret : MRet res := @Ok.
Global Instance res_bind : MBind res := λ A B f m,
  match m with Ok a => f a | Err e => Err e end.

(** [if err := ...; err != nil { return wrap(err) }]. *)
Definition wrap_err {A} (w : error → error) (r : res A) : res A :=
  match r with Ok a => Ok a | Err e => Err (w e) end.

(** The result of a function that returns only an [error]. *)
Abbreviation err := (res unit).
Definition nil_error : err := Ok tt.
Definition of_error (o : option error) : err := match o with Some e => Err e | None => nil_error end.

(** [errors.Join(errs...)]: nil when there is no error to join. *)
Definition errors_Join (errs : list error) : option error :=
  match errs with [] => None | _ => Some (ErrJoin errs) end.

(** ** State *)

(** State passing: the whole program state (a component's fields and the
    history of its interaction with the world) is threaded explicitly. *)
Definition ST (S A : Type) : Type := S → A * S.

Global Instance ST_ret {S} : MRet (ST S) := λ A a s, (a, s).
Global Instance ST_bind {S} : MBind (ST S) := λ A B f m s,
  let '(a, s') := m s in f a s'.

Definition gets {S A} (f : S → A) : ST S A := λ s, (f s, s).
Definition modify {S} (f : S → S) : ST S unit := λ s, (tt, f s).

(** Sequencing with an early return on error. *)
Definition try_bind {S A B} (m : ST S (res A)) (k : A → ST S (res B)) : ST S (res B) :=
  λ s, match m s with
       | (Ok a, s') => k a s'
       | (Err e, s') => (Err e, s')
       end.

Notation "x ←? m ; k" := (try_bind m (λ x, k))
  (at level 20, m at level 100, k at level 200, right associativity,
   format "x  ←?  m ;  '/' k") : go_scope.
Notation "m ;;? k" := (try_bind m (λ _, k))
  (at level 100, k at level 200, right associativity) : go_scope.

(** Named steps run in order until the first failure; [wrap] is what the
    caller makes of a failing step's error, and with [skip] the steps are
    only announced. *)
Fixpoint run_steps {S} (skip : bool) (wrap : gostr → error → error)
    (steps : list (gostr * ST S err)) : ST S err :=
  match steps with
  | [] => mret nil_error
  | (name, fn) :: steps =>
      if skip then run_steps skip wrap steps
      else λ s, match fn s with
                | (Ok _, s') => run_steps skip wrap steps s'
                | (Err e, s') => (Err (wrap name e), s')
                end
  end.

(** ** Machine integers *)

Definition int64_max : Z := 9223372036854775807.
Definition int64_min : Z := -9223372036854775808.

(** Two's-complement wrap-around of a 64-bit signed integer (Go's [int]
    on the supported platforms, [int64] and [time.Duration]). *)
Definition wrap64 (z : Z) : Z :=
  (z + 9223372036854775808) `mod` 18446744073709551616 - 9223372036854775808.

Definition in_int64 (z : Z) : Prop := (int64_min ≤ z ≤ int64_max)%Z.

(** [time.Duration] constants, in nanoseconds. *)
Definition Second : Z := 1000000000.
Definition Minute : Z := 60 * Second.

(** ** Automation *)

Create HintDb syncctl discriminated.
Create Rewrite HintDb gostr.

(** Splits the next [match] or [if] of the goal, remembering its value. *)
Ltac case_next :=
  match goal with
  | |- context [ match ?x with _ => _ end ] =>
      lazymatch x with
      | context [ match _ with _ => _ end ] => fail
      | _ => destruct x eqn:?
      end
  end.

(** Splits the next [match] or [if] of a hypothesis. *)
Ltac case_next_in H :=
  match type of H with
  | context [ match ?x with _ => _ end ] =>
      lazymatch x with
      | context [ match _ with _ => _ end ] => fail
      | _ => destruct x eqn:?
      end
  end.

(** Replaces the boolean tests of the context by the propositions they
    decide. *)
Ltac reflect_bools :=
  repeat match goal with
  | H : bool_decide _ = true |- _ => apply bool_decide_eq_true_1 in H
  | H : bool_decide _ = false |- _ => apply bool_decide_eq_false_1 in H
  | H : (_ && _)%bool = true |- _ => apply andb_true_iff in H; destruct H
  | H : (_ || _)%bool = false |- _ => apply orb_false_iff in H; destruct H
  | H : negb _ = true |- _ => apply negb_true_iff in H
  | H : negb _ = false |- _ => apply negb_false_iff in H
  | H : (_ =? _)%Z = true |- _ => apply Z.eqb_eq in H
  | H : (_ =? _)%Z = false |- _ => apply Z.eqb_neq in H
  | H : (_ <? _)%Z = true |- _ => apply Z.ltb_lt in H
  | H : (_ <? _)%Z = false |- _ => apply Z.ltb_ge in H
  | H : (_ <=? _)%Z = true |- _ => apply Z.leb_le in H
  | H : (_ <=? _)%Z = false |- _ => apply Z.leb_gt in H
  end.

(** Closed decidable facts, by evaluation. *)
Ltac closed_decide := apply (bool_decide_eq_true_1 _); reflexivity.

(** ** Generic lemmas *)

Lemma wrap64_id z : in_int64 z → wrap64 z = z.
Proof.
  unfold in_int64, int64_min, int64_max, wrap64; intros [? ?].
  rewrite Z.mod_small; lia.
Qed.

Lemma wrap64_range z : in_int64 (wrap64 z).
Proof.
  unfold in_int64, int64_min, int64_max, wrap64.
  pose proof (Z.mod_pos_bound (z + 9223372036854775808) 18446744073709551616).
  lia.
Qed.

Lemma wrap64_add a b : wrap64 (wrap64 a + b) = wrap64 (a + b).
Proof.
  unfold wrap64. apply (f_equal (λ x, x - 9223372036854775808)%Z).
  set (N := 18446744073709551616%Z). set (M := 9223372036854775808%Z).
  replace ((a + M) `mod` N - M + b + M)%Z with ((a + M) `mod` N + b)%Z by ring.
  rewrite Zplus_mod_idemp_l. f_equal. lia.
Qed.

#[export] Hint Resolve wrap64_range : syncctl.

Lemma forallb_Forall {A} (f : A → bool) (l : list A) :
  forallb f l = true ↔ Forall (λ x, f x = true) l.
Proof.
  induction l as [|x l IH]; cbn; [by split|].
  rewrite andb_true_iff, IH, Forall_cons; done.
Qed.

Lemma forallb_app {A} (f : A → bool) (l k : list A) :
  forallb f (l ++ k) = forallb f l && forallb f k.
Proof. induction l as [|x l IH]; cbn; [done|]. by rewrite IH, andb_assoc. Qed.

Lemma filter_length_all {A} (P : A → Prop) `{∀ x, Decision (P x)} (l : list A) :
  length (filter P l) = length l ↔ Forall P l.
Proof.
  induction l as [|x l IH]; [by split|]. rewrite filter_cons, Forall_cons. pose proof (length_filter P l).
  case_decide; cbn [length]; [rewrite <- IH|]; naive_solver lia.
Qed.

Lemma errors_Is_wrap id l1 e l2 :
  errors_Is e id = true → errors_Is (Errorf (l1 ++ FW e :: l2)) id = true.
Proof.
  intros He; cbn. induction l1 as [|f l1 IH]; cbn.
  - by rewrite He.
  - destruct f; cbn; try exact IH. rewrite IH; apply orb_true_r.
Qed.

Lemma errors_Is_Errorf l id :
  errors_Is (Errorf l) id = existsb (λ f, match f with FW e => errors_Is e id | _ => false end) l.
Proof. induction l as [|f l IH]; [done|]. destruct f; cbn in *; by rewrite IH. Qed.

(** Running a sequence of fallible steps stops at the first failure. *)
Lemma try_bind_Ok {S A B} (m : ST S (res A)) (k : A → ST S (res B)) s a s' :
  m s = (Ok a, s') → try_bind m k s = k a s'.
Proof. intros H; unfold try_bind; by rewrite H. Qed.

Lemma try_bind_Err {S A B} (m : ST S (res A)) (k : A → ST S (res B)) s e s' :
  m s = (Err e, s') → try_bind m k s = (Err e, s').
Proof. intros H; unfold try_bind; by rewrite H. Qed.

Lemma try_bind_inv_Ok {S A B} (m : ST S (res A)) (k : A → ST S (res B)) s b s'' :
  try_bind m k s = (Ok b, s'') →
  ∃ a s', m s = (Ok a, s') ∧ k a s' = (Ok b, s'').
Proof.
  unfold try_bind; destruct (m s) as [[a|e] s'] eqn:E; intros H; [by eauto|done].
Qed.

Lemma run_steps_skip {S} wrap (steps : list (gostr * ST S err)) s :
  run_steps true wrap steps s = (nil_error, s).
Proof. by induction steps as [|[name fn] steps IH]. Qed.

Lemma run_steps_cons_Ok {S} wrap name (fn : ST S err) steps s a s' :
  fn s = (Ok a, s') → run_steps false wrap ((name, fn) :: steps) s = run_steps false wrap steps s'.
Proof. intros H. cbn. by rewrite H. Qed.

Lemma run_steps_cons_Err {S} wrap name (fn : ST S err) steps s e s' :
  fn s = (Err e, s') → run_steps false wrap ((name, fn) :: steps) s = (Err (wrap name e), s').
Proof. intros H. cbn. by rewrite H. Qed.

(** The first failing step gives the error; those before it succeeded and
    those after it have not run. *)
Lemma run_steps_Err {S} wrap (steps : list (gostr * ST S err)) s e s' :
  run_steps false wrap steps s = (Err e, s') →
  ∃ before name fn after s1 e', steps = before ++ (name, fn) :: after ∧
    run_steps false wrap before s = (nil_error, s1) ∧ fn s1 = (Err e', s') ∧ e = wrap name e'.
Proof.
  revert s. induction steps as [|[name fn] steps IH]; intros s; [done|]. cbn [run_steps].
  destruct (fn s) as [[a|e'] s1] eqn:Ef.
  - intros (before & n & f & after & s2 & e2 & -> & Hb & Hf & ->)%IH.
    exists ((name, fn) :: before), n, f, after, s2, e2. split; [done|]. by rewrite (run_steps_cons_Ok _ _ _ _ _ _ _ Ef).
  - intros [= <- <-]. by exists [], name, fn, steps, s, e'.
Qed.
