(* ===== verification/World.v ===== *)
(** * The world: processes, HTTP, SQL, metrics and the clock

    Everything syncctl does to the outside goes through an [event] of the
    history; the outside answers through an [Env], whose replies depend on
    the whole history so far, so that no assumption is made about the
    behaviour of remote hosts, other processes or the network.  [IO A] is
    a computation that reads the environment and extends the history. *)
From stdpp Require Import prelude strings gmap list.
From S2P Require Import Prelude.
Open Scope go_scope.

(** What the program does to the outside, oldest event first in a
    [history].  Log lines and terminal output are not recorded. *)
Inductive event :=
| EvExec (name : gostr) (args env : list gostr) (stdin : option gostr)
    (** [exec.CommandContext(ctx, name, args...)] run with [env] appended *)
| EvGet (url : gostr) (header : list (gostr * gostr))
    (** an HTTP GET *)
| EvSQL (pool sql : gostr) (args : list gostr)
    (** a query on a connection pool *)
| EvSleep (d : Z)
    (** a wait on [time.After(d)] *)
| EvDrift (component severity : gostr)
    (** [metrics.DriftTotal...Inc()] *)
| EvDuration (component result : gostr)
    (** [metrics.SyncDurationSeconds...Observe()] *)
| EvLastSync (component : gostr)
    (** [metrics.LastSyncTimestamp...Set(now)] *)
| EvPGLag (secondary : gostr) (v : option Z)
    (** [metrics.PGReplayLagSeconds...Set(v)]; [None] for -1 *).

Abbreviation history := (list event).

Record http_response := {
  StatusCode : Z;
  Header : gostr → gostr;
  Body : gostr;
}.

(** A row of a query result; [None] is SQL NULL. *)
Abbreviation sql_row := (list (option gostr)).

(** What [filepath.Walk] finds below a path: [NErr] cannot be inspected,
    [NDirErr] is a directory that cannot be read; the entries of a directory
    are in the order of [readDirNames]. *)
#[warnings="-register-all"]
Inductive node :=
| NFile
| NErr
| NDirErr
| NDir (entries : list (gostr * node)).

(** The outside of the program. *)
Record Env := {
  env_exec : history → gostr → list gostr → list gostr → option gostr → gostr * option error;
  env_get : history → gostr → list (gostr * gostr) → res http_response;
  env_hops : history → gostr → list gostr;   (** the redirects net/http meets on a GET, in order *)
  env_disk : history → gostr → node;         (** the file system *)
  env_draw : history → nat → nat → nat;      (** the [i]-th [rng.Intn(k)] of a new generator *)
  env_sql : history → gostr → gostr → list gostr → res (list sql_row);
  env_ctx : history → option error;   (** [ctx.Err()] at this point *)
  env_timer : history → Z → bool;     (** did [time.After d] fire before [ctx.Done()]? *)
}.

Definition IO (A : Type) : Type := ST history A.

Definition emit (e : event) : IO unit := λ h, (tt, h ++ [e]).

Section io.
Context (E : Env).

Definition io_exec (name : gostr) (args env : list gostr) (stdin : option gostr)
    : IO (gostr * option error) := λ h,
  (env_exec E h name args env stdin, h ++ [EvExec name args env stdin]).

Definition io_get (url : gostr) (header : list (gostr * gostr)) : IO (res http_response) := λ h,
  (env_get E h url header, h ++ [EvGet url header]).

Definition io_sql (pool sql : gostr) (args : list gostr) : IO (res (list sql_row)) := λ h,
  (env_sql E h pool sql args, h ++ [EvSQL pool sql args]).

(** [ctx.Err()]: [Some] once the context is done. *)
Definition io_ctx_Err : IO (option error) := λ h, (env_ctx E h, h).

Definition io_disk : IO (gostr → node) := λ h, (env_disk E h, h).
Definition io_draw : IO (nat → nat → nat) := λ h, (env_draw E h, h).

(** [select { case <-ctx.Done(): ... case <-time.After(d): ... }]; [true]
    when the timer fired. *)
Definition io_after (d : Z) : IO bool := λ h, (env_timer E h d, h ++ [EvSleep d]).

End io.

(** ** Computations only extend the history *)

(** [Extends m]: [m] never rewrites the past. *)
Class Extends {A} (m : IO A) : Prop := extends h : ∃ t, (m h).2 = h ++ t.

#[export] Instance extends_ret {A} (a : A) : Extends (mret a : IO A).
Proof. intros h. exists []. by rewrite app_nil_r. Qed.

#[export] Instance extends_bind {A B} (m : IO A) (f : A → IO B) :
  Extends m → (∀ a, Extends (f a)) → Extends (m ≫= f).
Proof.
  intros Hm Hf h. unfold mbind, ST_bind.
  destruct (Hm h) as [t Ht]. destruct (m h) as [a h'] eqn:E; cbn in Ht; subst h'.
  destruct (Hf a (h ++ t)) as [t' Ht']. exists (t ++ t'). by rewrite Ht', app_assoc.
Qed.

#[export] Instance extends_try {A B} (m : IO (res A)) (f : A → IO (res B)) :
  Extends m → (∀ a, Extends (f a)) → Extends (try_bind m f).
Proof.
  intros Hm Hf h. unfold try_bind.
  destruct (Hm h) as [t Ht]. destruct (m h) as [[a|e] h'] eqn:E; cbn in Ht; subst h'.
  - destruct (Hf a (h ++ t)) as [t' Ht']. exists (t ++ t'). by rewrite Ht', app_assoc.
  - by exists t.
Qed.

#[export] Instance extends_emit e : Extends (emit e).
Proof. intros h. by exists [e]. Qed.

#[export] Instance extends_exec E n a v i : Extends (io_exec E n a v i).
Proof. intros h. by eexists. Qed.

#[export] Instance extends_get E u hd : Extends (io_get E u hd).
Proof. intros h. by eexists. Qed.

#[export] Instance extends_sql E p q a : Extends (io_sql E p q a).
Proof. intros h. by eexists. Qed.

#[export] Instance extends_ctx E : Extends (io_ctx_Err E).
Proof. intros h. exists []. by rewrite app_nil_r. Qed.

#[export] Instance extends_disk E : Extends (io_disk E).
Proof. intros h. exists []. by rewrite app_nil_r. Qed.

#[export] Instance extends_draw E : Extends (io_draw E).
Proof. intros h. exists []. by rewrite app_nil_r. Qed.

#[export] Instance extends_after E d : Extends (io_after E d).
Proof. intros h. by eexists. Qed.

(** Goals [Extends m] are closed by instance search after splitting the
    conditionals of [m]. *)
Ltac solve_extends :=
  repeat first
    [ apply _
    | apply extends_bind; [|intros ?]
    | apply extends_try; [|intros ?]
    | case_next
    | intros ? ].

(** ** Computations confined to some events

    [Only P m]: [m] only adds events that satisfy [P] to the history, which
    may be a part of a larger state. *)
Class HasHistory (St : Type) := hist : St → history.
#[export] Instance history_hist : HasHistory history := id.

Class Only `{HasHistory St} (P : event → Prop) {A} (m : ST St A) : Prop :=
  only s : ∃ evs, hist (m s).2 = hist s ++ evs ∧ Forall P evs.

#[export] Instance only_ret `{HasHistory St} P {A} (a : A) : Only P (mret a : ST St A).
Proof. intros s. exists []. by rewrite app_nil_r. Qed.

#[export] Instance only_ctx P E : Only P (io_ctx_Err E).
Proof. intros h. exists []. by rewrite app_nil_r. Qed.

#[export] Instance only_disk P E : Only P (io_disk E).
Proof. intros h. exists []. by rewrite app_nil_r. Qed.

#[export] Instance only_draw P E : Only P (io_draw E).
Proof. intros h. exists []. by rewrite app_nil_r. Qed.

(** Reading and updating the other parts of the state. *)
#[export] Instance only_gets `{HasHistory St} P {A} (f : St → A) : Only P (gets f).
Proof. intros s. exists []. by rewrite app_nil_r. Qed.

Lemma only_modify `{HasHistory St} P (f : St → St) : (∀ s, hist (f s) = hist s) → Only P (modify f).
Proof. intros Hf s. exists []. rewrite app_nil_r. by split; [apply Hf|]. Qed.

Lemma only_bind `{HasHistory St} P {A B} (m : ST St A) (f : A → ST St B) :
  Only P m → (∀ a, Only P (f a)) → Only P (m ≫= f).
Proof.
  intros Hm Hf s. unfold mbind, ST_bind. destruct (Hm s) as (e1 & H1 & F1).
  destruct (m s) as [a s1]. cbn in H1. destruct (Hf a s1) as (e2 & H2 & F2).
  exists (e1 ++ e2). rewrite H2, H1, app_assoc. split; [done|]. by apply Forall_app.
Qed.

Lemma only_try `{HasHistory St} P {A B} (m : ST St (res A)) (f : A → ST St (res B)) :
  Only P m → (∀ a, Only P (f a)) → Only P (try_bind m f).
Proof.
  intros Hm Hf s. unfold try_bind. destruct (Hm s) as (e1 & H1 & F1).
  destruct (m s) as [[a|e] s1]; cbn in H1; [|by exists e1].
  destruct (Hf a s1) as (e2 & H2 & F2).
  exists (e1 ++ e2). rewrite H2, H1, app_assoc. split; [done|]. by apply Forall_app.
Qed.

Lemma only_one `{HasHistory St} (P : event → Prop) {A} (m : ST St A) e :
  (∀ s, hist (m s).2 = hist s ++ [e]) → P e → Only P m.
Proof. intros Hm He s. exists [e]. split; [apply Hm|by repeat constructor]. Qed.

Lemma only_emit (P : event → Prop) e : P e → Only P (emit e).
Proof. by apply only_one. Qed.

Lemma only_weaken `{HasHistory St} (P Q : event → Prop) {A} (m : ST St A) :
  (∀ e, P e → Q e) → Only P m → Only Q m.
Proof.
  intros HPQ Hm s. destruct (Hm s) as (evs & He & Hf). exists evs. split; [done|]. by eapply Forall_impl.
Qed.

(** Runs compose. *)
Definition adds (P : event → Prop) (h h' : history) : Prop := ∃ evs, h' = h ++ evs ∧ Forall P evs.

#[export] Instance adds_preorder P : PreOrder (adds P).
Proof.
  split.
  - intros h. exists []. by rewrite app_nil_r.
  - intros h1 h2 h3 (e1 & -> & F1) (e2 & -> & F2). exists (e1 ++ e2). rewrite app_assoc. split; [done|].
    by apply Forall_app.
Qed.

Lemma adds_weaken (P Q : event → Prop) h h' : (∀ e, P e → Q e) → adds P h h' → adds Q h h'.
Proof. intros HPQ (evs & -> & Hf). exists evs. split; [done|]. by eapply Forall_impl. Qed.

Lemma adds_one (P : event → Prop) h e : P e → adds P h (h ++ [e]).
Proof. intros He. exists [e]. split; [done|by repeat constructor]. Qed.

Lemma only_adds `{HasHistory St} P {A} (m : ST St A) s a s' : Only P m → m s = (a, s') → adds P (hist s) (hist s').
Proof. intros Hm Hs. destruct (Hm s) as (evs & He & Hf). rewrite Hs in He. by exists evs. Qed.

(** Computations that only observe: no process is run, and every query is one
    of [sqls]. *)
Definition observes (sqls : list gostr) (e : event) : Prop :=
  match e with EvExec _ _ _ _ => False | EvSQL _ sql _ => sql ∈ sqls | _ => True end.

(** Sending a GET is one of the events. *)
Class AllowsGet (P : event → Prop) : Prop := allows_get url hd : P (EvGet url hd).

#[export] Instance observes_get sqls : AllowsGet (observes sqls).
Proof. by intros url hd. Qed.

(** Goals [Only P m], after splitting the binds and the conditionals of [m];
    what is left are the calls that no instance covers. *)
Ltac solve_only :=
  repeat first
    [ apply _
    | apply only_emit; exact I
    | eapply only_one; [reflexivity|exact I]
    | apply only_bind; [|intros ?]
    | apply only_try; [|intros ?]
    | case_next ].

(** ** Scripts

    [issues m evs]: [m] does the events [evs], in this order, and nothing
    else; it may stop early, but only by returning an error, and then it
    has done a prefix of them. *)
Definition issues `{HasHistory St} (m : ST St err) (evs : list event) : Prop :=
  ∀ s r s', m s = (r, s') →
    ∃ t, t `prefix_of` evs ∧ hist s' = hist s ++ t ∧ (is_Ok r = true → t = evs).

Lemma issues_ret_Ok `{HasHistory St} : issues (mret nil_error : ST St err) [].
Proof. intros s r s' [= <- <-]. exists []. split; [done|]. by rewrite app_nil_r. Qed.

Lemma issues_Err `{HasHistory St} (e : error) evs : issues (mret (Err e) : ST St err) evs.
Proof.
  intros s r s' [= <- <-]. exists []. split; [apply prefix_nil|]. by rewrite app_nil_r.
Qed.

Lemma issues_steps `{HasHistory St} wrap (steps : list (gostr * ST St err)) evss :
  Forall2 (λ step evs, issues step.2 evs) steps evss →
  issues (run_steps false wrap steps) (mjoin evss).
Proof.
  induction 1 as [|[name fn] evs steps evss Hfn Hsteps IH]; [apply issues_ret_Ok|].
  intros s r s'. cbn [run_steps]. destruct (fn s) as [[a|e] s1] eqn:E.
  - intros Hr. destruct (Hfn _ _ _ E) as (t1 & _ & H1 & Hok). rewrite (Hok eq_refl) in H1.
    destruct (IH _ _ _ Hr) as (t2 & Hp & H2 & Hok2). exists (evs ++ t2). cbn. split; [|split].
    + by apply prefix_app.
    + by rewrite H2, H1, app_assoc.
    + intros Hk. by rewrite (Hok2 Hk).
  - intros [= <- <-]. destruct (Hfn _ _ _ E) as (t1 & Hp & H1 & _). exists t1. cbn.
    split; [by apply prefix_app_r|done].
Qed.

(** A command whose outcome decides the result. *)
Lemma issues_output {A} (m : IO A) (k : A → IO err) evs :
  (∀ h, (m h).2 = h ++ evs) → (∀ a, ∃ r, k a = mret r) → issues (m ≫= k) evs.
Proof.
  intros Hm Hk h r h'. unfold mbind, ST_bind. specialize (Hm h). destruct (m h) as [a h1].
  cbn [snd] in Hm. subst h1. destruct (Hk a) as [r' ->]. intros [= <- <-]. by exists evs.
Qed.
