(* ===== verification/GoStrings.v ===== *)
(** * The parts of Go's [strings], [strconv], [unicode/utf8] and
    [path/filepath] packages that syncctl uses, on byte strings. *)
From Stdlib Require Import Ascii ZArith Lia.
From stdpp Require Import prelude strings gmap list.
From S2P Require Import Prelude.
Open Scope go_scope.

(** ** Characters *)

Definition byte_val (c : ascii) : Z := Z.of_N (N_of_ascii c).

Definition is_digit (c : ascii) : bool := (48 <=? byte_val c)%Z && (byte_val c <=? 57)%Z.
Definition is_upper (c : ascii) : bool := (65 <=? byte_val c)%Z && (byte_val c <=? 90)%Z.
Definition is_lower (c : ascii) : bool := (97 <=? byte_val c)%Z && (byte_val c <=? 122)%Z.
Definition is_alnum (c : ascii) : bool := is_upper c || is_lower c || is_digit c.

(** Membership of a byte in a literal set of bytes. *)
Definition in_set (cs : gostr) (c : ascii) : bool := bool_decide (c ∈ cs).

(** ** Package strings *)

Fixpoint HasPrefix (s p : gostr) {struct p} : bool :=
  match p, s with
  | [], _ => true
  | a :: p, b :: s => bool_decide (a = b) && HasPrefix s p
  | _ :: _, [] => false
  end.

Definition HasSuffix (s p : gostr) : bool :=
  bool_decide (length p ≤ length s) && bool_decide (drop (length s - length p) s = p).

Definition TrimPrefix (s p : gostr) : gostr :=
  if HasPrefix s p then drop (length p) s else s.

Definition TrimSuffix (s p : gostr) : gostr :=
  if HasSuffix s p then take (length s - length p) s else s.

(** [strings.Index]; [None] for -1. *)
Fixpoint Index (s sub : gostr) : option nat :=
  if HasPrefix s sub then Some 0
  else match s with
       | [] => None
       | _ :: s => S <$> Index s sub
       end.

(** [strings.LastIndex]; [None] for -1. *)
Fixpoint LastIndex (s sub : gostr) : option nat :=
  match s with
  | [] => if HasPrefix [] sub then Some 0 else None
  | _ :: s' =>
      match LastIndex s' sub with
      | Some i => Some (S i)
      | None => if HasPrefix s sub then Some 0 else None
      end
  end.

Definition Contains (s sub : gostr) : bool :=
  match Index s sub with Some _ => true | None => false end.

(** [strings.ContainsAny] for a set of ASCII characters. *)
Definition ContainsAny (s chars : gostr) : bool := existsb (in_set chars) s.

(** [strings.Count] of a one-byte substring. *)
Definition CountByte (s : gostr) (c : ascii) : nat := length (filter (λ x, x = c) s).

(** [strings.Split] on a one-byte separator. *)
Fixpoint SplitByte (s : gostr) (sep : ascii) : list gostr :=
  match s with
  | [] => [[]]
  | c :: s =>
      if bool_decide (c = sep) then [] :: SplitByte s sep
      else match SplitByte s sep with
           | [] => [[c]]
           | x :: xs => (c :: x) :: xs
           end
  end.

Fixpoint JoinWith (l : list gostr) (sep : gostr) : gostr :=
  match l with
  | [] => []
  | [x] => x
  | x :: l => x ++ sep ++ JoinWith l sep
  end.

(** [strings.ReplaceAll] of a one-byte [old]. *)
Fixpoint ReplaceAllByte (s : gostr) (old : ascii) (new : gostr) : gostr :=
  match s with
  | [] => []
  | c :: s => (if bool_decide (c = old) then new else [c]) ++ ReplaceAllByte s old new
  end.

(** [strings.Cut] on a one-byte separator. *)
Fixpoint CutByte (s : gostr) (sep : ascii) : option (gostr * gostr) :=
  match s with
  | [] => None
  | c :: s =>
      if bool_decide (c = sep) then Some ([], s)
      else match CutByte s sep with
           | None => None
           | Some (x, y) => Some (c :: x, y)
           end
  end.

(** The UTF-8 encodings of the characters [unicode.IsSpace] accepts. *)
Definition space_encodings : list gostr :=
  [ [TAB]; [LF]; ["011"%char]; ["012"%char]; [CR]; [SPC];
    ["194"%char; "133"%char]; ["194"%char; "160"%char];
    ["225"%char; "154"%char; "128"%char] ] ++
  ((λ c, ["226"%char; "128"%char; c]) <$>
     ["128"%char; "129"%char; "130"%char; "131"%char; "132"%char; "133"%char;
      "134"%char; "135"%char; "136"%char; "137"%char; "138"%char;
      "168"%char; "169"%char; "175"%char]) ++
  [ ["226"%char; "129"%char; "159"%char]; ["227"%char; "128"%char; "128"%char] ].

(** Drops, as long as possible, a prefix taken from [encs]. *)
Fixpoint trim_left_fuel (fuel : nat) (encs : list gostr) (s : gostr) : gostr :=
  match fuel with
  | O => s
  | S fuel =>
      match List.find (λ e, HasPrefix s e) encs with
      | Some e => trim_left_fuel fuel encs (drop (length e) s)
      | None => s
      end
  end.

Definition trim_left (encs : list gostr) (s : gostr) : gostr :=
  trim_left_fuel (length s) encs s.

Definition trim_right (encs : list gostr) (s : gostr) : gostr :=
  reverse (trim_left (reverse <$> encs) (reverse s)).

(** [strings.TrimSpace]: UTF-8 is self-synchronising, so trimming the
    space runes decoded from either end is trimming their encodings. *)
Definition TrimSpace (s : gostr) : gostr :=
  trim_right space_encodings (trim_left space_encodings s).

(** [strings.Trim] with a one-byte cutset. *)
Definition TrimByte (s : gostr) (c : ascii) : gostr := trim_right [[c]] (trim_left [[c]] s).

(** [strings.ToLower] on the ASCII range; other bytes are left alone. *)
Definition lower_byte (c : ascii) : ascii :=
  if is_upper c then ascii_of_N (N_of_ascii c + 32) else c.
Definition ToLowerASCII (s : gostr) : gostr := lower_byte <$> s.

(** ** Package strconv *)

Fixpoint digits_val (acc : Z) (s : gostr) : option Z :=
  match s with
  | [] => Some acc
  | c :: s => if is_digit c then digits_val (acc * 10 + (byte_val c - 48)) s else None
  end.

Definition split_sign (s : gostr) : Z * gostr :=
  match s with
  | "-"%char :: t => ((-1)%Z, t)
  | "+"%char :: t => (1%Z, t)
  | _ => (1%Z, s)
  end.

(** [strconv.Atoi]: an optional sign, at least one digit, and a value
    that fits in 64 bits. *)
Definition Atoi (s : gostr) : option Z :=
  let '(sign, ds) := split_sign s in
  match ds with
  | [] => None
  | _ =>
      match digits_val 0 ds with
      | None => None
      | Some n =>
          if ((int64_min <=? sign * n) && (sign * n <=? int64_max))%Z
          then Some (sign * n)%Z else None
      end
  end.

Definition digit_char (d : N) : ascii := ascii_of_N (48 + d).

Fixpoint digits_of (fuel : nat) (n : N) (acc : gostr) : gostr :=
  match fuel with
  | O => acc
  | S fuel =>
      let acc := digit_char (n `mod` 10) :: acc in
      if (n <? 10)%N then acc else digits_of fuel (n / 10)%N acc
  end.

Definition N_to_dec (n : N) : gostr := digits_of (S (N.size_nat n)) n [].

(** [strconv.Itoa], also the [%d] verb. *)
Definition Itoa (z : Z) : gostr :=
  match z with
  | Z0 => "0"
  | Zpos p => N_to_dec (Npos p)
  | Zneg p => "-" ++ N_to_dec (Npos p)
  end.

(** ** Lemmas *)

(** A statement about all bytes is decided by evaluating it on the 256
    of them. *)
Definition all_bytes : gostr := (λ n, ascii_of_nat n) <$> seq 0 256.

Lemma elem_of_all_bytes c : c ∈ all_bytes.
Proof.
  apply list_elem_of_fmap. exists (nat_of_ascii c).
  rewrite ascii_nat_embedding. split; [done|]. apply elem_of_seq.
  pose proof (nat_ascii_bounded c). lia.
Qed.

Lemma byte_implb (f g : ascii → bool) :
  forallb (λ c, implb (f c) (g c)) all_bytes = true →
  ∀ c, f c = true → g c = true.
Proof.
  rewrite forallb_Forall, Forall_forall. intros H c Hc.
  specialize (H c (elem_of_all_bytes c)). by rewrite Hc in H.
Qed.

(** Proves [∀ c, f c = true → g c = true] for closed byte predicates. *)
Ltac byte_cases := apply byte_implb; vm_compute; reflexivity.

Lemma Forall_byte_impl (f g : ascii → bool) s :
  (∀ c, f c = true → g c = true) →
  Forall (λ c, f c = true) s → Forall (λ c, g c = true) s.
Proof. intros H Hs. eapply Forall_impl; [exact Hs|]. cbn. auto. Qed.

Lemma Forall_byte_notin (f : ascii → bool) s d :
  f d = false → Forall (λ c, f c = true) s → d ∉ s.
Proof. intros Hd Hs Hin. rewrite Forall_forall in Hs. apply Hs in Hin. congruence. Qed.

Lemma HasPrefix_true s p : HasPrefix s p = true ↔ ∃ t, s = p ++ t.
Proof.
  revert s. induction p as [|a p IH]; intros s; cbn.
  { split; [intros _; by exists s|done]. }
  destruct s as [|b s]; [split; [done|by intros [t ?]]|].
  rewrite andb_true_iff, bool_decide_eq_true, IH. split.
  - intros [-> [t ->]]. by exists t.
  - intros [t [= -> ->]]. eauto.
Qed.

Lemma HasPrefix_app p t : HasPrefix (p ++ t) p = true.
Proof. apply HasPrefix_true. by exists t. Qed.

Lemma HasPrefix_false s p : HasPrefix s p = false ↔ ¬ ∃ t, s = p ++ t.
Proof. by rewrite <-HasPrefix_true, not_true_iff_false. Qed.

Lemma HasPrefix_cons c s : HasPrefix s [c] = true ↔ head s = Some c.
Proof.
  destruct s as [|b s]; cbn; [done|].
  rewrite andb_true_r, bool_decide_eq_true. naive_solver.
Qed.

Lemma Contains_byte s c : Contains s [c] = true ↔ c ∈ s.
Proof.
  unfold Contains. induction s as [|b s IH]; cbn.
  { split; [done|]. by intros ?%elem_of_nil. }
  rewrite elem_of_cons, <-IH. case_bool_decide; subst; cbn.
  { split; [by left|done]. }
  destruct (Index s [c]); cbn; split; try done; [by right|by intros [?|?]].
Qed.

Lemma HasSuffix_true s p : HasSuffix s p = true → ∃ pre, s = pre ++ p.
Proof.
  unfold HasSuffix. intros [_ Hd%bool_decide_eq_true]%andb_true_iff.
  exists (take (length s - length p) s). rewrite <- Hd at 2. by rewrite take_drop.
Qed.

Lemma ContainsAny_true s cs : ContainsAny s cs = true ↔ ∃ c, c ∈ s ∧ c ∈ cs.
Proof.
  unfold ContainsAny, in_set. rewrite existsb_exists. split.
  - intros [c [Hc%list_elem_of_In Hd%bool_decide_eq_true]]. by exists c.
  - intros [c [Hc%list_elem_of_In Hd]]. exists c. by rewrite bool_decide_eq_true_2.
Qed.

Lemma ContainsAny_false s cs :
  ContainsAny s cs = false ↔ Forall (λ c, c ∉ cs) s.
Proof.
  rewrite Forall_forall, <-not_true_iff_false, ContainsAny_true. naive_solver.
Qed.

(** *** Index and LastIndex of a byte *)

Lemma LastIndex_byte_None s c : LastIndex s [c] = None ↔ c ∉ s.
Proof.
  induction s as [|b s IH]; cbn.
  { split; [intros _; apply not_elem_of_nil|done]. }
  rewrite not_elem_of_cons. destruct (LastIndex s [c]) eqn:E.
  - split; [done|]. intros [_ Hc]. by apply IH in Hc.
  - rewrite andb_true_r. case_bool_decide; naive_solver.
Qed.

Lemma LastIndex_byte_app x c y :
  c ∉ y → LastIndex (x ++ c :: y) [c] = Some (length x).
Proof.
  intros Hy. induction x as [|b x IH]; cbn.
  - apply LastIndex_byte_None in Hy. rewrite Hy, andb_true_r.
    by rewrite bool_decide_eq_true_2.
  - by rewrite IH.
Qed.

Lemma LastIndex_byte_Some s c i :
  LastIndex s [c] = Some i →
  s = take i s ++ c :: drop (S i) s ∧ c ∉ drop (S i) s.
Proof.
  revert i. induction s as [|b s IH]; intros i; cbn; [done|].
  destruct (LastIndex s [c]) as [j|] eqn:E.
  - intros [= <-]. destruct (IH j eq_refl) as [H1 H2]. split; [|done].
    cbn. by rewrite <-H1.
  - rewrite andb_true_r. case_bool_decide as Hc; [|done]. intros [= <-].
    subst b. split; [done|]. by apply LastIndex_byte_None.
Qed.

Lemma Index_byte_app x c y : c ∉ x → Index (x ++ c :: y) [c] = Some (length x).
Proof.
  induction x as [|b x IH]; cbn; intros Hc.
  - by rewrite bool_decide_eq_true_2.
  - apply not_elem_of_cons in Hc as [Hb Hx]. rewrite IH by done.
    by rewrite bool_decide_eq_false_2.
Qed.

Lemma Index_byte_Some s c i :
  Index s [c] = Some i → s = take i s ++ c :: drop (S i) s ∧ c ∉ take i s.
Proof.
  revert i. induction s as [|b s IH]; intros i; cbn; [done|].
  rewrite andb_true_r. case_bool_decide as Hb; cbn.
  - intros [= <-]. subst b. split; [done|apply not_elem_of_nil].
  - destruct (Index s [c]) as [j|] eqn:E; cbn; [|done]. intros [= <-].
    destruct (IH j eq_refl) as [H1 H2]. split.
    + cbn. by rewrite <-H1.
    + cbn. by apply not_elem_of_cons.
Qed.

Lemma Index_byte_None s c : Index s [c] = None ↔ c ∉ s.
Proof.
  rewrite <-Contains_byte. unfold Contains. by destruct (Index s [c]).
Qed.

Lemma CountByte_0 s c : CountByte s c = 0 ↔ c ∉ s.
Proof.
  unfold CountByte. induction s as [|b s IH]; [split; [intros _; apply not_elem_of_nil|done]|].
  rewrite filter_cons, not_elem_of_cons. case_decide; cbn; naive_solver.
Qed.

Lemma CountByte_app x y c : CountByte (x ++ y) c = CountByte x c + CountByte y c.
Proof. unfold CountByte. by rewrite filter_app, length_app. Qed.

Lemma CountByte_cons_eq c y : CountByte (c :: y) c = S (CountByte y c).
Proof. unfold CountByte. by rewrite filter_cons_True. Qed.

(** *** Split and Join *)

Lemma SplitByte_nonempty s c : SplitByte s c ≠ [].
Proof. destruct s; cbn; [done|]. case_bool_decide; [done|]. by destruct (SplitByte s c). Qed.

Lemma JoinWith_cons x l sep : l ≠ [] → JoinWith (x :: l) sep = x ++ sep ++ JoinWith l sep.
Proof. by destruct l. Qed.

Lemma Join_Split s c : JoinWith (SplitByte s c) [c] = s.
Proof.
  induction s as [|b s IH]; [done|]. cbn [SplitByte].
  pose proof (SplitByte_nonempty s c).
  case_bool_decide; subst.
  - rewrite JoinWith_cons by done. by rewrite IH.
  - destruct (SplitByte s c) as [|x xs]; [done|]. destruct xs; cbn in *; by rewrite IH.
Qed.

Lemma SplitByte_no_sep s c : Forall (λ x, c ∉ x) (SplitByte s c).
Proof.
  induction s as [|b s IH]; cbn.
  { constructor; [apply not_elem_of_nil|constructor]. }
  case_bool_decide; [constructor; [apply not_elem_of_nil|done]|].
  destruct (SplitByte s c) as [|x xs].
  - constructor; [|constructor]. apply not_elem_of_cons. split; [done|apply not_elem_of_nil].
  - inversion IH; subst. constructor; [|done]. by apply not_elem_of_cons.
Qed.

Lemma SplitByte_single x c : c ∉ x → SplitByte x c = [x].
Proof.
  induction x as [|b x IH]; cbn; [done|]. intros [Hb Hx]%not_elem_of_cons.
  rewrite bool_decide_eq_false_2 by done. by rewrite IH.
Qed.

Lemma SplitByte_app x c y : c ∉ x → SplitByte (x ++ c :: y) c = x :: SplitByte y c.
Proof.
  induction x as [|b x IH]; cbn; intros Hx.
  - by rewrite bool_decide_eq_true_2.
  - apply not_elem_of_cons in Hx as [Hb Hx].
    rewrite bool_decide_eq_false_2 by done. by rewrite IH.
Qed.

Lemma Split_Join l c :
  l ≠ [] → Forall (λ x, c ∉ x) l → SplitByte (JoinWith l [c]) c = l.
Proof.
  induction l as [|x l IH]; [done|]. intros _ [Hx Hl]%Forall_cons.
  destruct l as [|y l]; [by apply SplitByte_single|].
  rewrite JoinWith_cons by done. cbn [app]. rewrite SplitByte_app by done.
  by rewrite IH.
Qed.

Lemma Join_app l k sep :
  l ≠ [] → k ≠ [] → JoinWith (l ++ k) sep = JoinWith l sep ++ sep ++ JoinWith k sep.
Proof.
  intros Hl Hk. induction l as [|x l IH]; [done|].
  destruct l as [|y l]; cbn [app].
  - by rewrite JoinWith_cons.
  - rewrite (JoinWith_cons x (y :: l ++ k)) by done.
    rewrite (JoinWith_cons x (y :: l)) by done.
    cbn [app] in IH. rewrite IH by done. by rewrite <-!app_assoc.
Qed.

(** A byte of the string is in some segment, or is the separator. *)
Lemma SplitByte_Forall (P : ascii → Prop) s c :
  P c → Forall P s ↔ (P c ∧ Forall (Forall P) (SplitByte s c)).
Proof.
  intros Hc. induction s as [|b s IH]; cbn.
  { split; [intros _; split; [done|by repeat constructor]|constructor]. }
  rewrite Forall_cons, IH. case_bool_decide; subst.
  - rewrite Forall_cons. naive_solver.
  - pose proof (SplitByte_nonempty s c). destruct (SplitByte s c) as [|x xs]; [done|].
    rewrite !Forall_cons. naive_solver.
Qed.

(** *** Cut, trimming *)

Lemma CutByte_None s c : CutByte s c = None ↔ c ∉ s.
Proof.
  induction s as [|b s IH]; cbn; [split; [intros _; apply not_elem_of_nil|done]|].
  rewrite not_elem_of_cons. case_bool_decide; [naive_solver|].
  destruct (CutByte s c) as [[??]|]; naive_solver.
Qed.

Lemma CutByte_app x c y : c ∉ x → CutByte (x ++ c :: y) c = Some (x, y).
Proof.
  induction x as [|b x IH]; cbn; intros Hx.
  - by rewrite bool_decide_eq_true_2.
  - apply not_elem_of_cons in Hx as [Hb Hx].
    rewrite bool_decide_eq_false_2 by done. by rewrite IH.
Qed.

Lemma trim_left_id encs s :
  (∀ e, e ∈ encs → HasPrefix s e = false) → trim_left encs s = s.
Proof.
  intros H. unfold trim_left. destruct (length s); cbn; [done|].
  destruct (List.find _ encs) as [e|] eqn:E; [|done].
  apply find_some in E as [He Hp]. apply list_elem_of_In, H in He. congruence.
Qed.

Lemma trim_right_id encs s :
  (∀ e, e ∈ encs → HasPrefix (reverse s) (reverse e) = false) → trim_right encs s = s.
Proof.
  intros H. unfold trim_right. rewrite trim_left_id; [apply reverse_involutive|].
  intros e [e' [-> He]]%list_elem_of_fmap. by apply H.
Qed.

(** A string made of bytes that neither start nor end the encoding of a
    space is left alone by [TrimSpace]. *)
Definition not_space_byte (c : ascii) : bool :=
  negb (existsb (λ e, in_set e c) space_encodings).

Lemma HasPrefix_not_space s e :
  e ∈ space_encodings → Forall (λ c, not_space_byte c = true) s →
  HasPrefix s e = false ∧ HasPrefix s (reverse e) = false.
Proof.
  intros He Hs.
  assert (∀ p, p ≠ [] → (∀ c, c ∈ p → c ∈ e) → HasPrefix s p = false) as Hp.
  { intros p Hne Hsub. apply not_true_iff_false. intros [t ->]%HasPrefix_true.
    destruct p as [|c p]; [done|]. apply Forall_cons in Hs as [Hc _].
    unfold not_space_byte in Hc. apply negb_true_iff in Hc.
    apply not_true_iff_false in Hc. apply Hc. apply existsb_exists.
    exists e. split; [by apply list_elem_of_In|]. unfold in_set.
    apply bool_decide_eq_true. apply Hsub. left. }
  assert (e ≠ []) as Hne.
  { intros ->. by apply (bool_decide_eq_true_2 ([] ∈ space_encodings)) in He. }
  split; apply Hp; [done|done| |].
  - destruct e; [done|]. rewrite reverse_cons. by destruct (reverse e).
  - intros c. by rewrite elem_of_reverse.
Qed.

Lemma TrimSpace_id s : Forall (λ c, not_space_byte c = true) s → TrimSpace s = s.
Proof.
  intros Hs. unfold TrimSpace. rewrite trim_left_id.
  - apply trim_right_id. intros e He. apply HasPrefix_not_space; [done|].
    by apply Forall_reverse.
  - intros e He. by apply HasPrefix_not_space.
Qed.

(** *** Numbers *)

Lemma digits_val_digits acc s n :
  digits_val acc s = Some n → Forall (λ c, is_digit c = true) s.
Proof.
  revert acc. induction s as [|c s IH]; intros acc; [constructor|].
  cbn. destruct (is_digit c) eqn:Hc; [|done]. intros H.
  constructor; [done|]. by apply IH in H.
Qed.

(** The bytes of a text accepted by [Atoi]. *)
Definition number_byte (c : ascii) : bool := is_digit c || in_set "+-" c.

Lemma Atoi_bytes s n :
  Atoi s = Some n → s ≠ [] ∧ Forall (λ c, number_byte c = true) s ∧ in_int64 n.
Proof.
  assert (∀ t acc m, digits_val acc t = Some m → Forall (λ c, number_byte c = true) t) as Hd.
  { intros t acc m H%digits_val_digits. revert H. apply Forall_byte_impl. byte_cases. }
  unfold Atoi. destruct s as [|c s]; [done|].
  assert ((split_sign (c :: s)).2 = c :: s ∨
          ((split_sign (c :: s)).2 = s ∧ number_byte c = true)) as Hq.
  { by destruct c as [[] [] [] [] [] [] [] []]; auto. }
  destruct (split_sign (c :: s)) as [sign ds]; cbn in Hq. destruct ds as [|d ds]; [done|].
  destruct (digits_val 0 (d :: ds)) as [m|] eqn:Em; [|done].
  destruct (_ && _) eqn:Hb; [|done]. intros [= <-]. split; [done|]. split.
  - apply Hd in Em. destruct Hq as [[= <- <-]|[<- ?]]; [done|by constructor].
  - reflect_bools. unfold in_int64. lia.
Qed.

Lemma byte_val_digit d : (d < 10)%N → byte_val (digit_char d) = Z.of_N (48 + d).
Proof. intros H. unfold byte_val, digit_char. rewrite N_ascii_embedding by lia. done. Qed.

Lemma is_digit_char d : (d < 10)%N → is_digit (digit_char d) = true.
Proof. intros H. unfold is_digit. rewrite byte_val_digit by done. rewrite andb_true_iff, !Z.leb_le. lia. Qed.

Lemma digits_val_app acc x y :
  digits_val acc (x ++ y) = digits_val acc x ≫= λ a, digits_val a y.
Proof.
  revert acc. induction x as [|c x IH]; intros acc; [done|]. cbn.
  destruct (is_digit c); [apply IH|done].
Qed.

(** [digits_of] with enough fuel writes a number before the accumulator. *)
Lemma digits_of_val fuel n acc :
  (n < 2 ^ N.of_nat fuel)%N → 0 < fuel →
  ∃ ds, digits_of fuel n acc = ds ++ acc ∧ ds ≠ [] ∧ digits_val 0 ds = Some (Z.of_N n)
        ∧ Forall (λ c, is_digit c = true) ds.
Proof.
  revert n acc. induction fuel as [|fuel IH]; intros n acc Hn Hf; [lia|].
  cbn [digits_of]. pose proof (N.mod_lt n 10 ltac:(done)) as Hm.
  destruct (N.ltb_spec n 10).
  - exists [digit_char (n mod 10)]. rewrite N.mod_small by lia.
    split; [done|]. split; [done|]. split.
    + cbn. rewrite is_digit_char, byte_val_digit by lia. f_equal. lia.
    + constructor; [by apply is_digit_char; lia|constructor].
  - rewrite Nat2N.inj_succ, N.pow_succ_r' in Hn.
    destruct fuel as [|fuel]; [cbn in Hn; lia|].
    assert (n / 10 < 2 ^ N.of_nat (S fuel))%N as Hlt.
    { apply N.Div0.div_lt_upper_bound. lia. }
    destruct (IH (n / 10)%N (digit_char (n mod 10) :: acc) Hlt ltac:(lia))
      as (ds & -> & Hne & Hv & Hd).
    exists (ds ++ [digit_char (n mod 10)]).
    split; [by rewrite <-app_assoc|]. split; [by destruct ds|]. split.
    + rewrite digits_val_app, Hv. cbn.
      rewrite is_digit_char, byte_val_digit by lia. f_equal.
      pose proof (N.div_mod' n 10). lia.
    + apply Forall_app. split; [done|]. constructor; [by apply is_digit_char|constructor].
Qed.

Lemma N_to_dec_val n :
  N_to_dec n ≠ [] ∧ digits_val 0 (N_to_dec n) = Some (Z.of_N n)
  ∧ Forall (λ c, is_digit c = true) (N_to_dec n).
Proof.
  unfold N_to_dec.
  destruct (digits_of_val (S (N.size_nat n)) n []) as (ds & -> & ? & ? & ?); [|lia|].
  - rewrite Nat2N.inj_succ, N.pow_succ_r'.
    pose proof (N.size_gt n) as Hs.
    replace (N.of_nat (N.size_nat n)) with (N.size n).
    + generalize dependent (2 ^ N.size n)%N. intros q Hq. lia.
    + clear Hs. destruct n as [|p]; [done|]. cbn. induction p; cbn in *; lia.
  - by rewrite app_nil_r.
Qed.

(** [Atoi] reads [Itoa] back. *)
Lemma Atoi_Itoa z : in_int64 z → Atoi (Itoa z) = Some z.
Proof.
  assert (∀ p, Atoi (N_to_dec (Npos p)) =
    if ((int64_min <=? Zpos p) && (Zpos p <=? int64_max))%Z then Some (Zpos p) else None) as Hpos.
  { intros p. destruct (N_to_dec_val (Npos p)) as (Hne & Hv & Hd).
    destruct (N_to_dec (Npos p)) as [|c ds]; [done|].
    apply Forall_cons in Hd as [Hc _]. unfold Atoi.
    replace (split_sign (c :: ds)) with (1%Z, c :: ds).
    - rewrite Hv, Z.mul_1_l. done.
    - by destruct c as [[] [] [] [] [] [] [] []]; vm_compute in Hc. }
  intros Hz. destruct z as [|p|p]; [done|..].
  - cbn [Itoa]. rewrite Hpos.
    replace (_ && _) with true; [done|]. unfold in_int64 in Hz. symmetry.
    rewrite andb_true_iff, !Z.leb_le. lia.
  - cbn [Itoa]. destruct (N_to_dec_val (Npos p)) as (Hne & Hv & _).
    unfold Atoi. cbn [app split_sign].
    destruct (N_to_dec (N.pos p)) as [|c ds]; [done|].
    rewrite Hv. replace (_ && _) with true; [done|]. unfold in_int64 in Hz. symmetry.
    rewrite andb_true_iff, !Z.leb_le. lia.
Qed.

Lemma Itoa_bytes z : Forall (λ c, number_byte c = true) (Itoa z).
Proof.
  assert (∀ n, Forall (λ c, number_byte c = true) (N_to_dec n)) as Hn.
  { intros n. destruct (N_to_dec_val n) as (_ & _ & H). revert H.
    apply Forall_byte_impl. byte_cases. }
  destruct z; cbn; [by repeat constructor|apply Hn|].
  constructor; [done|apply Hn].
Qed.

Lemma Itoa_nonempty z : Itoa z ≠ [].
Proof. destruct z; cbn; [done|apply N_to_dec_val|done]. Qed.

(** ** Spans *)

(** The longest prefix whose bytes satisfy [f], and the rest. *)
Fixpoint span (f : ascii → bool) (s : gostr) : gostr * gostr :=
  match s with
  | [] => ([], [])
  | c :: t => if f c then prod_map (cons c) id (span f t) else ([], s)
  end.

Lemma span_spec f s : s = (span f s).1 ++ (span f s).2 ∧ Forall (λ c, f c = true) (span f s).1
  ∧ (∀ c t, (span f s).2 = c :: t → f c = false).
Proof.
  induction s as [|c t IH]; cbn; [done|].
  destruct (f c) eqn:Ec; cbn; [|by naive_solver].
  destruct (span f t) as [a b]; cbn in *. destruct IH as (-> & H2 & H3). auto.
Qed.

Lemma span_stop f n c t : Forall (λ c, f c = true) n → f c = false →
  span f (n ++ c :: t) = (n, c :: t).
Proof.
  induction 1 as [|d n Hd Hn IH]; cbn; intros Hc; [by rewrite Hc|].
  by rewrite Hd, IH.
Qed.
