(* ===== verification/Utf8.v ===== *)
(** * UTF-8: ranging over the runes of a byte string

    [for _, r := range s] decodes [s] rune by rune; a byte that does not
    start a valid encoding yields U+FFFD and is skipped alone.  The byte
    ranges are those of Go's [utf8.DecodeRuneInString]. *)
From Stdlib Require Import Ascii ZArith Lia.
From stdpp Require Import prelude strings gmap list.
From S2P Require Import Prelude GoStrings.
Open Scope go_scope.

Definition RuneError : Z := 65533.

Definition in_range (lo hi : Z) (c : ascii) : bool :=
  (lo <=? byte_val c)%Z && (byte_val c <=? hi)%Z.

Definition continuation (c : ascii) : bool := in_range 128 191 c.

(** The length announced by a first byte; 0 when it starts nothing. *)
Definition rune_len (b0 : ascii) : nat :=
  if in_range 0 127 b0 then 1
  else if in_range 194 223 b0 then 2
  else if in_range 224 239 b0 then 3
  else if in_range 240 244 b0 then 4
  else 0.

(** The range allowed for the second byte, after a given first byte. *)
Definition second_ok (b0 b1 : ascii) : bool :=
  let v := byte_val b0 in
  if (v =? 224)%Z then in_range 160 191 b1
  else if (v =? 237)%Z then in_range 128 159 b1
  else if (v =? 240)%Z then in_range 144 191 b1
  else if (v =? 244)%Z then in_range 128 143 b1
  else continuation b1.

Definition low6 (c : ascii) : Z := Z.land (byte_val c) 63.

Fixpoint runes (s : gostr) : list Z :=
  match s with
  | [] => []
  | b0 :: s1 =>
      match rune_len b0 with
      | 1 => byte_val b0 :: runes s1
      | 2 =>
          match s1 with
          | b1 :: s2 =>
              if second_ok b0 b1
              then (Z.shiftl (Z.land (byte_val b0) 31) 6 + low6 b1)%Z :: runes s2
              else RuneError :: runes s1
          | [] => RuneError :: runes s1
          end
      | 3 =>
          match s1 with
          | b1 :: b2 :: s3 =>
              if second_ok b0 b1 && continuation b2
              then (Z.shiftl (Z.land (byte_val b0) 15) 12
                    + Z.shiftl (low6 b1) 6 + low6 b2)%Z :: runes s3
              else RuneError :: runes s1
          | _ => RuneError :: runes s1
          end
      | 4 =>
          match s1 with
          | b1 :: b2 :: b3 :: s4 =>
              if second_ok b0 b1 && continuation b2 && continuation b3
              then (Z.shiftl (Z.land (byte_val b0) 7) 18
                    + Z.shiftl (low6 b1) 12 + Z.shiftl (low6 b2) 6 + low6 b3)%Z :: runes s4
              else RuneError :: runes s1
          | _ => RuneError :: runes s1
          end
      | _ => RuneError :: runes s1
      end
  end.

Definition byte_of (z : Z) : ascii := ascii_of_N (Z.to_N z).

(** [string(r)] and [strings.Builder.WriteRune]. *)
Definition encode_rune (r : Z) : gostr :=
  let cont x := byte_of (128 + Z.land x 63) in
  if ((0 <=? r) && (r <=? 127))%Z then [byte_of r]
  else if ((128 <=? r) && (r <=? 2047))%Z
  then [byte_of (192 + Z.shiftr r 6); cont r]
  else if (((2048 <=? r) && (r <=? 65535)) && negb ((55296 <=? r) && (r <=? 57343)))%Z
  then [byte_of (224 + Z.shiftr r 12); cont (Z.shiftr r 6); cont r]
  else if ((65536 <=? r) && (r <=? 1114111))%Z
  then [byte_of (240 + Z.shiftr r 18); cont (Z.shiftr r 12); cont (Z.shiftr r 6); cont r]
  else [byte_of 239; byte_of 191; byte_of 189].

Definition encode_runes (l : list Z) : gostr := mjoin (encode_rune <$> l).

(** [strings.ContainsRune(s, r)] for a valid UTF-8 string [s]. *)
Definition ContainsRune (s : gostr) (r : Z) : bool := bool_decide (r ∈ runes s).

(** ** Lemmas *)

Definition is_ascii (c : ascii) : bool := in_range 0 127 c.

Lemma byte_val_bound c : (0 ≤ byte_val c < 256)%Z.
Proof.
  unfold byte_val. pose proof (N_ascii_bounded c). lia.
Qed.

Lemma byte_val_inj c d : byte_val c = byte_val d → c = d.
Proof.
  unfold byte_val. intros H%N2Z.inj.
  rewrite <-(ascii_N_embedding c), <-(ascii_N_embedding d). by rewrite H.
Qed.

Lemma is_ascii_true c : is_ascii c = true ↔ (byte_val c < 128)%Z.
Proof.
  unfold is_ascii, in_range. pose proof (byte_val_bound c).
  rewrite andb_true_iff, !Z.leb_le. lia.
Qed.

Lemma rune_len_ascii c : is_ascii c = true → rune_len c = 1.
Proof. intros H. unfold rune_len, is_ascii in *. by rewrite H. Qed.

(** An ASCII string is its own sequence of runes. *)
Lemma runes_ascii s : Forall (λ c, is_ascii c = true) s → runes s = byte_val <$> s.
Proof.
  induction 1 as [|c s Hc _ IH]; [done|]. cbn. by rewrite rune_len_ascii, IH.
Qed.

Lemma land_nonneg a b : (0 ≤ b → 0 ≤ Z.land a b)%Z.
Proof. intros H. apply Z.land_nonneg. by right. Qed.

#[local] Ltac Zify.zify_post_hook ::= Z.to_euclidean_division_equations.

(** A multi-byte encoding never decodes to an ASCII rune. *)
Lemma runes_head_nonascii b0 s1 :
  is_ascii b0 = false → ∃ r l, runes (b0 :: s1) = r :: l ∧ (128 ≤ r)%Z.
Proof.
  intros Hb.
  assert (rune_len b0 ≠ 1) as Hn1.
  { unfold rune_len. unfold is_ascii in Hb. rewrite Hb. by repeat case_next. }
  assert (∀ l : list Z, ∃ r l', RuneError :: l = r :: l' ∧ (128 ≤ r)%Z) as Herr.
  { intros l. exists RuneError, l. split; [done|]. unfold RuneError. lia. }
  cbn. destruct (rune_len b0) as [|[|[|[|[|n]]]]] eqn:El; try apply Herr; [done|..].
  - destruct s1 as [|b1 s2]; [apply Herr|].
    destruct (second_ok b0 b1); [|apply Herr]. eexists _, _. split; [done|].
    assert (194 ≤ byte_val b0 ≤ 223)%Z as Hr.
    { revert El. unfold rune_len, in_range. repeat case_next; try done. intros _. reflect_bools. lia. }
    assert (2 ≤ Z.land (byte_val b0) 31)%Z as H2.
    { change 31%Z with (Z.ones 5). rewrite Z.land_ones by lia.
      change (2 ^ 5)%Z with 32%Z. lia. }
    rewrite Z.shiftl_mul_pow2 by lia. change (2^6)%Z with 64%Z.
    pose proof (land_nonneg (byte_val b1) 63). unfold low6. lia.
  - destruct s1 as [|b1 [|b2 s3]]; [apply Herr..|].
    destruct (second_ok b0 b1 && continuation b2) eqn:Hok; [|apply Herr].
    eexists _, _. split; [done|]. apply andb_true_iff in Hok as [Hok _].
    assert (224 ≤ byte_val b0 ≤ 239)%Z as Hr.
    { revert El. unfold rune_len, in_range. repeat case_next; try done. intros _. reflect_bools. lia. }
    unfold low6. rewrite !Z.shiftl_mul_pow2 by lia.
    change (2^6)%Z with 64%Z. change (2^12)%Z with 4096%Z.
    change 15%Z with (Z.ones 4). change 63%Z with (Z.ones 6).
    rewrite !Z.land_ones by lia. change (2^4)%Z with 16%Z. change (2^6)%Z with 64%Z.
    pose proof (byte_val_bound b1). pose proof (byte_val_bound b2).
    unfold second_ok, continuation, in_range in Hok.
    destruct (Z.eqb_spec (byte_val b0) 224); reflect_bools; lia.
  - destruct s1 as [|b1 [|b2 [|b3 s4]]]; [apply Herr..|].
    destruct (second_ok b0 b1 && continuation b2 && continuation b3) eqn:Hok; [|apply Herr].
    eexists _, _. split; [done|]. apply andb_true_iff in Hok as [[Hok _]%andb_true_iff _].
    assert (240 ≤ byte_val b0 ≤ 244)%Z as Hr.
    { revert El. unfold rune_len, in_range. repeat case_next; try done. intros _. reflect_bools. lia. }
    unfold low6. rewrite !Z.shiftl_mul_pow2 by lia.
    change (2^6)%Z with 64%Z. change (2^12)%Z with 4096%Z. change (2^18)%Z with 262144%Z.
    change 7%Z with (Z.ones 3). change 63%Z with (Z.ones 6).
    rewrite !Z.land_ones by lia. change (2^3)%Z with 8%Z. change (2^6)%Z with 64%Z.
    pose proof (byte_val_bound b1). pose proof (byte_val_bound b2). pose proof (byte_val_bound b3).
    unfold second_ok, continuation, in_range in Hok.
    destruct (Z.eqb_spec (byte_val b0) 224); [lia|].
    destruct (Z.eqb_spec (byte_val b0) 237); [lia|].
    destruct (Z.eqb_spec (byte_val b0) 240); reflect_bools; lia.
Qed.

(** A test that holds of every rune, and only accepts ASCII runes, can be
    made byte by byte. *)
Lemma forallb_runes_ascii (P : Z → bool) s :
  (∀ r, P r = true → (0 ≤ r < 128)%Z) →
  forallb P (runes s) = forallb (λ c, P (byte_val c)) s.
Proof.
  intros HP. induction s as [|b s IH]; [done|].
  destruct (is_ascii b) eqn:Hb.
  - cbn. by rewrite rune_len_ascii, <-IH.
  - destruct (runes_head_nonascii b s Hb) as (r & l & -> & Hr). cbn [forallb].
    assert (P r = false) as ->.
    { apply not_true_iff_false. intros ?%HP. lia. }
    symmetry. apply andb_false_iff. left. apply not_true_iff_false.
    intros ?%HP. apply not_true_iff_false in Hb. apply Hb, is_ascii_true. lia.
Qed.

(** Membership of a rune in an ASCII string is membership of the byte. *)
Lemma ContainsRune_ascii s c :
  Forall (λ c, is_ascii c = true) s → ContainsRune s (byte_val c) = in_set s c.
Proof.
  intros Hs. unfold ContainsRune, in_set. rewrite runes_ascii by done.
  apply bool_decide_ext. split.
  - intros (d & Hd & Hin)%list_elem_of_fmap. apply byte_val_inj in Hd. by subst.
  - intros Hin. apply list_elem_of_fmap. by exists c.
Qed.
