(* ===== verification/Sha256.v ===== *)
(** * crypto/sha256 and encoding/hex

    SHA-256 as FIPS 180-4 defines it, on byte strings, and the lowercase
    hexadecimal rendering of a digest. *)
From Stdlib Require Import Ascii ZArith Lia.
From stdpp Require Import prelude strings gmap list.
From S2P Require Import Prelude GoStrings.
Open Scope go_scope.
Local Open Scope Z_scope.

(** ** 32-bit words *)

Definition mask32 : Z := 4294967295.
Definition w32 (z : Z) : Z := Z.land z mask32.
Definition add32 (x y : Z) : Z := w32 (x + y).
Definition shr (n x : Z) : Z := Z.shiftr x n.
Definition rotr (n x : Z) : Z := Z.lor (Z.shiftr x n) (w32 (Z.shiftl x (32 - n))).

Definition Ch (x y z : Z) : Z := Z.lxor (Z.land x y) (Z.land (Z.lxor x mask32) z).
Definition Maj (x y z : Z) : Z := Z.lxor (Z.lxor (Z.land x y) (Z.land x z)) (Z.land y z).
Definition Sigma0 (x : Z) : Z := Z.lxor (Z.lxor (rotr 2 x) (rotr 13 x)) (rotr 22 x).
Definition Sigma1 (x : Z) : Z := Z.lxor (Z.lxor (rotr 6 x) (rotr 11 x)) (rotr 25 x).
Definition sigma0 (x : Z) : Z := Z.lxor (Z.lxor (rotr 7 x) (rotr 18 x)) (shr 3 x).
Definition sigma1 (x : Z) : Z := Z.lxor (Z.lxor (rotr 17 x) (rotr 19 x)) (shr 10 x).

(** The fractional parts of the cube roots of the first 64 primes. *)
Definition round_constants : list Z :=
  [1116352408; 1899447441; 3049323471; 3921009573; 961987163; 1508970993;
   2453635748; 2870763221; 3624381080; 310598401; 607225278; 1426881987;
   1925078388; 2162078206; 2614888103; 3248222580; 3835390401; 4022224774;
   264347078; 604807628; 770255983; 1249150122; 1555081692; 1996064986;
   2554220882; 2821834349; 2952996808; 3210313671; 3336571891; 3584528711;
   113926993; 338241895; 666307205; 773529912; 1294757372; 1396182291;
   1695183700; 1986661051; 2177026350; 2456956037; 2730485921; 2820302411;
   3259730800; 3345764771; 3516065817; 3600352804; 4094571909; 275423344;
   430227734; 506948616; 659060556; 883997877; 958139571; 1322822218;
   1537002063; 1747873779; 1955562222; 2024104815; 2227730452; 2361852424;
   2428436474; 2756734187; 3204031479; 3329325298].

Record digest := mkDigest { h0 : Z; h1 : Z; h2 : Z; h3 : Z; h4 : Z; h5 : Z; h6 : Z; h7 : Z }.

(** The fractional parts of the square roots of the first 8 primes. *)
Definition initial : digest :=
  mkDigest 1779033703 3144134277 1013904242 2773480762 1359893119 2600822924 528734635 1541459225.

(** ** Padding and blocks *)

Fixpoint be_bytes (n : nat) (z : Z) : list Z :=
  match n with
  | O => []
  | S n => Z.land (Z.shiftr z (8 * Z.of_nat n)) 255 :: be_bytes n z
  end.

Definition pad (msg : list Z) : list Z :=
  let len := Z.of_nat (length msg) in
  let zeros := Z.to_nat ((55 - len) mod 64) in
  msg ++ 128 :: repeat 0 zeros ++ be_bytes 8 (8 * len).

Fixpoint words_of (bytes : list Z) : list Z :=
  match bytes with
  | a :: b :: c :: d :: rest =>
      Z.lor (Z.lor (Z.shiftl a 24) (Z.shiftl b 16)) (Z.lor (Z.shiftl c 8) d) :: words_of rest
  | _ => []
  end.

(** The message schedule, last word first. *)
Fixpoint schedule_rev (n : nat) (ws : list Z) : list Z :=
  match n with
  | O => ws
  | S n =>
      let w i := nth i ws 0 in
      schedule_rev n
        (add32 (add32 (sigma1 (w 1%nat)) (w 6%nat)) (add32 (sigma0 (w 14%nat)) (w 15%nat)) :: ws)
  end.

Definition schedule (block : list Z) : list Z := rev (schedule_rev 48 (rev block)).

(** ** Compression *)

Definition round (s : digest) (kw : Z * Z) : digest :=
  let t1 := add32 (add32 (h7 s) (Sigma1 (h4 s)))
              (add32 (Ch (h4 s) (h5 s) (h6 s)) (add32 (fst kw) (snd kw))) in
  let t2 := add32 (Sigma0 (h0 s)) (Maj (h0 s) (h1 s) (h2 s)) in
  mkDigest (add32 t1 t2) (h0 s) (h1 s) (h2 s) (add32 (h3 s) t1) (h4 s) (h5 s) (h6 s).

Definition add_digest (a b : digest) : digest :=
  mkDigest (add32 (h0 a) (h0 b)) (add32 (h1 a) (h1 b)) (add32 (h2 a) (h2 b)) (add32 (h3 a) (h3 b))
    (add32 (h4 a) (h4 b)) (add32 (h5 a) (h5 b)) (add32 (h6 a) (h6 b)) (add32 (h7 a) (h7 b)).

Definition compress (s : digest) (block : list Z) : digest :=
  add_digest s (fold_left round (combine round_constants (schedule block)) s).

Fixpoint blocks (fuel : nat) (s : digest) (ws : list Z) : digest :=
  match fuel, ws with
  | S fuel, _ :: _ => blocks fuel (compress s (firstn 16 ws)) (skipn 16 ws)
  | _, _ => s
  end.

(** [sha256.Sum256]. *)
Definition Sum256 (msg : gostr) : digest :=
  let ws := words_of (pad (byte_val <$> msg)) in
  blocks (length ws) initial ws.

(** ** Hexadecimal *)

Definition hex_digit (z : Z) : ascii :=
  nth (Z.to_nat (Z.land z 15)) "0123456789abcdef" "0"%char.

Fixpoint hex_word (n : nat) (z : Z) : gostr :=
  match n with
  | O => []
  | S n => hex_digit (Z.shiftr z (4 * Z.of_nat n)) :: hex_word n z
  end.

(** [hex.EncodeToString] of a digest. *)
Definition EncodeToString (d : digest) : gostr :=
  hex_word 8 (h0 d) ++ hex_word 8 (h1 d) ++ hex_word 8 (h2 d) ++ hex_word 8 (h3 d) ++
  hex_word 8 (h4 d) ++ hex_word 8 (h5 d) ++ hex_word 8 (h6 d) ++ hex_word 8 (h7 d).

#[export] Instance digest_eq_dec : EqDecision digest.
Proof. solve_decision. Defined.

(** ** Lemmas *)

(** The test vectors of FIPS 180-4. *)
Example sha256_abc : EncodeToString (Sum256 "abc") =
  "ba7816bf8f01cfea414140de5dae2223b00361a396177a9cb410ff61f20015ad".
Proof. vm_compute. reflexivity. Qed.

Example sha256_two_blocks :
  EncodeToString (Sum256 "abcdbcdecdefdefgefghfghighijhijkijkljklmklmnlmnomnopnopq") =
  "248d6a61d20638b8e5c026930c3e6039a33ce45964ff2167f6ecedd419db06c1".
Proof. vm_compute. reflexivity. Qed.

Definition hex_byte (c : ascii) : bool := is_digit c || in_set "abcdef" c.

Lemma hex_word_length n z : length (hex_word n z) = n.
Proof. induction n as [|n IH]; cbn [hex_word length]; [done|]. by rewrite IH. Qed.

Lemma hex_digit_byte z : hex_byte (hex_digit z) = true.
Proof.
  unfold hex_digit. assert (∀ n, hex_byte (nth n "0123456789abcdef" "0"%char) = true) as H; [|apply H].
  intros n. do 16 (destruct n as [|n]; [done|]). by destruct n.
Qed.

Lemma hex_word_bytes n z : Forall (λ c, hex_byte c = true) (hex_word n z).
Proof. induction n as [|n IH]; constructor; [apply hex_digit_byte|done]. Qed.

Lemma EncodeToString_length d : length (EncodeToString d) = 64%nat.
Proof. unfold EncodeToString. by rewrite !length_app, !hex_word_length. Qed.

Lemma EncodeToString_bytes d : Forall (λ c, hex_byte c = true) (EncodeToString d).
Proof. unfold EncodeToString. rewrite !Forall_app. split_and!; apply hex_word_bytes. Qed.
