(* ===== verification/ShellQuote.v ===== *)
(** * internal/shellquote: quoting for a remote POSIX shell

    [Quote] is specified against a lexer for shell words: whatever the
    value, the remote shell reads the quoted text back as that one literal
    word, in any position of a command. *)
From Stdlib Require Import Ascii ZArith Lia.
From stdpp Require Import prelude strings gmap list.
From S2P Require Import Prelude GoStrings Utf8.
Open Scope go_scope.

(** ** The code *)

Definition safeChars : gostr :=
  "ABCDEFGHIJKLMNOPQRSTUVWXYZabcdefghijklmnopqrstuvwxyz0123456789" ++
  "@%+=:,./-_".

(** [for _, r := range s { if !strings.ContainsRune(safeChars, r) { return false } }]. *)
Definition isSafe (s : gostr) : bool := forallb (ContainsRune safeChars) (runes s).

Definition Quote (s : gostr) : gostr :=
  if bool_decide (s = []) then "''"
  else if isSafe s then s
  else "'" ++ ReplaceAllByte s SQ "'\''" ++ "'".

(** ** The specification: POSIX shell token recognition

    The bytes that are never literal when unquoted: the operators and
    expansions of the Shell Command Language (section 2.2), pathname
    patterns, comments, tildes, brace and history expansion, and every
    non-ASCII byte, whose class depends on the locale. *)
Definition shell_special (c : ascii) : bool :=
  in_set ("|&;<>()$`*?[]#~!{}^" ++ [DQ]) c || negb (is_ascii c).

Definition shell_blank (c : ascii) : bool := in_set [SPC; TAB; LF] c.

(** [lex_word quoted s] reads the rest of a word, inside single quotes
    when [quoted]; it returns the literal word and the unread text.  [None]
    when the quotes are not closed or when the shell would do more than
    read a literal (an expansion, an operator). *)
Fixpoint lex_word (quoted : bool) (s : gostr) : option (gostr * gostr) :=
  match s with
  | [] => if quoted then None else Some ([], [])
  | c :: s' =>
      if quoted then
        if bool_decide (c = SQ) then lex_word false s'
        else prod_map (cons c) id <$> lex_word true s'
      else if bool_decide (c = SQ) then lex_word true s'
      else if bool_decide (c = BSL) then
        match s' with
        | [] => None
        | d :: s'' =>
            if bool_decide (d = LF) then lex_word false s''
            else prod_map (cons d) id <$> lex_word false s''
        end
      else if shell_blank c then Some ([], s)
      else if shell_special c then None
      else prod_map (cons c) id <$> lex_word false s'
  end.

(** The words of a simple command: blanks separate them. *)
Fixpoint lex_words (fuel : nat) (s : gostr) : option (list gostr) :=
  match fuel with
  | O => None
  | S fuel =>
      match s with
      | [] => Some []
      | c :: s' =>
          if shell_blank c then lex_words fuel s'
          else '(w, rest) ← lex_word false s;
               cons w <$> lex_words fuel rest
      end
  end.

Definition shell_words (s : gostr) : option (list gostr) := lex_words (S (length s)) s.

(** ** Lemmas *)

Lemma safeChars_ascii : Forall (λ c, is_ascii c = true) safeChars.
Proof. apply forallb_Forall. reflexivity. Qed.

(** The rune loop of [isSafe] is a byte loop: a non-ASCII byte is never
    part of a safe rune. *)
Lemma isSafe_bytes s : isSafe s = forallb (in_set safeChars) s.
Proof.
  unfold isSafe. rewrite forallb_runes_ascii.
  - induction s as [|c s IH]; [done|]; cbn [forallb].
    by rewrite ContainsRune_ascii, IH by apply safeChars_ascii.
  - intros r. unfold ContainsRune. rewrite bool_decide_eq_true.
    rewrite runes_ascii by apply safeChars_ascii.
    intros (c & -> & Hc)%list_elem_of_fmap.
    pose proof (proj1 (Forall_forall _ _) safeChars_ascii c Hc) as H.
    apply is_ascii_true in H. pose proof (byte_val_bound c). lia.
Qed.

Lemma safe_not_special c :
  in_set safeChars c = true →
  c ≠ SQ ∧ c ≠ BSL ∧ shell_blank c = false ∧ shell_special c = false.
Proof.
  unfold in_set. rewrite bool_decide_eq_true. revert c. apply Forall_forall.
  unfold safeChars.
  repeat (apply Forall_cons; split; [by vm_compute|]). apply Forall_nil. done.
Qed.

(** What follows a word: nothing, or a blank. *)
Definition word_end (rest : gostr) : Prop :=
  match rest with [] => True | c :: _ => shell_blank c = true end.

Lemma lex_word_end rest : word_end rest → lex_word false rest = Some ([], rest).
Proof.
  destruct rest as [|c rest]; [done|]; cbn. intros Hc.
  rewrite !bool_decide_eq_false_2, Hc; [done|..]; intros ->; by vm_compute in Hc.
Qed.

Lemma lex_word_safe s rest :
  forallb (in_set safeChars) s = true → word_end rest →
  lex_word false (s ++ rest) = Some (s, rest).
Proof.
  intros Hs Hr. induction s as [|c s IH]; [by apply lex_word_end|].
  cbn in Hs. apply andb_true_iff in Hs as [Hc Hs].
  destruct (safe_not_special c Hc) as (? & ? & Hb & Hp).
  cbn. rewrite !bool_decide_eq_false_2, Hb, Hp by done. by rewrite IH.
Qed.

Lemma lex_word_quoted s rest :
  word_end rest →
  lex_word true (ReplaceAllByte s SQ "'\''" ++ "'" ++ rest) = Some (s, rest).
Proof.
  intros Hr. induction s as [|c s IH].
  { cbn. by apply lex_word_end. }
  cbn [ReplaceAllByte]. case_bool_decide as Hc; subst.
  - rewrite <-!app_assoc. cbn. cbn in IH. by rewrite IH.
  - cbn. rewrite bool_decide_eq_false_2 by done. cbn in IH. by rewrite IH.
Qed.

(** The lexer reads a quoted value back, followed by the rest. *)
Lemma lex_word_Quote s rest :
  word_end rest → lex_word false (Quote s ++ rest) = Some (s, rest).
Proof.
  intros Hr. unfold Quote. case_bool_decide; subst.
  { cbn. by apply lex_word_end. }
  destruct (isSafe s) eqn:Hs.
  - rewrite isSafe_bytes in Hs. by apply lex_word_safe.
  - rewrite <-!app_assoc. cbn. by apply lex_word_quoted.
Qed.

Lemma Quote_nonblank s : ∃ c t, Quote s = c :: t ∧ shell_blank c = false.
Proof.
  unfold Quote. case_bool_decide; [by eexists _, _|].
  destruct (isSafe s) eqn:Hs; [|by eexists _, _].
  destruct s as [|c s]; [done|]. rewrite isSafe_bytes in Hs. cbn in Hs.
  apply andb_true_iff in Hs as [Hc _].
  exists c, s. split; [done|]. by apply safe_not_special.
Qed.

Lemma lex_words_fuel n m s ws :
  lex_words n s = Some ws → n ≤ m → lex_words m s = Some ws.
Proof.
  revert m s ws. induction n as [|n IH]; intros m s ws; [done|].
  destruct m as [|m]; [lia|]. cbn. intros H Hm.
  destruct s as [|c s']; [done|].
  destruct (shell_blank c); [apply IH; [done|lia]|].
  destruct (lex_word false (c :: s')) as [[w r]|]; [|done]. cbn in *.
  destruct (lex_words n r) as [ws'|] eqn:E; [|done].
  by rewrite (IH m r ws') by (done || lia).
Qed.

(** Reading one word, then the others. *)
Lemma lex_words_word n c t w rest ws :
  shell_blank c = false → lex_word false (c :: t) = Some (w, rest) →
  lex_words n rest = Some ws → lex_words (S n) (c :: t) = Some (w :: ws).
Proof. intros Hb Hw Hr. cbn [lex_words]. rewrite Hb, Hw. cbn. by rewrite Hr. Qed.

Lemma lex_words_Quote n s rest ws :
  word_end rest → lex_words n rest = Some ws →
  lex_words (S n) (Quote s ++ rest) = Some (s :: ws).
Proof.
  intros Hr Hw. destruct (Quote_nonblank s) as (c & t & Hq & Hb).
  pose proof (lex_word_Quote s rest Hr) as Hl. rewrite Hq in *. cbn [app] in *.
  by apply lex_words_word with (rest := rest).
Qed.

Lemma lex_words_blank n c rest ws :
  shell_blank c = true → lex_words n rest = Some ws →
  lex_words (S n) (c :: rest) = Some ws.
Proof. intros Hb Hr. cbn. by rewrite Hb. Qed.

#[export] Hint Resolve lex_words_Quote lex_words_blank : syncctl.

(** ** Properties *)

(** C18: a quoted value is one literal shell word.  For every byte string
    (spaces, quotes, newlines, dollars, semicolons, invalid UTF-8) and
    whatever follows it after a blank, a POSIX shell reads [Quote s] as
    exactly the word [s], with no expansion and no operator. *)
Theorem Quote_is_one_word (s rest : gostr) (Hrest : word_end rest) :
  lex_word false (Quote s ++ rest) = Some (s, rest).
Proof. by apply lex_word_Quote. Qed.

Example Quote_is_one_word_witness :
  lex_word false (Quote "it's $(rm -rf /); `x`" ++ " next") =
    Some ("it's $(rm -rf /); `x`" : gostr, " next" : gostr).
Proof. apply Quote_is_one_word. reflexivity. Defined.

Lemma lex_words_join ws :
  lex_words (S (length (JoinWith (Quote <$> ws) [SPC]))) (JoinWith (Quote <$> ws) [SPC]) = Some ws.
Proof.
  induction ws as [|w ws IH]; [done|].
  destruct ws as [|w' ws].
  - cbn [fmap list_fmap JoinWith]. rewrite <-(app_nil_r (Quote w)).
    apply lex_words_Quote; [done|]. rewrite app_nil_r.
    destruct (Quote_nonblank w) as (c & t & -> & _). done.
  - rewrite fmap_cons, JoinWith_cons by done.
    eapply lex_words_fuel.
    + apply lex_words_Quote; [done|]. cbn [app].
      by apply lex_words_blank, IH.
    + destruct (Quote_nonblank w) as (c & t & -> & _).
      cbn [app length]. rewrite !length_app. cbn. lia.
Qed.

(** The text [r] is one word for the shell, namely [w]. *)
Definition raw_word (r w : gostr) : Prop :=
  (∀ rest, word_end rest → lex_word false (r ++ rest) = Some (w, rest)) ∧
  ∃ c t, r = c :: t ∧ shell_blank c = false.

Lemma raw_word_Quote w : raw_word (Quote w) w.
Proof. split; [intros; by apply lex_word_Quote|apply Quote_nonblank]. Qed.

Lemma raw_word_safe w : forallb (in_set safeChars) w = true → w ≠ [] → raw_word w w.
Proof.
  intros Hs Hw. split; [intros; by apply lex_word_safe|]. destruct w as [|c t]; [done|].
  exists c, t. split; [done|]. cbn in Hs. apply andb_true_iff in Hs as [Hc _].
  apply (safe_not_special c Hc).
Qed.

Lemma lex_words_raw n r w rest ws : raw_word r w →
  word_end rest → lex_words n rest = Some ws → lex_words (S n) (r ++ rest) = Some (w :: ws).
Proof.
  intros [Hl (c & t & -> & Hb)] Hr Hw. cbn [app] in *. eapply lex_words_word; [done|by apply Hl|done].
Qed.

(** A command line made of such texts. *)
Lemma shell_words_raw rs ws : Forall2 raw_word rs ws → shell_words (JoinWith rs [SPC]) = Some ws.
Proof.
  unfold shell_words. induction 1 as [|r w rs ws Hr Hrs IH]; [done|].
  destruct rs as [|r' rs].
  - inversion Hrs; subst. cbn [JoinWith]. destruct Hr as [Hl (c & t & -> & Hb)].
    rewrite <- (app_nil_r (c :: t)) at 2. by apply (lex_words_raw _ (c :: t)); [split; [|eauto]|..].
  - rewrite JoinWith_cons by done. eapply lex_words_fuel.
    + eapply lex_words_raw; [done|done|]. cbn [app]. by apply lex_words_blank, IH.
    + rewrite !length_app. cbn. destruct Hr as [_ (c & t & -> & _)]. cbn. lia.
Qed.

(** Round trip of a command line.  A command assembled from quoted
    values separated by single spaces is read by the remote shell as
    exactly those values: nothing is split, joined, expanded or dropped,
    and [Quote] is therefore injective. *)
Lemma shell_words_roundtrip (ws : list gostr) :
  shell_words (JoinWith (Quote <$> ws) [SPC]) = Some ws.
Proof. apply lex_words_join. Qed.

(** [Quote] leaves a value alone exactly when it is non-empty and made
    of safe characters only; every other value is wrapped in single
    quotes, so a bare value in a command line never needs quoting. *)
Lemma Quote_bare_iff (s : gostr) :
  Quote s = s ↔ s ≠ [] ∧ Forall (λ c, c ∈ safeChars) s.
Proof.
  assert (forallb (in_set safeChars) s = true ↔ Forall (λ c, c ∈ safeChars) s) as Hf.
  { rewrite forallb_Forall. apply Forall_iff. intros c. unfold in_set.
    apply bool_decide_eq_true. }
  unfold Quote. case_bool_decide; [subst; split; [done|by intros []]|].
  rewrite <-Hf, <-isSafe_bytes. destruct (isSafe s); [done|].
  split; [|by intros [_ ?]].
  intros Heq. exfalso. apply (f_equal length) in Heq. revert Heq.
  assert (∀ t, length t ≤ length (ReplaceAllByte t SQ "'\''")) as Hl.
  { induction t as [|c t IH]; [done|]. cbn. rewrite length_app.
    case_bool_decide; cbn; lia. }
  pose proof (Hl s). cbn. rewrite length_app. cbn. lia.
Qed.
