(* ===== verification/ProjectPath.v ===== *)
(** * internal/projectpath: validation of GitLab project paths *)
From Stdlib Require Import Ascii ZArith Lia.
From stdpp Require Import prelude strings gmap list.
From S2P Require Import Prelude GoStrings Utf8.
Open Scope go_scope.

(** ** The code *)

(** The class [[a-zA-Z0-9_.\-/]] of [validPathRe]. *)
Definition path_byte (c : ascii) : bool := is_alnum c || in_set "_.-/" c.

(** [validPathRe.MatchString]: [^[a-zA-Z0-9][a-zA-Z0-9_.\-/]*$]. *)
Definition validPathRe (s : gostr) : bool :=
  match s with
  | [] => false
  | c :: s => is_alnum c && forallb path_byte s
  end.

(** The loop over the segments; the first bad one is reported. *)
Fixpoint check_segments (segs : list gostr) : option error :=
  match segs with
  | [] => None
  | seg :: segs =>
      if bool_decide (seg = []) then
        Some (Errorf [FS "project path contains empty segment"])
      else if bool_decide (seg = ".") || bool_decide (seg = "..") then
        Some (Errorf [FS "project path contains traversal segment: "; FQ seg])
      else check_segments segs
  end.

(** [Validate]: [None] is Go's nil error. *)
Definition Validate (path : gostr) : option error :=
  if bool_decide (path = []) then
    Some (Errorf [FS "project path is empty"])
  else if HasPrefix path "/" then
    Some (Errorf [FS "project path must not start with /"])
  else if Contains path [BSL] then
    Some (Errorf [FS "project path must not contain backslashes"])
  else if Contains path [NUL] then
    Some (Errorf [FS "project path must not contain NUL"])
  else match check_segments (SplitByte path "/"%char) with
       | Some e => Some e
       | None =>
           if negb (validPathRe path) then
             Some (Errorf [FS "project path "; FQ path; FS " contains invalid characters"])
           else None
       end.

(** ** The specification *)

(** A segment that names a directory entry: not empty, not [.] or [..]. *)
Definition proper_segment (seg : gostr) : Prop := seg ≠ [] ∧ seg ≠ "." ∧ seg ≠ "..".

Global Instance proper_segment_dec seg : Decision (proper_segment seg).
Proof. unfold proper_segment. apply _. Defined.

(** The paths syncctl accepts: segments that name entries, GitLab's
    characters only, and an alphanumeric first character. *)
Definition valid_path (path : gostr) : Prop :=
  Forall proper_segment (SplitByte path "/"%char) ∧
  Forall (λ c, path_byte c = true) path ∧
  (∃ c, head path = Some c ∧ is_alnum c = true).

(** ** Lemmas *)

Lemma check_segments_None segs :
  check_segments segs = None ↔ Forall proper_segment segs.
Proof.
  induction segs as [|s segs IH]; cbn; [by split|].
  rewrite Forall_cons. unfold proper_segment at 1.
  repeat case_bool_decide; cbn; try tauto; (split; [done|tauto]).
Qed.

Lemma alnum_path_byte c : is_alnum c = true → path_byte c = true.
Proof. intros H. unfold path_byte. by rewrite H. Qed.

Lemma validPathRe_true s :
  validPathRe s = true ↔
  (∃ c, head s = Some c ∧ is_alnum c = true) ∧ Forall (λ c, path_byte c = true) s.
Proof.
  destruct s as [|c s]; cbn; [split; [done|by intros [(c & ? & ?) _]]|].
  rewrite andb_true_iff, forallb_Forall, Forall_cons. split.
  - intros [Hc Hs]. eauto 10 using alnum_path_byte.
  - intros [(d & [= <-] & Hd) [_ Hs]]. done.
Qed.

Lemma path_byte_not c d : path_byte c = true → path_byte d = false → c ≠ d.
Proof. congruence. Qed.

Lemma Forall_path_byte_notin s d :
  Forall (λ c, path_byte c = true) s → path_byte d = false → d ∉ s.
Proof.
  intros Hs Hd Hin. rewrite Forall_forall in Hs. apply Hs in Hin. congruence.
Qed.

Lemma Validate_None path : Validate path = None ↔ valid_path path.
Proof.
  unfold Validate, valid_path. rewrite <-check_segments_None.
  case_bool_decide as Hne.
  { subst. split; [done|]. by intros (_ & _ & c & ? & _). }
  destruct (HasPrefix path "/") eqn:Hp.
  { apply HasPrefix_true in Hp as [t ->]. split; [done|].
    intros (_ & _ & c & [= <-] & Hc). by vm_compute in Hc. }
  destruct (Contains path [BSL]) eqn:Hb.
  { apply Contains_byte in Hb. split; [done|]. intros (_ & H & _).
    by destruct (Forall_path_byte_notin _ BSL H). }
  destruct (Contains path [NUL]) eqn:Hn.
  { apply Contains_byte in Hn. split; [done|]. intros (_ & H & _).
    by destruct (Forall_path_byte_notin _ NUL H). }
  destruct (check_segments (SplitByte path "/"%char)) eqn:Hs; [split; [done|by intros []]|].
  destruct (validPathRe path) eqn:Hr; cbn.
  - apply validPathRe_true in Hr. tauto.
  - split; [done|]. intros (_ & H1 & H2). apply not_true_iff_false in Hr.
    destruct Hr. by apply validPathRe_true.
Qed.

(** A valid path contains no byte that means something to a shell or to a
    URL, and no NUL. *)
Lemma valid_path_bytes path c :
  valid_path path → c ∈ path → path_byte c = true.
Proof. intros (_ & H & _) Hc. rewrite Forall_forall in H. auto. Qed.

Lemma valid_path_no_traversal path :
  valid_path path →
  (".." ∉ SplitByte path "/"%char) ∧ ("." ∉ SplitByte path "/"%char) ∧
  ([] ∉ SplitByte path "/"%char).
Proof.
  intros (H & _ & _). rewrite Forall_forall in H.
  repeat split; intros Hin%H; destruct Hin as (? & ? & ?); done.
Qed.

(** ** Properties *)

(** C19: [Validate] decides exactly GitLab's path grammar.  It returns nil
    if and only if the path starts with an alphanumeric character, is made
    of letters, digits, underscore, dot, hyphen and slash only, and each
    of its slash-separated segments names an entry (none is empty, a
    single dot or a double dot); in particular no accepted path can climb
    out of the directory it is joined to. *)
Theorem Validate_spec (path : gostr) : Validate path = None ↔ valid_path path.
Proof. apply Validate_None. Qed.
