(* ===== verification/GoPath.v ===== *)
(** * [path/filepath] on Unix: [Clean] and [Join]

    [Clean] is the lexical normalisation the package documents: repeated
    slashes and [.] elements are dropped, an inner [..] removes the element
    before it, and a [..] at the start of a rooted path is dropped. *)
From Stdlib Require Import Ascii ZArith Lia.
From stdpp Require Import prelude strings gmap list.
From S2P Require Import Prelude GoStrings ProjectPath.
Open Scope go_scope.

Abbreviation SEP := ("/"%char).

(** One element of the path; [out] is the result so far, last element
    first. *)
Definition clean_step (rooted : bool) (out : list gostr) (seg : gostr) : list gostr :=
  if bool_decide (seg = []) || bool_decide (seg = ".") then out
  else if bool_decide (seg = "..") then
    match out with
    | [] => if rooted then [] else [seg]
    | top :: out' => if bool_decide (top = "..") then seg :: out else out'
    end
  else seg :: out.

Definition clean_segs (rooted : bool) (segs : list gostr) : list gostr :=
  reverse (foldl (clean_step rooted) [] segs).

Definition rooted (p : gostr) : bool := HasPrefix p "/".

(** The elements of the cleaned path. *)
Definition path_elems (p : gostr) : list gostr := clean_segs (rooted p) (SplitByte p SEP).

(** [filepath.Clean]. *)
Definition Clean (p : gostr) : gostr :=
  if bool_decide (p = []) then "."
  else if rooted p then "/" ++ JoinWith (path_elems p) "/"
  else match path_elems p with
       | [] => "."
       | segs => JoinWith segs "/"
       end.

(** [filepath.Join(root, rel)]: empty elements are ignored. *)
Definition PathJoin (root rel : gostr) : gostr :=
  match filter (λ e, e ≠ []) [root; rel] with
  | [] => []
  | l => Clean (JoinWith l "/")
  end.

(** ** Lemmas *)

Lemma clean_step_proper r out seg : proper_segment seg → clean_step r out seg = seg :: out.
Proof.
  intros (? & ? & ?). unfold clean_step.
  by rewrite !bool_decide_eq_false_2.
Qed.

Lemma clean_step_empty r out : clean_step r out [] = out.
Proof. done. Qed.

(** Proper segments are pushed as they are. *)
Lemma foldl_clean_proper r out segs :
  Forall proper_segment segs → foldl (clean_step r) out segs = reverse segs ++ out.
Proof.
  intros H. revert out. induction H as [|s segs Hs _ IH]; intros out; [done|].
  cbn [foldl]. rewrite clean_step_proper, IH by done.
  by rewrite reverse_cons, <-app_assoc.
Qed.

(** The result of cleaning: a block of [..] (none when rooted), then
    proper segments. *)
Definition clean_form (r : bool) (out : list gostr) : Prop :=
  ∃ n segs, out = segs ++ replicate n ".." ∧ Forall proper_segment segs ∧ (r = true → n = 0).

Lemma clean_step_form r out seg : clean_form r out → clean_form r (clean_step r out seg).
Proof.
  intros (n & segs & -> & Hs & Hn). unfold clean_step.
  case_bool_decide; [by exists n, segs|]. cbn.
  case_bool_decide; [by exists n, segs|].
  case_bool_decide as Hdd; [subst seg|].
  - destruct segs as [|top segs]; cbn.
    + destruct n as [|n]; cbn.
      * destruct r; [by exists 0, []|by exists 1, []].
      * rewrite bool_decide_eq_true_2 by done.
        exists (S (S n)), []. split; [done|]. split; [done|]. intros Hr.
        specialize (Hn Hr). lia.
    + apply Forall_cons in Hs as [(? & ? & ?) Hs].
      rewrite bool_decide_eq_false_2 by done. by exists n, segs.
  - exists n, (seg :: segs). split; [done|]. split; [|done]. by constructor.
Qed.

Lemma foldl_clean_form r out segs : clean_form r out → clean_form r (foldl (clean_step r) out segs).
Proof.
  revert out. induction segs as [|s segs IH]; intros out H; [done|].
  cbn. apply IH. by apply clean_step_form.
Qed.

Lemma clean_form_nil r : clean_form r [].
Proof. by exists 0, []. Qed.

(** Cleaning elements that are already clean changes nothing. *)
Lemma foldl_clean_dots n m :
  foldl (clean_step false) (replicate m "..") (replicate n "..") = replicate (n + m) "..".
Proof.
  revert m. induction n as [|n IH]; intros m; [done|]. cbn [replicate foldl].
  replace (clean_step false (replicate m "..") "..") with (replicate (S m) ".." : list gostr).
  - rewrite IH. by rewrite Nat.add_succ_r.
  - by destruct m.
Qed.

Lemma clean_segs_idem r segs : clean_segs r (clean_segs r segs) = clean_segs r segs.
Proof.
  unfold clean_segs at 2 3.
  destruct (foldl_clean_form r [] segs (clean_form_nil r)) as (n & k & -> & Hk & Hn).
  rewrite reverse_app, reverse_replicate. unfold clean_segs. rewrite foldl_app.
  destruct r.
  - rewrite (Hn eq_refl). cbn. rewrite foldl_clean_proper by by apply Forall_reverse.
    by rewrite app_nil_r, reverse_involutive.
  - pose proof (foldl_clean_dots n 0) as Hd. cbn [replicate] in Hd.
    rewrite Hd, Nat.add_0_r.
    rewrite foldl_clean_proper by by apply Forall_reverse.
    by rewrite reverse_app, reverse_replicate, !reverse_involutive.
Qed.

Lemma clean_step_sub r out seg x : x ∈ clean_step r out seg → x ∈ seg :: out.
Proof.
  unfold clean_step. intros Hx.
  destruct (_ || _); [by apply elem_of_cons; right|].
  case_bool_decide; [|done].
  destruct out as [|top out]; [destruct r|case_bool_decide];
    rewrite ?elem_of_cons in *; tauto.
Qed.

(** The elements of a cleaned path are among the original segments. *)
Lemma clean_segs_sub r segs x : x ∈ clean_segs r segs → x ∈ segs.
Proof.
  unfold clean_segs. rewrite elem_of_reverse.
  assert (∀ out, x ∈ foldl (clean_step r) out segs → x ∈ segs ∨ x ∈ out) as H.
  { induction segs as [|s segs IH]; intros out; cbn; [by right|].
    intros [H|H%clean_step_sub]%IH; rewrite elem_of_cons in *; tauto. }
  intros [?|?%elem_of_nil]%H; done.
Qed.

Lemma path_elems_no_sep p : Forall (λ x, SEP ∉ x) (path_elems p).
Proof.
  apply Forall_forall. intros x Hx%clean_segs_sub.
  pose proof (SplitByte_no_sep p SEP) as H. rewrite Forall_forall in H. auto.
Qed.

Lemma path_elems_nonempty p : Forall (λ x, x ≠ []) (path_elems p).
Proof.
  unfold path_elems, clean_segs.
  destruct (foldl_clean_form (rooted p) [] (SplitByte p SEP) (clean_form_nil _))
    as (n & k & -> & Hk & _).
  apply Forall_reverse, Forall_app. split.
  - eapply Forall_impl; [done|]. by intros x (? & ? & ?).
  - apply Forall_replicate. done.
Qed.

Lemma rooted_cons c p : rooted (c :: p) = bool_decide (SEP = c).
Proof. unfold rooted. cbn. by rewrite andb_true_r. Qed.

Lemma path_elems_rooted t : path_elems (SEP :: t) = clean_segs true (SplitByte t SEP).
Proof.
  unfold path_elems. rewrite rooted_cons. rewrite bool_decide_eq_true_2 by done. done.
Qed.

Lemma path_elems_join l :
  l ≠ [] → Forall (λ x, SEP ∉ x) l →
  path_elems (SEP :: JoinWith l "/") = clean_segs true l.
Proof. intros Hl Hs. rewrite path_elems_rooted. by rewrite Split_Join. Qed.

(** An absolute path is determined by its elements. *)
Lemma Clean_rooted t : Clean (SEP :: t) = SEP :: JoinWith (path_elems (SEP :: t)) "/".
Proof. unfold Clean. rewrite bool_decide_eq_false_2 by done. done. Qed.

Lemma path_elems_Clean_rooted t : path_elems (Clean (SEP :: t)) = path_elems (SEP :: t).
Proof.
  rewrite Clean_rooted.
  destruct (path_elems (SEP :: t)) as [|x l] eqn:E; [done|]. rewrite <-E.
  rewrite path_elems_join; [|by rewrite E|apply path_elems_no_sep].
  rewrite path_elems_rooted. apply clean_segs_idem.
Qed.

Lemma PathJoin_rooted t rel :
  rel ≠ [] → PathJoin (SEP :: t) rel = Clean ((SEP :: t) ++ SEP :: rel).
Proof. intros H. unfold PathJoin. rewrite !filter_cons_True by done. done. Qed.

(** Joining proper segments below an absolute root appends them. *)
Lemma path_elems_app_proper t rel :
  Forall proper_segment (SplitByte rel SEP) →
  path_elems ((SEP :: t) ++ SEP :: rel) = path_elems (SEP :: t) ++ SplitByte rel SEP.
Proof.
  intros H. cbn [app]. rewrite !path_elems_rooted.
  assert (SplitByte (t ++ SEP :: rel) SEP = SplitByte t SEP ++ SplitByte rel SEP) as ->.
  { rewrite <-(Join_Split t SEP) at 1. rewrite <-(Join_Split rel SEP) at 1.
    change (SEP :: JoinWith (SplitByte rel SEP) [SEP]) with ([SEP] ++ JoinWith (SplitByte rel SEP) [SEP]).
    rewrite <-Join_app by apply SplitByte_nonempty.
    apply Split_Join.
    - intros [Hn _]%app_eq_nil. by apply SplitByte_nonempty in Hn.
    - apply Forall_app. split; apply SplitByte_no_sep. }
  unfold clean_segs. rewrite foldl_app, foldl_clean_proper by done.
  by rewrite reverse_app, reverse_involutive.
Qed.

(** The text of an absolute path with one more block of elements. *)
Lemma JoinWith_prefix l k :
  l ≠ [] → k ≠ [] →
  HasPrefix (SEP :: JoinWith (l ++ k) "/") (SEP :: JoinWith l "/" ++ "/") = true.
Proof.
  intros Hl Hk. rewrite Join_app by done. apply HasPrefix_true.
  exists (JoinWith k "/"). cbn. by rewrite <-app_assoc.
Qed.

Lemma JoinWith_inj l k :
  Forall (λ x, (SEP ∉ x) ∧ x ≠ []) l → Forall (λ x, (SEP ∉ x) ∧ x ≠ []) k →
  JoinWith l "/" = JoinWith k "/" → l = k.
Proof.
  intros Hl Hk H.
  assert (∀ l : list gostr, Forall (λ x, (SEP ∉ x) ∧ x ≠ []) l → l ≠ [] → JoinWith l "/" ≠ []) as Hne.
  { intros m Hm. destruct m as [|x m]; [done|]. intros _.
    apply Forall_cons in Hm as [[_ Hx] _]. destruct x; [done|]. by destruct m. }
  destruct (decide (l = [])) as [->|Hl0].
  { destruct (decide (k = [])) as [->|Hk0]; [done|]. by apply Hne in Hk. }
  destruct (decide (k = [])) as [->|Hk0]; [by apply Hne in Hl|].
  rewrite <-(Split_Join l SEP), <-(Split_Join k SEP); [by f_equal|done| |done|];
    (eapply Forall_impl; [done|]); by intros x [].
Qed.

(** Appending text without a separator extends the last segment. *)
Lemma SplitByte_extend s c : ∃ l x, SplitByte s c = l ++ [x] ∧
  ∀ t, c ∉ t → SplitByte (s ++ t) c = l ++ [x ++ t].
Proof.
  induction s as [|b s (l & x & IH & IHt)].
  { exists [], []. split; [done|]. intros t Ht. by rewrite SplitByte_single. }
  cbn [SplitByte app]. case_bool_decide.
  - exists ([] :: l), x. rewrite IH. split; [done|]. intros t Ht. by rewrite IHt.
  - rewrite IH. destruct l as [|y l].
    + exists [], (b :: x). split; [done|]. intros t Ht. by rewrite IHt.
    + exists ((b :: y) :: l), x. split; [done|]. intros t Ht. by rewrite IHt.
Qed.

(** What lies textually below a cleaned root has the root's elements. *)
Lemma below_root_elems t u :
  HasPrefix (Clean (SEP :: u)) (Clean (SEP :: t) ++ "/") = true →
  path_elems (SEP :: t) `prefix_of` path_elems (SEP :: u).
Proof.
  rewrite !Clean_rooted. intros [w Hw]%HasPrefix_true. injection Hw as Hw.
  rewrite <- app_assoc in Hw. cbn [app] in Hw.
  pose proof (path_elems_no_sep (SEP :: t)) as Ht. pose proof (path_elems_no_sep (SEP :: u)) as Hu.
  destruct (path_elems (SEP :: t)) as [|x l] eqn:Et; [apply prefix_nil|].
  destruct (path_elems (SEP :: u)) as [|y k] eqn:Eu.
  { cbn [JoinWith] in Hw. symmetry in Hw. by apply app_eq_nil in Hw as [_ ?]. }
  exists (SplitByte w SEP). rewrite <- (Split_Join (y :: k) SEP) by done. rewrite Hw.
  rewrite <- (Join_Split w SEP) at 1.
  change (SEP :: JoinWith (SplitByte w SEP) [SEP]) with ([SEP] ++ JoinWith (SplitByte w SEP) [SEP]).
  rewrite <- Join_app by (done || apply SplitByte_nonempty).
  rewrite Split_Join; [done|done|]. apply Forall_app. split; [done|apply SplitByte_no_sep].
Qed.
