(* ===== verification/SshExec.v ===== *)
(** * internal/sshexec: endpoints and SSH command lines *)
From Stdlib Require Import Ascii ZArith Lia.
From stdpp Require Import prelude strings gmap list.
From S2P Require Import Prelude World GoStrings Utf8 ShellQuote.
Open Scope go_scope.

(** ** The code *)

Record Endpoint := mkEndpoint { User : gostr; Host : gostr; Port : gostr }.

Global Instance Endpoint_eq_dec : EqDecision Endpoint.
Proof. solve_decision. Defined.

(** The classes of [validHostRe] and [validUserRe]. *)
Definition host_byte (c : ascii) : bool := is_alnum c || in_set "._:%-" c.
Definition user_byte (c : ascii) : bool := is_alnum c || in_set "._-" c.

(** [validHostRe.MatchString], [validUserRe.MatchString]: [^[...]+$]. *)
Definition validHostRe (s : gostr) : bool := bool_decide (s ≠ []) && forallb host_byte s.
Definition validUserRe (s : gostr) : bool := bool_decide (s ≠ []) && forallb user_byte s.

Definition validatePort (p : gostr) : res gostr :=
  match Atoi p with
  | None => Err (Errorf [FS "port "; FQ p; FS " is not a number"])
  | Some n =>
      if ((n <? 1) || (65535 <? n))%Z
      then Err (Errorf [FS "port "; FZ n; FS " out of range 1-65535"])
      else Ok p
  end.

Definition splitHostPort (s : gostr) : res (gostr * gostr) :=
  if HasPrefix s "[" then
    match Index s "]" with
    | None => Err (Errorf [FS "unterminated IPv6 literal"])
    | Some e =>
        let host := drop 1 (take e s) in
        let rest := drop (S e) s in
        if bool_decide (rest = []) then Ok (host, [])
        else if HasPrefix rest ":" then
          port ← validatePort (drop 1 rest); Ok (host, port)
        else Err (Errorf [FS "unexpected "; FQ rest; FS " after IPv6 literal"])
    end
  else
    match CountByte s ":"%char with
    | 0 => Ok (s, [])
    | 1 =>
        let i := default 0 (Index s ":") in
        port ← validatePort (drop (S i) s); Ok (take i s, port)
    | _ => Ok (s, [])
    end.

(** The user part: what precedes the last [@]. *)
Definition split_user (s : gostr) : option gostr * gostr :=
  match LastIndex s "@" with
  | Some i => (Some (take i s), drop (S i) s)
  | None => (None, s)
  end.

Definition ParseEndpoint (raw : gostr) : res Endpoint :=
  let s := TrimSpace raw in
  if bool_decide (s = []) then Err (Errorf [FS "ssh_host is empty"])
  else if ContainsAny s [SPC; TAB; LF; CR; "/"%char; NUL] then
    Err (Errorf [FS "ssh_host "; FQ raw; FS " contains invalid characters"])
  else
    let '(u, s) := split_user s in
    if bool_decide (u = Some []) then
      Err (Errorf [FS "ssh_host "; FQ raw; FS " has an empty user"])
    else
      let user := default [] u in
      match splitHostPort s with
      | Err err => Err (Errorf [FS "ssh_host "; FQ raw; FS ": "; FW err])
      | Ok (host, port) =>
          if bool_decide (host = []) then
            Err (Errorf [FS "ssh_host "; FQ raw; FS " has an empty host"])
          else if HasPrefix host "-" then
            Err (Errorf [FS "ssh_host "; FQ raw; FS ": host must not begin with '-' (ssh would read it as an option)"])
          else if HasPrefix user "-" then
            Err (Errorf [FS "ssh_host "; FQ raw; FS ": user must not begin with '-' (ssh would read it as an option)"])
          else if negb (validHostRe host) then
            Err (Errorf [FS "ssh_host "; FQ raw; FS ": host contains characters that are not valid in a hostname or address"])
          else if bool_decide (user ≠ []) && negb (validUserRe user) then
            Err (Errorf [FS "ssh_host "; FQ raw; FS ": user contains characters that are not valid in a login name"])
          else Ok (mkEndpoint user host port)
      end.

Definition Destination (e : Endpoint) : gostr :=
  if bool_decide (User e ≠ []) then User e ++ "@" ++ Host e else Host e.

Definition GitURL (e : Endpoint) (path : gostr) : gostr :=
  let host := if Contains (Host e) ":" then "[" ++ Host e ++ "]" else Host e in
  let host := if bool_decide (Port e ≠ []) then host ++ ":" ++ Port e else host in
  let host := if bool_decide (User e ≠ []) then User e ++ "@" ++ host else host in
  "ssh://" ++ host ++ "/" ++ TrimPrefix path "/".

(** [sshexec.Config]. *)
Record SshConfig := mkSshConfig { KnownHostsFile : gostr; StrictHostKeyChecking : gostr }.

Definition EffectiveStrictHostKeyChecking (c : SshConfig) : gostr :=
  if bool_decide (StrictHostKeyChecking c ≠ []) then StrictHostKeyChecking c
  else if bool_decide (KnownHostsFile c ≠ []) then "yes"
  else "accept-new".

Definition ExtraArgs (c : SshConfig) : list gostr :=
  ["-o"; "StrictHostKeyChecking=" ++ EffectiveStrictHostKeyChecking c] ++
  (if bool_decide (KnownHostsFile c ≠ [])
   then ["-o"; "UserKnownHostsFile=" ++ KnownHostsFile c] else []).

Definition argsFor (c : SshConfig) (ep : Endpoint) : list gostr :=
  ExtraArgs c ++ (if bool_decide (Port ep ≠ []) then ["-p"; Port ep] else []).

(** The argument vector [Command] runs [ssh] with. *)
Definition Command (c : SshConfig) (host remoteCmd : gostr) : res (list gostr) :=
  ep ← ParseEndpoint host;
  Ok (argsFor c ep ++ [Destination ep; remoteCmd]).

Definition SSHString (c : SshConfig) (host : gostr) : res gostr :=
  ep ← ParseEndpoint host;
  Ok ("ssh " ++ JoinWith (argsFor c ep) [SPC]).

(** [sshexec.Default]. *)
Definition Default : SshConfig := mkSshConfig [] [].

(** [CheckHost]: [None] is the nil error. *)
Definition CheckHost (host : gostr) : option error :=
  if bool_decide (host = []) then Some (Errorf [FS "ssh_host not configured"])
  else match ParseEndpoint host with Err e => Some e | Ok _ => None end.

Section exec.
Context (E : Env).

Definition CombinedOutput (c : SshConfig) (host remoteCmd : gostr) : IO (gostr * option error) :=
  match Command c host remoteCmd with
  | Err e => mret ([], Some e)
  | Ok args => io_exec E "ssh" args [] None
  end.

Definition CombinedOutputStdin (c : SshConfig) (host remoteCmd stdin : gostr)
    : IO (gostr * option error) :=
  match Command c host remoteCmd with
  | Err e => mret ([], Some e)
  | Ok args => io_exec E "ssh" args [] (Some stdin)
  end.
End exec.

(** [Runner]: the interface through which the other packages run a remote
    command; it is implemented by [SshConfig] (and by the mocks of the
    tests), so clients are written against the class. *)
Class Runner (R : Type) := run_remote : Env → R → gostr → gostr → IO (gostr * option error).

#[export] Instance SshConfig_Runner : Runner SshConfig := CombinedOutput.

(** What clients may assume of a runner: it only adds events. *)
Class RunnerOk (R : Type) `{Runner R} : Prop :=
  runner_extends E r h c :: Extends (run_remote E r h c).

#[export] Instance SshConfig_RunnerOk : RunnerOk SshConfig.
Proof.
  intros E r h c. unfold run_remote, SshConfig_Runner, CombinedOutput.
  destruct (Command r h c); apply _.
Qed.

#[export] Instance CombinedOutput_extends E c h r : Extends (CombinedOutput E c h r).
Proof. apply SshConfig_RunnerOk. Qed.

#[export] Instance CombinedOutputStdin_extends E c h r i : Extends (CombinedOutputStdin E c h r i).
Proof. unfold CombinedOutputStdin. destruct (Command c h r); apply _. Qed.

(** The event of running a remote command, when the host is acceptable. *)
Definition ssh_event (c : SshConfig) (host cmd : gostr) (stdin : option gostr) : list event :=
  match Command c host cmd with
  | Ok args => [EvExec "ssh" args [] stdin]
  | Err _ => []
  end.

(** The remote command of an ssh event. *)
Definition remote_cmd (e : event) : option gostr :=
  match e with EvExec name args _ _ => if bool_decide (name = "ssh") then last args else None | _ => None end.

(** ** The specification *)

Definition valid_port (p : gostr) : Prop := p = [] ∨ ∃ n, Atoi p = Some n ∧ (1 ≤ n ≤ 65535)%Z.

(** What the rest of the program may rely on about a parsed endpoint. *)
Record wf_endpoint (e : Endpoint) : Prop := {
  wf_host : Host e ≠ [];
  wf_host_bytes : Forall (λ c, host_byte c = true) (Host e);
  wf_host_dash : HasPrefix (Host e) "-" = false;
  wf_user_bytes : Forall (λ c, user_byte c = true) (User e);
  wf_user_dash : HasPrefix (User e) "-" = false;
  wf_port : valid_port (Port e);
}.

(** The canonical [user@host:port] text of an endpoint: a host that
    contains a colon (an IPv6 literal) is bracketed. *)
Definition render_endpoint (e : Endpoint) : gostr :=
  (if bool_decide (User e ≠ []) then User e ++ "@" else []) ++
  (if Contains (Host e) ":" then "[" ++ Host e ++ "]" else Host e) ++
  (if bool_decide (Port e ≠ []) then ":" ++ Port e else []).

(** The grammar of the part after the user: a host, bare or in brackets,
    and possibly a port.  A bare text with one colon is a host and a port,
    with several it is an address. *)
Inductive hostport_text (host port : gostr) : gostr → Prop :=
  | hp_bare : port = [] → CountByte host ":"%char ≠ 1 → hostport_text host port host
  | hp_port : port ≠ [] → ":"%char ∉ host → hostport_text host port (host ++ ":" ++ port)
  | hp_bracket : port = [] → hostport_text host port ("[" ++ host ++ "]")
  | hp_bracket_port : port ≠ [] → hostport_text host port ("[" ++ host ++ "]" ++ ":" ++ port).

(** [text] is a spelling of [ep]. *)
Definition spells (ep : Endpoint) (text : gostr) : Prop :=
  ∃ t, hostport_text (Host ep) (Port ep) t ∧
       text = (if bool_decide (User ep ≠ []) then User ep ++ "@" else []) ++ t.

(** ** Lemmas *)

Lemma validatePort_Ok p q : validatePort p = Ok q → q = p ∧ p ≠ [] ∧ valid_port p.
Proof.
  unfold validatePort. destruct (Atoi p) as [n|] eqn:E; [|done].
  destruct (_ || _) eqn:Hr; [done|]. intros [= <-]. reflect_bools.
  pose proof (Atoi_bytes p n E) as (? & _ & _).
  split; [done|]. split; [done|]. right. exists n. split; [done|lia].
Qed.

Lemma validatePort_valid p n : Atoi p = Some n → (1 ≤ n ≤ 65535)%Z → validatePort p = Ok p.
Proof.
  intros H Hn. unfold validatePort. rewrite H.
  replace ((n <? 1) || (65535 <? n))%Z with false; [done|].
  symmetry. rewrite orb_false_iff, !Z.ltb_ge. lia.
Qed.

Lemma valid_port_bytes p : valid_port p → Forall (λ c, number_byte c = true) p.
Proof. intros [->|(n & H & _)]; [constructor|]. by apply Atoi_bytes in H as (_ & ? & _). Qed.

Lemma splitHostPort_port s host port :
  splitHostPort s = Ok (host, port) → valid_port port.
Proof.
  unfold splitHostPort. intros H.
  assert (∀ p (h : gostr), (port ← validatePort p; Ok (h, port)) = Ok (host, port) → valid_port port) as Hp.
  { intros p h. destruct (validatePort p) as [q|] eqn:E; [|done].
    cbn. intros [= _ <-]. by apply validatePort_Ok in E as (-> & _ & ?). }
  repeat case_next_in H; try done; try (by apply Hp in H); simplify_eq; by left.
Qed.

Lemma ParseEndpoint_wf raw ep : ParseEndpoint raw = Ok ep → wf_endpoint ep.
Proof.
  unfold ParseEndpoint, validHostRe, validUserRe. intros H.
  case_bool_decide; [done|]. destruct (ContainsAny _ _); [done|].
  destruct (split_user _) as [u s]. case_bool_decide; [done|].
  destruct (splitHostPort s) as [[host port]|] eqn:Hp; [|done].
  case_bool_decide as Hh; [done|].
  destruct (HasPrefix host "-") eqn:Hd; [done|].
  destruct (HasPrefix (default [] u) "-") eqn:Hu; [done|].
  rewrite (bool_decide_eq_true_2 (host ≠ [])) in H by done. cbn in H.
  destruct (forallb host_byte host) eqn:Hb; [|done]. cbn in H.
  destruct (bool_decide (default [] u ≠ []) && _) eqn:Hub; [done|].
  injection H as <-. split; cbn; try done.
  - by apply forallb_Forall.
  - apply forallb_Forall. case_bool_decide as Hn; cbn in Hub; reflect_bools; [done|].
    by rewrite Hn.
  - by apply splitHostPort_port in Hp.
Qed.

(** *** The canonical text *)

Definition endpoint_byte (c : ascii) : bool := host_byte c || in_set "@[]+" c.

(** A text over the endpoint alphabet passes the first checks. *)
Lemma endpoint_text_trim s : Forall (λ c, endpoint_byte c = true) s → TrimSpace s = s.
Proof. intros H. apply TrimSpace_id. revert H. apply Forall_byte_impl. byte_cases. Qed.

Lemma endpoint_text_allowed s :
  Forall (λ c, endpoint_byte c = true) s → ContainsAny s [SPC; TAB; LF; CR; "/"%char; NUL] = false.
Proof.
  intros Hs. apply ContainsAny_false. eapply Forall_impl; [exact Hs|].
  intros c Hc. apply (bool_decide_eq_false_1 _).
  revert c Hc. enough (∀ c, endpoint_byte c = true →
    negb (in_set [SPC; TAB; LF; CR; "/"%char; NUL] c) = true) as H.
  { intros c Hc%H. by apply negb_true_iff in Hc. }
  byte_cases.
Qed.

Lemma host_endpoint h : Forall (λ c, host_byte c = true) h → Forall (λ c, endpoint_byte c = true) h.
Proof. apply Forall_byte_impl. byte_cases. Qed.

Lemma port_endpoint p : valid_port p → Forall (λ c, endpoint_byte c = true) p.
Proof. intros H%valid_port_bytes. revert H. apply Forall_byte_impl. byte_cases. Qed.

Lemma user_endpoint u : Forall (λ c, user_byte c = true) u → Forall (λ c, endpoint_byte c = true) u.
Proof. apply Forall_byte_impl. byte_cases. Qed.

(** *** Host and port *)

Section hostport.
Context (host port : gostr) (Hne : host ≠ []) (Hh : Forall (λ c, host_byte c = true) host) (Hp : valid_port port).

Lemma hostport_bytes t : hostport_text host port t → Forall (λ c, endpoint_byte c = true) t ∧ "@"%char ∉ t ∧ t ≠ [].
Proof using Hne Hh Hp.
  pose proof (host_endpoint _ Hh). pose proof (port_endpoint _ Hp).
  pose proof (Forall_byte_notin host_byte _ "@"%char eq_refl Hh).
  pose proof (Forall_byte_notin number_byte _ "@"%char eq_refl (valid_port_bytes _ Hp)).
  destruct 1; (split; [rewrite ?Forall_app; split_and?; try done; by repeat constructor|]);
    (split; [rewrite ?elem_of_app, ?elem_of_cons, ?elem_of_nil; naive_solver|]); try done; by destruct host.
Qed.

Lemma validatePort_self : port ≠ [] → validatePort port = Ok port.
Proof using Hp. intros Hn. destruct Hp as [->|(n & Ha & Hr)]; [done|]. by apply (validatePort_valid port n). Qed.

(** A bracketed host is what stands before the first closing bracket. *)
Lemma splitHostPort_bracket rest : splitHostPort ("[" ++ host ++ "]" ++ rest) =
  if bool_decide (rest = []) then Ok (host, [])
  else if HasPrefix rest ":" then p ← validatePort (drop 1 rest); Ok (host, p)
  else Err (Errorf [FS "unexpected "; FQ rest; FS " after IPv6 literal"]).
Proof using Hh.
  pose proof (Forall_byte_notin host_byte host "]"%char eq_refl Hh) as Hnb.
  unfold splitHostPort. cbn [app HasPrefix]. rewrite bool_decide_eq_true_2 by done. cbn [andb].
  change ("["%char :: host ++ "]"%char :: ?t) with (("["%char :: host) ++ "]"%char :: t).
  rewrite Index_byte_app by (apply not_elem_of_cons; done).
  rewrite take_app_length, drop_app_ge by (cbn; lia). cbn [length drop].
  by replace (S (S (length host)) - S (length host)) with 1 by lia.
Qed.

(** Without a bracket the colons decide. *)
Lemma splitHostPort_plain t : head t ≠ Some "["%char → splitHostPort t =
  match CountByte t ":"%char with
  | 1 => p ← validatePort (drop (S (default 0 (Index t ":"))) t); Ok (take (default 0 (Index t ":")) t, p)
  | _ => Ok (t, [])
  end.
Proof.
  intros Ht. unfold splitHostPort. assert (HasPrefix t "[" = false) as ->; [|by destruct (CountByte _ _) as [|[|]]].
  apply not_true_iff_false. by rewrite HasPrefix_cons.
Qed.

Lemma host_head t : head (host ++ t) ≠ Some "["%char.
Proof using Hne Hh.
  pose proof (Forall_byte_notin host_byte host "["%char eq_refl Hh) as Hno.
  destruct host as [|c h]; [done|]. cbn. intros [= ->]. apply Hno. left.
Qed.

(** The last case of the grammar reads back as the host and the port. *)
Lemma splitHostPort_text t : hostport_text host port t → splitHostPort t = Ok (host, port).
Proof using Hne Hh Hp.
  pose proof (Forall_byte_notin number_byte port ":"%char eq_refl (valid_port_bytes _ Hp)) as Hpc.
  destruct 1 as [-> Hc|Hn Hc| -> |Hn].
  - rewrite splitHostPort_plain by (rewrite <- (app_nil_r host); apply host_head).
    by destruct (CountByte host _) as [|[|]].
  - rewrite splitHostPort_plain by apply host_head. cbn [app].
    rewrite CountByte_app, CountByte_cons_eq, (proj2 (CountByte_0 _ _) Hc), (proj2 (CountByte_0 _ _) Hpc).
    rewrite Index_byte_app by done. cbn [default from_option id plus].
    rewrite take_app_length, drop_app_ge by lia.
    replace (S (length host) - length host) with 1 by lia. cbn [drop]. by rewrite drop_0, validatePort_self.
  - rewrite <- (app_nil_r "]"). by rewrite splitHostPort_bracket.
  - rewrite splitHostPort_bracket, bool_decide_eq_false_2 by done. cbn [app HasPrefix].
    rewrite bool_decide_eq_true_2 by done. cbn. by rewrite drop_0, validatePort_self.
Qed.
End hostport.

(** Whatever [splitHostPort] returns, the text is a spelling of it. *)
Lemma splitHostPort_spelled s host port : splitHostPort s = Ok (host, port) → hostport_text host port s.
Proof.
  unfold splitHostPort. intros H. destruct (HasPrefix s "[") eqn:Hb.
  - apply HasPrefix_true in Hb as [s' ->]. destruct (Index _ "]") as [e|] eqn:He; [|done].
    apply Index_byte_Some in He as [Hs _]. destruct e as [|e]; [done|]. injection Hs as Hs. cbn [drop take app] in H.
    set (rest := drop (S e) s') in *. rewrite drop_0 in H. rewrite Hs. destruct (bool_decide (rest = [])) eqn:Hr.
    + injection H as <- <-. apply bool_decide_eq_true in Hr. rewrite Hr. by apply hp_bracket.
    + destruct (HasPrefix rest ":") eqn:Hc; [|done]. apply HasPrefix_true in Hc as [p Hp]. rewrite Hp in H |- *.
      cbn [drop app] in H. rewrite drop_0 in H. destruct (validatePort p) as [q|] eqn:Hv; [|done]. injection H as <- <-.
      apply validatePort_Ok in Hv as (-> & Hn & _). by apply (hp_bracket_port _ _ Hn).
  - destruct (CountByte s ":"%char) as [|[|n]] eqn:Hc; [injection H as <- <-; apply hp_bare; [done|lia]| |
      injection H as <- <-; apply hp_bare; [done|lia]].
    destruct (Index s ":") as [i|] eqn:Hi.
    2:{ apply Index_byte_None, CountByte_0 in Hi. lia. }
    cbn [default from_option id] in H. destruct (validatePort (drop (S i) s)) as [q|] eqn:Hv; [|done].
    injection H as <- <-. apply validatePort_Ok in Hv as (-> & Hn & _).
    apply Index_byte_Some in Hi as [Hs Hno]. rewrite Hs at 3. by apply (hp_port _ _ Hn).
Qed.

(** *** Endpoints *)

Lemma spells_bytes e text : wf_endpoint e → spells e text →
  Forall (λ c, endpoint_byte c = true) text ∧ text ≠ [].
Proof.
  intros [Hne Hh _ Hu _ Hp] (t & Ht & ->). apply hostport_bytes in Ht as (Hb & _ & Hn); [|done..].
  split; [|by intros [_ ?]%app_eq_nil]. apply Forall_app. split; [|done].
  case_bool_decide; [|constructor]. apply Forall_app. split; [by apply user_endpoint|by repeat constructor].
Qed.

Lemma spells_trim e text : wf_endpoint e → spells e text → TrimSpace text = text.
Proof. intros Hw Hs. by eapply endpoint_text_trim, spells_bytes. Qed.

Lemma spells_user e text : wf_endpoint e → spells e text →
  ∃ t, hostport_text (Host e) (Port e) t ∧
    split_user text = ((if bool_decide (User e ≠ []) then Some (User e) else None), t).
Proof.
  intros [Hne Hh _ Hu _ Hp] (t & Ht & ->). exists t. split; [done|].
  apply hostport_bytes in Ht as (_ & Hat & _); [|done..]. unfold split_user. case_bool_decide.
  - rewrite <-app_assoc. cbn [app]. rewrite LastIndex_byte_app by done.
    rewrite take_app_length. do 2 f_equal.
    rewrite drop_app_ge by lia. by replace (S (length (User e)) - length (User e)) with 1 by lia.
  - cbn [app]. by rewrite (proj2 (LastIndex_byte_None _ _)).
Qed.

Lemma ParseEndpoint_accepts raw e : wf_endpoint e → spells e (TrimSpace raw) → ParseEndpoint raw = Ok e.
Proof.
  intros He Hs. pose proof He as [Hne Hh Hd Hu Hud Hp]. unfold ParseEndpoint.
  destruct (spells_bytes _ _ He Hs) as [Hb Hnn]. rewrite (bool_decide_eq_false_2 _ Hnn), endpoint_text_allowed by done.
  destruct (spells_user _ _ He Hs) as (t & Ht & ->). rewrite (splitHostPort_text _ _ Hne Hh Hp t Ht).
  assert (default [] (if bool_decide (User e ≠ []) then Some (User e) else None) = User e) as ->.
  { case_bool_decide; cbn; congruence. }
  rewrite !bool_decide_eq_false_2 by (case_bool_decide; congruence || done).
  rewrite Hd, Hud. unfold validHostRe, validUserRe.
  rewrite (bool_decide_eq_true_2 (Host e ≠ [])), (proj2 (forallb_Forall _ _) Hh) by done. cbn.
  rewrite (proj2 (forallb_Forall _ _) Hu), andb_true_r.
  rewrite andb_negb_r, bool_decide_eq_false_2 by done. by destruct e.
Qed.

Lemma ParseEndpoint_spelled raw e : ParseEndpoint raw = Ok e → spells e (TrimSpace raw).
Proof.
  unfold ParseEndpoint. intros H. case_bool_decide; [done|]. destruct (ContainsAny _ _); [done|].
  destruct (split_user _) as [u s] eqn:Hsu. case_bool_decide as Hu; [done|].
  destruct (splitHostPort s) as [[host port]|] eqn:Hp; [|done]. repeat (case_next_in H; try done).
  injection H as <-. exists s. cbn. split; [by apply splitHostPort_spelled|].
  unfold split_user in Hsu. destruct (LastIndex _ _) as [i|] eqn:Hi; injection Hsu as <- <-; cbn; [|done].
  apply LastIndex_byte_Some in Hi as [Hs _]. rewrite bool_decide_eq_true_2 by congruence.
  by rewrite <- app_assoc.
Qed.

Lemma render_spells e : wf_endpoint e → spells e (render_endpoint e).
Proof.
  intros He. pose proof (wf_host e He). unfold render_endpoint. eexists. split; [|reflexivity].
  destruct (Contains (Host e) ":") eqn:Hc.
  - case_bool_decide as Hp; [rewrite <- !app_assoc; by apply hp_bracket_port|].
    rewrite app_nil_r. apply hp_bracket. by destruct (Port e).
  - assert (":"%char ∉ Host e) as Hno by (by rewrite <- Contains_byte, Hc).
    case_bool_decide as Hp; [by apply hp_port|]. rewrite app_nil_r.
    apply hp_bare; [by destruct (Port e)|]. by rewrite (proj2 (CountByte_0 _ _) Hno).
Qed.

Lemma ParseEndpoint_render e : wf_endpoint e → ParseEndpoint (render_endpoint e) = Ok e.
Proof.
  intros He. pose proof (render_spells e He) as Hs. apply ParseEndpoint_accepts; [done|]. by rewrite (spells_trim e).
Qed.

(** *** Command lines *)

Lemma Destination_head e : wf_endpoint e → HasPrefix (Destination e) "-" = false.
Proof.
  intros [Hne _ Hd _ Hud _]. unfold Destination. case_bool_decide as Hu; [|done].
  destruct (User e) as [|c u]; [done|]. done.
Qed.

Lemma Destination_bytes e :
  wf_endpoint e → Forall (λ c, endpoint_byte c = true) (Destination e).
Proof.
  intros [_ Hh _ Hu _ _]. unfold Destination. case_bool_decide.
  - rewrite !Forall_app. split; [|split].
    + revert Hu. apply Forall_byte_impl. byte_cases.
    + by repeat constructor.
    + revert Hh. apply Forall_byte_impl. byte_cases.
  - revert Hh. apply Forall_byte_impl. byte_cases.
Qed.

Definition safe_text (s : gostr) : Prop := Forall (λ c, in_set safeChars c = true) s.

Lemma safe_text_forallb s : safe_text s → forallb (in_set safeChars) s = true.
Proof. intros H. by apply forallb_Forall. Qed.

Lemma safe_text_Quote s : safe_text s → s ≠ [] → Quote s = s.
Proof.
  intros Hs Hn. unfold Quote. rewrite bool_decide_eq_false_2 by done.
  by rewrite isSafe_bytes, safe_text_forallb.
Qed.

Lemma safe_text_app x y : safe_text (x ++ y) ↔ safe_text x ∧ safe_text y.
Proof. apply Forall_app. Qed.

Lemma Effective_safe c :
  safe_text (StrictHostKeyChecking c) → safe_text (EffectiveStrictHostKeyChecking c).
Proof.
  intros H. unfold EffectiveStrictHostKeyChecking. repeat case_bool_decide; [done|..];
    by apply forallb_Forall.
Qed.

Lemma argsFor_safe c ep :
  safe_text (KnownHostsFile c) → safe_text (StrictHostKeyChecking c) → wf_endpoint ep →
  Forall (λ a, safe_text a ∧ a ≠ []) (argsFor c ep).
Proof.
  intros Hk Hs [_ _ _ _ _ Hp%valid_port_bytes]. unfold argsFor, ExtraArgs.
  assert (∀ w : gostr, forallb (in_set safeChars) w && bool_decide (w ≠ []) = true →
            safe_text w ∧ w ≠ []) as Hlit.
  { intros w [H1%forallb_Forall H2%bool_decide_eq_true]%andb_true_iff. done. }
  assert (∀ (w x : gostr), forallb (in_set safeChars) w && bool_decide (w ≠ []) = true →
            safe_text x → safe_text (w ++ x) ∧ w ++ x ≠ []) as Happ.
  { intros w x [H1 H2]%Hlit Hx. split; [by apply safe_text_app|]. by destruct w. }
  rewrite !Forall_app. split; [split|].
  - constructor; [by apply Hlit|]. constructor; [|constructor].
    apply Happ; [done|by apply Effective_safe].
  - case_bool_decide; [|constructor]. constructor; [by apply Hlit|].
    constructor; [by apply Happ|constructor].
  - case_bool_decide; [|constructor]. constructor; [by apply Hlit|].
    constructor; [|constructor]. split; [|done].
    revert Hp. apply Forall_byte_impl. byte_cases.
Qed.

(** A command line of safe, non-empty words is its own quotation. *)
Lemma safe_words_Quote ws :
  Forall (λ a, safe_text a ∧ a ≠ []) ws → Quote <$> ws = ws.
Proof.
  induction 1 as [|w ws [Hw Hn] _ IH]; [done|]. cbn. by rewrite IH, safe_text_Quote.
Qed.

Lemma shell_words_safe ws :
  Forall (λ a, safe_text a ∧ a ≠ []) ws → shell_words (JoinWith ws [SPC]) = Some ws.
Proof.
  intros H. rewrite <-(safe_words_Quote ws H) at 1. apply lex_words_join.
Qed.

Lemma Command_Ok c host cmd args :
  Command c host cmd = Ok args →
  ∃ ep, ParseEndpoint host = Ok ep ∧ wf_endpoint ep ∧
        args = argsFor c ep ++ [Destination ep; cmd].
Proof.
  unfold Command. destruct (ParseEndpoint host) as [ep|] eqn:E; [|done].
  cbn. intros [= <-]. exists ep. eauto using ParseEndpoint_wf.
Qed.

Lemma CheckHost_None host : CheckHost host = None ↔ ∃ ep, ParseEndpoint host = Ok ep.
Proof.
  unfold CheckHost. case_bool_decide as H.
  - subst. split; [done|]. intros [ep Hep]. done.
  - destruct (ParseEndpoint host) as [ep|]; [split; [by eexists|done]|].
    split; [done|by intros []].
Qed.

Lemma CombinedOutput_event E c host cmd h :
  (CombinedOutput E c host cmd h).2 = h ++ ssh_event c host cmd None.
Proof.
  unfold CombinedOutput, ssh_event. destruct (Command c host cmd); [done|]. cbn. by rewrite app_nil_r.
Qed.

Lemma CombinedOutputStdin_event E c host cmd stdin h :
  (CombinedOutputStdin E c host cmd stdin h).2 = h ++ ssh_event c host cmd (Some stdin).
Proof.
  unfold CombinedOutputStdin, ssh_event. destruct (Command c host cmd); [done|].
  cbn. by rewrite app_nil_r.
Qed.

Lemma ssh_event_ok c host cmd stdin : CheckHost host = None →
  ∃ ep, ParseEndpoint host = Ok ep ∧
    ssh_event c host cmd stdin = [EvExec "ssh" (argsFor c ep ++ [Destination ep; cmd]) [] stdin].
Proof.
  intros [ep Hep]%CheckHost_None. exists ep. split; [done|].
  unfold ssh_event, Command. by rewrite Hep.
Qed.

Lemma remote_cmd_event c host cmd stdin e : e ∈ ssh_event c host cmd stdin → remote_cmd e = Some cmd.
Proof.
  unfold ssh_event, Command. destruct (ParseEndpoint host) as [ep|]; [|by intros ?%elem_of_nil].
  unfold mbind, res_bind. intros ->%list_elem_of_singleton. unfold remote_cmd. rewrite bool_decide_eq_true_2 by done.
  change [Destination ep; cmd] with ([Destination ep] ++ [cmd]). by rewrite app_assoc, last_snoc.
Qed.

(** ** Properties *)

(** C20: which texts are endpoints.  [ParseEndpoint] accepts a text exactly
    when, without the blanks around it, it spells a well-formed endpoint in
    the grammar of [spells], and then returns that endpoint: a non-empty host
    over the hostname alphabet, after an optional user over the login
    alphabet and before an optional port between 1 and 65535, neither host
    nor user starting with a hyphen.  A host with a single colon needs
    brackets, and one with colons needs them before a port.  The endpoint a
    text spells is unique, and every well-formed endpoint is spelled by its
    canonical text. *)
Theorem ParseEndpoint_image :
  (∀ raw ep, ParseEndpoint raw = Ok ep ↔ wf_endpoint ep ∧ spells ep (TrimSpace raw)) ∧
  (∀ text ep ep', wf_endpoint ep → wf_endpoint ep' → spells ep text → spells ep' text → ep = ep') ∧
  (∀ ep, wf_endpoint ep → ParseEndpoint (render_endpoint ep) = Ok ep).
Proof.
  split; [|split].
  - intros raw ep. split; [|intros [? ?]; by apply ParseEndpoint_accepts].
    intros H. split; [by eapply ParseEndpoint_wf|by apply ParseEndpoint_spelled].
  - intros text ep ep' Hw Hw' Hs Hs'. pose proof (spells_trim _ _ Hw Hs) as Ht.
    enough (Ok ep = Ok ep') as [= ->] by done.
    rewrite <- (ParseEndpoint_accepts text ep), <- (ParseEndpoint_accepts text ep'); rewrite ?Ht; done.
  - apply ParseEndpoint_render.
Qed.

(** C22: no option injection.  Every command line built for a host ends
    with the destination and the remote command, after options of the
    program's own choosing; the destination never starts with a hyphen,
    so ssh cannot read it as an option, and it contains no blank, quote
    or other byte outside the endpoint alphabet. *)
Theorem Command_no_option_injection (c : SshConfig) (host cmd : gostr) (args : list gostr)
    (Hcmd : Command c host cmd = Ok args) :
  ∃ opts dest,
    args = opts ++ [dest; cmd] ∧
    (∃ ep, opts = argsFor c ep ∧ dest = Destination ep) ∧
    HasPrefix dest "-" = false ∧ dest ≠ [] ∧
    Forall (λ b, endpoint_byte b = true) dest.
Proof.
  apply Command_Ok in Hcmd as (ep & Hp & Hwf & ->).
  exists (argsFor c ep), (Destination ep). split; [done|]. split; [by eexists|].
  split; [by apply Destination_head|]. split; [|by apply Destination_bytes].
  destruct Hwf as [Hne _ _ _ _ _]. unfold Destination.
  case_bool_decide; [|done]. by destruct (User ep).
Qed.

Example Command_no_option_injection_witness :
  let args := ["-o"; "StrictHostKeyChecking=accept-new"; "-p"; "2222";
               "git@gitlab.example.com"; "sudo gitlab-ctl stop"] in
  ∃ opts dest,
    args = opts ++ [dest; "sudo gitlab-ctl stop"] ∧
    (∃ ep, opts = argsFor Default ep ∧ dest = Destination ep) ∧
    HasPrefix dest "-" = false ∧ dest ≠ [] ∧
    Forall (λ b, endpoint_byte b = true) dest.
Proof.
  apply (Command_no_option_injection Default "git@gitlab.example.com:2222").
  vm_compute. reflexivity.
Defined.

(** Host keys are verified as configured.  The checking mode passed to
    ssh is the explicit setting when there is one; otherwise it is [yes]
    exactly when a known_hosts file is pinned (and then that file is the
    one ssh uses), and trust-on-first-use when nothing is configured. *)
Lemma host_key_policy (c : SshConfig) :
  let mode := EffectiveStrictHostKeyChecking c in
  head (drop 1 (ExtraArgs c)) = Some ("StrictHostKeyChecking=" ++ mode) ∧
  (("UserKnownHostsFile=" ++ KnownHostsFile c) ∈ drop 2 (ExtraArgs c) ↔ KnownHostsFile c ≠ []) ∧
  (StrictHostKeyChecking c = [] → (mode = "yes" ↔ KnownHostsFile c ≠ [])) ∧
  (StrictHostKeyChecking c ≠ [] → mode = StrictHostKeyChecking c).
Proof.
  cbn zeta. unfold ExtraArgs, EffectiveStrictHostKeyChecking.
  split; [done|]. split; [|split].
  - cbn. case_bool_decide.
    + split; [done|]. intros _. right. left.
    + split; [by intros ?%elem_of_nil|done].
  - intros ->. rewrite bool_decide_eq_false_2 by auto.
    case_bool_decide; [done|]. split; done.
  - intros H. by rewrite bool_decide_eq_true_2.
Qed.

(** The ssh command string given to rsync and git splits back into
    the program's own argument vector, provided the configured
    known_hosts path and checking mode are made of shell-safe characters:
    the port and every other word always are. *)
Lemma SSHString_words (c : SshConfig) (host s : gostr) (ep : Endpoint)
    (Hep : ParseEndpoint host = Ok ep) (Hs : SSHString c host = Ok s)
    (Hk : Forall (λ b, in_set safeChars b = true) (KnownHostsFile c))
    (Hm : Forall (λ b, in_set safeChars b = true) (StrictHostKeyChecking c)) :
  shell_words s = Some (("ssh" : gostr) :: argsFor c ep).
Proof.
  unfold SSHString in Hs. rewrite Hep in Hs. cbn in Hs. injection Hs as <-.
  pose proof (argsFor_safe c ep Hk Hm (ParseEndpoint_wf _ _ Hep)) as Ha.
  replace ("ssh " ++ JoinWith (argsFor c ep) [SPC]) with
    (JoinWith (("ssh" : gostr) :: argsFor c ep) [SPC]) by (by rewrite JoinWith_cons).
  apply (shell_words_safe (("ssh" : gostr) :: argsFor c ep)).
  constructor; [|done]. split; [by apply forallb_Forall|done].
Qed.

Example SSHString_words_witness :
  shell_words "ssh -o StrictHostKeyChecking=yes -o UserKnownHostsFile=/etc/kh -p 2222" =
  Some ["ssh"; "-o"; "StrictHostKeyChecking=yes"; "-o"; "UserKnownHostsFile=/etc/kh"; "-p"; "2222"].
Proof.
  apply (SSHString_words (mkSshConfig "/etc/kh" []) "h:2222" _ (mkEndpoint [] "h" "2222"));
    [reflexivity|reflexivity| |].
  - apply forallb_Forall. reflexivity.
  - constructor.
Defined.

(** The path itself is not quoted: a known_hosts file whose name contains
    a space is split into two words. *)
Lemma SSHString_unquoted_path :
  ∃ s, SSHString (mkSshConfig "/etc/known hosts" []) "h" = Ok s ∧
  shell_words s =
    Some ["ssh"; "-o"; "StrictHostKeyChecking=yes"; "-o"; "UserKnownHostsFile=/etc/known"; "hosts"].
Proof. by eexists. Qed.
