(* ===== verification/ConfigData.v ===== *)
(** * internal/config: the configuration types

    One record per struct of config.go, and their view as generic values,
    which is what the reflection of [walkSecretFields] and [resolveEnv]
    traverses: a struct is the list of its fields, in declaration order,
    with the name and the struct tags of each. *)
From Stdlib Require Import Ascii ZArith Lia SpecFloat.
From stdpp Require Import prelude strings gmap list.
From S2P Require Import Prelude GoStrings.
Open Scope go_scope.

(** ** The structs *)

Record PostgresConfig := {
  pg_Host : gostr; pg_Port : Z; pg_DB : gostr; pg_User : gostr; pg_Password : gostr;
  pg_ReplicationUser : gostr; pg_ReplicationPassword : gostr;
  pg_SlotName : gostr; pg_SSLMode : gostr; pg_SSLRootCert : gostr;
  pg_SSLCert : gostr; pg_SSLKey : gostr }.

Record GitStorage := { git_Mode : gostr; git_ReposPath : gostr; git_HashedStorage : bool }.

Record S3Config := {
  s3_Region : gostr; s3_PrimaryBucket : gostr; s3_ReplicaBucket : gostr;
  s3_AccessKey : gostr; s3_SecretKey : gostr; s3_Endpoint : gostr; s3_ReplicationLag : Z }.

Record ObjectStoreConfig := {
  os_Backend : gostr; os_S3 : option S3Config; os_FSPaths : list gostr }.

Record RegistryConfig := {
  reg_Mode : gostr; reg_URL : gostr; reg_Token : gostr; reg_AuthRealm : gostr;
  reg_FSPath : gostr; reg_S3 : option S3Config }.

Record SiteConfig := {
  site_Name : gostr; site_ExternalURL : gostr; site_Postgres : PostgresConfig;
  site_Git : GitStorage; site_ObjectStore : ObjectStoreConfig;
  site_Registry : option RegistryConfig; site_SSHHost : gostr }.

(** Durations are nanoseconds; a [float64] is an IEEE binary64 value. *)
Record SyncConfig := {
  sync_SweepInterval : Z; sync_LagWarningThreshold : Z; sync_LagCriticalThreshold : Z;
  sync_FailoverEnabled : bool; sync_ReadOnlySecondary : bool;
  sync_ConsistencySamplePct : spec_float }.

Record MetricsConfig := { met_Addr : gostr }.

Record LogConfig := { log_Level : gostr; log_Format : gostr; log_RedactProjectPaths : bool }.

Record WebhookConfig := {
  wh_Addr : gostr; wh_SecretToken : gostr; wh_TLSCert : gostr; wh_TLSKey : gostr }.

Record APIValidatorConfig := {
  api_Enabled : bool; api_PrimaryToken : gostr; api_SecondaryToken : gostr }.

Record FailoverConfig := {
  fo_HealthCheckURLs : list gostr; fo_HealthCheckInterval : Z; fo_QuorumRequired : Z;
  fo_DNSPlugin : gostr; fo_DNSConfig : list (gostr * gostr);
  fo_AutoFailover : bool; fo_PromoteSecondary : gostr }.

Record SSHConfig := { ssh_KnownHostsFile : gostr; ssh_StrictHostKeyChecking : gostr }.

Record Config := {
  cfg_Primary : SiteConfig; cfg_Secondaries : list SiteConfig; cfg_Sync : SyncConfig;
  cfg_Metrics : MetricsConfig; cfg_Log : LogConfig; cfg_ControlDB : gostr;
  cfg_Webhook : option WebhookConfig; cfg_APIValidator : option APIValidatorConfig;
  cfg_Failover : option FailoverConfig; cfg_SSH : SSHConfig }.

(** ** Generic values ([reflect.Value]) *)

#[warnings="-register-all"]
Inductive gval :=
| VString (s : gostr)
| VInt (z : Z)
| VBool (b : bool)
| VFloat (f : spec_float)
| VPtr (o : option gval)
| VSlice (l : list gval)
| VMap (l : list (gostr * gval))
| VStruct (l : list (gostr * gostr * gostr * gval)).
(** A field is (Go name, yaml tag, env tag, value). *)

(** Shorthands for the fields below. *)
Definition fstr (name yaml : gostr) (s : gostr) := (name, yaml, [] : gostr, VString s).
Definition fsec (name yaml : gostr) (s : gostr) := (name, yaml, "required" : gostr, VString s).
Definition fint (name yaml : gostr) (z : Z) := (name, yaml, [] : gostr, VInt z).
Definition fbool (name yaml : gostr) (b : bool) := (name, yaml, [] : gostr, VBool b).
Definition fval (name yaml : gostr) (v : gval) := (name, yaml, [] : gostr, v).

Definition of_PostgresConfig (p : PostgresConfig) : gval := VStruct
  [ fstr "Host" "host" (pg_Host p); fint "Port" "port" (pg_Port p);
    fstr "DB" "db" (pg_DB p); fstr "User" "user" (pg_User p);
    fsec "Password" "password" (pg_Password p);
    fstr "ReplicationUser" "replication_user" (pg_ReplicationUser p);
    fsec "ReplicationPassword" "replication_password" (pg_ReplicationPassword p);
    fstr "SlotName" "slot_name,omitempty" (pg_SlotName p);
    fstr "SSLMode" "sslmode,omitempty" (pg_SSLMode p);
    fstr "SSLRootCert" "ssl_root_cert,omitempty" (pg_SSLRootCert p);
    fstr "SSLCert" "ssl_cert,omitempty" (pg_SSLCert p);
    fstr "SSLKey" "ssl_key,omitempty" (pg_SSLKey p) ].

Definition of_GitStorage (g : GitStorage) : gval := VStruct
  [ fstr "Mode" "mode" (git_Mode g); fstr "ReposPath" "repos_path,omitempty" (git_ReposPath g);
    fbool "HashedStorage" "hashed_storage,omitempty" (git_HashedStorage g) ].

Definition of_S3Config (s : S3Config) : gval := VStruct
  [ fstr "Region" "region" (s3_Region s);
    fstr "PrimaryBucket" "primary_bucket" (s3_PrimaryBucket s);
    fstr "ReplicaBucket" "replica_bucket" (s3_ReplicaBucket s);
    fsec "AccessKey" "access_key" (s3_AccessKey s);
    fsec "SecretKey" "secret_key" (s3_SecretKey s);
    fstr "Endpoint" "endpoint,omitempty" (s3_Endpoint s);
    fint "ReplicationLag" "replication_lag,omitempty" (s3_ReplicationLag s) ].

Definition of_ObjectStoreConfig (o : ObjectStoreConfig) : gval := VStruct
  [ fstr "Backend" "backend" (os_Backend o);
    fval "S3" "s3,omitempty" (VPtr (of_S3Config <$> os_S3 o));
    fval "FSPaths" "fs_paths,omitempty" (VSlice (VString <$> os_FSPaths o)) ].

Definition of_RegistryConfig (r : RegistryConfig) : gval := VStruct
  [ fstr "Mode" "mode" (reg_Mode r); fstr "URL" "url,omitempty" (reg_URL r);
    fsec "Token" "token,omitempty" (reg_Token r);
    fstr "AuthRealm" "auth_realm,omitempty" (reg_AuthRealm r);
    fstr "FSPath" "fs_path,omitempty" (reg_FSPath r);
    fval "S3" "s3,omitempty" (VPtr (of_S3Config <$> reg_S3 r)) ].

Definition of_SiteConfig (s : SiteConfig) : gval := VStruct
  [ fstr "Name" "name" (site_Name s); fstr "ExternalURL" "external_url" (site_ExternalURL s);
    fval "Postgres" "postgres" (of_PostgresConfig (site_Postgres s));
    fval "Git" "git" (of_GitStorage (site_Git s));
    fval "ObjectStore" "object_storage" (of_ObjectStoreConfig (site_ObjectStore s));
    fval "Registry" "registry,omitempty" (VPtr (of_RegistryConfig <$> site_Registry s));
    fstr "SSHHost" "ssh_host,omitempty" (site_SSHHost s) ].

Definition of_SyncConfig (s : SyncConfig) : gval := VStruct
  [ fint "SweepInterval" "sweep_interval" (sync_SweepInterval s);
    fint "LagWarningThreshold" "lag_warning_threshold" (sync_LagWarningThreshold s);
    fint "LagCriticalThreshold" "lag_critical_threshold" (sync_LagCriticalThreshold s);
    fbool "FailoverEnabled" "failover_enabled" (sync_FailoverEnabled s);
    fbool "ReadOnlySecondary" "read_only_secondary" (sync_ReadOnlySecondary s);
    fval "ConsistencySamplePct" "consistency_sample_pct" (VFloat (sync_ConsistencySamplePct s)) ].

Definition of_MetricsConfig (m : MetricsConfig) : gval := VStruct [ fstr "Addr" "addr" (met_Addr m) ].

Definition of_LogConfig (l : LogConfig) : gval := VStruct
  [ fstr "Level" "level" (log_Level l); fstr "Format" "format" (log_Format l);
    fbool "RedactProjectPaths" "redact_project_paths,omitempty" (log_RedactProjectPaths l) ].

Definition of_WebhookConfig (w : WebhookConfig) : gval := VStruct
  [ fstr "Addr" "addr" (wh_Addr w); fsec "SecretToken" "secret_token" (wh_SecretToken w);
    fstr "TLSCert" "tls_cert,omitempty" (wh_TLSCert w);
    fstr "TLSKey" "tls_key,omitempty" (wh_TLSKey w) ].

Definition of_APIValidatorConfig (a : APIValidatorConfig) : gval := VStruct
  [ fbool "Enabled" "enabled" (api_Enabled a);
    fsec "PrimaryToken" "primary_token" (api_PrimaryToken a);
    fsec "SecondaryToken" "secondary_token" (api_SecondaryToken a) ].

Definition of_FailoverConfig (f : FailoverConfig) : gval := VStruct
  [ fval "HealthCheckURLs" "health_check_urls,omitempty" (VSlice (VString <$> fo_HealthCheckURLs f));
    fint "HealthCheckInterval" "health_check_interval,omitempty" (fo_HealthCheckInterval f);
    fint "QuorumRequired" "quorum_required,omitempty" (fo_QuorumRequired f);
    fstr "DNSPlugin" "dns_plugin,omitempty" (fo_DNSPlugin f);
    fval "DNSConfig" "dns_config,omitempty" (VMap (prod_map id VString <$> fo_DNSConfig f));
    fbool "AutoFailover" "auto_failover,omitempty" (fo_AutoFailover f);
    fstr "PromoteSecondary" "promote_secondary,omitempty" (fo_PromoteSecondary f) ].

Definition of_SSHConfig (s : SSHConfig) : gval := VStruct
  [ fstr "KnownHostsFile" "known_hosts_file,omitempty" (ssh_KnownHostsFile s);
    fstr "StrictHostKeyChecking" "strict_host_key_checking,omitempty" (ssh_StrictHostKeyChecking s) ].

(** [reflect.ValueOf(c).Elem()]. *)
Definition of_Config (c : Config) : gval := VStruct
  [ fval "Primary" "primary" (of_SiteConfig (cfg_Primary c));
    fval "Secondaries" "secondaries" (VSlice (of_SiteConfig <$> cfg_Secondaries c));
    fval "Sync" "sync" (of_SyncConfig (cfg_Sync c));
    fval "Metrics" "metrics" (of_MetricsConfig (cfg_Metrics c));
    fval "Log" "log" (of_LogConfig (cfg_Log c));
    fstr "ControlDB" "control_db,omitempty" (cfg_ControlDB c);
    fval "Webhook" "webhook,omitempty" (VPtr (of_WebhookConfig <$> cfg_Webhook c));
    fval "APIValidator" "api_validator,omitempty" (VPtr (of_APIValidatorConfig <$> cfg_APIValidator c));
    fval "Failover" "failover,omitempty" (VPtr (of_FailoverConfig <$> cfg_Failover c));
    fval "SSH" "ssh,omitempty" (of_SSHConfig (cfg_SSH c)) ].

(** ** Reading a generic value back into a struct *)

Definition to_list {A} (f : gval → option A) (v : gval) : option (list A) :=
  match v with VSlice l => mapM f l | _ => None end.
Definition to_ptr {A} (f : gval → option A) (v : gval) : option (option A) :=
  match v with VPtr None => Some None | VPtr (Some v) => Some <$> f v | _ => None end.
Definition to_str (v : gval) : option gostr := match v with VString s => Some s | _ => None end.
Definition to_map (v : gval) : option (list (gostr * gostr)) :=
  match v with VMap l => mapM (λ '(k, v), (k,.) <$> to_str v) l | _ => None end.

Definition to_PostgresConfig (v : gval) : option PostgresConfig :=
  match v with
  | VStruct [(_, VString a); (_, VInt b); (_, VString c); (_, VString d); (_, VString e);
             (_, VString f); (_, VString g); (_, VString h); (_, VString i); (_, VString j);
             (_, VString k); (_, VString l)] =>
      Some (Build_PostgresConfig a b c d e f g h i j k l)
  | _ => None
  end.

Definition to_GitStorage (v : gval) : option GitStorage :=
  match v with
  | VStruct [(_, VString a); (_, VString b); (_, VBool c)] => Some (Build_GitStorage a b c)
  | _ => None
  end.

Definition to_S3Config (v : gval) : option S3Config :=
  match v with
  | VStruct [(_, VString a); (_, VString b); (_, VString c); (_, VString d); (_, VString e);
             (_, VString f); (_, VInt g)] => Some (Build_S3Config a b c d e f g)
  | _ => None
  end.

Definition to_ObjectStoreConfig (v : gval) : option ObjectStoreConfig :=
  match v with
  | VStruct [(_, VString a); (_, b); (_, c)] =>
      b ← to_ptr to_S3Config b; c ← to_list to_str c; Some (Build_ObjectStoreConfig a b c)
  | _ => None
  end.

Definition to_RegistryConfig (v : gval) : option RegistryConfig :=
  match v with
  | VStruct [(_, VString a); (_, VString b); (_, VString c); (_, VString d); (_, VString e);
             (_, f)] =>
      f ← to_ptr to_S3Config f; Some (Build_RegistryConfig a b c d e f)
  | _ => None
  end.

Definition to_SiteConfig (v : gval) : option SiteConfig :=
  match v with
  | VStruct [(_, VString a); (_, VString b); (_, c); (_, d); (_, e); (_, f); (_, VString g)] =>
      c ← to_PostgresConfig c; d ← to_GitStorage d; e ← to_ObjectStoreConfig e;
      f ← to_ptr to_RegistryConfig f; Some (Build_SiteConfig a b c d e f g)
  | _ => None
  end.

Definition to_SyncConfig (v : gval) : option SyncConfig :=
  match v with
  | VStruct [(_, VInt a); (_, VInt b); (_, VInt c); (_, VBool d); (_, VBool e); (_, VFloat f)] =>
      Some (Build_SyncConfig a b c d e f)
  | _ => None
  end.

Definition to_MetricsConfig (v : gval) : option MetricsConfig :=
  match v with VStruct [(_, VString a)] => Some (Build_MetricsConfig a) | _ => None end.

Definition to_LogConfig (v : gval) : option LogConfig :=
  match v with
  | VStruct [(_, VString a); (_, VString b); (_, VBool c)] => Some (Build_LogConfig a b c)
  | _ => None
  end.

Definition to_WebhookConfig (v : gval) : option WebhookConfig :=
  match v with
  | VStruct [(_, VString a); (_, VString b); (_, VString c); (_, VString d)] =>
      Some (Build_WebhookConfig a b c d)
  | _ => None
  end.

Definition to_APIValidatorConfig (v : gval) : option APIValidatorConfig :=
  match v with
  | VStruct [(_, VBool a); (_, VString b); (_, VString c)] => Some (Build_APIValidatorConfig a b c)
  | _ => None
  end.

Definition to_FailoverConfig (v : gval) : option FailoverConfig :=
  match v with
  | VStruct [(_, a); (_, VInt b); (_, VInt c); (_, VString d); (_, e); (_, VBool f); (_, VString g)] =>
      a ← to_list to_str a; e ← to_map e; Some (Build_FailoverConfig a b c d e f g)
  | _ => None
  end.

Definition to_SSHConfig (v : gval) : option SSHConfig :=
  match v with
  | VStruct [(_, VString a); (_, VString b)] => Some (Build_SSHConfig a b)
  | _ => None
  end.

Definition to_Config (v : gval) : option Config :=
  match v with
  | VStruct [(_, a); (_, b); (_, c); (_, d); (_, e); (_, VString f); (_, g); (_, h); (_, i); (_, j)] =>
      a ← to_SiteConfig a; b ← to_list to_SiteConfig b; c ← to_SyncConfig c;
      d ← to_MetricsConfig d; e ← to_LogConfig e; g ← to_ptr to_WebhookConfig g;
      h ← to_ptr to_APIValidatorConfig h; i ← to_ptr to_FailoverConfig i; j ← to_SSHConfig j;
      Some (Build_Config a b c d e f g h i j)
  | _ => None
  end.

(** ** The two views agree *)

(** A pair ofv conversions that loses nothing. *)
Class Reflects {A} (ofv : A → gval) (tov : gval → option A) : Prop :=
  to_of a : tov (ofv a) = Some a.

#[export] Instance reflects_list {A} ofv tov `{!@Reflects A ofv tov} :
  Reflects (λ l, VSlice (ofv <$> l)) (to_list tov).
Proof.
  intros l. cbn. induction l as [|a l IH]; [done|]. cbn. by rewrite to_of, IH.
Qed.

#[export] Instance reflects_ptr {A} ofv tov `{!@Reflects A ofv tov} :
  Reflects (λ o, VPtr (ofv <$> o)) (to_ptr tov).
Proof. intros [a|]; [|done]. cbn. by rewrite to_of. Qed.

#[export] Instance reflects_str : Reflects VString to_str.
Proof. done. Qed.

#[export] Instance reflects_map : Reflects (λ l, VMap (prod_map id VString <$> l)) to_map.
Proof.
  intros l. cbn. induction l as [|[k s] l IH]; [done|]. cbn. by rewrite IH.
Qed.

Lemma to_list_of {A} ofv tov `{!@Reflects A ofv tov} l : to_list tov (VSlice (ofv <$> l)) = Some l.
Proof. exact (to_of l). Qed.
Lemma to_ptr_of {A} ofv tov `{!@Reflects A ofv tov} o : to_ptr tov (VPtr (ofv <$> o)) = Some o.
Proof. exact (to_of o). Qed.
Lemma to_map_of l : to_map (VMap (prod_map id VString <$> l)) = Some l.
Proof. exact (to_of l). Qed.

Arguments of_PostgresConfig : simpl never.
Arguments to_PostgresConfig : simpl never.
Arguments of_GitStorage : simpl never.
Arguments to_GitStorage : simpl never.
Arguments of_S3Config : simpl never.
Arguments to_S3Config : simpl never.
Arguments of_ObjectStoreConfig : simpl never.
Arguments to_ObjectStoreConfig : simpl never.
Arguments of_RegistryConfig : simpl never.
Arguments to_RegistryConfig : simpl never.
Arguments of_SiteConfig : simpl never.
Arguments to_SiteConfig : simpl never.
Arguments of_SyncConfig : simpl never.
Arguments to_SyncConfig : simpl never.
Arguments of_MetricsConfig : simpl never.
Arguments to_MetricsConfig : simpl never.
Arguments of_LogConfig : simpl never.
Arguments to_LogConfig : simpl never.
Arguments of_WebhookConfig : simpl never.
Arguments to_WebhookConfig : simpl never.
Arguments of_APIValidatorConfig : simpl never.
Arguments to_APIValidatorConfig : simpl never.
Arguments of_FailoverConfig : simpl never.
Arguments to_FailoverConfig : simpl never.
Arguments of_SSHConfig : simpl never.
Arguments to_SSHConfig : simpl never.
Arguments of_Config : simpl never.
Arguments to_Config : simpl never.

(** Converts the fields of a struct one after the other. *)
Ltac solve_reflects ofv tov :=
  intros []; unfold ofv, tov; cbn -[to_list to_ptr to_map];
  repeat first
    [ rewrite to_list_of by apply _
    | rewrite to_ptr_of by apply _
    | rewrite to_map_of
    | rewrite to_of by apply _ ]; reflexivity.

#[export] Instance reflects_Postgres : Reflects of_PostgresConfig to_PostgresConfig.
Proof. by intros []. Qed.
#[export] Instance reflects_Git : Reflects of_GitStorage to_GitStorage.
Proof. by intros []. Qed.
#[export] Instance reflects_S3 : Reflects of_S3Config to_S3Config.
Proof. by intros []. Qed.
#[export] Instance reflects_ObjectStore : Reflects of_ObjectStoreConfig to_ObjectStoreConfig.
Proof. solve_reflects of_ObjectStoreConfig to_ObjectStoreConfig. Qed.
#[export] Instance reflects_Registry : Reflects of_RegistryConfig to_RegistryConfig.
Proof. solve_reflects of_RegistryConfig to_RegistryConfig. Qed.
#[export] Instance reflects_Site : Reflects of_SiteConfig to_SiteConfig.
Proof. solve_reflects of_SiteConfig to_SiteConfig. Qed.
#[export] Instance reflects_Sync : Reflects of_SyncConfig to_SyncConfig.
Proof. by intros []. Qed.
#[export] Instance reflects_Metrics : Reflects of_MetricsConfig to_MetricsConfig.
Proof. by intros []. Qed.
#[export] Instance reflects_Log : Reflects of_LogConfig to_LogConfig.
Proof. by intros []. Qed.
#[export] Instance reflects_Webhook : Reflects of_WebhookConfig to_WebhookConfig.
Proof. by intros []. Qed.
#[export] Instance reflects_API : Reflects of_APIValidatorConfig to_APIValidatorConfig.
Proof. by intros []. Qed.
#[export] Instance reflects_Failover : Reflects of_FailoverConfig to_FailoverConfig.
Proof. solve_reflects of_FailoverConfig to_FailoverConfig. Qed.
#[export] Instance reflects_SSH : Reflects of_SSHConfig to_SSHConfig.
Proof. by intros []. Qed.

(** Nothing is lost between a configuration and its generic view. *)
#[export] Instance reflects_Config : Reflects of_Config to_Config.
Proof. solve_reflects of_Config to_Config. Qed.
