(* ===== verification/Config.v ===== *)
(** * internal/config: loading, validating and rendering the configuration

    The YAML decoder, the file system and the environment are arguments:
    [decode] stands for [yaml.Decoder.Decode] with [KnownFields],
    [getenv] for [os.LookupEnv], [url_Parse] for [net/url.Parse]. *)
From Stdlib Require Import Ascii ZArith Lia SpecFloat.
From stdpp Require Import prelude strings gmap list.
From S2P Require Import Prelude GoStrings SshExec ConfigData.
Open Scope go_scope.

(** ** Secrets must be environment references *)

Definition name_head (c : ascii) : bool := is_upper c || bool_decide (c = "_"%char).
Definition name_byte (c : ascii) : bool := name_head c || is_digit c.

(** A match of [envRefRe] at the start of [s]: a dollar, an opening
    brace, a name over [A-Z0-9_] that does not start with a digit, a
    closing brace.  The result is the name and the text after the match. *)
Definition envRefRe (s : gostr) : option (gostr * gostr) :=
  if negb (HasPrefix s "${") then None
  else match drop 2 s with
       | c :: t =>
           let '(n, rest) := span name_byte t in
           if name_head c && HasPrefix rest "}" then Some (c :: n, drop 1 rest) else None
       | [] => None
       end.

(** [envRefOnlyRe.MatchString]: the whole text is one placeholder. *)
Definition envRefOnlyRe (s : gostr) : bool :=
  match envRefRe s with Some (_, []) => true | _ => false end.

Definition checkSecretField (value path : gostr) : list error :=
  if bool_decide (value = []) || envRefOnlyRe value then []
  else [Errorf [FS path; FS " must be an environment reference such as ${MY_SECRET}, not a literal value"]].

Definition yamlName (name tag : gostr) : gostr :=
  if bool_decide (tag = []) then ToLowerASCII name
  else
    let tag := match Index tag "," with Some i => take i tag | None => tag end in
    if bool_decide (tag = []) then ToLowerASCII name else tag.

Definition joinPath (parent child : gostr) : gostr :=
  if bool_decide (parent = []) then child else parent ++ "." ++ child.

(** [reflect.StructField.IsExported]. *)
Definition exported (name : gostr) : bool :=
  match name with c :: _ => is_upper c | [] => false end.

(** The secret fields of a struct are checked, the others are walked. *)
Fixpoint walkSecretFields (v : gval) (path : gostr) : list error :=
  match v with
  | VPtr (Some v) => walkSecretFields v path
  | VSlice l =>
      (fix go (i : Z) (l : list gval) : list error :=
         match l with
         | [] => []
         | v :: l => walkSecretFields v (path ++ "[" ++ Itoa i ++ "]") ++ go (i + 1)%Z l
         end) 0%Z l
  | VStruct l =>
      (fix go (l : list (gostr * gostr * gostr * gval)) : list error :=
         match l with
         | [] => []
         | (name, tag, env, v) :: l =>
             (if negb (exported name) then []
              else
                let child := joinPath path (yamlName name tag) in
                match bool_decide (env = "required"), v with
                | true, VString s => checkSecretField s child
                | _, _ => walkSecretFields v child
                end) ++ go l
         end) l
  | _ => []
  end.

Definition CheckSecretsAreEnvRefs (c : Config) : option error :=
  errors_Join (walkSecretFields (of_Config c) []).

Definition allowLiteralSecretsEnv : gostr := "SYNCCTL_ALLOW_LITERAL_SECRETS".

Section config.
Context (getenv : gostr → option gostr).

(** [flag] is the state of [SetAllowLiteralSecrets]. *)
Definition literalSecretsAllowed (flag : bool) : bool :=
  flag || bool_decide (getenv allowLiteralSecretsEnv = Some ("1" : gostr)).

Definition enforceSecretsAreEnvRefs (flag : bool) (c : Config) : option error :=
  let errs := walkSecretFields (of_Config c) [] in
  match errs with
  | [] => None
  | _ =>
      if literalSecretsAllowed flag then None
      else Some (Errorf [FW (ErrJoin errs);
                         FS "Move these values to environment variables and reference them as ${VAR}, or pass --allow-literal-secrets (or ";
                         FS allowLiteralSecretsEnv; FS "=1) while you migrate"])
  end.

(** ** Environment references *)

(** [envRefRe.ReplaceAllStringFunc]: the expanded text and the variables
    that are unset or empty. *)
Fixpoint expand_go (fuel : nat) (s : gostr) : gostr * list gostr :=
  match fuel with
  | O => (s, [])
  | S fuel =>
      match s with
      | [] => ([], [])
      | c :: t =>
          match envRefRe s with
          | Some (name, rest) =>
              let '(out, missing) := expand_go fuel rest in
              match getenv name with
              | Some (b :: v) => ((b :: v) ++ out, missing)
              | _ => ("${" ++ name ++ "}" ++ out, name :: missing)
              end
          | None => prod_map (cons c) id (expand_go fuel t)
          end
      end
  end.

Definition expandEnvString (s : gostr) : res gostr :=
  if negb (Contains s "${") then Ok s
  else
    let '(result, missing) := expand_go (length s) s in
    match missing with
    | [] => Ok result
    | _ => Err (Errorf [FS "environment variables referenced but not set: ";
                        FS (JoinWith missing ", ")])
    end.

(** A call that returns, or panics. *)
Inductive outcome (A : Type) :=
| Returns (r : res A)
| Panics (msg : gostr).
Arguments Returns {A} r.
Arguments Panics {A} msg.

Definition o_bind {A B} (m : outcome A) (k : A → outcome B) : outcome B :=
  match m with
  | Returns (Ok a) => k a
  | Returns (Err e) => Returns (Err e)
  | Panics msg => Panics msg
  end.

(** A loop that stops at the first error or panic. *)
Definition o_mapM {A B} (f : A → outcome B) : list A → outcome (list B) :=
  fix go l :=
    match l with
    | [] => Returns (Ok [])
    | a :: l => o_bind (f a) (λ b, o_bind (go l) (λ l, Returns (Ok (b :: l))))
    end.

(** [resolveEnv] assigns the expanded strings in place.  [addr] tells
    whether the value is addressable: struct fields reached from a
    pointer and slice elements are, the values [MapIndex] returns are not,
    and [SetString] panics on those. *)
Fixpoint resolveEnv (addr : bool) (v : gval) : outcome gval :=
  match v with
  | VString s =>
      match expandEnvString s with
      | Err e => Returns (Err e)
      | Ok s =>
          if addr then Returns (Ok (VString s))
          else Panics "reflect.Value.SetString using unaddressable value"
      end
  | VPtr None => Returns (Ok v)
  | VPtr (Some v) => o_bind (resolveEnv true v) (λ v, Returns (Ok (VPtr (Some v))))
  | VSlice l => o_bind (o_mapM (resolveEnv true) l) (λ l, Returns (Ok (VSlice l)))
  | VMap l =>
      o_bind (o_mapM (λ '(k, v), o_bind (resolveEnv false v) (λ v, Returns (Ok (k, v)))) l)
        (λ l, Returns (Ok (VMap l)))
  | VStruct l =>
      o_bind (o_mapM (λ '(f, v), o_bind (resolveEnv addr v) (λ v, Returns (Ok (f, v)))) l)
        (λ l, Returns (Ok (VStruct l)))
  | VInt _ | VBool _ | VFloat _ => Returns (Ok v)
  end.

(** The configuration after [resolveEnv] has run over it. *)
Definition resolveEnvInStruct (c : Config) : outcome Config :=
  o_bind (resolveEnv true (of_Config c)) (λ v,
    match to_Config v with
    | Some c => Returns (Ok c)
    | None => Panics "reflect: not a Config"
    end).

(** ** Validation *)

(** The parts of a parsed URL the program reads. *)
Record URL := mkURL { Scheme : gostr; URLHost : gostr; Hostname : gostr }.

Context (url_Parse : gostr → res URL).

(** What validation produces, in order: errors and logged warnings. *)
Inductive diag :=
| DErr (e : error)
| DWarn (w : list frag).

Definition err_if (b : bool) (msg : list frag) : list diag :=
  if b then [DErr (Errorf msg)] else [].
Definition warn_if (b : bool) (msg : list frag) : list diag :=
  if b then [DWarn msg] else [].

Definition diag_errors (l : list diag) : list error :=
  omap (λ d, match d with DErr e => Some e | DWarn _ => None end) l.

Definition sec_label (i : nat) : gostr := "secondaries[" ++ Itoa (Z.of_nat i) ++ "]".

Definition SSHExecConfig (c : Config) : SshConfig :=
  mkSshConfig (ssh_KnownHostsFile (cfg_SSH c)) (ssh_StrictHostKeyChecking (cfg_SSH c)).

Definition check_ssh_host (label host : gostr) : list diag :=
  if bool_decide (host = []) then []
  else match ParseEndpoint host with
       | Err err => [DErr (Errorf [FS label; FS ".ssh_host: "; FW err])]
       | Ok _ => []
       end.

Definition validateSSHHosts (c : Config) : list diag :=
  check_ssh_host "primary" (site_SSHHost (cfg_Primary c)) ++
  mjoin (imap (λ i s, check_ssh_host (sec_label i) (site_SSHHost s)) (cfg_Secondaries c)).

Definition check_path (label path : gostr) : list error :=
  if bool_decide (path = []) then []
  else if ContainsAny path [NUL; LF; CR] then [Errorf [FS label; FS " contains a NUL or newline"]]
  else if negb (HasPrefix path "/") then
    [Errorf [FS label; FS " must be an absolute path, got "; FQ path]]
  else [].

Definition check_site_paths (label : gostr) (s : SiteConfig) : list error :=
  check_path (label ++ ".git.repos_path") (git_ReposPath (site_Git s)) ++
  mjoin (imap (λ i p, check_path (label ++ ".object_storage.fs_paths[" ++ Itoa (Z.of_nat i) ++ "]") p)
           (os_FSPaths (site_ObjectStore s))) ++
  match site_Registry s with
  | Some r => check_path (label ++ ".registry.fs_path") (reg_FSPath r)
  | None => []
  end.

Definition validatePaths (c : Config) : list error :=
  check_site_paths "primary" (cfg_Primary c) ++
  mjoin (imap (λ i s, check_site_paths (sec_label i) s) (cfg_Secondaries c)).

Definition warnInvalidPaths (c : Config) : list diag :=
  (λ e, DWarn [FV e]) <$> validatePaths c.

Definition validateSSHPolicy (c : Config) : list diag :=
  let mode := ssh_StrictHostKeyChecking (cfg_SSH c) in
  if negb (bool_decide (mode ∈ ([[]; "yes"; "no"; "accept-new"] : list gostr))) then
    [DErr (Errorf [FS "ssh.strict_host_key_checking "; FQ mode;
                   FS " invalid; want yes, no, or accept-new"])]
  else
    let eff := EffectiveStrictHostKeyChecking (SSHExecConfig c) in
    warn_if (bool_decide (eff = "no"))
      [FS "ssh.strict_host_key_checking is 'no': host-key verification is disabled"] ++
    warn_if (bool_decide (eff = "accept-new"))
      [FS "ssh host keys are not pinned (trust-on-first-use)"].

Definition check_external_url (label raw : gostr) : list diag :=
  if bool_decide (raw = []) then []
  else match url_Parse raw with
       | Err err =>
           [DErr (Errorf [FS label; FS ".external_url "; FQ raw; FS " is not a valid URL: "; FW err])]
       | Ok u =>
           if bool_decide (Scheme u = "https") || bool_decide (Scheme u = "http") then
             warn_if (bool_decide (Scheme u = "http")) [FS label; FS "external_url uses http"] ++
             err_if (bool_decide (URLHost u = []))
               [FS label; FS ".external_url "; FQ raw; FS " has no host"]
           else
             [DErr (Errorf [FS label; FS ".external_url "; FQ raw;
                            FS " must use http or https, got scheme "; FQ (Scheme u)])]
       end.

Definition validateExternalURLs (c : Config) : list diag :=
  check_external_url "primary" (site_ExternalURL (cfg_Primary c)) ++
  mjoin (imap (λ i s, check_external_url (sec_label i) (site_ExternalURL s)) (cfg_Secondaries c)).

Definition validateWebhookTLS (c : Config) : list diag :=
  match cfg_Webhook c with
  | None => []
  | Some w =>
      if bool_decide (wh_TLSCert w ≠ []) && bool_decide (wh_TLSKey w = []) then
        [DErr (Errorf [FS "webhook.tls_cert is set but webhook.tls_key is not"])]
      else if bool_decide (wh_TLSKey w ≠ []) && bool_decide (wh_TLSCert w = []) then
        [DErr (Errorf [FS "webhook.tls_key is set but webhook.tls_cert is not"])]
      else if bool_decide (wh_TLSCert w = []) && bool_decide (wh_TLSKey w = []) then
        [DWarn [FS "webhook receiver is serving plaintext HTTP"]]
      else []
  end.

(** [net.SplitHostPort]: the host, [None] when the address is malformed. *)
Definition SplitHostPort_host (hp : gostr) : option gostr :=
  match LastIndex hp ":" with
  | None => None
  | Some i =>
      if HasPrefix hp "[" then
        match Index hp "]" with
        | None => None
        | Some e =>
            if negb (bool_decide (S e = i)) then None
            else if Contains (drop 1 hp) "[" || Contains (drop (S e) hp) "]" then None
            else Some (drop 1 (take e hp))
        end
      else
        let host := take i hp in
        if Contains host ":" || Contains hp "[" || Contains hp "]" then None
        else Some host
  end.

Definition warnMetricsExposed (c : Config) : list diag :=
  match SplitHostPort_host (met_Addr (cfg_Metrics c)) with
  | None => []
  | Some host =>
      warn_if (bool_decide (host ∈ ([[]; "0.0.0.0"; "::"] : list gostr)))
        [FS "/metrics is bound to all interfaces with no authentication"]
  end.

Definition warnInsecureSSL (c : Config) : list diag :=
  let check (label : gostr) (pg : PostgresConfig) :=
    warn_if (bool_decide (pg_SSLMode pg = "disable"))
      [FS label; FS "postgres.sslmode is 'disable': passwords will be sent in cleartext"] in
  check "primary" (site_Postgres (cfg_Primary c)) ++
  mjoin (imap (λ i s, check (sec_label i ++ ":" ++ site_Name s) (site_Postgres s)) (cfg_Secondaries c)).

(** The loop over the secondaries; [seen] is the set of names so far. *)
Fixpoint check_secondaries (i : nat) (seen : gset gostr) (l : list SiteConfig) : list diag :=
  match l with
  | [] => []
  | s :: l =>
      err_if (bool_decide (site_Name s = [])) [FS (sec_label i); FS ".name is required"] ++
      err_if (bool_decide (site_Name s ≠ []) && bool_decide (site_Name s ∈ seen))
        [FS (sec_label i); FS ".name "; FQ (site_Name s); FS " duplicated"] ++
      err_if (bool_decide (pg_Host (site_Postgres s) = []))
        [FS (sec_label i); FS ".postgres.host is required"] ++
      err_if (bool_decide (pg_ReplicationPassword (site_Postgres s) = []))
        [FS (sec_label i); FS ".postgres.replication_password is required (via env)"] ++
      check_secondaries (S i) ({[site_Name s]} ∪ seen) l
  end.

Definition or_default {A} `{EqDecision A} (zero d v : A) : A :=
  if bool_decide (v = zero) then d else v.

(** The binary64 value nearest to 0.01. *)
Definition float_0_01 : spec_float := S754_finite false 5764607523034235 (-59).

Definition default_sync (s : SyncConfig) : SyncConfig := {|
  sync_SweepInterval := or_default 0%Z (5 * Minute)%Z (sync_SweepInterval s);
  sync_LagWarningThreshold := or_default 0%Z (30 * Second)%Z (sync_LagWarningThreshold s);
  sync_LagCriticalThreshold := or_default 0%Z (5 * Minute)%Z (sync_LagCriticalThreshold s);
  sync_FailoverEnabled := sync_FailoverEnabled s;
  sync_ReadOnlySecondary := sync_ReadOnlySecondary s;
  sync_ConsistencySamplePct :=
    if SFeqb (sync_ConsistencySamplePct s) (S754_zero false) then float_0_01
    else sync_ConsistencySamplePct s |}.

Definition default_failover (f : FailoverConfig) : FailoverConfig := {|
  fo_HealthCheckURLs := fo_HealthCheckURLs f;
  fo_HealthCheckInterval := or_default 0%Z (10 * Second)%Z (fo_HealthCheckInterval f);
  fo_QuorumRequired := or_default 0%Z 1%Z (fo_QuorumRequired f);
  fo_DNSPlugin := or_default [] "none" (fo_DNSPlugin f);
  fo_DNSConfig := fo_DNSConfig f;
  fo_AutoFailover := fo_AutoFailover f;
  fo_PromoteSecondary := fo_PromoteSecondary f |}.

(** The defaults [validate] fills in. *)
Definition apply_defaults (c : Config) : Config := {|
  cfg_Primary := cfg_Primary c;
  cfg_Secondaries := cfg_Secondaries c;
  cfg_Sync := default_sync (cfg_Sync c);
  cfg_Metrics := {| met_Addr := or_default [] "127.0.0.1:9101" (met_Addr (cfg_Metrics c)) |};
  cfg_Log := {| log_Level := or_default [] "info" (log_Level (cfg_Log c));
                log_Format := or_default [] "json" (log_Format (cfg_Log c));
                log_RedactProjectPaths := log_RedactProjectPaths (cfg_Log c) |};
  cfg_ControlDB := cfg_ControlDB c;
  cfg_Webhook := cfg_Webhook c;
  cfg_APIValidator := cfg_APIValidator c;
  cfg_Failover := default_failover <$> cfg_Failover c;
  cfg_SSH := cfg_SSH c |}.

Definition validate_diags (c : Config) : list diag :=
  let p := cfg_Primary c in
  let pg := site_Postgres p in
  let mode := git_Mode (site_Git p) in
  err_if (bool_decide (site_Name p = [])) [FS "primary.name is required"] ++
  err_if (bool_decide (site_ExternalURL p = [])) [FS "primary.external_url is required"] ++
  err_if (bool_decide (pg_Host pg = [])) [FS "primary.postgres.host is required"] ++
  err_if (bool_decide (pg_Port pg = 0%Z)) [FS "primary.postgres.port is required"] ++
  err_if (bool_decide (pg_ReplicationUser pg = []))
    [FS "primary.postgres.replication_user is required"] ++
  err_if (bool_decide (pg_ReplicationPassword pg = []))
    [FS "primary.postgres.replication_password is required (via env)"] ++
  warn_if (bool_decide (cfg_ControlDB c ≠ [])) [FS "control_db is set but unused"] ++
  warnInsecureSSL c ++
  validateSSHHosts c ++
  warnInvalidPaths c ++
  validateSSHPolicy c ++
  validateExternalURLs c ++
  validateWebhookTLS c ++
  err_if (bool_decide (mode = [])) [FS "primary.git.mode is required (rsync|fetch)"] ++
  err_if (negb (bool_decide (mode = "rsync") || bool_decide (mode = "fetch")))
    [FS "primary.git.mode "; FQ mode; FS " invalid; want rsync or fetch"] ++
  err_if (bool_decide (mode = "rsync") && bool_decide (git_ReposPath (site_Git p) = []))
    [FS "primary.git.repos_path is required when mode=rsync"] ++
  err_if (bool_decide (cfg_Secondaries c = [])) [FS "at least one secondary is required"] ++
  check_secondaries 0 ∅ (cfg_Secondaries c) ++
  warnMetricsExposed (apply_defaults c) ++
  match cfg_Failover c with
  | Some f => warn_if (fo_AutoFailover f) [FS "failover.auto_failover is true"]
  | None => []
  end.

(** [validate]: the configuration with its defaults, or the joined errors. *)
Definition validate (c : Config) : res Config :=
  match errors_Join (diag_errors (validate_diags c)) with
  | Some e => Err e
  | None => Ok (apply_defaults c)
  end.

(** ** Load *)

Context (readFile : gostr → res gostr) (decode : gostr → res Config).

Definition Load (flag : bool) (path : gostr) : outcome Config :=
  match readFile path with
  | Err err => Returns (Err (Errorf [FS "read config: "; FW err]))
  | Ok raw =>
      match decode raw with
      | Err err => Returns (Err (Errorf [FS "parse config: "; FW err]))
      | Ok c =>
          match enforceSecretsAreEnvRefs flag c with
          | Some e => Returns (Err e)
          | None => o_bind (resolveEnvInStruct c) (λ c, Returns (validate c))
          end
      end
  end.

End config.
Arguments Returns {A} r.
Arguments Panics {A} msg.

(** ** Specifications *)

(** A secret may be empty or be exactly one placeholder. *)
Definition secret_ok (v : gostr) : Prop :=
  v = [] ∨ ∃ c n, v = "${" ++ (c :: n) ++ "}" ∧ name_head c = true ∧ Forall (λ b, name_byte b = true) n.

Definition s3_secrets (o : option S3Config) : list gostr :=
  match o with Some s => [s3_AccessKey s; s3_SecretKey s] | None => [] end.

Definition site_secrets (s : SiteConfig) : list gostr :=
  [pg_Password (site_Postgres s); pg_ReplicationPassword (site_Postgres s)] ++
  s3_secrets (os_S3 (site_ObjectStore s)) ++
  match site_Registry s with Some r => reg_Token r :: s3_secrets (reg_S3 r) | None => [] end.

(** Every secret of a configuration, enumerated by hand. *)
Definition secret_values (c : Config) : list gostr :=
  site_secrets (cfg_Primary c) ++ mjoin (site_secrets <$> cfg_Secondaries c) ++
  match cfg_Webhook c with Some w => [wh_SecretToken w] | None => [] end ++
  match cfg_APIValidator c with
  | Some a => [api_PrimaryToken a; api_SecondaryToken a]
  | None => []
  end.

(** The strings of a value, in traversal order, map entries left out. *)
Fixpoint leaves (v : gval) : list gostr :=
  match v with
  | VString s => [s]
  | VPtr (Some v) => leaves v
  | VSlice l => flat_map leaves l
  | VStruct l => flat_map (λ f, leaves f.2) l
  | _ => []
  end.

(** A value with its strings blanked. *)
Fixpoint erase (v : gval) : gval :=
  match v with
  | VString _ => VString []
  | VPtr (Some v) => VPtr (Some (erase v))
  | VSlice l => VSlice (List.map erase l)
  | VStruct l => VStruct (List.map (λ f, (f.1, erase f.2)) l)
  | _ => v
  end.

(** No map of the value has an entry. *)
Fixpoint map_free (v : gval) : Prop :=
  match v with
  | VPtr (Some v) => map_free v
  | VSlice l => List.fold_right (λ v P, map_free v ∧ P) True l
  | VMap l => l = []
  | VStruct l => List.fold_right (λ f P, map_free f.2 ∧ P) True l
  | _ => True
  end.

(** ** Secrets *)

(** What [envRefRe] matches. *)
Lemma envRefRe_Some s n rest : envRefRe s = Some (n, rest) ↔
  ∃ c m, n = c :: m ∧ name_head c = true ∧ Forall (λ b, name_byte b = true) m
         ∧ s = "${" ++ n ++ "}" ++ rest.
Proof.
  split.
  - unfold envRefRe. destruct (HasPrefix s _) eqn:Es; [|done]. cbn [negb].
    apply HasPrefix_true in Es as [t ->]. cbn [app drop]. rewrite drop_0.
    destruct t as [|c t]; [done|].
    pose proof (span_spec name_byte t) as (H1 & H2 & _).
    destruct (span name_byte t) as [m r]; cbn in H1, H2. subst t. 
    destruct (name_head c && HasPrefix r "}") eqn:E; [|done].
    apply andb_true_iff in E as [Hc Er].
    apply HasPrefix_true in Er as [r' ->]. intros [= <- <-]. exists c, m. by split_and!.
  - intros (c & m & -> & Hc & Hm & ->).
    transitivity (let '(n, r) := span name_byte (m ++ "}" ++ rest) in
      if name_head c && HasPrefix r "}" then Some (c :: n, drop 1 r) else None); [done|].
    cbn [app]. by rewrite (span_stop name_byte m "}"%char rest Hm), Hc.
Qed.

Lemma envRefOnlyRe_spec s : envRefOnlyRe s = true ↔
  ∃ c n, s = "${" ++ (c :: n) ++ "}" ∧ name_head c = true ∧ Forall (λ b, name_byte b = true) n.
Proof.
  unfold envRefOnlyRe. split.
  - destruct (envRefRe s) as [[n [|]]|] eqn:E; try done. intros _.
    apply envRefRe_Some in E as (c & m & -> & ? & ? & ->). rewrite app_nil_r. eauto.
  - intros (c & n & -> & Hc & Hn).
    assert (envRefRe ("${" ++ (c :: n) ++ "}") = Some (c :: n, [])) as ->; [|done].
    apply envRefRe_Some. exists c, n. by rewrite app_nil_r.
Qed.

Lemma checkSecretField_nil v path : checkSecretField v path = [] ↔ secret_ok v.
Proof.
  unfold checkSecretField, secret_ok. rewrite <- envRefOnlyRe_spec.
  destruct (bool_decide_reflect (v = [])); cbn; [naive_solver|].
  destruct (envRefOnlyRe v); naive_solver.
Qed.

Lemma walk_slice l path : walkSecretFields (VSlice l) path = [] ↔
  ∀ i v, l !! i = Some v → walkSecretFields v (path ++ "[" ++ Itoa (Z.of_nat i) ++ "]") = [].
Proof.
  cbn [walkSecretFields]. match goal with |- ?g 0%Z l = [] ↔ _ => set (go := g) end.
  assert (∀ k, go (Z.of_nat k) l = [] ↔ ∀ i v, l !! i = Some v →
    walkSecretFields v (path ++ "[" ++ Itoa (Z.of_nat (k + i)) ++ "]") = []) as H; [|exact (H O)].
  induction l as [|v l IH]; intros k; [by subst go|].
  change (go (Z.of_nat k) (v :: l)) with
    (walkSecretFields v (path ++ "[" ++ Itoa (Z.of_nat k) ++ "]") ++ go (Z.of_nat k + 1)%Z l).
  replace (Z.of_nat k + 1)%Z with (Z.of_nat (S k)) by lia.
  rewrite app_nil, IH. split.
  - intros [H1 H2] [|i] w Hw; cbn in Hw; simplify_eq.
    + by rewrite Nat.add_0_r.
    + rewrite <- Nat.add_succ_comm. by apply H2.
  - intros H. split; [specialize (H O v eq_refl); by rewrite Nat.add_0_r in H|].
    intros i w Hw. specialize (H (S i) w Hw). by rewrite <- Nat.add_succ_comm in H.
Qed.

(** [v] has exactly the secrets [l], as far as the walk can tell. *)
Definition walks (v : gval) (l : list gostr) : Prop :=
  ∀ path, walkSecretFields v path = [] ↔ Forall secret_ok l.

Lemma walks_list {A} (ofv : A → gval) (f : A → list gostr) l :
  (∀ a, walks (ofv a) (f a)) → walks (VSlice (ofv <$> l)) (mjoin (f <$> l)).
Proof.
  intros Hf path. rewrite walk_slice. split.
  - intros H. apply Forall_join, Forall_fmap, Forall_lookup_2. intros i a Ha.
    eapply Hf, H. by rewrite list_lookup_fmap, Ha.
  - intros H i v Hv. rewrite list_lookup_fmap in Hv. apply fmap_Some in Hv as (a & Ha & ->).
    apply Hf. rewrite Forall_forall in H |- *. intros x Hx. apply H, list_elem_of_join.
    exists (f a). split; [done|]. apply list_elem_of_fmap. exists a. split; [done|].
    by eapply list_elem_of_lookup_2.
Qed.

Lemma walks_ptr {A} (ofv : A → gval) (f : A → list gostr) o :
  (∀ a, walks (ofv a) (f a)) →
  walks (VPtr (ofv <$> o)) (match o with Some a => f a | None => [] end).
Proof. intros Hf path. destruct o; cbn; [apply Hf|]. by split. Qed.

Lemma walks_none v : (∀ path, walkSecretFields v path = []) → walks v [].
Proof. intros H path. rewrite H. by split. Qed.

Lemma walk_struct_cons name tag env v l path :
  walkSecretFields (VStruct ((name, tag, env, v) :: l)) path =
  (if negb (exported name) then []
   else
     let child := joinPath path (yamlName name tag) in
     match bool_decide (env = ("required" : gostr)), v with
     | true, VString s => checkSecretField s child
     | _, _ => walkSecretFields v child
     end) ++ walkSecretFields (VStruct l) path.
Proof. done. Qed.

Lemma walks_struct_nil : walks (VStruct []) [].
Proof. by apply walks_none. Qed.

Lemma walks_fsec name yaml s l ss : exported name = true →
  walks (VStruct l) ss → walks (VStruct (fsec name yaml s :: l)) (s :: ss).
Proof.
  intros Hn Hl path. unfold fsec. rewrite walk_struct_cons, Hn. cbn [negb].
  rewrite (bool_decide_eq_true_2 (("required" : gostr) = "required") eq_refl). cbn zeta iota.
  rewrite app_nil, checkSecretField_nil, Forall_cons. specialize (Hl path). tauto.
Qed.

Lemma walks_fval name yaml v l sv ss : exported name = true →
  walks v sv → walks (VStruct l) ss → walks (VStruct (fval name yaml v :: l)) (sv ++ ss).
Proof.
  intros Hn Hv Hl path. unfold fval. rewrite walk_struct_cons, Hn. cbn [negb].
  rewrite (bool_decide_eq_false_2 (([] : gostr) = "required")) by done. cbn zeta iota.
  rewrite app_nil, Forall_app. specialize (Hl path). specialize (Hv (joinPath path (yamlName name yaml))). destruct v; tauto.
Qed.

Lemma walks_leaf name yaml v l ss : exported name = true →
  (∀ path, walkSecretFields v path = []) →
  walks (VStruct l) ss → walks (VStruct ((name, yaml, [], v) :: l)) ss.
Proof. intros Hn Hv Hl. apply (walks_fval name yaml v l [] ss Hn); [by apply walks_none|done]. Qed.

Lemma walks_eq v l l' : walks v l → l = l' → walks v l'.
Proof. by intros ? <-. Qed.

Lemma walks_leaves {A} (ofv : A → gval) (l : list A) path :
  (∀ a path, walkSecretFields (ofv a) path = []) → walkSecretFields (VSlice (ofv <$> l)) path = [].
Proof.
  intros H. apply walk_slice. intros i v Hv.
  rewrite list_lookup_fmap in Hv. apply fmap_Some in Hv as (a & _ & ->). apply H.
Qed.

Ltac walk_fields tac :=
  eapply walks_eq;
  [ repeat lazymatch goal with
    | |- walks (VStruct []) _ => exact walks_struct_nil
    | |- walks (VStruct (fsec _ _ _ :: _)) _ => eapply walks_fsec; [reflexivity|]
    | |- walks (VStruct (fval _ _ (VSlice (VString <$> _)) :: _)) _ =>
        eapply walks_leaf; [reflexivity | intros; apply walks_leaves; done |]
    | |- walks (VStruct (fval _ _ _ :: _)) _ => eapply walks_fval; [reflexivity | tac |]
    | |- walks (VStruct (_ :: _)) _ => eapply walks_leaf; [reflexivity | done |]
    end
  | cbn; rewrite ?app_nil_r; reflexivity ].

Lemma walks_Postgres p : walks (of_PostgresConfig p) [pg_Password p; pg_ReplicationPassword p].
Proof. unfold of_PostgresConfig. walk_fields idtac. Qed.
Lemma walks_Git g : walks (of_GitStorage g) [].
Proof. unfold of_GitStorage. walk_fields idtac. Qed.
Lemma walks_S3 s : walks (of_S3Config s) [s3_AccessKey s; s3_SecretKey s].
Proof. unfold of_S3Config. walk_fields idtac. Qed.
Lemma walks_ObjectStore o : walks (of_ObjectStoreConfig o) (s3_secrets (os_S3 o)).
Proof. unfold of_ObjectStoreConfig. walk_fields ltac:(apply walks_ptr, walks_S3). Qed.
Lemma walks_Registry r : walks (of_RegistryConfig r) (reg_Token r :: s3_secrets (reg_S3 r)).
Proof. unfold of_RegistryConfig. walk_fields ltac:(apply walks_ptr, walks_S3). Qed.
Lemma walks_Sync y : walks (of_SyncConfig y) [].
Proof. unfold of_SyncConfig. walk_fields ltac:(by apply walks_none). Qed.
Lemma walks_Metrics m : walks (of_MetricsConfig m) [].
Proof. unfold of_MetricsConfig. walk_fields idtac. Qed.
Lemma walks_Log l : walks (of_LogConfig l) [].
Proof. unfold of_LogConfig. walk_fields idtac. Qed.
Lemma walks_Webhook w : walks (of_WebhookConfig w) [wh_SecretToken w].
Proof. unfold of_WebhookConfig. walk_fields idtac. Qed.
Lemma walks_API a : walks (of_APIValidatorConfig a) [api_PrimaryToken a; api_SecondaryToken a].
Proof. unfold of_APIValidatorConfig. walk_fields idtac. Qed.
Lemma walks_Failover f : walks (of_FailoverConfig f) [].
Proof. unfold of_FailoverConfig. walk_fields ltac:(by apply walks_none). Qed.
Lemma walks_Failover_ptr o : walks (VPtr (of_FailoverConfig <$> o)) [].
Proof. destruct o as [f|]; [exact (walks_Failover f)|by apply walks_none]. Qed.
Lemma walks_SSH s : walks (of_SSHConfig s) [].
Proof. unfold of_SSHConfig. walk_fields idtac. Qed.
Lemma walks_Site s : walks (of_SiteConfig s) (site_secrets s).
Proof.
  unfold of_SiteConfig. walk_fields ltac:(idtac; lazymatch goal with
    | |- walks (of_PostgresConfig _) _ => apply walks_Postgres
    | |- walks (of_GitStorage _) _ => apply walks_Git
    | |- walks (of_ObjectStoreConfig _) _ => apply walks_ObjectStore
    | _ => apply (walks_ptr of_RegistryConfig _ _ walks_Registry)
    end).
Qed.
Lemma walks_Config c : walks (of_Config c) (secret_values c).
Proof.
  unfold of_Config. walk_fields ltac:(idtac; lazymatch goal with
    | |- walks (of_SiteConfig _) _ => apply walks_Site
    | |- walks (VSlice _) _ => apply (walks_list of_SiteConfig _ _ walks_Site)
    | |- walks (of_SyncConfig _) _ => apply walks_Sync
    | |- walks (of_MetricsConfig _) _ => apply walks_Metrics
    | |- walks (of_LogConfig _) _ => apply walks_Log
    | |- walks (VPtr (of_WebhookConfig <$> _)) _ => apply (walks_ptr of_WebhookConfig _ _ walks_Webhook)
    | |- walks (VPtr (of_APIValidatorConfig <$> _)) _ => apply (walks_ptr of_APIValidatorConfig _ _ walks_API)
    | |- walks (VPtr _) _ => apply walks_Failover_ptr
    | _ => apply walks_SSH
    end).
Qed.

Lemma enforce_None getenv flag c : enforceSecretsAreEnvRefs getenv flag c = None ↔
  literalSecretsAllowed getenv flag = true ∨ Forall secret_ok (secret_values c).
Proof.
  unfold enforceSecretsAreEnvRefs. rewrite <- (walks_Config c []).
  destruct (walkSecretFields _ _); cbn; [naive_solver|].
  destruct (literalSecretsAllowed _ _); naive_solver.
Qed.

(** An audit of the secrets passes exactly when every secret field of
    the configuration, the nested and optional ones included, is empty or
    is exactly one placeholder; [Load]'s check passes exactly then, or
    when literal secrets are allowed. *)
Lemma enforceSecretsAreEnvRefs_spec getenv flag c :
  (CheckSecretsAreEnvRefs c = None ↔ Forall secret_ok (secret_values c)) ∧
  (enforceSecretsAreEnvRefs getenv flag c = None ↔
   literalSecretsAllowed getenv flag = true ∨ Forall secret_ok (secret_values c)).
Proof.
  split; [|apply enforce_None]. unfold CheckSecretsAreEnvRefs. rewrite <- (walks_Config c []).
  destruct (walkSecretFields _ _); naive_solver.
Qed.

(** ** Expansion *)

(** Expansion, as a relation: placeholders are replaced from left to
    right, and what replaces them is copied, never scanned again. *)
Inductive expands (getenv : gostr → option gostr) : gostr → gostr → Prop :=
| expands_nil : expands getenv [] []
| expands_ref s n rest v out :
    envRefRe s = Some (n, rest) → getenv n = Some v → v ≠ [] →
    expands getenv rest out → expands getenv s (v ++ out)
| expands_byte c s out :
    envRefRe (c :: s) = None → expands getenv s out → expands getenv (c :: s) (c :: out).

Lemma envRefRe_shorter s n rest : envRefRe s = Some (n, rest) → length rest < length s.
Proof.
  intros (c & m & -> & _ & _ & ->)%envRefRe_Some. cbn. rewrite length_app. cbn. lia.
Qed.

Lemma expand_go_nil getenv fuel : expand_go getenv fuel [] = ([], []).
Proof. by destruct fuel. Qed.

Lemma expand_go_Some getenv fuel s n rest : length s ≤ S fuel →
  envRefRe s = Some (n, rest) →
  expand_go getenv (S fuel) s =
    let '(out, missing) := expand_go getenv fuel rest in
    match getenv n with
    | Some (b :: v) => ((b :: v) ++ out, missing)
    | _ => ("${" ++ n ++ "}" ++ out, n :: missing)
    end.
Proof. intros _ H. cbn [expand_go]. destruct s; [done|]. by rewrite H. Qed.

Lemma expand_go_spec getenv fuel s out : length s ≤ fuel →
  expand_go getenv fuel s = (out, []) ↔ expands getenv s out.
Proof.
  revert s out. induction fuel as [|fuel IH]; intros s out Hs.
  { destruct s; [|cbn in Hs; lia]. cbn. split; [intros [= <-]; constructor|].
    inversion 1 as [|? ? ? ? ? Hr|]; [done|]. by apply envRefRe_shorter in Hr; cbn in Hr; lia. }
  destruct (envRefRe s) as [[n rest]|] eqn:Er.
  - rewrite (expand_go_Some _ _ _ _ _ Hs Er).
    pose proof (envRefRe_shorter _ _ _ Er) as Hl. specialize (IH rest).
    destruct (expand_go getenv fuel rest) as [o m] eqn:Eo. split.
    + destruct (getenv n) as [[|b v]|] eqn:Eg; try done. intros [= <- ->].
      eapply (expands_ref _ _ _ _ (b :: v)); [done..|]. apply IH; [lia|done].
    + inversion 1 as [|? n' rest' v out' Hr Hg Hv Ho|c t ? Hr]; simplify_eq; [].
      apply IH in Ho; [|lia]. simplify_eq. rewrite Hg. by destruct v.
  - destruct s as [|c t].
    { cbn [expand_go]. split; [intros [= <-]; constructor|]. by inversion 1; simplify_eq. }
    cbn [expand_go]. rewrite Er. cbn in Hs. specialize (IH t).
    destruct (expand_go getenv fuel t) as [o m] eqn:Eo. cbn. split.
    + intros [= <- ->]. apply expands_byte; [done|]. apply IH; [lia|done].
    + inversion 1 as [|? n' rest' v out' Hr Hg Hv Ho|? ? ? Hr Ho]; simplify_eq.
      apply IH in Ho; [|lia]. by simplify_eq.
Qed.

Lemma Contains_false_no_ref s : Contains s "${" = false → envRefRe s = None.
Proof.
  intros Hc. destruct (envRefRe s) as [[n rest]|] eqn:E; [|done].
  apply envRefRe_Some in E as (c & m & -> & _ & _ & ->). by cbn in Hc.
Qed.

Lemma expands_no_ref getenv s out : Contains s "${" = false → expands getenv s out ↔ out = s.
Proof.
  revert out. induction s as [|c s IH]; intros out Hc.
  { split; [|intros ->; constructor]. by inversion 1; simplify_eq. }
  pose proof (Contains_false_no_ref _ Hc) as Hn.
  assert (Contains s "${" = false) as Hc'.
  { unfold Contains in *. cbn [Index] in Hc. destruct (HasPrefix (c :: s) "${"); [done|].
    by destruct (Index s "${"). }
  split.
  - inversion 1; simplify_eq. f_equal. by apply IH.
  - intros ->. apply expands_byte; [done|]. by apply IH.
Qed.

Lemma expandEnvString_Ok getenv s out :
  expandEnvString getenv s = Ok out ↔ expands getenv s out.
Proof.
  unfold expandEnvString. destruct (Contains s "${") eqn:Ec; cbn [negb].
  - pose proof (expand_go_spec getenv (length s) s out (le_n _)) as H.
    destruct (expand_go getenv (length s) s) as [o [|m ms]]; rewrite <- H; naive_solver.
  - rewrite (expands_no_ref getenv _ _ Ec). naive_solver.
Qed.

Lemma envRefRe_no_dollar c s : c ≠ "$"%char → envRefRe (c :: s) = None.
Proof.
  intros Hc. destruct (envRefRe (c :: s)) as [[n rest]|] eqn:E; [|done].
  apply envRefRe_Some in E as (d & m & -> & _ & _ & [= -> _]). done.
Qed.

Lemma expands_literal getenv a s out :
  "$"%char ∉ a → expands getenv s out → expands getenv (a ++ s) (a ++ out).
Proof.
  induction a as [|c a IH]; cbn; [done|]. rewrite not_elem_of_cons. intros [Hc Ha] H.
  apply expands_byte; [|by apply IH]. by apply envRefRe_no_dollar.
Qed.

(** [expandEnvString] succeeds with [out] exactly when [out] is the
    single-pass expansion of the text: every placeholder names a variable
    that is set and not empty, its value is copied as it is, and every
    other byte is kept.  In particular a value that itself contains a
    placeholder is not expanded again. *)
Lemma expandEnvString_spec getenv s out :
  (expandEnvString getenv s = Ok out ↔ expands getenv s out) ∧
  (∀ a c n v b, s = a ++ "${" ++ (c :: n) ++ "}" ++ b →
    "$"%char ∉ a → "$"%char ∉ b → name_head c = true → Forall (λ d, name_byte d = true) n →
    getenv (c :: n) = Some v → v ≠ [] → expandEnvString getenv s = Ok (a ++ v ++ b)).
Proof.
  split; [apply expandEnvString_Ok|]. intros a c n v b -> Ha Hb Hc Hn Hg Hv.
  apply expandEnvString_Ok, expands_literal; [done|].
  apply (expands_ref _ _ (c :: n) b v b); [by apply envRefRe_Some; exists c, n|done|done|].
  rewrite <- (app_nil_r b). apply expands_literal; [done|constructor].
Qed.

(** ** Resolution *)

Section gval_induction.
Context (P : gval → Prop)
  (Hs : ∀ s, P (VString s)) (Hi : ∀ z, P (VInt z)) (Hb : ∀ b, P (VBool b))
  (Hf : ∀ f, P (VFloat f)) (Hp0 : P (VPtr None)) (Hp : ∀ v, P v → P (VPtr (Some v)))
  (Hl : ∀ l, Forall P l → P (VSlice l))
  (Hm : ∀ l, Forall (λ kv, P kv.2) l → P (VMap l))
  (Hst : ∀ l, Forall (λ f, P f.2) l → P (VStruct l)).

Fixpoint gval_nested_ind (v : gval) : P v :=
  match v with
  | VString s => Hs s | VInt z => Hi z | VBool b => Hb b | VFloat f => Hf f
  | VPtr None => Hp0 | VPtr (Some v) => Hp v (gval_nested_ind v)
  | VSlice l => Hl l ((fix go l : Forall P l :=
      match l with [] => Forall_nil_2 _ | v :: l => Forall_cons_2 _ _ _ (gval_nested_ind v) (go l) end) l)
  | VMap l => Hm l ((fix go l : Forall (λ kv, P kv.2) l :=
      match l with [] => Forall_nil_2 _ | v :: l => Forall_cons_2 _ _ _ (gval_nested_ind v.2) (go l) end) l)
  | VStruct l => Hst l ((fix go l : Forall (λ f, P f.2) l :=
      match l with [] => Forall_nil_2 _ | v :: l => Forall_cons_2 _ _ _ (gval_nested_ind v.2) (go l) end) l)
  end.
End gval_induction.

Lemma o_bind_Ok {A B} (m : outcome A) (k : A → outcome B) b :
  o_bind m k = Returns (Ok b) ↔ ∃ a, m = Returns (Ok a) ∧ k a = Returns (Ok b).
Proof. destruct m as [[a|e]|msg]; cbn; naive_solver. Qed.

Lemma o_mapM_Ok {A B} (f : A → outcome B) l k :
  o_mapM f l = Returns (Ok k) ↔ Forall2 (λ a b, f a = Returns (Ok b)) l k.
Proof.
  revert k. induction l as [|a l IH]; intros k; cbn [o_mapM].
  { split; [by intros [= <-]|]. by intros ->%Forall2_nil_inv_l. }
  rewrite o_bind_Ok. split.
  - intros (b & Hb & H). apply o_bind_Ok in H as (k' & Hk & [= <-]).
    constructor; [done|]. by apply IH.
  - inversion 1; simplify_eq. eexists; split; [done|]. apply o_bind_Ok.
    eexists; split; [by apply IH|done].
Qed.

Lemma resolve_list {A} (E : gostr → gostr → Prop) (r : A → outcome A) (er : A → A)
    (lv : A → list gostr) l :
  (∀ a b, er a = er b → length (lv a) = length (lv b)) →
  Forall (λ a, ∀ b, r a = Returns (Ok b) ↔ er b = er a ∧ Forall2 E (lv a) (lv b)) l →
  ∀ k, o_mapM r l = Returns (Ok k) ↔
       List.map er k = List.map er l ∧ Forall2 E (flat_map lv l) (flat_map lv k).
Proof.
  intros Hlen. induction 1 as [|a l Ha Hl IH]; intros k; rewrite o_mapM_Ok.
  { split; [by intros ->%Forall2_nil_inv_l|]. intros [Hk _]. by destruct k. }
  split.
  - inversion 1 as [|? b ? k' Hb Hk]; simplify_eq.
    apply Ha in Hb as [He Hv]. apply o_mapM_Ok, IH in Hk as [Hek Hvk].
    cbn. rewrite He, Hek. split; [done|]. by apply Forall2_app.
  - intros [He Hv]. destruct k as [|b k]; [done|]. cbn in He, Hv. injection He as He Hek.
    apply Forall2_app_inv in Hv as [Hv Hvk]; [|by apply Hlen].
    constructor; [by apply Ha|]. by apply o_mapM_Ok, IH.
Qed.

Lemma leaves_erase v : length (leaves v) = length (leaves (erase v)).
Proof.
  induction v using gval_nested_ind; cbn; try done.
  - induction H as [|v l Hv Hl IH]; cbn; [done|]. by rewrite !length_app, Hv, IH.
  - induction H as [|v l Hv Hl IH]; cbn; [done|]. by rewrite !length_app, Hv, IH.
Qed.

Lemma leaves_len v w : erase v = erase w → length (leaves v) = length (leaves w).
Proof. intros H. by rewrite (leaves_erase v), (leaves_erase w), H. Qed.

Lemma fold_right_Forall {A} (P : A → Prop) l :
  List.fold_right (λ v Q, P v ∧ Q) True l → Forall P l.
Proof. induction l; cbn; constructor; naive_solver. Qed.

Lemma resolve_string getenv s v' : resolveEnv getenv true (VString s) = Returns (Ok v') ↔
  ∃ out, v' = VString out ∧ expands getenv s out.
Proof.
  cbn. setoid_rewrite <- expandEnvString_Ok.
  destruct (expandEnvString getenv s); naive_solver.
Qed.

Lemma resolve_slice getenv l :
  Forall (λ v, ∀ v', resolveEnv getenv true v = Returns (Ok v') ↔
    erase v' = erase v ∧ Forall2 (expands getenv) (leaves v) (leaves v')) l →
  ∀ v', resolveEnv getenv true (VSlice l) = Returns (Ok v') ↔
    erase v' = erase (VSlice l) ∧ Forall2 (expands getenv) (leaves (VSlice l)) (leaves v').
Proof.
  intros H v'. cbn [resolveEnv]. rewrite o_bind_Ok.
  pose proof (resolve_list (expands getenv) _ erase leaves l leaves_len H) as Hl. split.
  - intros (k & [He Hv]%Hl & [= <-]). cbn. by rewrite He.
  - intros [He Hv]. destruct v' as [| | | |[]|k| |]; try done. exists k. split; [|done].
    apply Hl. cbn in He, Hv. by injection He.
Qed.

Lemma resolve_struct getenv l :
  Forall (λ f, ∀ v', resolveEnv getenv true f.2 = Returns (Ok v') ↔
    erase v' = erase f.2 ∧ Forall2 (expands getenv) (leaves f.2) (leaves v')) l →
  ∀ v', resolveEnv getenv true (VStruct l) = Returns (Ok v') ↔
    erase v' = erase (VStruct l) ∧ Forall2 (expands getenv) (leaves (VStruct l)) (leaves v').
Proof.
  intros H v'. cbn [resolveEnv]. rewrite o_bind_Ok.
  set (r := λ '(f, v), o_bind (resolveEnv getenv true v) (λ v, Returns (Ok (f, v)))).
  epose proof (resolve_list (expands getenv) r (λ f, (f.1, erase f.2)) (λ f, leaves f.2) l _ _) as Hl.
  Unshelve.
  2: { intros a b [= _ Hab]. by apply leaves_len. }
  2: { eapply Forall_impl; [exact H|]. intros [f a] Ha [g b]. subst r. cbn in Ha |- *.
    rewrite o_bind_Ok. split.
    - intros (w & Hw & [= <- <-]). apply Ha in Hw as [He Hv]. by rewrite He.
    - intros [[= -> He] Hv]. exists b. split; [by apply Ha|done]. }
  split.
  - intros (k & [He Hv]%Hl & [= <-]). cbn. by rewrite He.
  - intros [He Hv]. destruct v' as [| | | |[]| | |k]; try done. exists k. split; [|done].
    apply Hl. cbn in He, Hv. by injection He.
Qed.

Lemma resolveEnv_spec getenv v : map_free v → ∀ v',
  resolveEnv getenv true v = Returns (Ok v') ↔
  erase v' = erase v ∧ Forall2 (expands getenv) (leaves v) (leaves v').
Proof.
  induction v as [s|z|b|f| |v IH|l IH|l IH|l IH] using gval_nested_ind; intros Hm v'.
  2-5: cbn; split; [by intros [= <-]|]; intros [He _];
    destruct v' as [| | | |[]| | |]; cbn in He; by simplify_eq.
  - rewrite resolve_string. cbn. split.
    + intros (o & -> & H). cbn. split; [done|]. constructor; [done|constructor].
    + intros [He Hv]. destruct v' as [o| | | |[]| | |]; try done. exists o. split; [done|].
      cbn in Hv. by inversion Hv.
  - cbn [resolveEnv]. rewrite o_bind_Ok. split.
    + intros (w & [He Hv]%(IH Hm) & [= <-]). cbn. by rewrite He.
    + intros [He Hv]. destruct v' as [| | | |[w|]| | |]; try done. exists w. split; [|done].
      apply (IH Hm). cbn in He, Hv. by injection He.
  - apply resolve_slice. apply fold_right_Forall in Hm.
    eapply Forall_impl; [apply Forall_and; exact (conj IH Hm)|]. intros a [Ha1 Ha2]. by apply Ha1.
  - cbn in Hm. subst l. cbn. split; [by intros [= <-]|].
    intros [He _]. destruct v' as [| | | |[]| | |]; cbn in He; by simplify_eq.
  - apply resolve_struct. apply (fold_right_Forall (λ f, map_free f.2)) in Hm.
    eapply Forall_impl; [apply Forall_and; exact (conj IH Hm)|]. intros a [Ha1 Ha2]. by apply Ha1.
Qed.

(** Blanking decides the shape: a value that looks like the view of a
    struct is the view of a struct. *)
Class Shaped {A} (ofv : A → gval) : Prop :=
  shaped a v : erase v = erase (ofv a) → ∃ b, v = ofv b.

Ltac solve_leaf := intros a v H; destruct v as [| | | |[]| | |]; cbn in H; simplify_eq; by eexists.

Instance shaped_string : Shaped VString.
Proof. solve_leaf. Qed.
Instance shaped_int : Shaped VInt.
Proof. solve_leaf. Qed.
Instance shaped_bool : Shaped VBool.
Proof. solve_leaf. Qed.
Instance shaped_float : Shaped VFloat.
Proof. solve_leaf. Qed.
Instance shaped_map : Shaped (λ l, VMap (prod_map id VString <$> l)).
Proof. intros a v H. destruct v as [| | | |[]| | |]; cbn in H; simplify_eq. by eexists. Qed.

Instance shaped_ptr {A} (ofv : A → gval) `{!Shaped ofv} : Shaped (λ o, VPtr (ofv <$> o)).
Proof.
  intros [a|] v H; destruct v as [| | | |[w|]| | |]; cbn in H; simplify_eq.
  - destruct (shaped a w) as [b ->]; [done|]. by exists (Some b).
  - by exists None.
Qed.

Instance shaped_slice {A} (ofv : A → gval) `{!Shaped ofv} : Shaped (λ l, VSlice (ofv <$> l)).
Proof.
  intros l v H. destruct v as [| | | |[]|k| |]; cbn in H; try done. injection H as H.
  revert k H. induction l as [|a l IH]; intros [|w k] H; cbn in H; simplify_eq.
  - by exists [].
  - destruct (IH k) as [l' [= ->]]; [done|]. destruct (shaped a w) as [b ->]; [done|]. by exists (b :: l').
Qed.

Definition same_fields (l k : list (gostr * gostr * gostr * gval)) : Prop :=
  List.map (λ f, (f.1, erase f.2)) l = List.map (λ f, (f.1, erase f.2)) k.

Lemma erase_struct_inv v k : erase v = erase (VStruct k) → ∃ l, v = VStruct l ∧ same_fields l k.
Proof. intros H. destruct v as [| | | |[]| | |l]; cbn in H; try done. injection H as H. by exists l. Qed.

Lemma same_fields_cons {A} (ofv : A → gval) `{!Shaped ofv} l n a k :
  same_fields l ((n, ofv a) :: k) → ∃ b l', l = (n, ofv b) :: l' ∧ same_fields l' k.
Proof.
  destruct l as [|[m w] l]; [done|]. intros [= -> Hw Hl].
  destruct (shaped a w Hw) as [b ->]. by exists b, l.
Qed.

Lemma same_fields_nil l : same_fields l [] → l = [].
Proof. by destruct l. Qed.

(** Reads the fields of a struct back, one after the other. *)
Ltac solve_shaped build :=
  intros a v; lazymatch goal with |- erase v = erase (?f ?x) → _ => unfold f end;
  intros H; apply erase_struct_inv in H as (l & -> & H);
  unfold fstr, fsec, fint, fbool, fval in H;
  repeat (lazymatch type of H with
    | same_fields _ ((_, VPtr (@fmap _ _ _ _ ?f ?o)) :: _) =>
        apply (same_fields_cons (λ p, VPtr (f <$> p)) _ _ o) in H
    | same_fields _ ((_, VSlice (@fmap _ _ _ _ ?f ?l)) :: _) =>
        apply (same_fields_cons (λ p, VSlice (f <$> p)) _ _ l) in H
    | same_fields _ ((_, VMap (@fmap _ _ _ _ _ ?l)) :: _) =>
        apply (same_fields_cons (λ p, VMap (prod_map id VString <$> p)) _ _ l) in H
    | same_fields _ ((_, ?f ?x) :: _) => apply (same_fields_cons f _ _ x) in H
    end;
    destruct H as (? & ? & -> & H));
  apply same_fields_nil in H; subst; build.

Instance shaped_PostgresConfig : Shaped of_PostgresConfig.
Proof. solve_shaped ltac:(by eexists (Build_PostgresConfig _ _ _ _ _ _ _ _ _ _ _ _)). Qed.
Instance shaped_GitStorage : Shaped of_GitStorage.
Proof. solve_shaped ltac:(by eexists (Build_GitStorage _ _ _)). Qed.
Instance shaped_S3Config : Shaped of_S3Config.
Proof. solve_shaped ltac:(by eexists (Build_S3Config _ _ _ _ _ _ _)). Qed.
Instance shaped_ObjectStoreConfig : Shaped of_ObjectStoreConfig.
Proof. solve_shaped ltac:(by eexists (Build_ObjectStoreConfig _ _ _)). Qed.
Instance shaped_RegistryConfig : Shaped of_RegistryConfig.
Proof. solve_shaped ltac:(by eexists (Build_RegistryConfig _ _ _ _ _ _)). Qed.
Instance shaped_SiteConfig : Shaped of_SiteConfig.
Proof. solve_shaped ltac:(by eexists (Build_SiteConfig _ _ _ _ _ _ _)). Qed.
Instance shaped_SyncConfig : Shaped of_SyncConfig.
Proof. solve_shaped ltac:(by eexists (Build_SyncConfig _ _ _ _ _ _)). Qed.
Instance shaped_MetricsConfig : Shaped of_MetricsConfig.
Proof. solve_shaped ltac:(by eexists (Build_MetricsConfig _)). Qed.
Instance shaped_LogConfig : Shaped of_LogConfig.
Proof. solve_shaped ltac:(by eexists (Build_LogConfig _ _ _)). Qed.
Instance shaped_WebhookConfig : Shaped of_WebhookConfig.
Proof. solve_shaped ltac:(by eexists (Build_WebhookConfig _ _ _ _)). Qed.
Instance shaped_APIValidatorConfig : Shaped of_APIValidatorConfig.
Proof. solve_shaped ltac:(by eexists (Build_APIValidatorConfig _ _ _)). Qed.
Instance shaped_FailoverConfig : Shaped of_FailoverConfig.
Proof. solve_shaped ltac:(by eexists (Build_FailoverConfig _ _ _ _ _ _ _)). Qed.
Instance shaped_SSHConfig : Shaped of_SSHConfig.
Proof. solve_shaped ltac:(by eexists (Build_SSHConfig _ _)). Qed.
Instance shaped_Config : Shaped of_Config.
Proof. solve_shaped ltac:(by eexists (Build_Config _ _ _ _ _ _ _ _ _ _)). Qed.

(** No DNS parameters are configured. *)
Definition no_dns_config (c : Config) : Prop :=
  match cfg_Failover c with Some f => fo_DNSConfig f = [] | None => True end.

Lemma map_free_slice {A} (ofv : A → gval) l :
  (∀ a, map_free (ofv a)) → map_free (VSlice (ofv <$> l)).
Proof. intros H. induction l; cbn; [done|]. by split. Qed.

Lemma map_free_ptr {A} (ofv : A → gval) o :
  (∀ a, o = Some a → map_free (ofv a)) → map_free (VPtr (ofv <$> o)).
Proof. intros H. destruct o; cbn; [by apply H|done]. Qed.

Lemma map_free_site s : map_free (of_SiteConfig s).
Proof.
  cbn. repeat split.
  - apply map_free_ptr. by intros [].
  - by apply map_free_slice.
  - apply map_free_ptr. intros r _. cbn. repeat split. apply map_free_ptr. by intros [].
Qed.

Lemma map_free_Config c : no_dns_config c → map_free (of_Config c).
Proof.
  unfold no_dns_config, of_Config. intros Hd.
  cbn [map_free fold_right fval fstr snd]. split_and!; try done.
  - apply map_free_site.
  - apply map_free_slice, map_free_site.
  - apply map_free_ptr. by intros [].
  - apply map_free_ptr. by intros [].
  - apply map_free_ptr. intros f Hf. rewrite Hf in Hd. unfold of_FailoverConfig. rewrite Hd.
    cbn [map_free fold_right fval fstr fint fbool snd]. split_and!; try done. by apply map_free_slice.
Qed.

Lemma resolve_field getenv a l w i f :
  resolveEnv getenv a (VStruct l) = Returns (Ok w) → l !! i = Some f →
  ∃ v, resolveEnv getenv a f.2 = Returns (Ok v).
Proof.
  intros (k & Hk & _)%o_bind_Ok Hf. apply o_mapM_Ok in Hk.
  destruct (Forall2_lookup_l _ _ _ _ _ Hk Hf) as (b & _ & Hb). destruct f as [f v].
  apply o_bind_Ok in Hb as (u & Hu & _). by exists u.
Qed.

Lemma resolve_no_dns getenv c w :
  resolveEnv getenv true (of_Config c) = Returns (Ok w) → no_dns_config c.
Proof.
  intros H. unfold no_dns_config. destruct (cfg_Failover c) as [f|] eqn:Ef; [|done].
  eapply (resolve_field _ _ _ _ 8) in H as [v Hv]; [|done].
  cbn [snd fval] in Hv. rewrite Ef in Hv. cbn [fmap option_fmap option_map] in Hv.
  apply o_bind_Ok in Hv as (u & Hu & _).
  eapply (resolve_field _ _ _ _ 4) in Hu as [m Hm]; [|done]. cbn [snd fval] in Hm.
  apply o_bind_Ok in Hm as (l & Hl & _). apply o_mapM_Ok in Hl.
  destruct (fo_DNSConfig f) as [|[k s] r]; [done|].
  inversion Hl as [|? ? ? ? Hks]; subst. cbn in Hks. by destruct (expandEnvString getenv s).
Qed.

(** [resolveEnvInStruct] returns [c'] exactly when no DNS parameter
    is configured and [c'] is [c] with the single-pass expansion of every
    string of the configuration, secrets, nested and optional structs and
    list elements included, in its place, and with nothing else changed.
    (On any [failover.dns_config] entry it does not return a
    configuration: see [dns_config_panics].) *)
Lemma resolveEnvInStruct_Ok getenv c c' :
  resolveEnvInStruct getenv c = Returns (Ok c') ↔
  no_dns_config c ∧ erase (of_Config c') = erase (of_Config c) ∧
  Forall2 (expands getenv) (leaves (of_Config c)) (leaves (of_Config c')).
Proof.
  unfold resolveEnvInStruct. rewrite o_bind_Ok. split.
  - intros (v & Hv & Hc). pose proof (resolve_no_dns _ _ _ Hv) as Hd. split; [done|].
    apply (resolveEnv_spec getenv _ (map_free_Config c Hd)) in Hv as [He Hl].
    destruct (shaped c v He) as [b ->]. rewrite (to_of b) in Hc. injection Hc as <-. done.
  - intros (Hd & He & Hl). exists (of_Config c'). split.
    + by apply resolveEnv_spec; [apply map_free_Config|].
    + by rewrite (to_of c').
Qed.

(** ** Validation *)

Definition ssh_host_ok (s : SiteConfig) : Prop :=
  site_SSHHost s = [] ∨ ∃ ep, ParseEndpoint (site_SSHHost s) = Ok ep.

Definition external_url_ok (url_Parse : gostr → res URL) (s : SiteConfig) : Prop :=
  site_ExternalURL s = [] ∨ ∃ u, url_Parse (site_ExternalURL s) = Ok u ∧
    (Scheme u = "https" ∨ Scheme u = "http") ∧ URLHost u ≠ [].

(** What a configuration must satisfy to be accepted. *)
Record valid_config (url_Parse : gostr → res URL) (c : Config) : Prop := {
  v_name : site_Name (cfg_Primary c) ≠ [];
  v_url : site_ExternalURL (cfg_Primary c) ≠ [];
  v_host : pg_Host (site_Postgres (cfg_Primary c)) ≠ [];
  v_port : pg_Port (site_Postgres (cfg_Primary c)) ≠ 0%Z;
  v_repl_user : pg_ReplicationUser (site_Postgres (cfg_Primary c)) ≠ [];
  v_repl_password : pg_ReplicationPassword (site_Postgres (cfg_Primary c)) ≠ [];
  v_ssh : ∀ s, s ∈ cfg_Primary c :: cfg_Secondaries c → ssh_host_ok s;
  v_policy : ssh_StrictHostKeyChecking (cfg_SSH c) ∈ ([[]; "yes"; "no"; "accept-new"] : list gostr);
  v_urls : ∀ s, s ∈ cfg_Primary c :: cfg_Secondaries c → external_url_ok url_Parse s;
  v_tls : ∀ w, cfg_Webhook c = Some w → wh_TLSCert w = [] ↔ wh_TLSKey w = [];
  v_mode : git_Mode (site_Git (cfg_Primary c)) = "fetch" ∨
    git_Mode (site_Git (cfg_Primary c)) = "rsync" ∧ git_ReposPath (site_Git (cfg_Primary c)) ≠ [];
  v_secondaries : cfg_Secondaries c ≠ [];
  v_unique : NoDup (site_Name <$> cfg_Secondaries c);
  v_each : ∀ s, s ∈ cfg_Secondaries c → site_Name s ≠ [] ∧ pg_Host (site_Postgres s) ≠ [] ∧
    pg_ReplicationPassword (site_Postgres s) ≠ [];
}.

Lemma diag_errors_app l k : diag_errors (l ++ k) = [] ↔ diag_errors l = [] ∧ diag_errors k = [].
Proof. unfold diag_errors. by rewrite omap_app, app_nil. Qed.

Lemma diag_errors_err_if b m : diag_errors (err_if b m) = [] ↔ b = false.
Proof. by destruct b. Qed.

Lemma diag_errors_warn_if b m : diag_errors (warn_if b m) = [].
Proof. by destruct b. Qed.

Lemma diag_errors_imap {A} (f : nat → A → list diag) (P : A → Prop) l :
  (∀ i a, diag_errors (f i a) = [] ↔ P a) →
  diag_errors (mjoin (imap f l)) = [] ↔ ∀ a, a ∈ l → P a.
Proof.
  revert f. induction l as [|a l IH]; intros f Hf; cbn.
  { split; [|done]. intros _ a Ha. by apply elem_of_nil in Ha. }
  rewrite diag_errors_app, Hf, (IH (f ∘ S)) by (intros; apply Hf).
  setoid_rewrite elem_of_cons. naive_solver.
Qed.

Lemma diag_errors_sites (f : SiteConfig → list diag) (g : nat → SiteConfig → list diag) P p l :
  (diag_errors (f p) = [] ↔ P p) → (∀ i a, diag_errors (g i a) = [] ↔ P a) →
  diag_errors (f p ++ mjoin (imap g l)) = [] ↔ ∀ s, s ∈ p :: l → P s.
Proof.
  intros Hf Hg. rewrite diag_errors_app, Hf, (diag_errors_imap g P l Hg).
  setoid_rewrite elem_of_cons. naive_solver.
Qed.

Lemma validateSSHHosts_ok c : diag_errors (validateSSHHosts c) = [] ↔
  ∀ s, s ∈ cfg_Primary c :: cfg_Secondaries c → ssh_host_ok s.
Proof.
  assert (∀ label s, diag_errors (check_ssh_host label (site_SSHHost s)) = [] ↔ ssh_host_ok s) as H.
  { intros label s. unfold check_ssh_host, ssh_host_ok.
    destruct (bool_decide_reflect (site_SSHHost s = [])); [by split; [left|]|].
    destruct (ParseEndpoint _); cbn; naive_solver. }
  apply (diag_errors_sites (λ s, check_ssh_host "primary" (site_SSHHost s))); intros; apply H.
Qed.

Lemma validateExternalURLs_ok url_Parse c : diag_errors (validateExternalURLs url_Parse c) = [] ↔
  ∀ s, s ∈ cfg_Primary c :: cfg_Secondaries c → external_url_ok url_Parse s.
Proof.
  assert (∀ label s, diag_errors (check_external_url url_Parse label (site_ExternalURL s)) = []
    ↔ external_url_ok url_Parse s) as H.
  { intros label s. unfold check_external_url, external_url_ok.
    destruct (bool_decide_reflect (site_ExternalURL s = [])); [by split; [left|]|].
    destruct (url_Parse _) as [u|e]; [|cbn; naive_solver].
    destruct (bool_decide_reflect (Scheme u = "https")), (bool_decide_reflect (Scheme u = "http"));
      cbn [orb]; rewrite ?diag_errors_app, ?diag_errors_warn_if, ?diag_errors_err_if, ?bool_decide_eq_false;
      cbn; naive_solver. }
  apply (diag_errors_sites (λ s, check_external_url url_Parse "primary" (site_ExternalURL s)));
    intros; apply H.
Qed.

Lemma validateSSHPolicy_ok c : diag_errors (validateSSHPolicy c) = [] ↔
  ssh_StrictHostKeyChecking (cfg_SSH c) ∈ ([[]; "yes"; "no"; "accept-new"] : list gostr).
Proof.
  unfold validateSSHPolicy. destruct (bool_decide_reflect (ssh_StrictHostKeyChecking (cfg_SSH c) ∈ ([[]; "yes"; "no"; "accept-new"] : list gostr)));
    cbn [negb]; [|by split].
  rewrite diag_errors_app, !diag_errors_warn_if. by split.
Qed.

Lemma validateWebhookTLS_ok c : diag_errors (validateWebhookTLS c) = [] ↔
  ∀ w, cfg_Webhook c = Some w → wh_TLSCert w = [] ↔ wh_TLSKey w = [].
Proof.
  unfold validateWebhookTLS. destruct (cfg_Webhook c) as [w|]; [|naive_solver].
  repeat case_bool_decide; cbn; naive_solver.
Qed.

Lemma warnings_only_paths c : diag_errors (warnInvalidPaths c) = [].
Proof. unfold warnInvalidPaths. by induction (validatePaths c). Qed.

Lemma warnings_only_ssl c : diag_errors (warnInsecureSSL c) = [].
Proof.
  unfold warnInsecureSSL. rewrite diag_errors_app, diag_errors_warn_if. split; [done|].
  apply (diag_errors_imap _ (λ _, True)); [|done]. intros. by rewrite diag_errors_warn_if.
Qed.

Lemma warnings_only_metrics c : diag_errors (warnMetricsExposed c) = [].
Proof. unfold warnMetricsExposed. destruct (SplitHostPort_host _); [apply diag_errors_warn_if|done]. Qed.

Lemma check_secondaries_ok l : ∀ i seen, diag_errors (check_secondaries i seen l) = [] ↔
  NoDup (site_Name <$> l) ∧ (∀ s, s ∈ l → site_Name s ∉ seen) ∧
  ∀ s, s ∈ l → site_Name s ≠ [] ∧ pg_Host (site_Postgres s) ≠ [] ∧
    pg_ReplicationPassword (site_Postgres s) ≠ [].
Proof.
  induction l as [|s l IH]; intros i seen; cbn [check_secondaries].
  { cbn. split; [|done]. intros _. split; [constructor|].
    split; intros s Hs; by apply elem_of_nil in Hs. }
  rewrite !diag_errors_app, !diag_errors_err_if, IH.
  rewrite andb_false_iff, !bool_decide_eq_false, fmap_cons, NoDup_cons.
  setoid_rewrite elem_of_cons. setoid_rewrite elem_of_union. setoid_rewrite elem_of_singleton.
  rewrite list_elem_of_fmap. destruct (decide (site_Name s = [])); naive_solver.
Qed.

Lemma mode_ok (m p : gostr) :
  m ≠ [] → m = "rsync" ∨ m = "fetch" → m ≠ "rsync" ∨ p ≠ [] → m = "fetch" ∨ m = "rsync" ∧ p ≠ [].
Proof. tauto. Qed.

Lemma mode_ok_inv (m p : gostr) : m = "fetch" ∨ m = "rsync" ∧ p ≠ [] →
  m ≠ [] ∧ (m = "rsync" ∨ m = "fetch") ∧ (m ≠ "rsync" ∨ p ≠ []).
Proof. intros [->|[-> ?]]; split_and!; auto; discriminate. Qed.

(** [validate] accepts a configuration exactly when it satisfies
    [valid_config] (required fields, host-key policy, parsable SSH hosts
    and URLs, both or neither of the TLS files, at least one secondary,
    unique names), whatever warnings it logs, and then returns it with
    the defaults filled in. *)
Lemma validate_Ok url_Parse c c' :
  validate url_Parse c = Ok c' ↔ valid_config url_Parse c ∧ c' = apply_defaults c.
Proof.
  assert (diag_errors (validate_diags url_Parse c) = [] ↔ valid_config url_Parse c) as H.
  { unfold validate_diags. rewrite !diag_errors_app, !diag_errors_err_if, diag_errors_warn_if.
    rewrite warnings_only_ssl, warnings_only_paths, warnings_only_metrics.
    rewrite validateSSHHosts_ok, validateSSHPolicy_ok, validateExternalURLs_ok, validateWebhookTLS_ok.
    rewrite (check_secondaries_ok _ 0 ∅), negb_false_iff, orb_true_iff, andb_false_iff.
    rewrite !bool_decide_eq_true, !bool_decide_eq_false.
    assert (diag_errors match cfg_Failover c with
      | Some f => warn_if (fo_AutoFailover f) [FS "failover.auto_failover is true"]
      | None => [] end = []) as -> by (destruct (cfg_Failover c); [apply diag_errors_warn_if|done]).
    split.
    - intros. destruct_and!. constructor; try assumption. by apply mode_ok.
    - intros []. apply mode_ok_inv in v_mode0 as (? & ? & ?).
      split_and!; try assumption; try reflexivity. intros. apply not_elem_of_empty. }
  unfold validate. destruct (diag_errors _) eqn:E; cbn; [naive_solver|].
  split; [done|]. intros [Hv _]. by apply H in Hv.
Qed.

(** ** Load *)

(** Every field with a default is set. *)
Definition has_defaults (c : Config) : Prop :=
  sync_SweepInterval (cfg_Sync c) ≠ 0%Z ∧ sync_LagWarningThreshold (cfg_Sync c) ≠ 0%Z ∧
  sync_LagCriticalThreshold (cfg_Sync c) ≠ 0%Z ∧
  SFeqb (sync_ConsistencySamplePct (cfg_Sync c)) (S754_zero false) = false ∧
  met_Addr (cfg_Metrics c) ≠ [] ∧ log_Level (cfg_Log c) ≠ [] ∧ log_Format (cfg_Log c) ≠ [] ∧
  ∀ f, cfg_Failover c = Some f →
    fo_HealthCheckInterval f ≠ 0%Z ∧ fo_QuorumRequired f ≠ 0%Z ∧ fo_DNSPlugin f ≠ [].

Lemma or_default_ne {A} `{EqDecision A} (z d v : A) : d ≠ z → or_default z d v ≠ z.
Proof. intros Hd. unfold or_default. by case_bool_decide. Qed.

Lemma apply_defaults_has c : has_defaults (apply_defaults c).
Proof.
  unfold has_defaults, apply_defaults; cbn. split_and!; try by apply or_default_ne.
  - by destruct (SFeqb (sync_ConsistencySamplePct (cfg_Sync c)) _) eqn:E.
  - intros f. destruct (cfg_Failover c); [|done]. intros [= <-]. cbn.
    split_and!; by apply or_default_ne.
Qed.

Lemma or_default_id {A} `{EqDecision A} (z d v : A) : v ≠ z → or_default z d v = v.
Proof. intros Hv. unfold or_default. by rewrite bool_decide_eq_false_2. Qed.

(** Defaulting a configuration that has them changes nothing. *)
Lemma apply_defaults_id c : has_defaults c → apply_defaults c = c.
Proof.
  destruct c as [p ss [] [] [] ? ? ? fo ?]. unfold has_defaults; cbn. intros (?&?&?&Hs&?&?&?&Hf).
  unfold apply_defaults, default_sync; cbn. rewrite Hs, !or_default_id by done.
  f_equal. destruct fo as [[]|]; [|done]. cbn. unfold default_failover; cbn.
  destruct (Hf _ eq_refl) as (?&?&?); cbn in *. by rewrite !or_default_id.
Qed.

(** C11: [Load] returns a configuration exactly when the file reads and
    decodes, its secrets are placeholders (or literals are allowed), no
    DNS parameter is set, every placeholder expands, and the expanded
    configuration is valid; the result is that configuration with its
    defaults, none of which is missing. *)
Theorem Load_spec getenv url_Parse readFile decode flag path c :
  Load getenv url_Parse readFile decode flag path = Returns (Ok c) ↔
  ∃ raw c0 c1, readFile path = Ok raw ∧ decode raw = Ok c0 ∧
    (literalSecretsAllowed getenv flag = true ∨ Forall secret_ok (secret_values c0)) ∧
    no_dns_config c0 ∧ erase (of_Config c1) = erase (of_Config c0) ∧
    Forall2 (expands getenv) (leaves (of_Config c0)) (leaves (of_Config c1)) ∧
    valid_config url_Parse c1 ∧ c = apply_defaults c1 ∧ has_defaults c.
Proof.
  unfold Load. split.
  - destruct (readFile path) as [raw|]; [|done]. destruct (decode raw) as [c0|] eqn:Ed; [|done].
    destruct (enforceSecretsAreEnvRefs _ _ _) eqn:Es; [done|]. apply enforce_None in Es.
    rewrite o_bind_Ok. intros (c1 & (?&?&?)%resolveEnvInStruct_Ok & [= [Hv ->]%validate_Ok]).
    exists raw, c0, c1. split_and!; try done. apply apply_defaults_has.
  - intros (raw & c0 & c1 & -> & -> & Hs & Hd & He & Hl & Hv & -> & _).
    apply (enforce_None getenv flag) in Hs as ->. apply o_bind_Ok. exists c1.
    split; [by apply resolveEnvInStruct_Ok|]. f_equal. by apply validate_Ok.
Qed.

(** ** Examples *)

(** A small configuration, as the decoder would return it. *)
Definition ex_postgres : PostgresConfig :=
  Build_PostgresConfig "db" 5432 "gitlabhq_production" "gitlab" "${PG_PASSWORD}"
    "repl" "${REPL_PASSWORD}" [] [] [] [] [].

Definition ex_site (name url ssh : gostr) : SiteConfig :=
  Build_SiteConfig name url ex_postgres (Build_GitStorage "fetch" [] true)
    (Build_ObjectStoreConfig "s3" None []) None ssh.

Definition ex_config (failover : option FailoverConfig) : Config :=
  Build_Config (ex_site "eu" "https://gitlab.eu" "root@eu") [ex_site "us" "https://gitlab.us" []]
    (Build_SyncConfig 0 0 0 false false (S754_zero false)) (Build_MetricsConfig [])
    (Build_LogConfig [] [] false) [] None None failover (Build_SSHConfig [] []).

Definition ex_failover (dns : list (gostr * gostr)) : FailoverConfig :=
  Build_FailoverConfig [] 0 0 [] dns false [].

(** Every variable is set to a value that looks like a placeholder. *)
Definition ex_getenv (name : gostr) : option gostr :=
  if bool_decide (name = allowLiteralSecretsEnv) then None else Some "${OTHER}".

Definition ex_parse (u : gostr) : res URL := Ok (mkURL "https" (drop 8 u) (drop 8 u)).

Definition ex_load (c : Config) : outcome Config :=
  Load ex_getenv ex_parse (λ _, Ok []) (λ _, Ok c) false "syncctl.yaml".

(** The example loads, and the expanded secrets are not expanded again. *)
Example load_example : ∃ c, ex_load (ex_config None) = Returns (Ok c) ∧
  pg_Password (site_Postgres (cfg_Primary c)) = "${OTHER}" ∧
  sync_SweepInterval (cfg_Sync c) = (5 * Minute)%Z.
Proof. eexists. split; [vm_compute; reflexivity|split; vm_compute; reflexivity]. Qed.

(** A [failover.dns_config] entry makes [Load] panic. *)
Example dns_config_panics :
  ex_load (ex_config (Some (ex_failover [("zone_id" : gostr, "Z1" : gostr)]))) =
  Panics "reflect.Value.SetString using unaddressable value".
Proof. vm_compute. reflexivity. Qed.
