(* ===== verification/Dsn.v ===== *)
(** * internal/config: connection strings

    The libpq connection strings of [PostgresConfig], against the
    conninfo grammar of the libpq documentation. *)
From Stdlib Require Import Ascii ZArith Lia.
From stdpp Require Import prelude strings gmap list.
From S2P Require Import Prelude GoStrings ConfigData.
Open Scope go_scope.

(** ** Connection strings *)

(** [quoteLibPQValue]. *)
Fixpoint escape_libpq (v : gostr) : gostr :=
  match v with
  | [] => []
  | c :: v => (if in_set [BSL; SQ] c then [BSL; c] else [c]) ++ escape_libpq v
  end.

Definition quoteLibPQValue (v : gostr) : gostr :=
  if bool_decide (v = []) then "''"
  else if negb (ContainsAny v [SPC; SQ; BSL]) then v
  else "'" ++ escape_libpq v ++ "'".

Definition effectiveSSLMode (p : PostgresConfig) : gostr :=
  if bool_decide (pg_SSLMode p = []) then "require" else pg_SSLMode p.

(** The key/value pairs of [dsnFrom]; a nil password has no pair. *)
Definition dsn_pairs (p : PostgresConfig) (user : gostr) (password : option gostr)
    (dbname : gostr) : list (gostr * gostr) :=
  let opt (k v : gostr) := if bool_decide (v ≠ []) then [(k, v)] else [] in
  [("host" : gostr, pg_Host p); ("port" : gostr, Itoa (pg_Port p)); ("user" : gostr, user)] ++
  match password with Some pw => [("password" : gostr, pw)] | None => [] end ++
  [("dbname" : gostr, dbname); ("sslmode" : gostr, effectiveSSLMode p)] ++
  opt "sslrootcert" (pg_SSLRootCert p) ++
  opt "sslcert" (pg_SSLCert p) ++
  opt "sslkey" (pg_SSLKey p).

Definition render_pair (kv : gostr * gostr) : gostr := kv.1 ++ "=" ++ quoteLibPQValue kv.2.

Definition dsnFrom (p : PostgresConfig) (user : gostr) (password : option gostr)
    (dbname extra : gostr) : gostr :=
  JoinWith (render_pair <$> dsn_pairs p user password dbname) [SPC] ++
  (if bool_decide (extra ≠ []) then [SPC] ++ extra else []).

Definition buildDSN (p : PostgresConfig) (user password dbname extra : gostr) : gostr :=
  dsnFrom p user (Some password) dbname extra.

Definition DSN (p : PostgresConfig) : gostr :=
  buildDSN p (pg_User p) (pg_Password p) (pg_DB p) [].

Definition ReplicationDSN (p : PostgresConfig) : gostr :=
  buildDSN p (pg_ReplicationUser p) (pg_ReplicationPassword p) "replication"
    "application_name=syncctl".

Definition ReplicationConnInfo (p : PostgresConfig) : gostr * gostr :=
  (dsnFrom p (pg_ReplicationUser p) None "replication" "application_name=syncctl",
   pg_ReplicationPassword p).

(** ** The conninfo grammar

    [keyword = value] pairs: a value is bare, up to the next white space,
    or between single quotes; a backslash makes the next byte literal. *)
Definition isspace (c : ascii) : bool := in_set [SPC; TAB; LF; "011"%char; "012"%char; CR] c.

Fixpoint skip_spaces (s : gostr) : gostr :=
  match s with c :: r => if isspace c then skip_spaces r else s | [] => [] end.

Fixpoint read_quoted (s : gostr) : option (gostr * gostr) :=
  match s with
  | [] => None
  | c :: r =>
      if bool_decide (c = SQ) then Some ([], r)
      else if bool_decide (c = BSL) then
        match r with
        | d :: r => prod_map (cons d) id <$> read_quoted r
        | [] => None
        end
      else prod_map (cons c) id <$> read_quoted r
  end.

Fixpoint read_bare (s : gostr) : gostr * gostr :=
  match s with
  | [] => ([], [])
  | c :: r =>
      if isspace c then ([], s)
      else if bool_decide (c = BSL) then
        match r with
        | d :: r => prod_map (cons d) id (read_bare r)
        | [] => ([], [])
        end
      else prod_map (cons c) id (read_bare r)
  end.

Fixpoint read_key (s : gostr) : gostr * gostr :=
  match s with
  | [] => ([], [])
  | c :: r =>
      if bool_decide (c = "="%char) || isspace c then ([], s)
      else prod_map (cons c) id (read_key r)
  end.

Definition read_value (s : gostr) : option (gostr * gostr) :=
  match s with
  | c :: r => if bool_decide (c = SQ) then read_quoted r else Some (read_bare s)
  | [] => Some ([], [])
  end.

Fixpoint parse_pairs (fuel : nat) (s : gostr) : option (list (gostr * gostr)) :=
  match fuel with
  | O => None
  | S fuel =>
      match skip_spaces s with
      | [] => Some []
      | s =>
          let '(k, r) := read_key s in
          match skip_spaces r with
          | "="%char :: r =>
              '(v, r) ← read_value (skip_spaces r);
              l ← parse_pairs fuel r;
              Some ((k, v) :: l)
          | _ => None
          end
      end
  end.

Definition parse_conninfo (s : gostr) : option (list (gostr * gostr)) := parse_pairs (S (length s)) s.

(** The values [quoteLibPQValue] renders faithfully: white space other
    than the plain space is only quoted when a space, a quote or a
    backslash occurs too. *)
Definition libpq_value (v : gostr) : Prop :=
  ContainsAny v [SPC; SQ; BSL] = true ∨ Forall (λ c, isspace c = false) v.

Definition key_ok (k : gostr) : bool :=
  match k with [] => false | _ => forallb (λ c, negb (bool_decide (c = "="%char) || isspace c)) k end.

(** ** Lemmas *)

Lemma read_quoted_escape v r : read_quoted (escape_libpq v ++ SQ :: r) = Some (v, r).
Proof.
  induction v as [|c v IH]; [done|]. cbn [escape_libpq].
  destruct (in_set [BSL; SQ] c) eqn:Ec.
  - cbn [app read_quoted]. by rewrite IH.
  - cbn [app read_quoted]. cbn in Ec. rewrite IH.
    rewrite !bool_decide_eq_false_2; [done|..]; intros ->; done.
Qed.

Definition stops (r : gostr) : Prop := r = [] ∨ ∃ r', r = SPC :: r'.

Lemma read_bare_plain v r : stops r →
  Forall (λ c, isspace c = false) v → BSL ∉ v → read_bare (v ++ r) = (v, r).
Proof.
  intros Hr Hv Hb. induction Hv as [|c v Hc Hv IH]; cbn [app].
  - destruct Hr as [->|[r' ->]]; done.
  - apply not_elem_of_cons in Hb as [Hcb Hb]. cbn [read_bare].
    by rewrite Hc, bool_decide_eq_false_2, IH by done.
Qed.

Lemma read_key_ok k r : key_ok k = true → read_key (k ++ "="%char :: r) = (k, "="%char :: r).
Proof.
  intros Hk. assert (Forall (λ c, (bool_decide (c = "="%char) || isspace c) = false) k) as H.
  { destruct k; [done|]. apply forallb_Forall in Hk. eapply Forall_impl; [exact Hk|].
    intros c Hc. by apply negb_true_iff in Hc. }
  clear Hk. induction H as [|c k Hc Hk IH]; [done|]. cbn [app read_key]. by rewrite Hc, IH.
Qed.

Lemma skip_spaces_id c r : isspace c = false → skip_spaces (c :: r) = c :: r.
Proof. intros H. cbn. by rewrite H. Qed.

Lemma read_value_quote v r : libpq_value v → stops r →
  read_value (skip_spaces (quoteLibPQValue v ++ r)) = Some (v, r).
Proof.
  intros Hv Hr. unfold quoteLibPQValue. destruct v as [|c v]; [done|].
  rewrite (bool_decide_eq_false_2 (c :: v = [])) by done.
  destruct (ContainsAny (c :: v) _) eqn:Ec; cbn [negb].
  - rewrite <- !app_assoc. exact (read_quoted_escape (c :: v) r).
  - destruct Hv as [Hv|Hv]; [congruence|]. apply ContainsAny_false in Ec.
    assert (BSL ∉ c :: v) as Hb.
    { intros Hb. rewrite Forall_forall in Ec. apply (Ec BSL Hb). set_solver. }
    rewrite <- app_comm_cons, skip_spaces_id by by inversion Hv.
    cbn [read_value]. rewrite bool_decide_eq_false_2.
    + by rewrite (app_comm_cons v r), (read_bare_plain (c :: v) r).
    + intros ->. inversion Ec as [|? ? Hq]; subst. set_solver.
Qed.

Lemma key_ok_head k : key_ok k = true → ∃ c t, k = c :: t ∧ isspace c = false.
Proof.
  destruct k as [|c t]; [done|]. cbn. intros H. exists c, t. split; [done|].
  by destruct (isspace c), (bool_decide (c = "="%char)).
Qed.

(** One rendered pair is read back, whatever follows it. *)
Lemma parse_pairs_render fuel k v r : key_ok k = true → libpq_value v → stops r →
  parse_pairs (S fuel) (render_pair (k, v) ++ r) = (λ l, (k, v) :: l) <$> parse_pairs fuel r.
Proof.
  intros Hk Hv Hr. unfold render_pair. cbn [fst snd]. rewrite <- !app_assoc. cbn [app].
  pose proof (read_key_ok k (quoteLibPQValue v ++ r) Hk) as Hkey.
  destruct (key_ok_head k Hk) as (c & t & -> & Hc). cbn [app] in Hkey |- *.
  cbn [parse_pairs]. rewrite skip_spaces_id, Hkey, skip_spaces_id by done.
  rewrite read_value_quote by done. cbn. by destruct (parse_pairs fuel r).
Qed.

Lemma parse_pairs_more f g s l : parse_pairs f s = Some l → f ≤ g → parse_pairs g s = Some l.
Proof.
  revert g s l. induction f as [|f IH]; intros g s l; [done|]. intros H Hg.
  destruct g as [|g]; [lia|]. cbn [parse_pairs] in *.
  destruct (skip_spaces s) as [|c t]; [done|]. destruct (read_key _) as [k r].
  destruct (skip_spaces r) as [|d r']; [done|].
  repeat case_next; try done.
  destruct (read_value _) as [[v r'']|]; [|done]. cbn in *.
  destruct (parse_pairs f r'') eqn:E; [|done]. by rewrite (IH g _ _ E) by lia.
Qed.

Lemma skip_spaces_sp r : skip_spaces (SPC :: r) = skip_spaces r.
Proof. done. Qed.

Lemma parse_pairs_sp f r : parse_pairs f (SPC :: r) = parse_pairs f r.
Proof. by destruct f. Qed.

(** A list of rendered pairs, followed by more text. *)
Lemma parse_rendered l r ps f :
  Forall (λ kv, key_ok kv.1 = true ∧ libpq_value kv.2) l → stops r →
  parse_pairs f r = Some ps →
  ∃ g, parse_pairs g (JoinWith (render_pair <$> l) [SPC] ++ r) = Some (l ++ ps).
Proof.
  intros Hl Hr Hps. induction Hl as [|[k v] l [Hk Hv] Hl IH]; [by exists f|].
  destruct IH as [g Hg]. exists (S g). destruct l as [|kv l].
  - cbn [fmap list_fmap JoinWith]. rewrite parse_pairs_render by done. cbn in Hg. by rewrite Hg.
  - change (JoinWith (render_pair <$> (k, v) :: kv :: l) [SPC])
      with (render_pair (k, v) ++ [SPC] ++ JoinWith (render_pair <$> kv :: l) [SPC]).
    rewrite <- !app_assoc. rewrite parse_pairs_render; [|done|done|by right; eexists].
    cbn [app]. by rewrite parse_pairs_sp, Hg.
Qed.

(** Reading consumes the text, so the length of the text is enough fuel. *)
Lemma skip_spaces_length s : length (skip_spaces s) ≤ length s.
Proof. induction s as [|c s IH]; cbn; [done|]. destruct (isspace c); cbn; lia. Qed.

Lemma read_key_length s : length (read_key s).2 ≤ length s.
Proof.
  induction s as [|c s IH]; cbn; [done|]. destruct (_ || _); cbn; [lia|].
  destruct (read_key s); cbn in *; lia.
Qed.

Lemma read_bare_length n s : length s ≤ n → length (read_bare s).2 ≤ length s.
Proof.
  revert s. induction n as [|n IH]; intros [|c s] Hn; cbn in *; try lia.
  destruct (isspace c); cbn; [lia|]. destruct (bool_decide _).
  - destruct s as [|d s]; cbn; [lia|]. pose proof (IH s). cbn in Hn.
    destruct (read_bare s); cbn in *; lia.
  - pose proof (IH s). destruct (read_bare s); cbn in *; lia.
Qed.

Lemma read_quoted_length n s v r : length s ≤ n → read_quoted s = Some (v, r) → length r ≤ length s.
Proof.
  revert s v r. induction n as [|n IH]; intros [|c s] v r Hn; cbn in *; try done; [lia|].
  destruct (bool_decide (c = SQ)); [intros [= <- <-]; lia|]. destruct (bool_decide _).
  - destruct s as [|d s]; [done|]. intros ([v' r'] & Hq & [= -> ->])%fmap_Some_1.
    apply IH in Hq; cbn in *; unfold id; lia.
  - intros ([v' r'] & Hq & [= -> ->])%fmap_Some_1. apply IH in Hq; cbn in *; unfold id; lia.
Qed.

Lemma read_value_length s v r : read_value s = Some (v, r) → length r ≤ length s.
Proof.
  destruct s as [|c s]; cbn [read_value]; [by intros [= <- <-]|].
  destruct (bool_decide _).
  - intros H. apply (read_quoted_length _ _ _ _ (le_n _)) in H. cbn. lia.
  - intros H. apply Some_inj in H. change r with ((v, r).2). rewrite <- H.
    exact (read_bare_length _ (c :: s) (le_n _)).
Qed.

Lemma parse_pairs_fuel g s l f : parse_pairs g s = Some l → length s < f → parse_pairs f s = Some l.
Proof.
  revert f s l. induction g as [|g IH]; intros f s l; [done|]. intros H Hf.
  destruct f as [|f]; [lia|]. cbn [parse_pairs] in *. pose proof (skip_spaces_length s) as H1.
  destruct (skip_spaces s) as [|c t]; [done|]. pose proof (read_key_length (c :: t)) as H2.
  destruct (read_key _) as [k r]; cbn [snd] in H2. pose proof (skip_spaces_length r) as H3.
  destruct (skip_spaces r) as [|d r']; [done|].
  repeat case_next; try done. pose proof (skip_spaces_length r') as H4.
  destruct (read_value _) as [[v r'']|] eqn:Ev; [|done]. apply read_value_length in Ev. cbn in *.
  destruct (parse_pairs g r'') eqn:E; [|done]. rewrite (IH f _ _ E) by lia. done.
Qed.

Lemma parse_conninfo_rendered l r ps :
  Forall (λ kv, key_ok kv.1 = true ∧ libpq_value kv.2) l → stops r →
  parse_conninfo r = Some ps →
  parse_conninfo (JoinWith (render_pair <$> l) [SPC] ++ r) = Some (l ++ ps).
Proof.
  intros Hl Hr Hps. destruct (parse_rendered l r ps _ Hl Hr Hps) as [g Hg].
  apply (parse_pairs_fuel g); [done|lia].
Qed.

(** The values a connection string carries. *)
Definition dsn_values (p : PostgresConfig) (user : gostr) (password : option gostr)
    (dbname : gostr) : list gostr :=
  [pg_Host p; user; default [] password; dbname; pg_SSLMode p;
   pg_SSLRootCert p; pg_SSLCert p; pg_SSLKey p].

Lemma Itoa_value z : libpq_value (Itoa z).
Proof.
  right. assert (∀ c, number_byte c = true → negb (isspace c) = true) as H by byte_cases.
  eapply Forall_impl; [apply Itoa_bytes|]. intros c Hc. by apply negb_true_iff, H.
Qed.

Lemma effectiveSSLMode_value p : libpq_value (pg_SSLMode p) → libpq_value (effectiveSSLMode p).
Proof.
  intros H. unfold effectiveSSLMode. case_bool_decide; [|done]. right. by repeat constructor.
Qed.

Definition pair_ok (kv : gostr * gostr) : Prop := key_ok kv.1 = true ∧ libpq_value kv.2.

Lemma opt_pair_ok k v : key_ok k = true → libpq_value v →
  Forall pair_ok (if bool_decide (v ≠ []) then [(k, v)] else []).
Proof. intros Hk Hv. case_bool_decide; [|constructor]. constructor; [done|constructor]. Qed.

Lemma dsn_pairs_ok p user password dbname :
  Forall libpq_value (dsn_values p user password dbname) →
  Forall pair_ok (dsn_pairs p user password dbname).
Proof.
  unfold dsn_values. rewrite !Forall_cons. intros (?&?&?&?&?&?&?&?&_). unfold dsn_pairs.
  rewrite !Forall_app, !Forall_cons, !Forall_nil. unfold pair_ok. cbn [fst snd].
  split_and!; try done; try by apply opt_pair_ok.
  - apply Itoa_value.
  - destruct password; [|constructor]. constructor; [done|constructor].
  - by apply effectiveSSLMode_value.
Qed.

Lemma parse_dsnFrom p user password dbname extra ps :
  Forall libpq_value (dsn_values p user password dbname) → parse_conninfo extra = Some ps →
  parse_conninfo (dsnFrom p user password dbname extra) =
  Some (dsn_pairs p user password dbname ++ ps).
Proof.
  intros Hv He. unfold dsnFrom. apply parse_conninfo_rendered; [by apply dsn_pairs_ok|..].
  - destruct (bool_decide_reflect (extra ≠ [])); [right; by eexists|by left].
  - destruct (bool_decide_reflect (extra ≠ [])) as [Hne|Hne].
    + unfold parse_conninfo. cbn [app]. rewrite parse_pairs_sp.
      eapply parse_pairs_fuel; [exact He|]. cbn. lia.
    + by destruct extra; [|destruct Hne].
Qed.

(** ** Properties *)

(** C23: a connection string built by [dsnFrom] is read back by a conninfo
    parser as exactly the intended settings, in order: no value, a password
    with spaces, quotes or backslashes included, can add, drop or change a
    setting.  The exception, excluded here and shown in [tab_not_quoted], is
    a value with other white space (a tab, a line feed) and none of space,
    quote and backslash, which the code does not quote. *)
Theorem DSN_roundtrip p :
  Forall libpq_value (dsn_values p (pg_User p) (Some (pg_Password p)) (pg_DB p)) →
  Forall libpq_value
    (dsn_values p (pg_ReplicationUser p) (Some (pg_ReplicationPassword p)) "replication") →
  parse_conninfo (DSN p) = Some (dsn_pairs p (pg_User p) (Some (pg_Password p)) (pg_DB p)) ∧
  parse_conninfo (ReplicationDSN p) =
    Some (dsn_pairs p (pg_ReplicationUser p) (Some (pg_ReplicationPassword p)) "replication" ++
          [("application_name" : gostr, "syncctl" : gostr)]).
Proof.
  intros H1 H2. split; unfold DSN, ReplicationDSN, buildDSN.
  - rewrite (parse_dsnFrom _ _ _ _ _ []) by done. by rewrite app_nil_r.
  - by apply parse_dsnFrom.
Qed.

Definition with_replication_password (p : PostgresConfig) (pw : gostr) : PostgresConfig :=
  Build_PostgresConfig (pg_Host p) (pg_Port p) (pg_DB p) (pg_User p) (pg_Password p)
    (pg_ReplicationUser p) pw (pg_SlotName p) (pg_SSLMode p) (pg_SSLRootCert p) (pg_SSLCert p)
    (pg_SSLKey p).

(** The connection string of [ReplicationConnInfo] does not depend on
    the password, which is returned beside it, and a conninfo parser finds
    the replication user, database and application name in it, and no
    password. *)
Lemma ReplicationConnInfo_no_password p :
  Forall libpq_value (dsn_values p (pg_ReplicationUser p) None "replication") →
  ∃ ps, parse_conninfo (ReplicationConnInfo p).1 = Some ps ∧
    ("password" : gostr) ∉ ps.*1 ∧
    ("user" : gostr, pg_ReplicationUser p) ∈ ps ∧ ("dbname" : gostr, "replication" : gostr) ∈ ps ∧
    ("application_name" : gostr, "syncctl" : gostr) ∈ ps ∧
    (∀ pw, ReplicationConnInfo (with_replication_password p pw) = ((ReplicationConnInfo p).1, pw)).
Proof.
  intros H. eexists. unfold ReplicationConnInfo. cbn [fst].
  split; [by apply parse_dsnFrom|]. split; [|split; [|split; [|split; [|done]]]].
  2-4: apply list_elem_of_In; cbn; rewrite ?in_app_iff; cbn; tauto.
  assert (∀ k v : gostr, k ≠ "password" →
    ("password" : gostr) ∉ (if bool_decide (v ≠ []) then [(k, v)] else []).*1) as Hopt.
  { intros k v Hk. case_bool_decide; cbn; [|apply not_elem_of_nil]. set_solver. }
  unfold dsn_pairs. rewrite !fmap_app, !not_elem_of_app.
  split_and!; try (by apply Hopt); by apply (bool_decide_eq_true_1 (_ ∉ _)); vm_compute.
Qed.

Definition ex_pg : PostgresConfig :=
  Build_PostgresConfig "db.eu" 5432 "gitlab" "git lab" "p'a\ss w=rd" "repl" "s3cr et"
    [] [] "/etc/ssl/root.crt" [] [].

Lemma ex_pg_values l : forallb (λ v, ContainsAny v [SPC; SQ; BSL] || forallb (λ c, negb (isspace c)) v) l = true →
  Forall libpq_value l.
Proof.
  intros H%forallb_Forall. eapply Forall_impl; [exact H|]. intros v [Hv|Hv]%orb_true_iff; [by left|].
  right. apply forallb_Forall in Hv. eapply Forall_impl; [exact Hv|]. intros c. apply negb_true_iff.
Defined.

Lemma DSN_roundtrip_witness :
  parse_conninfo (DSN ex_pg) =
    Some (dsn_pairs ex_pg (pg_User ex_pg) (Some (pg_Password ex_pg)) (pg_DB ex_pg)) ∧
  parse_conninfo (ReplicationDSN ex_pg) =
    Some (dsn_pairs ex_pg "repl" (Some ("s3cr et" : gostr)) "replication" ++
          [("application_name" : gostr, "syncctl" : gostr)]).
Proof. apply (DSN_roundtrip ex_pg); apply ex_pg_values; vm_compute; reflexivity. Defined.

Lemma ReplicationConnInfo_no_password_witness :
  ∃ ps, parse_conninfo (ReplicationConnInfo ex_pg).1 = Some ps ∧
    ("password" : gostr) ∉ ps.*1 ∧
    ("user" : gostr, "repl" : gostr) ∈ ps ∧ ("dbname" : gostr, "replication" : gostr) ∈ ps ∧
    ("application_name" : gostr, "syncctl" : gostr) ∈ ps ∧
    (∀ pw, ReplicationConnInfo (with_replication_password ex_pg pw) =
           ((ReplicationConnInfo ex_pg).1, pw)).
Proof. apply (ReplicationConnInfo_no_password ex_pg), ex_pg_values; vm_compute; reflexivity. Defined.

(** A tab is not quoted: the value is cut there. *)
Example tab_not_quoted :
  parse_conninfo (quoteLibPQValue ["a"%char; TAB; "b"%char]) = None ∧
  read_value (quoteLibPQValue ["a"%char; TAB; "b"%char]) = Some ("a" : gostr, [TAB; "b"%char]).
Proof. split; vm_compute; reflexivity. Qed.
