(* ===== verification/DbKey.v ===== *)
(** * internal/dbkey: comparing the db_key_base of two sites *)
From Stdlib Require Import Ascii ZArith Lia.
From stdpp Require Import prelude strings gmap list.
From S2P Require Import Prelude World GoStrings SshExec.
Open Scope go_scope.

(** ** The code *)

(** [\s] of Go's regular expressions. *)
Definition re_space (c : ascii) : bool := in_set [TAB; LF; "012"%char; CR; SPC] c.
Definition skip_ws (s : gostr) : gostr := (span re_space s).2.
Definition key_byte (c : ascii) : bool := is_alnum c || in_set "_-" c.

(** The tail both regular expressions share: white space, an optional
    quote, then the key, which is the submatch. *)
Definition re_tail (s : gostr) : option gostr :=
  let s := skip_ws s in
  let s := match s with c :: t => if in_set [SQ; DQ] c then t else s | [] => [] end in
  match (span key_byte s).1 with [] => None | k => Some k end.

(** [dbKeyRe.FindSubmatch]: anchored at the start of the text. *)
Definition dbKeyRe (s : gostr) : option gostr :=
  let s := skip_ws s in
  if HasPrefix s "gitlab_rails['db_key_base']" then
    let s := skip_ws (TrimPrefix s "gitlab_rails['db_key_base']") in
    if HasPrefix s "=" then re_tail (TrimPrefix s "=") else None
  else None.

(** [yamlRe.FindSubmatch]: the leftmost match. *)
Fixpoint yamlRe (s : gostr) : option gostr :=
  let here := if HasPrefix s "db_key_base:" then re_tail (TrimPrefix s "db_key_base:") else None in
  match here, s with
  | Some k, _ => Some k
  | None, [] => None
  | None, _ :: t => yamlRe t
  end.

Definition ErrKeyMismatch : error := ErrSentinel "dbkey.ErrKeyMismatch".

Definition grep_cmd : gostr :=
  "grep 'db_key_base' /var/opt/gitlab/gitlab-rails/etc/secrets.yml 2>/dev/null || grep " ++ [DQ] ++
  "gitlab_rails\['db_key_base'\]" ++ [DQ] ++ " /etc/gitlab/gitlab.rb 2>/dev/null || true".

Section dbkey.
Context (E : Env) `{Runner R}.

Definition tryFetchKey (sshHost : gostr) (runner : R) (withSudo : bool) : IO (res gostr) :=
  let cmd := if withSudo
    then "sudo grep 'db_key_base' /var/opt/gitlab/gitlab-rails/etc/secrets.yml 2>/dev/null || " ++ grep_cmd
    else grep_cmd in
  '(out, err) ← run_remote E runner sshHost cmd;
  mret (match err with Some e => Err e | None => Ok out end).

(** What [fetchKey] makes of the text it received. *)
Definition extractKey (text : gostr) : option gostr :=
  match dbKeyRe text with Some k => Some k | None => yamlRe text end.

Definition fetchKey (sshHost : gostr) (runner : R) : IO (res gostr) :=
  match CheckHost sshHost with
  | Some err => mret (Err err)
  | None =>
      first ← tryFetchKey sshHost runner true;
      key ← match first with
            | Ok key => mret (Ok key)
            | Err _ =>
                ctxErr ← io_ctx_Err E;
                match ctxErr with
                | Some e => mret (Err e)
                | None =>
                    second ← tryFetchKey sshHost runner false;
                    mret (wrap_err (λ err, Errorf [FS "ssh "; FS sshHost; FS ": "; FW err]) second)
                end
            end;
      mret match key with
           | Err e => Err e
           | Ok key =>
               match extractKey key with
               | None => Err (Errorf [FS "db_key_base not found in secrets.yml or gitlab.rb on "; FS sshHost])
               | Some k => Ok (TrimSpace k)
               end
           end
  end.

Definition CheckWithRunner (primarySSH secondarySSH : gostr) (runner : R) : IO err :=
  pKey ← fetchKey primarySSH runner;
  match pKey with
  | Err err => mret (Err (Errorf [FS "primary db_key_base: "; FW err]))
  | Ok pKey =>
      sKey ← fetchKey secondarySSH runner;
      match sKey with
      | Err err => mret (Err (Errorf [FS "secondary db_key_base: "; FW err]))
      | Ok sKey =>
          if bool_decide (pKey ≠ sKey) then
            mret (Err (Errorf [FW ErrKeyMismatch;
              FS ": update the secondary's /etc/gitlab/gitlab.rb and run `gitlab-ctl reconfigure`"]))
          else mret nil_error
      end
  end.
End dbkey.

Definition CheckWithConfig (E : Env) (primarySSH secondarySSH : gostr) (sshCfg : SshConfig) : IO err :=
  CheckWithRunner E primarySSH secondarySSH sshCfg.

Definition Check (E : Env) (primarySSH secondarySSH : gostr) : IO err :=
  CheckWithRunner E primarySSH secondarySSH Default.

(** ** Lemmas *)

Lemma skip_ws_app ws s : Forall (λ c, re_space c = true) ws →
  (∀ c t, s = c :: t → re_space c = false) → skip_ws (ws ++ s) = s.
Proof.
  intros Hws Hs. unfold skip_ws. destruct s as [|c t].
  - rewrite app_nil_r. destruct (span_spec re_space ws) as (H1 & H2 & H3).
    destruct (span re_space ws) as [a [|c b]]; cbn in *; [done|].
    specialize (H3 _ _ eq_refl). rewrite H1 in Hws.
    apply Forall_app in Hws as [_ Hws]. inversion Hws; congruence.
  - by rewrite span_stop by eauto.
Qed.

Lemma span_stop_all f n s : Forall (λ c, f c = true) n →
  (∀ c t, s = c :: t → f c = false) → span f (n ++ s) = (n, s).
Proof.
  intros Hn Hs. destruct s as [|c t]; [|by apply span_stop; [|eapply Hs]].
  rewrite app_nil_r. clear Hs. induction Hn as [|c n Hc Hn IH]; cbn; [done|]. by rewrite Hc, IH.
Qed.

(** Text that starts with a byte that is not white space. *)
Definition starts_black (s : gostr) : Prop := ∀ c t, s = c :: t → re_space c = false.

Lemma re_tail_key ws q k r :
  Forall (λ c, re_space c = true) ws → q ∈ ([[]; [SQ]; [DQ]] : list gostr) →
  k ≠ [] → Forall (λ c, key_byte c = true) k → (∀ c t, r = c :: t → key_byte c = false) →
  re_tail (ws ++ q ++ k ++ r) = Some k.
Proof.
  intros Hws Hq Hk Hkb Hr. unfold re_tail.
  assert (∀ c, key_byte c = true → negb (re_space c || in_set [SQ; DQ] c) = true) as Hb by byte_cases.
  destruct k as [|c k]; [done|]. inversion Hkb as [|? ? Hc Hk']; subst.
  specialize (Hb c Hc). apply negb_true_iff, orb_false_iff in Hb as [Hb1 Hb2].
  rewrite skip_ws_app; [|done|].
  2:{ intros d t Hd. rewrite !elem_of_cons, elem_of_nil in Hq.
      destruct Hq as [->|[->|[->|[]]]]; cbn in Hd; simplify_eq; done. }
  assert (match q ++ (c :: k) ++ r with
    | d :: t => if in_set [SQ; DQ] d then t else q ++ (c :: k) ++ r | [] => [] end = (c :: k) ++ r) as ->.
  { rewrite !elem_of_cons, elem_of_nil in Hq. destruct Hq as [->|[->|[->|[]]]]; cbn [app]; [|done|done].
    by rewrite Hb2. }
  by rewrite span_stop_all.
Qed.

Lemma TrimPrefix_app p s : TrimPrefix (p ++ s) p = s.
Proof. unfold TrimPrefix. by rewrite HasPrefix_app, drop_app_length. Qed.

Lemma yamlRe_skip ws s : Forall (λ c, re_space c = true) ws → yamlRe (ws ++ s) = yamlRe s.
Proof.
  induction 1 as [|c ws Hc Hws IH]; [done|]. cbn [app yamlRe].
  assert (HasPrefix (c :: ws ++ s) "db_key_base:" = false) as ->; [|by rewrite IH].
  apply HasPrefix_false. intros [t [= -> _]]. done.
Qed.

Lemma yamlRe_here s k : re_tail s = Some k → yamlRe ("db_key_base:" ++ s) = Some k.
Proof.
  intros Hk. pose proof (HasPrefix_app "db_key_base:" s) as H.
  pose proof (TrimPrefix_app "db_key_base:" s) as T.
  cbn [app yamlRe] in *. by rewrite H, T, Hk.
Qed.

Definition key_text (q k r : gostr) : Prop :=
  q ∈ ([[]; [SQ]; [DQ]] : list gostr) ∧ k ≠ [] ∧ Forall (λ c, key_byte c = true) k ∧
  (∀ c t, r = c :: t → key_byte c = false).

Lemma extractKey_yaml ws1 ws2 q k r :
  Forall (λ c, re_space c = true) ws1 → Forall (λ c, re_space c = true) ws2 → key_text q k r →
  extractKey (ws1 ++ "db_key_base:" ++ ws2 ++ q ++ k ++ r) = Some k.
Proof.
  intros H1 H2 (Hq & Hk & Hkb & Hr). unfold extractKey, dbKeyRe.
  rewrite skip_ws_app by (done || by intros ? ? [= <- _]).
  assert (∀ t, HasPrefix ("db_key_base:" ++ t) "gitlab_rails['db_key_base']" = false) as -> by done.
  rewrite yamlRe_skip by done. by apply yamlRe_here, re_tail_key.
Qed.

Lemma extractKey_rb ws1 ws2 ws3 q k r :
  Forall (λ c, re_space c = true) ws1 → Forall (λ c, re_space c = true) ws2 →
  Forall (λ c, re_space c = true) ws3 → key_text q k r →
  extractKey (ws1 ++ "gitlab_rails['db_key_base']" ++ ws2 ++ "=" ++ ws3 ++ q ++ k ++ r) = Some k.
Proof.
  intros H1 H2 H3 (Hq & Hk & Hkb & Hr). unfold extractKey, dbKeyRe.
  rewrite skip_ws_app by (done || by intros ? ? [= <- _]).
  rewrite HasPrefix_app, TrimPrefix_app.
  rewrite skip_ws_app by (done || by intros ? ? [= <- _]).
  by rewrite HasPrefix_app, TrimPrefix_app, re_tail_key.
Qed.

Section props.
Context (E : Env) `{Runner R}.

Lemma key_TrimSpace k : Forall (λ c, key_byte c = true) k → TrimSpace k = k.
Proof. intros Hk. apply TrimSpace_id. revert Hk. apply Forall_byte_impl. byte_cases. Qed.

(** The key is read exactly.  When the remote command's reply is the
    secrets.yml line or the gitlab.rb line for a key [k], with any white
    space, quoted or not, [fetchKey] returns exactly [k] after that one
    command. *)
Lemma fetchKey_reads_key host (runner : R) h text h' k :
  CheckHost host = None →
  tryFetchKey E host runner true h = (Ok text, h') →
  (∃ ws1 ws2 q r, text = ws1 ++ "db_key_base:" ++ ws2 ++ q ++ k ++ r ∧
     Forall (λ c, re_space c = true) ws1 ∧ Forall (λ c, re_space c = true) ws2 ∧ key_text q k r) ∨
  (∃ ws1 ws2 ws3 q r,
     text = ws1 ++ "gitlab_rails['db_key_base']" ++ ws2 ++ "=" ++ ws3 ++ q ++ k ++ r ∧
     Forall (λ c, re_space c = true) ws1 ∧ Forall (λ c, re_space c = true) ws2 ∧
     Forall (λ c, re_space c = true) ws3 ∧ key_text q k r) →
  fetchKey E host runner h = (Ok k, h').
Proof.
  intros Hh Ht Htext. unfold fetchKey. rewrite Hh. unfold mbind, ST_bind. rewrite Ht. cbn.
  assert (extractKey text = Some k ∧ Forall (λ c, key_byte c = true) k) as [-> Hk].
  { destruct Htext as [(ws1&ws2&q&r&->&?&?&Hkt)|(ws1&ws2&ws3&q&r&->&?&?&?&Hkt)];
      (split; [by first [apply extractKey_yaml | apply extractKey_rb]|apply Hkt]). }
  by rewrite key_TrimSpace.
Qed.

(** Errors that come from running commands or from the context. *)
Definition foreign (id : gostr) : Prop :=
  (∀ runner host cmd h e, (run_remote E (runner : R) host cmd h).1.2 = Some e → errors_Is e id = false) ∧
  (∀ h e, env_ctx E h = Some e → errors_Is e id = false).

Lemma errors_Is_texts l id :
  Forall (λ f, match f with FW _ => False | _ => True end) l → errors_Is (Errorf l) id = false.
Proof. induction 1 as [|f l Hf Hl IH]; [done|]. by destruct f. Qed.

Lemma splitHostPort_errors s e id : splitHostPort s = Err e → errors_Is e id = false.
Proof.
  unfold splitHostPort, validatePort. cbn. intros He.
  repeat (case_next_in He; cbn in He; try done); simplify_eq;
    apply errors_Is_texts; repeat constructor.
Qed.

Lemma ParseEndpoint_errors s e id : ParseEndpoint s = Err e → errors_Is e id = false.
Proof.
  unfold ParseEndpoint. intros He. repeat (case_next_in He; try done); simplify_eq;
    try (apply errors_Is_texts; repeat constructor; done).
  rewrite errors_Is_Errorf. cbn [existsb]. erewrite splitHostPort_errors by done. done.
Qed.

Lemma CheckHost_errors s e id : CheckHost s = Some e → errors_Is e id = false.
Proof.
  unfold CheckHost. case_bool_decide; [intros [= <-]; by rewrite errors_Is_Errorf|].
  destruct (ParseEndpoint s) eqn:He; [done|]. intros [= <-]. by eapply ParseEndpoint_errors.
Qed.

Lemma tryFetchKey_errors host (runner : R) sudo h e h' id : foreign id →
  tryFetchKey E host runner sudo h = (Err e, h') → errors_Is e id = false.
Proof.
  intros [Hrun _]. unfold tryFetchKey, mbind, ST_bind.
  set (cmd := if sudo then _ else _). specialize (Hrun runner host cmd h).
  destruct (run_remote E runner host cmd h) as [[out [e'|]] h'']; [|done].
  intros [= <- <-]. by apply Hrun.
Qed.

Lemma fetchKey_errors host (runner : R) h e h' id : foreign id →
  fetchKey E host runner h = (Err e, h') → errors_Is e id = false.
Proof.
  intros Hf. unfold fetchKey.
  destruct (CheckHost host) eqn:Hc; [intros [= <- <-]; by eapply CheckHost_errors|].
  unfold mbind, ST_bind. destruct (tryFetchKey E host runner true h) as [[k|e1] h1] eqn:E1.
  { cbn. destruct (extractKey k); [done|]. intros [= <- _]. by rewrite errors_Is_Errorf. }
  unfold io_ctx_Err. destruct (env_ctx E h1) eqn:Hctx; [intros [= <- <-]; by eapply Hf|].
  destruct (tryFetchKey E host runner false h1) as [[k|e2] h2] eqn:E2; cbn.
  { destruct (extractKey k); [done|]. intros [= <- _]. by rewrite errors_Is_Errorf. }
  intros [= <- _]. rewrite errors_Is_Errorf. cbn [existsb].
  by rewrite (tryFetchKey_errors _ _ _ _ _ _ _ Hf E2).
Qed.

(** C24: the three outcomes of the parity check.  It succeeds exactly when
    both keys were read and are equal; it reports a mismatch exactly when
    both were read and differ, and the report is a constant, so that it
    reveals neither key; a key that could not be read, on either side, is
    never mistaken for a mismatch. *)
Theorem CheckWithRunner_outcomes p s (runner : R) h r h' :
  foreign "dbkey.ErrKeyMismatch" → CheckWithRunner E p s runner h = (r, h') →
  (r = nil_error ↔
    ∃ k h1, fetchKey E p runner h = (Ok k, h1) ∧ fetchKey E s runner h1 = (Ok k, h')) ∧
  ((∃ e, r = Err e ∧ errors_Is e "dbkey.ErrKeyMismatch" = true) ↔
    ∃ k k' h1, fetchKey E p runner h = (Ok k, h1) ∧ fetchKey E s runner h1 = (Ok k', h') ∧ k ≠ k') ∧
  (∀ e, r = Err e → errors_Is e "dbkey.ErrKeyMismatch" = true →
    e = Errorf [FW ErrKeyMismatch;
      FS ": update the secondary's /etc/gitlab/gitlab.rb and run `gitlab-ctl reconfigure`"]).
Proof.
  intros Hf. unfold CheckWithRunner, mbind, ST_bind.
  assert (∀ txt e, errors_Is e "dbkey.ErrKeyMismatch" = false →
    errors_Is (Errorf [FS txt; FW e]) "dbkey.ErrKeyMismatch" = false) as Hw.
  { intros txt e He. rewrite errors_Is_Errorf. cbn [existsb]. by rewrite He. }
  destruct (fetchKey E p runner h) as [[kp|ep] h1] eqn:Ep; cycle 1.
  { apply fetchKey_errors with (id := "dbkey.ErrKeyMismatch") in Ep; [|done].
    apply (Hw "primary db_key_base: ") in Ep. intros [= <- <-]. split; [|split].
    - split; [done|]. by intros (?&?&[=]&_).
    - split; [intros (?&[= <-]&?); congruence|]. by intros (?&?&?&[=]&_).
    - intros ? [= <-]. congruence. }
  destruct (fetchKey E s runner h1) as [[ks|es] h2] eqn:Es; cycle 1.
  { pose proof Es as Es'. apply fetchKey_errors with (id := "dbkey.ErrKeyMismatch") in Es; [|done].
    apply (Hw "secondary db_key_base: ") in Es. intros [= <- <-]. split; [|split].
    - split; [done|]. intros (?&?&[= <- <-]&?). congruence.
    - split; [intros (?&[= <-]&?); congruence|]. intros (?&?&?&[= <- <-]&?&_). congruence.
    - intros ? [= <-]. congruence. }
  case_bool_decide as Hk; intros [= <- <-].
  - split; [|split].
    + split; [done|]. intros (?&?&[= <- <-]&?). congruence.
    + split; [|by eexists]. intros _. eauto 10.
    + by intros ? [= <-].
  - subst ks. split; [|split].
    + split; [|done]. eauto.
    + split; [by intros (?&?&_)|]. intros (?&?&?&[= <- <-]&?&?). congruence.
    + done.
Qed.
End props.

(** ** Examples *)

(** A world where every ssh command answers with the same line. *)
Definition ex_env (text : gostr) : Env := {|
  env_exec _ _ _ _ _ := (text, None);
  env_get _ _ _ := Err (ErrExternal "no network");
  env_hops _ _ := [];
  env_disk _ _ := NFile;
  env_draw _ _ _ := 0;
  env_sql _ _ _ _ := Err (ErrExternal "no database");
  env_ctx _ := None;
  env_timer _ _ := true |}.

Definition ex_line : gostr := "  db_key_base: " ++ [DQ] ++ "0a_b-9" ++ [DQ; LF].

Lemma fetchKey_reads_key_witness :
  fetchKey (ex_env ex_line) "eu" Default [] =
    (Ok ("0a_b-9" : gostr), (tryFetchKey (ex_env ex_line) "eu" Default true []).2).
Proof.
  apply (fetchKey_reads_key (ex_env ex_line) "eu" Default [] ex_line); [reflexivity|reflexivity|].
  left. exists [SPC; SPC], [SPC], [DQ], [DQ; LF]. split_and!; [reflexivity|..].
  1-2: apply forallb_Forall; reflexivity.
  repeat split; [set_solver|done|apply forallb_Forall; reflexivity|].
  intros c t [= <- _]. reflexivity.
Defined.

Lemma CheckWithRunner_outcomes_witness :
  let '(r, h') := CheckWithRunner (ex_env ex_line) "eu" "us" Default [] in
  r = nil_error ↔
  ∃ k h1, fetchKey (ex_env ex_line) "eu" Default [] = (Ok k, h1) ∧
          fetchKey (ex_env ex_line) "us" Default h1 = (Ok k, h').
Proof.
  apply (CheckWithRunner_outcomes (ex_env ex_line) "eu" "us" Default []); [|reflexivity].
  split; [|done]. intros runner host cmd h e. unfold run_remote, SshConfig_Runner, CombinedOutput.
  unfold Command. destruct (ParseEndpoint host) eqn:Ep; [done|]. intros [= <-].
  by eapply ParseEndpoint_errors.
Defined.
