(* ===== verification/ReadOnly.v ===== *)
(** * internal/readonly: suppressing writes on a secondary *)
From Stdlib Require Import Ascii ZArith Lia.
From stdpp Require Import prelude strings gmap list.
From S2P Require Import Prelude World GoStrings SshExec.
Open Scope go_scope.

(** ** The code *)

Section readonly.
Context (E : Env).

Definition runSSH (sshHost : gostr) (dryRun : bool) (sshCfg : SshConfig) (cmd : gostr) : IO err :=
  match CheckHost sshHost with
  | Some err => mret (Err err)
  | None =>
      if dryRun then mret nil_error
      else
        '(out, err) ← CombinedOutput E sshCfg sshHost cmd;
        mret (match err with
              | Some err => Err (Errorf [FS "ssh "; FS sshHost; FS ": "; FW err; FS ": "; FS out])
              | None => nil_error
              end)
  end.

Definition enable_cmds : list gostr :=
  ["sudo gitlab-ctl deploy-registry-readonly start";
   "sudo gitlab-ctl sidekiq pause";
   "sudo gitlab-rails runner 'ApplicationSetting.current.update!(repository_storages: [])' 2>/dev/null || true"].

Definition disable_cmds : list gostr :=
  ["sudo gitlab-ctl deploy-registry-readonly stop";
   "sudo gitlab-ctl sidekiq resume";
   "sudo gitlab-rails runner 'ApplicationSetting.current.update!(repository_storages: nil)' 2>/dev/null || true"].

(** The loop over the commands: the first error is returned. *)
Fixpoint run_cmds (sshHost : gostr) (dryRun : bool) (sshCfg : SshConfig) (cmds : list gostr) : IO err :=
  match cmds with
  | [] => mret nil_error
  | cmd :: cmds => runSSH sshHost dryRun sshCfg cmd ;;? run_cmds sshHost dryRun sshCfg cmds
  end.

Definition EnableWithConfig (sshHost : gostr) (dryRun : bool) (sshCfg : SshConfig) : IO err :=
  run_cmds sshHost dryRun sshCfg enable_cmds.

Definition Enable (sshHost : gostr) (dryRun : bool) : IO err :=
  EnableWithConfig sshHost dryRun Default.

Definition DisableWithConfig (sshHost : gostr) (dryRun : bool) (sshCfg : SshConfig) : IO err :=
  run_cmds sshHost dryRun sshCfg disable_cmds.

Definition Disable (sshHost : gostr) (dryRun : bool) : IO err :=
  DisableWithConfig sshHost dryRun Default.

(** ** Lemmas *)

Lemma runSSH_issues host cfg cmd : issues (runSSH host false cfg cmd) (ssh_event cfg host cmd None).
Proof.
  unfold runSSH. destruct (CheckHost host) eqn:Hc; [apply issues_Err|].
  apply issues_output; [apply CombinedOutput_event|intros []; by eexists].
Qed.

Lemma issues_try (m k : IO err) evs evs' :
  issues m evs → issues k evs' → issues (m ;;? k) (evs ++ evs').
Proof.
  intros Hm Hk h r h'. unfold try_bind. destruct (m h) as [[[]|e] h1] eqn:Em.
  - destruct (Hm _ _ _ Em) as (t & _ & H1 & Hok). rewrite (Hok eq_refl) in H1. intros Hr.
    destruct (Hk _ _ _ Hr) as (t' & Hp & H2 & Hok'). exists (evs ++ t').
    split; [by apply prefix_app|]. split; [by rewrite H2, H1, app_assoc|]. intros ?. by rewrite Hok'.
  - intros [= <- <-]. destruct (Hm _ _ _ Em) as (t & Hp & H1 & _). exists t.
    split; [by apply prefix_app_r|done].
Qed.

Lemma run_cmds_issues host cfg cmds :
  issues (run_cmds host false cfg cmds) (cmds ≫= λ cmd, ssh_event cfg host cmd None).
Proof.
  induction cmds as [|cmd cmds IH]; [apply issues_ret_Ok|].
  cbn [run_cmds]. apply issues_try; [apply runSSH_issues|done].
Qed.

Lemma run_cmds_dry host cfg cmds h r h' : run_cmds host true cfg cmds h = (r, h') →
  h' = h ∧ (r = nil_error ↔ cmds = [] ∨ CheckHost host = None).
Proof.
  revert h. induction cmds as [|cmd cmds IH]; intros h; cbn [run_cmds].
  { intros [= <- <-]. split; [done|]. split; [by left|done]. }
  unfold try_bind, runSSH. destruct (CheckHost host) eqn:Hc.
  - intros [= <- <-]. split; [done|]. split; [done|by intros []].
  - cbn. intros [-> Hr]%IH. split; [done|]. rewrite Hr. split; [|by right]. intros _. by right.
Qed.

(** Enabling (disabling) read-only mode runs its three commands on
    the secondary over ssh, in order, and nothing else; it stops at the
    first failure, which it reports, and reports success only when all
    three ran.  A dry run does nothing, and fails only when the host is
    not acceptable. *)
Lemma readonly_sequence (host : gostr) (cfg : SshConfig) :
  issues (EnableWithConfig host false cfg) (enable_cmds ≫= λ cmd, ssh_event cfg host cmd None) ∧
  issues (DisableWithConfig host false cfg) (disable_cmds ≫= λ cmd, ssh_event cfg host cmd None) ∧
  (∀ h, (EnableWithConfig host true cfg h).2 = h ∧ (DisableWithConfig host true cfg h).2 = h) ∧
  (∀ h, (EnableWithConfig host true cfg h).1 = nil_error ↔ CheckHost host = None).
Proof.
  split; [apply run_cmds_issues|]. split; [apply run_cmds_issues|].
  assert (∀ cmds h, (run_cmds host true cfg cmds h).2 = h ∧
    ((run_cmds host true cfg cmds h).1 = nil_error ↔ cmds = [] ∨ CheckHost host = None)) as H.
  { intros cmds h. destruct (run_cmds host true cfg cmds h) as [r h'] eqn:Er.
    by apply run_cmds_dry in Er as [-> ?]. }
  split; intros h; [split; apply H|]. unfold EnableWithConfig. rewrite (proj2 (H _ _)).
  split; [by intros []|by right].
Qed.
End readonly.
