(* ===== verification/Reconciler.v ===== *)
(** * internal/reconciler: results, the sweep, retries *)
From Stdlib Require Import Ascii ZArith Lia.
From stdpp Require Import prelude strings gmap list.
From S2P Require Import Prelude World GoStrings.
Open Scope go_scope.

(** ** The code *)

Record Result := mkResult { OK : bool; Lag : Z; Detail : list frag; Repaired : Z; Remaining : Z }.

(** The [Reconciler] interface. *)
Record Reconciler := { Name : gostr; Reconcile : IO Result }.

Definition QualifyName (base site : gostr) : gostr :=
  if bool_decide (site = []) then base else base ++ "@" ++ site.

(** The level a sweep logs a result at. *)
Inductive level := InSync | PartialSync | Drift.

Global Instance level_eq_dec : EqDecision level.
Proof. solve_decision. Defined.

Definition log_level (r : Result) : level :=
  if OK r && bool_decide (Remaining r = 0%Z) then InSync
  else if OK r then PartialSync
  else Drift.

Section runner.
Context (E : Env).

(** [sweep]: what is logged, in order. *)
Fixpoint sweep (recs : list Reconciler) : IO (list (gostr * level)) :=
  match recs with
  | [] => mret []
  | rec :: recs =>
      ctxErr ← io_ctx_Err E;
      match ctxErr with
      | Some _ => mret []
      | None =>
          result ← Reconcile rec;
          rest ← sweep recs;
          mret ((Name rec, log_level result) :: rest)
      end
  end.

(** [Run] after its first sweep, for at most [fuel] turns of its loop;
    the result tells whether the context ended the loop. *)
Fixpoint run_loop (fuel : nat) (interval : Z) (recs : list Reconciler) : IO bool :=
  match fuel with
  | O => mret false
  | S fuel =>
      tick ← io_after E interval;
      if (tick : bool) then _ ← sweep recs; run_loop fuel interval recs
      else mret true
  end.

(** [NewTicker] panics ([None]) on an interval that is not positive. *)
Definition Run (fuel : nat) (interval : Z) (recs : list Reconciler) : IO (option bool) :=
  if (interval <=? 0)%Z then mret None
  else _ ← sweep recs; ended ← run_loop fuel interval recs; mret (Some ended).

(** [Retry], with [attempts] attempts left.  [fn] is a closure that also
    assigns variables of its caller: their values after a success are the
    result, [zero] is what they hold after failed calls. *)
Fixpoint retry_loop {A} (zero : A) (attempts : nat) (delay maxDelay : Z) (fn : IO (res A)) : IO (res A) :=
  match attempts with
  | O => mret (Ok zero)
  | S attempts =>
      r ← fn;
      match r with
      | Ok a => mret (Ok a)
      | Err lastErr =>
          match attempts with
          | O => mret (Err lastErr)
          | S _ =>
              fired ← io_after E delay;
              if (fired : bool) then
                let delay := wrap64 (delay * 2) in
                let delay := if (maxDelay <? delay)%Z then maxDelay else delay in
                retry_loop zero attempts delay maxDelay fn
              else
                ctxErr ← io_ctx_Err E;
                mret (match ctxErr with Some e => Err e | None => Ok zero end)
          end
      end
  end.

Definition Retry {A} (zero : A) (maxAttempts initialDelay maxDelay : Z) (fn : IO (res A)) : IO (res A) :=
  retry_loop zero (Z.to_nat maxAttempts) initialDelay maxDelay fn.

(** ** The specification *)

(** The waits between [n + 1] attempts: each is twice the one before,
    capped, whatever 64-bit arithmetic does. *)
Fixpoint backoff (n : nat) (delay maxDelay : Z) : list Z :=
  match n with
  | O => []
  | S n => delay :: backoff n ((delay * 2) `min` maxDelay)%Z maxDelay
  end.

Definition sleeps (h : history) : list Z :=
  omap (λ e, match e with EvSleep d => Some d | _ => None end) h.

(** Running some reconcilers one after the other. *)
Fixpoint run_all (recs : list Reconciler) (h : history) : history :=
  match recs with [] => h | rec :: recs => run_all recs (Reconcile rec h).2 end.

(** ** Lemmas *)

Lemma sleeps_app h t : sleeps (h ++ t) = sleeps h ++ sleeps t.
Proof. apply omap_app. Qed.

(** The doubled delay does not overflow below half the range. *)
Lemma next_delay d m : (0 ≤ d ≤ 4611686018427387903)%Z →
  (if m <? wrap64 (d * 2) then m else wrap64 (d * 2))%Z = ((d * 2) `min` m)%Z.
Proof.
  intros Hd. rewrite wrap64_id by (unfold in_int64, int64_min, int64_max; lia).
  destruct (Z.ltb_spec m (d * 2)); lia.
Qed.

(** The cancellation of a wait is observed by [ctx.Err()]. *)
Definition ctx_cancels : Prop := ∀ h d, env_timer E h d = false → env_ctx E (h ++ [EvSleep d]) ≠ None.

Lemma retry_loop_spec {A} (zero : A) n fn m d h r h' :
  (∀ g, ∃ t, (fn g).2 = g ++ t ∧ sleeps t = []) → ctx_cancels →
  (0 ≤ d ≤ 4611686018427387903)%Z → (0 ≤ m ≤ 4611686018427387903)%Z →
  retry_loop zero (S n) d m fn h = (r, h') →
  ∃ k, k ≤ n ∧ sleeps h' = sleeps h ++ take k (backoff n d m) ∧
    ((∃ g a, r = Ok a ∧ fn g = (Ok a, h')) ∨
     (∃ g e, k = n ∧ r = Err e ∧ fn g = (Err e, h')) ∨
     (∃ e, r = Err e ∧ env_ctx E h' = Some e)).
Proof.
  intros Hfn Hctx. revert d h. induction n as [|n IH]; intros d h Hd Hm; cbn [retry_loop];
    unfold mbind at 1, ST_bind at 1; destruct (Hfn h) as (t & Ht & Hs);
    destruct (fn h) as [[a|e] h1] eqn:Ef; cbn in Ht; subst h1.
  1, 3: intros [= <- <-]; exists 0; split; [lia|]; rewrite sleeps_app, Hs, take_0, app_nil_r;
    split; [done|]; left; by exists h, a.
  - intros [= <- <-]. exists 0. split; [lia|]. rewrite sleeps_app, Hs, app_nil_r.
    split; [by rewrite app_nil_r|]. right; left. by exists h, e.
  - unfold mbind, ST_bind, io_after. destruct (env_timer E (h ++ t) d) eqn:Et.
    + rewrite next_delay by done. intros Hr. apply IH in Hr as (k & Hk & Hsl & Hres); [|lia..].
      exists (S k). split; [lia|]. rewrite Hsl, !sleeps_app, Hs, app_nil_r. cbn.
      rewrite <- app_assoc. split; [done|]. destruct Hres as [?|[(g & e' & -> & ?)|?]]; eauto 10.
    + unfold io_ctx_Err. intros [= <- <-]. specialize (Hctx _ _ Et).
      exists 1. split; [lia|]. rewrite !sleeps_app, Hs, app_nil_r. cbn. rewrite take_0.
      split; [done|]. right; right. destruct (env_ctx E _) as [e'|] eqn:Ec; [|done]. by exists e'.
Qed.

(** The attempts, one by one: after a failure comes the next wait of the
    list, and then the next attempt, unless the context ends the wait; the
    last failure is returned. *)
Inductive tries {A} (fn : IO (res A)) : list Z → history → res A → history → Prop :=
| try_ok waits h a h' : fn h = (Ok a, h') → tries fn waits h (Ok a) h'
| try_last h e h' : fn h = (Err e, h') → tries fn [] h (Err e) h'
| try_again w waits h e h1 r h' : fn h = (Err e, h1) → env_timer E h1 w = true →
    tries fn waits (h1 ++ [EvSleep w]) r h' → tries fn (w :: waits) h r h'
| try_cancelled w waits h e h1 c : fn h = (Err e, h1) → env_timer E h1 w = false →
    env_ctx E (h1 ++ [EvSleep w]) = Some c → tries fn (w :: waits) h (Err c) (h1 ++ [EvSleep w]).

Lemma retry_loop_tries {A} (zero : A) n fn m d h r h' : ctx_cancels →
  (0 ≤ d ≤ 4611686018427387903)%Z → (0 ≤ m ≤ 4611686018427387903)%Z →
  retry_loop zero (S n) d m fn h = (r, h') → tries fn (backoff n d m) h r h'.
Proof.
  intros Hctx. revert d h. induction n as [|n IH]; intros d h Hd Hm; cbn [retry_loop backoff];
    unfold mbind at 1, ST_bind at 1; destruct (fn h) as [[a|e] h1] eqn:Ef.
  1, 3: intros [= <- <-]; by apply try_ok.
  - intros [= <- <-]. by apply try_last.
  - unfold mbind, ST_bind, io_after. destruct (env_timer E h1 d) eqn:Et.
    + rewrite next_delay by done. intros Hr. eapply try_again; [done..|]. apply IH; [lia..|done].
    + unfold io_ctx_Err. intros [= <- <-]. specialize (Hctx _ _ Et).
      destruct (env_ctx E _) as [c|] eqn:Ec; [|done]. by eapply try_cancelled.
Qed.
End runner.

(** ** Properties *)

#[export] Instance only_after P E d : (∀ d, P (EvSleep d)) → Only P (io_after E d).
Proof. intros HP. by eapply only_one. Qed.

Lemma only_Retry P E {A} (zero : A) n d m (fn : IO (res A)) :
  (∀ d, P (EvSleep d)) → Only P fn → Only P (Retry E zero n d m fn).
Proof.
  intros HP Hfn. unfold Retry. generalize (Z.to_nat n). intros k. revert d.
  induction k as [|k IH]; intros d; cbn [retry_loop]; [apply _|]. apply only_bind; [done|intros [a|e]; [apply _|]].
  destruct k; [apply _|]. apply only_bind; [by apply only_after|intros [|]; [apply IH|]].
  apply only_bind; [apply _|intros [?|]; apply _].
Qed.

(** C26: [Retry] with a positive number of attempts and delays below 2^62
    ns runs [fn] once and then again after each wait; its waits are a
    prefix of the capped doubling sequence (no wrap-around), at most one
    fewer than the attempts.  It succeeds exactly with a successful last
    call, whose results it keeps; it fails with the error of the last call, once every attempt is
    used up, or with the error of the context when a wait is cancelled. *)
Theorem Retry_backoff {A} E (zero : A) n d m fn h r h' :
  (∀ g, ∃ t, (fn g).2 = g ++ t ∧ sleeps t = []) → ctx_cancels E →
  (0 < n)%Z → (0 ≤ d < 2 ^ 62)%Z → (0 ≤ m < 2 ^ 62)%Z →
  Retry E zero n d m fn h = (r, h') →
  ∃ k, (Z.of_nat k < n)%Z ∧ sleeps h' = sleeps h ++ take k (backoff (Z.to_nat (n - 1)) d m) ∧
    ((∃ g a, r = Ok a ∧ fn g = (Ok a, h')) ∨
     (∃ g e, Z.of_nat k = (n - 1)%Z ∧ r = Err e ∧ fn g = (Err e, h')) ∨
     (∃ e, r = Err e ∧ env_ctx E h' = Some e)).
Proof.
  intros Hfn Hctx Hn Hd Hm. unfold Retry. replace (Z.to_nat n) with (S (Z.to_nat (n - 1))) by lia.
  intros Hr. apply retry_loop_spec in Hr as (k & Hk & Hs & Hres); [|done|done|lia|lia].
  exists k. split; [lia|]. split; [done|].
  destruct Hres as [?|[(g & e & -> & ?)|?]]; [by left| |by right; right].
  right; left. exists g, e. split; [lia|done].
Qed.

(** A sweep runs the reconcilers one after the other, in their
    configured order, whatever each of them reports; it logs each one that
    ran, and stops early only because the context was done, before the
    next reconciler. *)
Lemma sweep_in_order E recs h : ∃ k, k ≤ length recs ∧
  (sweep E recs h).2 = run_all (take k recs) h ∧
  (sweep E recs h).1.*1 = Name <$> take k recs ∧
  (∀ j, j < k → env_ctx E (run_all (take j recs) h) = None) ∧
  (k < length recs → env_ctx E (run_all (take k recs) h) ≠ None).
Proof.
  revert h. induction recs as [|rec recs IH]; intros h.
  { exists 0. cbn. split_and!; try done; lia. }
  cbn [sweep]. unfold mbind, ST_bind, io_ctx_Err. destruct (env_ctx E h) eqn:Ec.
  { exists 0. cbn. split_and!; try done; try lia. intros _. by rewrite Ec. }
  destruct (Reconcile rec h) as [res h1] eqn:Er. destruct (IH h1) as (k & Hk & H1 & H2 & H3 & H4).
  destruct (sweep E recs h1) as [logs h2] eqn:Es. cbn in H1, H2. exists (S k). cbn. rewrite Er. cbn.
  split; [lia|]. split; [done|]. split; [by rewrite H2|]. split.
  - intros [|j] Hj; [done|]. cbn. rewrite Er. apply H3. lia.
  - intros Hj. apply H4. lia.
Qed.

(** ** Example *)

(** Fails until two waits have gone by. *)
Definition ex_fn : IO err := λ h,
  (if bool_decide (length h < 2) then Err (ErrNew "not yet") else nil_error, h).

Definition ex_env : Env := {|
  env_exec _ _ _ _ _ := ([], None);
  env_get _ _ _ := Err (ErrExternal "no network");
  env_hops _ _ := [];
  env_disk _ _ := NFile;
  env_draw _ _ _ := 0;
  env_sql _ _ _ _ := Err (ErrExternal "no database");
  env_ctx _ := None;
  env_timer _ _ := true |}.

Lemma Retry_backoff_witness :
  let h' := [EvSleep (2 * Second); EvSleep (3 * Second)] in
  Retry ex_env tt 5 (2 * Second) (3 * Second) ex_fn [] = (nil_error, h') ∧
  ∃ k, (Z.of_nat k < 5)%Z ∧ sleeps h' = take k (backoff 4 (2 * Second) (3 * Second)) ∧
    ((∃ g a, nil_error = Ok a ∧ ex_fn g = (Ok a, h')) ∨
     (∃ g e, Z.of_nat k = (5 - 1)%Z ∧ nil_error = Err e ∧ ex_fn g = (Err e, h')) ∨
     (∃ e, nil_error = Err e ∧ env_ctx ex_env h' = Some e)).
Proof.
  split; [vm_compute; reflexivity|].
  apply (Retry_backoff ex_env tt 5 (2 * Second) (3 * Second) ex_fn []).
  - intros g. exists []. cbn. by rewrite app_nil_r.
  - intros h d. discriminate.
  - lia.
  - unfold Second. lia.
  - unfold Second. lia.
  - vm_compute. reflexivity.
Defined.
