(* ===== verification/Failover.v ===== *)
(** * internal/failover: health checks, promotion and role swap

    The state of a [Controller] is its two atomic fields and the history;
    its other fields are constants, set by [New] and the setters. *)
From Stdlib Require Import Ascii ZArith Lia.
From stdpp Require Import prelude strings gmap list.
From S2P Require Import Prelude World GoStrings ShellQuote SshExec ConfigData Config DbKey ReadOnly.
Open Scope go_scope.

(** ** The code *)

Record Controller := mkController {
  fc_cfg : Config;
  fc_sshCfg : SshConfig;
  fc_primaryURL : gostr;
  fc_healthURLs : list gostr;
  fc_quorum : Z;
  fc_checkInterval : Z;
  fc_autoFailover : bool;
  fc_dryRun : bool;
  fc_force : bool;
  fc_wipePGData : bool;
}.

Record fstate := mkState { primaryDown : bool; consecutiveFails : Z; fs_hist : history }.

#[export] Instance fstate_hist : HasHistory fstate := fs_hist.

(** An interaction with the world leaves the fields alone. *)
Definition lift {A} (m : IO A) : ST fstate A := λ s,
  let '(a, h) := m (fs_hist s) in (a, mkState (primaryDown s) (consecutiveFails s) h).

Definition set_primaryDown (b : bool) : ST fstate unit :=
  modify (λ s, mkState b (consecutiveFails s) (fs_hist s)).
Definition set_consecutiveFails (n : Z) : ST fstate unit :=
  modify (λ s, mkState (primaryDown s) n (fs_hist s)).

Definition New (cfg : Config) (dryRun : bool) : Controller :=
  let urls := [site_ExternalURL (cfg_Primary cfg)] in
  let '(urls, quorum, interval, auto) :=
    match cfg_Failover cfg with
    | Some f => (urls ++ fo_HealthCheckURLs f, fo_QuorumRequired f, fo_HealthCheckInterval f, fo_AutoFailover f)
    | None => (urls, 1%Z, (10 * Second)%Z, false)
    end in
  mkController cfg (SSHExecConfig cfg) (site_ExternalURL (cfg_Primary cfg)) urls
    (if (quorum <? 1)%Z then 1%Z else quorum) interval auto dryRun false false.

(** [SetForce] and [SetWipePGData]. *)
Definition SetForce (c : Controller) (force : bool) : Controller :=
  mkController (fc_cfg c) (fc_sshCfg c) (fc_primaryURL c) (fc_healthURLs c) (fc_quorum c)
    (fc_checkInterval c) (fc_autoFailover c) (fc_dryRun c) force (fc_wipePGData c).
Definition SetWipePGData (c : Controller) (wipe : bool) : Controller :=
  mkController (fc_cfg c) (fc_sshCfg c) (fc_primaryURL c) (fc_healthURLs c) (fc_quorum c)
    (fc_checkInterval c) (fc_autoFailover c) (fc_dryRun c) (fc_force c) wipe.

Definition remotePGData : gostr := "/var/opt/gitlab/postgresql/data".
Definition remotePassfile : gostr := "/var/opt/gitlab/postgresql/.syncctl-pgpass".

Definition findSecondary (c : Controller) (name : gostr) : res SiteConfig :=
  match List.find (λ s, bool_decide (site_Name s = name)) (cfg_Secondaries (fc_cfg c)) with
  | Some s => Ok s
  | None => Err (Errorf [FS "secondary "; FQ name; FS " not found"])
  end.

Definition promote_secondary (c : Controller) : gostr :=
  match cfg_Failover (fc_cfg c) with Some f => fo_PromoteSecondary f | None => [] end.

Definition autoFailoverTarget (c : Controller) : res gostr :=
  if bool_decide (promote_secondary c ≠ []) then
    match findSecondary c (promote_secondary c) with
    | Err err => Err (Errorf [FS "failover.promote_secondary: "; FW err])
    | Ok _ => Ok (promote_secondary c)
    end
  else
    match cfg_Secondaries (fc_cfg c) with
    | [] => Err (ErrNew "no secondaries configured")
    | [s] => Ok (site_Name s)
    | l => Err (Errorf [FZ (Z.of_nat (length l));
             FS " secondaries configured and failover.promote_secondary is unset; refusing to choose one by config order"])
    end.

Definition ResolveNewPrimary (c : Controller) (name : gostr) : res SiteConfig :=
  if bool_decide (name ≠ []) then findSecondary c name
  else
    match cfg_Secondaries (fc_cfg c) with
    | [] => Err (ErrNew "no secondaries configured; cannot determine the new primary to re-base from")
    | [s] => Ok s
    | l => Err (Errorf [FZ (Z.of_nat (length l));
             FS " secondaries configured; pass --new-primary <name> to say which one was promoted"])
    end.

Section failover.
Context (E : Env).

(** *** Health checks *)

Definition pollURL (url : gostr) : IO bool :=
  r ← io_get E url [];
  mret (match r with Ok resp => bool_decide (StatusCode resp = 200%Z) | Err _ => false end).

Fixpoint count_failures (urls : list gostr) (fails : Z) : IO Z :=
  match urls with
  | [] => mret fails
  | url :: urls =>
      ok ← pollURL url;
      count_failures urls (if (ok : bool) then fails else (fails + 1)%Z)
  end.

Definition countHealthFailures (c : Controller) : IO Z := count_failures (fc_healthURLs c) 0.

(** *** Remote commands *)

Definition ssh_failed (sshHost : gostr) (e : error) (out : gostr) : error :=
  Errorf [FS "ssh "; FS sshHost; FS ": "; FW e; FS ": "; FS out].

Definition sshSecondary (c : Controller) (sshHost command : gostr) : IO err :=
  match CheckHost sshHost with
  | Some err => mret (Err err)
  | None =>
      '(out, err) ← CombinedOutput E (fc_sshCfg c) sshHost command;
      mret (match err with Some e => Err (ssh_failed sshHost e out) | None => nil_error end)
  end.

Definition rm_passfile_cmd : gostr := "sudo rm -f -- " ++ Quote remotePassfile.

Definition removeRemotePassfile (c : Controller) (sshHost : gostr) : IO err :=
  if fc_dryRun c then mret nil_error
  else
    '(_, err) ← CombinedOutput E (fc_sshCfg c) sshHost rm_passfile_cmd;
    mret (of_error err).

Definition passfile_line (pg : PostgresConfig) : gostr :=
  pg_Host pg ++ ":" ++ Itoa (pg_Port pg) ++ ":*:" ++ pg_ReplicationUser pg ++ ":" ++
  pg_ReplicationPassword pg ++ [LF].

Definition write_passfile_cmd : gostr :=
  "umask 077 && sudo -u gitlab-psql tee " ++ Quote remotePassfile ++ " >/dev/null".

Definition writeRemotePassfile (c : Controller) (sshHost : gostr) (pg : PostgresConfig) : IO err :=
  if bool_decide (pg_ReplicationPassword pg = []) then mret nil_error
  else
    '(out, err) ← CombinedOutputStdin E (fc_sshCfg c) sshHost write_passfile_cmd (passfile_line pg);
    mret (match err with
          | Some e => Err (Errorf [FS "stage passfile on "; FS sshHost; FS ": "; FW e; FS ": "; FS out])
          | None => nil_error
          end).

Definition wipe_cmd : gostr :=
  "sudo rm -rf -- " ++ Quote remotePGData ++ " && sudo -u gitlab-psql mkdir -p " ++ Quote remotePGData.
Definition inspect_cmd : gostr := "sudo ls -A " ++ Quote remotePGData ++ " 2>/dev/null | head -1".

Definition checkRemotePGDataEmpty (c : Controller) (sshHost : gostr) : IO err :=
  if fc_wipePGData c then sshSecondary c sshHost wipe_cmd
  else
    '(out, err) ← CombinedOutput E (fc_sshCfg c) sshHost inspect_cmd;
    mret (match err with
          | Some e => Err (Errorf [FS "inspect "; FS remotePGData; FS " on "; FS sshHost; FS ": "; FW e; FS ": "; FS out])
          | None =>
              if bool_decide (TrimSpace out ≠ []) then
                Err (Errorf [FS remotePGData; FS " on "; FS sshHost;
                  FS " is not empty: pg_basebackup will not write into an existing data directory"])
              else nil_error
          end).

(** *** Promotion *)

Definition verifyPrimaryDown (c : Controller) : ST fstate err :=
  if fc_force c then mret nil_error
  else
    down ← gets primaryDown;
    if (down : bool) then mret nil_error
    else
      fails ← lift (countHealthFailures c);
      if (fc_quorum c <=? fails)%Z then
        _ ← set_primaryDown true; mret nil_error
      else
        mret (Err (Errorf [FS "primary at "; FS (fc_primaryURL c);
          FS " still answers health checks; refusing to promote (pass --force to override)"])).

Definition verifyDBKeyParity (c : Controller) (secondary : SiteConfig) : ST fstate err :=
  let primarySSH := site_SSHHost (cfg_Primary (fc_cfg c)) in
  if bool_decide (primarySSH = []) || bool_decide (site_SSHHost secondary = []) then mret nil_error
  else
    r ← lift (CheckWithConfig E primarySSH (site_SSHHost secondary) (fc_sshCfg c));
    mret (match r with
          | Ok _ => nil_error
          | Err err => if errors_Is err "dbkey.ErrKeyMismatch" then Err err else nil_error
          end).

Definition pg_promote_cmd : gostr :=
  "sudo -u gitlab-psql /opt/gitlab/embedded/bin/pg_ctl promote " ++ "-D " ++ Quote remotePGData.

Definition promotionSteps (c : Controller) (secondary : SiteConfig) : list (gostr * ST fstate err) :=
  let host := site_SSHHost secondary in
  [("verify primary down" : gostr, verifyPrimaryDown c);
   ("verify db_key_base parity" : gostr, verifyDBKeyParity c secondary);
   ("stop gitlab services on secondary" : gostr, lift (sshSecondary c host "sudo gitlab-ctl stop"));
   ("promote postgres" : gostr, lift (sshSecondary c host pg_promote_cmd));
   ("disable read-only mode" : gostr, lift (DisableWithConfig E host (fc_dryRun c) (fc_sshCfg c)));
   ("start gitlab services on secondary" : gostr, lift (sshSecondary c host "sudo gitlab-ctl start"))].

Definition step_error (name : gostr) (e : error) : error := Errorf [FS "step "; FQ name; FS ": "; FW e].

Definition Promote (c : Controller) (secondaryName : gostr) : ST fstate err :=
  match findSecondary c secondaryName with
  | Err err => mret (Err err)
  | Ok secondary =>
      if negb (fc_dryRun c) && negb (sync_FailoverEnabled (cfg_Sync (fc_cfg c))) then
        mret (Err (Errorf [FS "failover is disabled in config (sync.failover_enabled=false)"]))
      else run_steps (fc_dryRun c) step_error (promotionSteps c secondary)
  end.

(** *** The health-check loop *)

Definition check (c : Controller) : ST fstate unit :=
  fails ← lift (countHealthFailures c);
  if (fc_quorum c <=? fails)%Z then
    n ← gets consecutiveFails;
    _ ← set_consecutiveFails (wrap64 (n + 1));
    down ← gets consecutiveFails;
    if (3 <=? down)%Z then
      _ ← set_primaryDown true;
      if fc_autoFailover c then
        match autoFailoverTarget c with
        | Err _ => mret tt
        | Ok target => _ ← Promote c target; mret tt
        end
      else mret tt
    else mret tt
  else
    _ ← set_consecutiveFails 0;
    set_primaryDown false.

(** The loop of [Run], for at most [fuel] turns; [true] when the context
    ended it. *)
Fixpoint watch (fuel : nat) (c : Controller) : ST fstate bool :=
  match fuel with
  | O => mret false
  | S fuel =>
      tick ← lift (io_after E (fc_checkInterval c));
      if (tick : bool) then _ ← check c; watch fuel c else mret true
  end.

(** [NewTicker] panics ([None]) on an interval that is not positive. *)
Definition Run (fuel : nat) (c : Controller) : ST fstate (option bool) :=
  if (fc_checkInterval c <=? 0)%Z then mret None
  else ended ← watch fuel c; mret (Some ended).

Definition IsPrimaryDown : ST fstate bool := gets primaryDown.

(** *** Role swap *)

Definition basebackup_cmd (host : gostr) (port : Z) (user : gostr) : gostr :=
  "sudo -u gitlab-psql PGPASSFILE=" ++ Quote remotePassfile ++
  " /opt/gitlab/embedded/bin/pg_basebackup -h " ++ Quote host ++ " -p " ++ Itoa port ++
  " -U " ++ Quote user ++ " -D " ++ Quote remotePGData ++ " -X stream -c fast -R -P".

Definition adoptSteps (c : Controller) (oldPrimarySSH : gostr) (pg : PostgresConfig)
    : list (gostr * IO err) :=
  [("stop gitlab on old primary" : gostr, sshSecondary c oldPrimarySSH "sudo gitlab-ctl stop");
   ("check old primary PGDATA is clear" : gostr, checkRemotePGDataEmpty c oldPrimarySSH);
   ("stage replication credentials on old primary" : gostr, writeRemotePassfile c oldPrimarySSH pg);
   ("pg_basebackup from new primary" : gostr,
      sshSecondary c oldPrimarySSH (basebackup_cmd (pg_Host pg) (pg_Port pg) (pg_ReplicationUser pg)));
   ("enable read-only mode on old primary" : gostr,
      EnableWithConfig E oldPrimarySSH (fc_dryRun c) (fc_sshCfg c));
   ("start gitlab on old primary as secondary" : gostr, sshSecondary c oldPrimarySSH "sudo gitlab-ctl start")].

Definition swap_error (name : gostr) (e : error) : error :=
  Errorf [FS "role-swap step "; FQ name; FS ": "; FW e].

(** The deferred removal of the passfile runs last, whatever happened. *)
Definition AdoptAsSecondary (c : Controller) (oldPrimarySSH newPrimaryName : gostr) : IO err :=
  if negb (fc_dryRun c) && negb (sync_FailoverEnabled (cfg_Sync (fc_cfg c))) then
    mret (Err (Errorf [FS "failover is disabled in config"]))
  else
    match ResolveNewPrimary c newPrimaryName with
    | Err err => mret (Err err)
    | Ok newPrimary =>
        r ← run_steps (fc_dryRun c) swap_error (adoptSteps c oldPrimarySSH (site_Postgres newPrimary));
        _ ← removeRemotePassfile c oldPrimarySSH;
        mret r
    end.
End failover.

(** ** Lemmas: the fields *)

(** [m] keeps the count and never takes [primaryDown] back. *)
Definition keeps {A} (m : ST fstate A) : Prop := ∀ s a s', m s = (a, s') →
  consecutiveFails s' = consecutiveFails s ∧ (primaryDown s = true → primaryDown s' = true).

Lemma keeps_ret {A} (a : A) : keeps (mret a).
Proof. by intros s b s' [= <- <-]. Qed.

Lemma keeps_lift {A} (m : IO A) : keeps (lift m).
Proof. intros s a s'. unfold lift. destruct (m (fs_hist s)). by intros [= <- <-]. Qed.

Lemma keeps_bind {A B} (m : ST fstate A) (f : A → ST fstate B) :
  keeps m → (∀ a, keeps (f a)) → keeps (m ≫= f).
Proof.
  intros Hm Hf s b s'. unfold mbind, ST_bind. destruct (m s) as [a s1] eqn:E. intros H.
  apply Hm in E as [E1 ?]. apply Hf in H as [E2 ?].
  split; [congruence|auto].
Qed.

Lemma keeps_gets {A} (f : fstate → A) : keeps (gets f).
Proof. by intros s a s' [= <- <-]. Qed.

Lemma keeps_set_down : keeps (set_primaryDown true).
Proof. by intros s a s' [= <- <-]. Qed.

Lemma keeps_steps wrap dry (steps : list (gostr * ST fstate err)) :
  Forall (λ step, keeps step.2) steps → keeps (run_steps dry wrap steps).
Proof.
  induction 1 as [|[name fn] steps Hfn Hsteps IH]; [apply keeps_ret|]. cbn [run_steps].
  destruct dry; [done|]. intros s r s'. destruct (fn s) as [[a|e] s1] eqn:E; intros H.
  - apply Hfn in E as [E1 ?]. apply IH in H as [E2 ?]. split; [congruence|auto].
  - injection H as <- <-. by apply Hfn in E.
Qed.

Create HintDb failover.
#[local] Hint Resolve keeps_ret keeps_lift keeps_gets keeps_set_down : failover.

Section lemmas.
Context (E : Env) (c : Controller).

Lemma keeps_verifyPrimaryDown : keeps (verifyPrimaryDown E c).
Proof.
  unfold verifyPrimaryDown. destruct (fc_force c); [auto with failover|].
  apply keeps_bind; [auto with failover|]. intros []; [auto with failover|].
  apply keeps_bind; [auto with failover|]. intros n. destruct (_ <=? _)%Z; [|auto with failover].
  apply keeps_bind; auto with failover.
Qed.

Lemma keeps_verifyDBKeyParity s : keeps (verifyDBKeyParity E c s).
Proof.
  unfold verifyDBKeyParity. destruct (_ || _); [auto with failover|].
  apply keeps_bind; auto with failover.
Qed.

Lemma keeps_Promote name : keeps (Promote E c name).
Proof.
  unfold Promote. destruct (findSecondary c name) as [s|]; [|auto with failover].
  destruct (_ && _); [auto with failover|]. apply keeps_steps.
  unfold promotionSteps. rewrite !Forall_cons. split_and!; cbn [snd]; auto with failover.
  - apply keeps_verifyPrimaryDown.
  - apply keeps_verifyDBKeyParity.
Qed.

(** ** The monitor *)

(** One round of health checks fails. *)
Definition failing (h : history) : bool := (fc_quorum c <=? (countHealthFailures E c h).1)%Z.

(** The states of the loop after a series of rounds with the given
    outcomes; between rounds the rest of the program may act. *)
Inductive monitored : list bool → fstate → Prop :=
| monitored_start h : monitored [] (mkState false 0 h)
| monitored_other bs s t : monitored bs s →
    monitored bs (mkState (primaryDown s) (consecutiveFails s) (fs_hist s ++ t))
| monitored_tick bs s s' : monitored bs s → check E c s = (tt, s') →
    monitored (bs ++ [failing (fs_hist s)]) s'.

Lemma lift_run {A} (m : IO A) s : lift m s =
  ((m (fs_hist s)).1, mkState (primaryDown s) (consecutiveFails s) (m (fs_hist s)).2).
Proof. unfold lift. by destruct (m (fs_hist s)). Qed.

Lemma check_fields s s' : check E c s = (tt, s') →
  if failing (fs_hist s) then
    consecutiveFails s' = wrap64 (consecutiveFails s + 1) ∧
    ((3 ≤ consecutiveFails s')%Z → primaryDown s' = true) ∧
    ((consecutiveFails s' < 3)%Z → primaryDown s' = primaryDown s)
  else consecutiveFails s' = 0%Z ∧ primaryDown s' = false.
Proof.
  unfold check, failing. unfold mbind at 1, ST_bind at 1. rewrite lift_run.
  destruct (_ <=? _)%Z; [|by intros [= <-]].
  unfold mbind, ST_bind. cbn.
  set (n := wrap64 (consecutiveFails s + 1)).
  destruct (Z.leb_spec 3 n) as [Hn|Hn]; cbn.
  - assert (∀ s1 : fstate, consecutiveFails s1 = n ∧ primaryDown s1 = true →
      consecutiveFails s1 = n ∧ ((3 ≤ consecutiveFails s1)%Z → primaryDown s1 = true) ∧
      ((consecutiveFails s1 < 3)%Z → primaryDown s1 = primaryDown s)) as Hfin.
    { intros s1 [-> ->]. split_and!; auto. lia. }
    destruct (fc_autoFailover c); [|by intros [= <-]; apply Hfin].
    destruct (autoFailoverTarget c) as [t|]; [|by intros [= <-]; apply Hfin].
    destruct (Promote E c t _) as [r s1] eqn:Ep. intros [= <-]. apply Hfin.
    by apply keeps_Promote in Ep as [-> ->].
  - intros [= <-]. cbn. split; [done|]. split; [lia|done].
Qed.

(** The loop makes monitored rounds. *)
Lemma watch_monitored fuel bs s b s' : monitored bs s → watch E fuel c s = (b, s') →
  ∃ bs', length bs' ≤ fuel ∧ (b = false → length bs' = fuel) ∧ monitored (bs ++ bs') s'.
Proof.
  revert bs s. induction fuel as [|fuel IH]; intros bs s Hm; cbn [watch].
  { intros [= <- <-]. exists []. by rewrite app_nil_r. }
  unfold mbind, ST_bind. rewrite lift_run. unfold io_after. cbn [fst snd].
  set (s1 := mkState _ _ _). assert (monitored bs s1) as Hm1 by by apply monitored_other.
  destruct (env_timer E (fs_hist s) (fc_checkInterval c)).
  - destruct (check E c s1) as [[] s2] eqn:Ec. intros Hw.
    destruct (IH _ _ (monitored_tick _ _ _ Hm1 Ec) Hw) as (bs' & H1 & H2 & H3).
    exists (failing (fs_hist s1) :: bs'). split; [cbn; lia|]. split; [intros Hb; cbn; by rewrite (H2 Hb)|].
    by rewrite <- app_assoc in H3.
  - intros [= <- <-]. exists []. rewrite app_nil_r. split; [cbn; lia|done].
Qed.

Lemma Run_monitored fuel h b s' : Run E fuel c (mkState false 0 h) = (Some b, s') →
  ∃ bs, length bs ≤ fuel ∧ (b = false → length bs = fuel) ∧ monitored bs s'.
Proof.
  unfold Run. destruct (fc_checkInterval c <=? 0)%Z; [done|]. unfold mbind, ST_bind.
  destruct (watch E fuel c (mkState false 0 h)) as [ended s1] eqn:Ew. intros [= <- <-].
  apply (watch_monitored fuel [] _ _ _ (monitored_start h) Ew).
Qed.
End lemmas.

(** The length of the run of failing rounds that ends a series. *)
Definition run_of (bs : list bool) : nat := fold_left (λ n (b : bool), if b then S n else 0) bs 0.

Lemma run_of_snoc bs b : run_of (bs ++ [b]) = if b then S (run_of bs) else 0.
Proof. unfold run_of. by rewrite fold_left_app. Qed.

Lemma run_of_length bs : run_of bs ≤ length bs.
Proof.
  induction bs as [|b bs IH] using rev_ind; [done|]. rewrite run_of_snoc, length_app. cbn.
  destruct b; lia.
Qed.

Lemma run_of_suffix bs k : k ≤ run_of bs ↔ replicate k true `suffix_of` bs.
Proof.
  revert k. induction bs as [|b bs IH] using rev_ind; intros k.
  { cbn. split; [|intros [l Hl]; destruct k; [done|by destruct l]].
    intros H. replace k with 0 by lia. apply suffix_nil. }
  rewrite run_of_snoc. destruct k as [|k]; [split; intros; [apply suffix_nil|lia]|].
  rewrite replicate_S_end. destruct b.
  - split.
    + intros Hk. apply suffix_app, IH. lia.
    + intros Hk%suffix_snoc_inv_2. apply IH in Hk. lia.
  - split; [lia|]. by intros ?%suffix_snoc_inv_1.
Qed.

Lemma monitored_count E c bs s : monitored E c bs s → (Z.of_nat (length bs) < 2 ^ 63)%Z →
  consecutiveFails s = Z.of_nat (run_of bs) ∧ primaryDown s = bool_decide (3 ≤ run_of bs).
Proof.
  induction 1 as [h|bs s t H IH|bs s s' H IH Hc]; intros Hl; [done|by apply IH|].
  rewrite length_app in Hl. cbn in Hl. destruct (IH ltac:(lia)) as [Hn Hd].
  pose proof (run_of_length bs) as Hr. apply check_fields in Hc.
  rewrite run_of_snoc. destruct (failing E c (fs_hist s)).
  - destruct Hc as (Hc & H1 & H2). rewrite Hn, wrap64_id in Hc;
      [|unfold in_int64, int64_min, int64_max; lia].
    split; [rewrite Hc; lia|]. destruct (decide (3 ≤ S (run_of bs))).
    + rewrite bool_decide_eq_true_2 by done. apply H1. lia.
    + rewrite bool_decide_eq_false_2 by done. rewrite H2 by lia. rewrite Hd.
      apply bool_decide_eq_false_2. lia.
  - destruct Hc as [-> ->]. done.
Qed.

(** ** Lemmas: the events *)

(** A read-only probe: a health check, or a grep for the key. *)
Definition probe_cmds : list gostr :=
  [grep_cmd; "sudo grep 'db_key_base' /var/opt/gitlab/gitlab-rails/etc/secrets.yml 2>/dev/null || " ++ grep_cmd].

Definition is_probe (e : event) : Prop :=
  (∃ url hd, e = EvGet url hd) ∨ (∃ cmd, remote_cmd e = Some cmd ∧ cmd ∈ probe_cmds).

(** [m] only probes. *)
Definition probes {A} (m : IO A) : Prop := ∀ h, ∃ t, (m h).2 = h ++ t ∧ Forall is_probe t.

Lemma probes_ret {A} (a : A) : probes (mret a).
Proof. intros h. exists []. cbn. by rewrite app_nil_r. Qed.

Lemma probes_bind {A B} (m : IO A) (f : A → IO B) : probes m → (∀ a, probes (f a)) → probes (m ≫= f).
Proof.
  intros Hm Hf h. unfold mbind, ST_bind. destruct (Hm h) as (t & Ht & Hp).
  destruct (m h) as [a h1]. cbn in Ht. subst h1. destruct (Hf a (h ++ t)) as (t' & -> & Hp').
  exists (t ++ t'). by rewrite app_assoc, Forall_app.
Qed.

Lemma probes_count E urls n : probes (count_failures E urls n).
Proof.
  revert n. induction urls as [|url urls IH]; intros n; [apply probes_ret|].
  cbn [count_failures]. apply probes_bind; [|auto]. unfold pollURL. apply probes_bind; [|intros; apply probes_ret].
  intros h. exists [EvGet url []]. split; [done|]. constructor; [|constructor]. left; by eexists _, _.
Qed.

Lemma probes_ctx E : probes (io_ctx_Err E).
Proof. intros h. exists []. cbn. by rewrite app_nil_r. Qed.

Lemma probes_ssh E c host cmd : cmd ∈ probe_cmds → probes (CombinedOutput E c host cmd).
Proof.
  intros Hc h. exists (ssh_event c host cmd None). split; [apply CombinedOutput_event|].
  apply Forall_forall. intros e He. right. exists cmd. split; [by eapply remote_cmd_event|done].
Qed.

Lemma probes_fetchKey E (c : SshConfig) host : probes (fetchKey E host c).
Proof.
  assert (∀ sudo, probes (tryFetchKey E host c sudo)) as Ht.
  { intros sudo. unfold tryFetchKey. apply probes_bind; [|by intros []; apply probes_ret].
    apply probes_ssh. unfold probe_cmds. destruct sudo; [right|]; left. }
  unfold fetchKey. destruct (CheckHost host); [apply probes_ret|].
  apply probes_bind; [apply Ht|]. intros first. apply probes_bind; [|intros; apply probes_ret].
  destruct first; [apply probes_ret|]. apply probes_bind; [apply probes_ctx|].
  intros []; [apply probes_ret|]. apply probes_bind; [apply Ht|]. intros; apply probes_ret.
Qed.

Lemma probes_CheckWithConfig E p s c : probes (CheckWithConfig E p s c).
Proof.
  unfold CheckWithConfig, CheckWithRunner. apply probes_bind; [apply probes_fetchKey|].
  intros []; [|apply probes_ret]. apply probes_bind; [apply probes_fetchKey|].
  intros []; [|apply probes_ret]. case_bool_decide; apply probes_ret.
Qed.

Lemma sshSecondary_issues E c host cmd :
  issues (sshSecondary E c host cmd) (ssh_event (fc_sshCfg c) host cmd None).
Proof.
  unfold sshSecondary. destruct (CheckHost host); [apply issues_Err|].
  apply issues_output; [apply CombinedOutput_event|intros []; by eexists].
Qed.

Lemma issues_lift (m : IO err) evs : issues m evs → issues (lift m) evs.
Proof.
  intros Hm s r s'. rewrite lift_run. intros [= <- <-].
  destruct (m (fs_hist s)) as [r h'] eqn:E. by apply Hm in E.
Qed.

Section promote.
Context (E : Env) (c : Controller).

Lemma verifyPrimaryDown_gate s r s1 : verifyPrimaryDown E c s = (r, s1) →
  ∃ t, fs_hist s1 = fs_hist s ++ t ∧ Forall is_probe t ∧
    (is_Ok r = true → fc_force c = true ∨ primaryDown s = true ∨ failing E c (fs_hist s) = true).
Proof.
  unfold verifyPrimaryDown, failing.
  destruct (fc_force c).
  { intros [= <- <-]. exists []. rewrite app_nil_r. auto. }
  unfold mbind, ST_bind, gets. destruct (primaryDown s) eqn:Hd.
  { intros [= <- <-]. exists []. rewrite app_nil_r. auto. }
  rewrite lift_run. destruct (probes_count E (fc_healthURLs c) 0 (fs_hist s)) as (t & Ht & Hp).
  unfold countHealthFailures. destruct (_ <=? _)%Z; intros [= <- <-]; exists t; cbn; auto.
Qed.

(** Both sites have an ssh host, both keys were read, and they differ. *)
Definition definite_mismatch (secondary : SiteConfig) (h : history) : Prop :=
  site_SSHHost (cfg_Primary (fc_cfg c)) ≠ [] ∧ site_SSHHost secondary ≠ [] ∧
  ∃ e, (CheckWithConfig E (site_SSHHost (cfg_Primary (fc_cfg c))) (site_SSHHost secondary)
          (fc_sshCfg c) h).1 = Err e ∧ errors_Is e "dbkey.ErrKeyMismatch" = true.

Lemma verifyDBKeyParity_gate sec s r s1 : verifyDBKeyParity E c sec s = (r, s1) →
  ∃ t, fs_hist s1 = fs_hist s ++ t ∧ Forall is_probe t ∧
    (is_Ok r = true → ¬ definite_mismatch sec (fs_hist s)).
Proof.
  unfold verifyDBKeyParity, definite_mismatch. destruct (_ || _) eqn:Eh.
  { intros [= <- <-]. exists []. rewrite app_nil_r. split; [done|]. split; [done|].
    intros _ (? & ? & _). apply orb_true_iff in Eh as [Hb|Hb]; by apply bool_decide_eq_true_1 in Hb. }
  unfold mbind, ST_bind. rewrite lift_run.
  destruct (probes_CheckWithConfig E (site_SSHHost (cfg_Primary (fc_cfg c))) (site_SSHHost sec)
    (fc_sshCfg c) (fs_hist s)) as (t & Ht & Hp).
  intros [= <- <-]. exists t. split; [done|]. split; [done|].
  intros Hok (_ & _ & e & He & Hm). rewrite He in Hok. by rewrite Hm in Hok.
Qed.

(** The events that change the secondary, in the required order. *)
Definition promotion_cmds : list gostr :=
  ["sudo gitlab-ctl stop";
   "sudo -u gitlab-psql /opt/gitlab/embedded/bin/pg_ctl promote -D /var/opt/gitlab/postgresql/data";
   "sudo gitlab-ctl deploy-registry-readonly stop";
   "sudo gitlab-ctl sidekiq resume";
   "sudo gitlab-rails runner 'ApplicationSetting.current.update!(repository_storages: nil)' 2>/dev/null || true";
   "sudo gitlab-ctl start"].

Definition on_host (host : gostr) (cmds : list gostr) : list event :=
  cmds ≫= λ cmd, ssh_event (fc_sshCfg c) host cmd None.

Lemma on_host_app host l k : on_host host (l ++ k) = on_host host l ++ on_host host k.
Proof. apply bind_app. Qed.

Lemma on_host_one host cmd : on_host host [cmd] = ssh_event (fc_sshCfg c) host cmd None.
Proof. apply app_nil_r. Qed.

Lemma promotion_tail_issues sec wrap : fc_dryRun c = false →
  issues (run_steps false wrap (drop 2 (promotionSteps E c sec))) (on_host (site_SSHHost sec) promotion_cmds).
Proof.
  intros Hdry.
  assert (promotion_cmds = ["sudo gitlab-ctl stop"] ++ [pg_promote_cmd] ++ disable_cmds ++
    ["sudo gitlab-ctl start"]) as -> by (vm_compute; reflexivity).
  rewrite !on_host_app, !on_host_one.
  rewrite <- (app_nil_r (ssh_event _ _ "sudo gitlab-ctl start" _)).
  apply (issues_steps _ _ [_; _; _; _]). unfold promotionSteps. cbn [drop].
  repeat (apply Forall2_cons; split); try apply Forall2_nil_2; cbn [snd]; apply issues_lift;
    try apply sshSecondary_issues.
  rewrite Hdry. apply run_cmds_issues.
Qed.

(** What [Promote] does once its two gates have been passed. *)
Lemma Promote_shape name s r s' : fc_dryRun c = false → Promote E c name s = (r, s') →
  ∃ gates script, fs_hist s' = fs_hist s ++ gates ++ script ∧ Forall is_probe gates ∧
    (is_Ok r = false ∧ script = [] ∨
     ∃ sec g1 g2, findSecondary c name = Ok sec ∧
       sync_FailoverEnabled (cfg_Sync (fc_cfg c)) = true ∧ gates = g1 ++ g2 ∧
       (fc_force c = true ∨ primaryDown s = true ∨ failing E c (fs_hist s) = true) ∧
       ¬ definite_mismatch sec (fs_hist s ++ g1) ∧
       script `prefix_of` on_host (site_SSHHost sec) promotion_cmds ∧
       (is_Ok r = true → script = on_host (site_SSHHost sec) promotion_cmds)).
Proof.
  intros Hdry. unfold Promote.
  assert (∀ e, (Err e : err, s) = (r, s') → ∃ gates script, fs_hist s' = fs_hist s ++ gates ++ script ∧
    Forall is_probe gates ∧ is_Ok r = false ∧ script = []) as Hstop.
  { intros e [= <- <-]. exists [], []. cbn. by rewrite app_nil_r. }
  destruct (findSecondary c name) as [sec|e] eqn:Hsec; cycle 1.
  { intros (g & t & ? & ? & ?)%Hstop. exists g, t. auto. }
  rewrite Hdry. cbn [negb andb].
  destruct (sync_FailoverEnabled _) eqn:Hen; cycle 1.
  { intros (g & t & ? & ? & ?)%Hstop. exists g, t. auto. }
  change (promotionSteps E c sec) with
    (("verify primary down" : gostr, verifyPrimaryDown E c) ::
     ("verify db_key_base parity" : gostr, verifyDBKeyParity E c sec) ::
     drop 2 (promotionSteps E c sec)).
  cbn [negb]. intros Hrun. cbn [run_steps] in Hrun.
  destruct (verifyPrimaryDown E c s) as [r1 s1] eqn:E1.
  destruct (verifyPrimaryDown_gate _ _ _ E1) as (g1 & Hh1 & Hp1 & Hg1).
  destruct r1 as [|e1]; cycle 1.
  { injection Hrun as <- <-. exists g1, []. rewrite app_nil_r. auto. }
  destruct (verifyDBKeyParity E c sec s1) as [r2 s2] eqn:E2.
  destruct (verifyDBKeyParity_gate _ _ _ _ E2) as (g2 & Hh2 & Hp2 & Hg2).
  rewrite Hh1 in Hg2.
  destruct r2 as [|e2]; cycle 1.
  { injection Hrun as <- <-. exists (g1 ++ g2), [].
    rewrite Hh2, Hh1, app_nil_r, app_assoc, Forall_app. auto 10. }
  destruct (promotion_tail_issues sec step_error Hdry _ _ _ Hrun) as (t & Hpre & Ht & Hok).
  exists (g1 ++ g2), t. change (hist s') with (fs_hist s') in Ht.
  rewrite Ht. change (hist s2) with (fs_hist s2). rewrite Hh2, Hh1, Forall_app, !app_assoc.
  split; [done|]. split; [done|]. right. exists sec, g1, g2. auto 10.
Qed.
End promote.

(** What one round of the loop does to the world. *)
Lemma check_events E c s s' : check E c s = (tt, s') →
  ∃ t, fs_hist s' = fs_hist s ++ t ∧
    (Forall is_probe t ∨
     ∃ target sec, failing E c (fs_hist s) = true ∧ (3 ≤ wrap64 (consecutiveFails s + 1))%Z ∧
       fc_autoFailover c = true ∧ fc_dryRun c = false ∧
       sync_FailoverEnabled (cfg_Sync (fc_cfg c)) = true ∧
       autoFailoverTarget c = Ok target ∧ findSecondary c target = Ok sec ∧
       Forall (λ e, is_probe e ∨ e ∈ on_host c (site_SSHHost sec) promotion_cmds) t).
Proof.
  unfold check, failing. unfold mbind at 1, ST_bind at 1. rewrite lift_run.
  destruct (probes_count E (fc_healthURLs c) 0 (fs_hist s)) as (t & Ht & Hp).
  fold (countHealthFailures E c) in Ht. destruct (_ <=? _)%Z.
  2:{ intros [= <-]. exists t. cbn. rewrite Ht. auto. }
  unfold mbind, ST_bind. cbn. rewrite Ht. set (n := wrap64 _).
  destruct (Z.leb_spec 3 n) as [Hn|Hn]; cbn; [|intros [= <-]; exists t; auto].
  destruct (fc_autoFailover c); [|intros [= <-]; exists t; auto].
  destruct (autoFailoverTarget c) as [target|]; [|intros [= <-]; exists t; auto].
  destruct (Promote E c target _) as [r s1] eqn:Ep. intros [= <-].
  destruct (fc_dryRun c) eqn:Hdry.
  { unfold Promote in Ep. destruct (findSecondary c target); [|injection Ep as <- <-; exists t; auto].
    rewrite Hdry in Ep. cbn [negb andb] in Ep. rewrite run_steps_skip in Ep. injection Ep as <- <-. exists t. auto. }
  apply (Promote_shape E c) in Ep as (g & script & Hs & Hg & Hcase); [|done]. cbn in Hs.
  exists (t ++ g ++ script). rewrite Hs, <- app_assoc. split; [done|].
  destruct Hcase as [[_ ->]|(sec & g1 & g2 & Hsec & Hen & _ & _ & _ & Hpre & _)].
  - left. rewrite app_nil_r. by apply Forall_app.
  - right. exists target, sec. do 7 (split; [done|]). rewrite !Forall_app.
    split_and!; [by eapply Forall_impl; [|intros ? ?; left]..|].
    apply Forall_forall. intros e He. right. destruct Hpre as [k Hk].
    change (e ∈ on_host c (site_SSHHost sec) promotion_cmds). rewrite Hk. apply elem_of_app. by left.
Qed.

(** What the loop does, as long as it runs. *)
Definition round_event (c : Controller) (e : event) : Prop :=
  is_probe e ∨ e = EvSleep (fc_checkInterval c) ∨
  fc_autoFailover c = true ∧ fc_dryRun c = false ∧ sync_FailoverEnabled (cfg_Sync (fc_cfg c)) = true ∧
  ∃ target sec, autoFailoverTarget c = Ok target ∧ findSecondary c target = Ok sec ∧
    e ∈ on_host c (site_SSHHost sec) promotion_cmds.

Lemma check_round E c s s' : check E c s = (tt, s') → adds (round_event c) (fs_hist s) (fs_hist s').
Proof.
  intros (t & -> & Hcase)%check_events. exists t. split; [done|]. destruct Hcase as [Hp|Hc].
  - eapply Forall_impl; [exact Hp|]. intros e ?. by left.
  - destruct Hc as (target & sec & _ & _ & Ha & Hd & He & Ht & Hs & Hf). eapply Forall_impl; [exact Hf|].
    intros e [?|?]; [by left|]. right. right. do 3 (split; [done|]). by exists target, sec.
Qed.

Lemma watch_events E fuel c s b s' : watch E fuel c s = (b, s') → adds (round_event c) (fs_hist s) (fs_hist s').
Proof.
  revert s. induction fuel as [|fuel IH]; intros s; cbn [watch]; [by intros [= _ <-]|].
  unfold mbind, ST_bind. rewrite lift_run. unfold io_after. cbn [fst snd]. set (s1 := mkState _ _ _).
  assert (adds (round_event c) (fs_hist s) (fs_hist s1)) as H1 by (apply adds_one; right; by left).
  destruct (env_timer _ _ _); [|by intros [= _ <-]].
  destruct (check E c s1) as [[] s2] eqn:Ec. intros Hw. etrans; [exact H1|]. etrans; [by eapply check_round|by eapply IH].
Qed.

Lemma Run_events E fuel c h b s' : Run E fuel c (mkState false 0 h) = (Some b, s') → adds (round_event c) h (fs_hist s').
Proof.
  unfold Run. destruct (_ <=? _)%Z; [done|]. unfold mbind, ST_bind.
  destruct (watch E fuel c (mkState false 0 h)) as [ended s1] eqn:Ew. intros [= _ <-].
  by apply watch_events in Ew.
Qed.

(** ** Properties *)

(** C9: the monitor implements "three failed rounds in a row".  After any
    series of health-check rounds (fewer than 2^63), with anything else
    happening in between, the primary is declared down exactly when the
    last three rounds failed, and the counter is the length of the run of
    failed rounds the series ends with; an automatic promotion does not
    disturb either.  The loop of [Run], however long it runs, makes such a
    series, one round for each tick until the context ends it. *)
Theorem monitor_three_in_a_row E c bs s :
  monitored E c bs s → (Z.of_nat (length bs) < 2 ^ 63)%Z →
  ((IsPrimaryDown s).1 = true ↔ [true; true; true] `suffix_of` bs) ∧
  (∀ k : nat, (Z.of_nat k ≤ consecutiveFails s)%Z ↔ replicate k true `suffix_of` bs) ∧
  (∀ fuel h b s', Run E fuel c (mkState false 0 h) = (Some b, s') →
     ∃ bs', length bs' ≤ fuel ∧ (b = false → length bs' = fuel) ∧ monitored E c bs' s').
Proof.
  intros Hm Hl. destruct (monitored_count E c bs s Hm Hl) as [Hn Hd]. cbn [IsPrimaryDown gets fst].
  split; [|split; [|by intros ? ? ? ?; apply Run_monitored]].
  - change [true; true; true] with (replicate 3 true). rewrite <- run_of_suffix, Hd.
    apply bool_decide_eq_true.
  - intros k. rewrite <- run_of_suffix, Hn. lia.
Qed.

(** C7: the loop never acts on its own below the threshold or without
    being told to.  A round that does anything but probe (health checks
    and reads of the key) is at least the third failed round in a row, of
    a controller with automatic failover on, failover enabled and no dry
    run, and its target is a configured secondary. *)
Theorem check_acts_only_when E c bs s s' t :
  monitored E c bs s → (Z.of_nat (length bs) < 2 ^ 63 - 1)%Z →
  check E c s = (tt, s') → fs_hist s' = fs_hist s ++ t → ¬ Forall is_probe t →
  failing E c (fs_hist s) = true ∧ [true; true] `suffix_of` bs ∧
  fc_autoFailover c = true ∧ fc_dryRun c = false ∧
  sync_FailoverEnabled (cfg_Sync (fc_cfg c)) = true ∧
  ∃ target sec, autoFailoverTarget c = Ok target ∧ findSecondary c target = Ok sec.
Proof.
  intros Hm Hl Hc Ht Hnp. destruct (monitored_count E c bs s Hm ltac:(lia)) as [Hn _].
  destruct (check_events E c s s' Hc) as (t' & Ht' & Hcase). rewrite Ht in Ht'.
  apply app_inv_head in Ht' as <-. destruct Hcase as [Hp|(target & sec & Hf & H3 & ? & ? & ? & ? & ? & _)];
    [by destruct Hnp|].
  pose proof (run_of_length bs). rewrite Hn, wrap64_id in H3 by (unfold in_int64, int64_min, int64_max; lia).
  split; [done|]. split; [|by eauto 10].
  change [true; true] with (replicate 2 true). apply run_of_suffix. lia.
Qed.

(** C2: promotion is gated and ordered.  Outside a dry run, whatever
    fails, [Promote] first only probes, and then runs a prefix of the
    promotion script on the promoted secondary (stop GitLab, [pg_ctl
    promote], leave read-only mode, start GitLab): the whole script when
    it reports success.  If any of it ran, failover is enabled, the
    primary was forced, known or just measured to be down, and the two
    sites' keys were not read and found to differ. *)
Theorem Promote_gated_and_ordered E c name s r s' :
  fc_dryRun c = false → Promote E c name s = (r, s') →
  ∃ gates script, fs_hist s' = fs_hist s ++ gates ++ script ∧ Forall is_probe gates ∧
    (is_Ok r = true ∨ script ≠ [] →
     ∃ sec g1, findSecondary c name = Ok sec ∧
       sync_FailoverEnabled (cfg_Sync (fc_cfg c)) = true ∧ g1 `prefix_of` gates ∧
       (fc_force c = true ∨ primaryDown s = true ∨ failing E c (fs_hist s) = true) ∧
       ¬ definite_mismatch E c sec (fs_hist s ++ g1) ∧
       script `prefix_of` on_host c (site_SSHHost sec)
         ["sudo gitlab-ctl stop";
          "sudo -u gitlab-psql /opt/gitlab/embedded/bin/pg_ctl promote -D /var/opt/gitlab/postgresql/data";
          "sudo gitlab-ctl deploy-registry-readonly stop";
          "sudo gitlab-ctl sidekiq resume";
          "sudo gitlab-rails runner 'ApplicationSetting.current.update!(repository_storages: nil)' 2>/dev/null || true";
          "sudo gitlab-ctl start"] ∧
       (is_Ok r = true → script = on_host c (site_SSHHost sec) promotion_cmds)).
Proof.
  intros Hdry Hp. destruct (Promote_shape E c name s r s' Hdry Hp) as (g & t & Hs & Hg & Hcase).
  exists g, t. split; [done|]. split; [done|].
  destruct Hcase as [[Hr ->]|(sec & g1 & g2 & ? & ? & -> & ? & ? & ? & ?)].
  - intros [H|H]; [congruence|done].
  - intros _. exists sec, g1. split_and!; try done. by apply prefix_app_r.
Qed.

(** ** Role swap *)

Section adopt.
Context (E : Env) (c : Controller) (host : gostr).

Lemma checkRemotePGDataEmpty_issues :
  issues (checkRemotePGDataEmpty E c host)
    (ssh_event (fc_sshCfg c) host (if fc_wipePGData c then wipe_cmd else inspect_cmd) None).
Proof.
  unfold checkRemotePGDataEmpty. destruct (fc_wipePGData c); [apply sshSecondary_issues|].
  apply issues_output; [apply CombinedOutput_event|intros []; by eexists].
Qed.

Definition passfile_events (pg : PostgresConfig) : list event :=
  if bool_decide (pg_ReplicationPassword pg = []) then []
  else ssh_event (fc_sshCfg c) host write_passfile_cmd (Some (passfile_line pg)).

Lemma writeRemotePassfile_issues pg : issues (writeRemotePassfile E c host pg) (passfile_events pg).
Proof.
  unfold writeRemotePassfile, passfile_events. case_bool_decide; [apply issues_ret_Ok|].
  apply issues_output; [apply CombinedOutputStdin_event|intros []; by eexists].
Qed.

(** The whole role swap.  The password is in the standard input of the
    command that stages the passfile, and nowhere else. *)
Definition adopt_events (pg : PostgresConfig) : list event :=
  on_host c host ["sudo gitlab-ctl stop"] ++
  on_host c host [if fc_wipePGData c
    then "sudo rm -rf -- /var/opt/gitlab/postgresql/data && sudo -u gitlab-psql mkdir -p /var/opt/gitlab/postgresql/data"
    else "sudo ls -A /var/opt/gitlab/postgresql/data 2>/dev/null | head -1"] ++
  (if bool_decide (pg_ReplicationPassword pg = []) then []
   else ssh_event (fc_sshCfg c) host
     "umask 077 && sudo -u gitlab-psql tee /var/opt/gitlab/postgresql/.syncctl-pgpass >/dev/null"
     (Some (passfile_line pg))) ++
  on_host c host
    ([basebackup_cmd (pg_Host pg) (pg_Port pg) (pg_ReplicationUser pg)] ++ enable_cmds ++
     ["sudo gitlab-ctl start"]).

(** The quoted paths are what they look like. *)
Lemma fixed_cmds :
  wipe_cmd = "sudo rm -rf -- /var/opt/gitlab/postgresql/data && sudo -u gitlab-psql mkdir -p /var/opt/gitlab/postgresql/data" ∧
  inspect_cmd = "sudo ls -A /var/opt/gitlab/postgresql/data 2>/dev/null | head -1" ∧
  write_passfile_cmd = "umask 077 && sudo -u gitlab-psql tee /var/opt/gitlab/postgresql/.syncctl-pgpass >/dev/null" ∧
  rm_passfile_cmd = "sudo rm -f -- /var/opt/gitlab/postgresql/.syncctl-pgpass".
Proof. repeat split; vm_compute; reflexivity. Qed.

Lemma adopt_events_eq pg : adopt_events pg = mjoin
  [ssh_event (fc_sshCfg c) host "sudo gitlab-ctl stop" None;
   ssh_event (fc_sshCfg c) host (if fc_wipePGData c then wipe_cmd else inspect_cmd) None;
   passfile_events pg;
   ssh_event (fc_sshCfg c) host (basebackup_cmd (pg_Host pg) (pg_Port pg) (pg_ReplicationUser pg)) None;
   enable_cmds ≫= λ cmd, ssh_event (fc_sshCfg c) host cmd None;
   ssh_event (fc_sshCfg c) host "sudo gitlab-ctl start" None].
Proof.
  unfold adopt_events, passfile_events. destruct fixed_cmds as (-> & -> & -> & _).
  rewrite !on_host_app, !on_host_one.
  rewrite <- (app_nil_r (ssh_event _ host "sudo gitlab-ctl start" None)) at 1. reflexivity.
Qed.

Lemma adopt_steps_issues pg wrap : fc_dryRun c = false →
  issues (run_steps false wrap (adoptSteps E c host pg)) (adopt_events pg).
Proof.
  intros Hdry. rewrite adopt_events_eq. apply issues_steps. unfold adoptSteps. rewrite Hdry.
  apply Forall2_cons; split; [apply sshSecondary_issues|].
  apply Forall2_cons; split; [apply checkRemotePGDataEmpty_issues|].
  apply Forall2_cons; split; [apply writeRemotePassfile_issues|].
  apply Forall2_cons; split; [apply sshSecondary_issues|].
  apply Forall2_cons; split; [apply run_cmds_issues|].
  apply Forall2_cons; split; [apply sshSecondary_issues|]. constructor.
Qed.

Lemma removeRemotePassfile_events h : fc_dryRun c = false →
  (removeRemotePassfile E c host h).2 = h ++ ssh_event (fc_sshCfg c) host rm_passfile_cmd None.
Proof.
  intros Hdry. unfold removeRemotePassfile. rewrite Hdry. unfold mbind, ST_bind.
  pose proof (CombinedOutput_event E (fc_sshCfg c) host rm_passfile_cmd h) as Hev.
  by destruct (CombinedOutput _ _ _ _ _) as [[out o] h1].
Qed.
End adopt.

(** A dry run is silent.  With [dryRun] set, [Promote] and
    [AdoptAsSecondary] run nothing, probe nothing and change no state;
    they succeed exactly when the site to promote, or to re-base from, is
    determined. *)
Lemma dry_run_silent E c :
  fc_dryRun c = true →
  (∀ name s, (Promote E c name s).2 = s ∧
     (is_Ok (Promote E c name s).1 = true ↔ is_Ok (findSecondary c name) = true)) ∧
  (∀ old new h, (AdoptAsSecondary E c old new h).2 = h ∧
     (is_Ok (AdoptAsSecondary E c old new h).1 = true ↔ is_Ok (ResolveNewPrimary c new) = true)).
Proof.
  intros Hdry. split.
  - intros name s. unfold Promote. destruct (findSecondary c name); [|done].
    rewrite Hdry. cbn [negb andb]. by rewrite run_steps_skip.
  - intros old new h. unfold AdoptAsSecondary. rewrite Hdry. cbn [negb andb].
    destruct (ResolveNewPrimary c new); [|done]. unfold mbind, ST_bind.
    rewrite run_steps_skip. unfold removeRemotePassfile. by rewrite Hdry.
Qed.

(** C10: the role swap is ordered, cleans up and does not leak.  Outside a
    dry run, once it starts, [AdoptAsSecondary] runs a prefix of its
    script on the old primary (the whole of it when it reports success),
    in particular [pg_basebackup] only after the check of the data
    directory, and then, whatever happened, removes the staged passfile
    as its last act; the replication password occurs only on the standard
    input of the command that stages it. *)
Theorem AdoptAsSecondary_script E c host name newPrimary h r h' :
  fc_dryRun c = false → sync_FailoverEnabled (cfg_Sync (fc_cfg c)) = true →
  ResolveNewPrimary c name = Ok newPrimary →
  AdoptAsSecondary E c host name h = (r, h') →
  ∃ t, h' = h ++ t ++ on_host c host ["sudo rm -f -- /var/opt/gitlab/postgresql/.syncctl-pgpass"] ∧
    t `prefix_of` adopt_events c host (site_Postgres newPrimary) ∧
    (is_Ok r = true → t = adopt_events c host (site_Postgres newPrimary)).
Proof.
  intros Hdry Hen Hnew. unfold AdoptAsSecondary. rewrite Hdry, Hen, Hnew. cbn [negb andb].
  unfold mbind, ST_bind.
  destruct (run_steps false swap_error _ h) as [r1 h1] eqn:E1.
  destruct (adopt_steps_issues E c host _ _ Hdry _ _ _ E1) as (t & Hp & Ht & Hok).
  pose proof (removeRemotePassfile_events E c host h1 Hdry) as Hrm.
  destruct (removeRemotePassfile E c host h1) as [r2 h2]. cbn [snd] in Hrm. intros [= <- <-].
  exists t. rewrite Hrm. unfold hist, history_hist, id in Ht. rewrite Ht.
  destruct fixed_cmds as (_ & _ & _ & <-). by rewrite on_host_one, app_assoc.
Qed.

Lemma raw_word_Itoa z : raw_word (Itoa z) (Itoa z).
Proof.
  apply raw_word_safe; [|apply Itoa_nonempty]. apply forallb_Forall.
  pose proof (Itoa_bytes z) as H. revert H. apply Forall_byte_impl. byte_cases.
Qed.

(** Whatever the configured host and replication user are, the remote
    shell splits the [pg_basebackup] command into exactly the intended
    arguments. *)
Lemma basebackup_words host port user :
  shell_words (basebackup_cmd host port user) = Some
    ["sudo"; "-u"; "gitlab-psql"; "PGPASSFILE=/var/opt/gitlab/postgresql/.syncctl-pgpass";
     "/opt/gitlab/embedded/bin/pg_basebackup"; "-h"; host; "-p"; Itoa port; "-U"; user;
     "-D"; "/var/opt/gitlab/postgresql/data"; "-X"; "stream"; "-c"; "fast"; "-R"; "-P"].
Proof.
  assert (basebackup_cmd host port user = JoinWith
    ["sudo"; "-u"; "gitlab-psql"; "PGPASSFILE=/var/opt/gitlab/postgresql/.syncctl-pgpass";
     "/opt/gitlab/embedded/bin/pg_basebackup"; "-h"; Quote host; "-p"; Itoa port; "-U"; Quote user;
     "-D"; "/var/opt/gitlab/postgresql/data"; "-X"; "stream"; "-c"; "fast"; "-R"; "-P"] [SPC]) as ->.
  { unfold basebackup_cmd.
    assert (Quote remotePassfile = "/var/opt/gitlab/postgresql/.syncctl-pgpass") as -> by by vm_compute.
    assert (Quote remotePGData = "/var/opt/gitlab/postgresql/data") as -> by by vm_compute.
    reflexivity. }
  apply shell_words_raw.
  repeat first [ apply Forall2_nil_2
               | apply Forall2_cons; split;
                 [ first [ apply raw_word_Quote | apply raw_word_Itoa
                         | apply raw_word_safe; [vm_compute; reflexivity|discriminate] ] |] ].
Qed.

(** ** Choosing a site *)

Definition with_secondaries (cfg : Config) (l : list SiteConfig) : Config :=
  Build_Config (cfg_Primary cfg) l (cfg_Sync cfg) (cfg_Metrics cfg) (cfg_Log cfg) (cfg_ControlDB cfg)
    (cfg_Webhook cfg) (cfg_APIValidator cfg) (cfg_Failover cfg) (cfg_SSH cfg).

Definition with_cfg (c : Controller) (cfg : Config) : Controller :=
  mkController cfg (fc_sshCfg c) (fc_primaryURL c) (fc_healthURLs c) (fc_quorum c)
    (fc_checkInterval c) (fc_autoFailover c) (fc_dryRun c) (fc_force c) (fc_wipePGData c).

Lemma find_name_spec (l : list SiteConfig) name s : NoDup (site_Name <$> l) →
  List.find (λ s, bool_decide (site_Name s = name)) l = Some s ↔ s ∈ l ∧ site_Name s = name.
Proof.
  induction l as [|a l IH]; cbn; [intros _; split; [done|]; by intros [?%elem_of_nil _]|].
  intros [Ha Hl]%NoDup_cons. rewrite elem_of_cons. case_bool_decide as Hn.
  - split; [intros [= <-]; auto|]. intros [[->|Hs] Hname]; [done|].
    destruct Ha. apply list_elem_of_fmap. exists s. split; [congruence|done].
  - rewrite IH by done. naive_solver.
Qed.

Lemma findSecondary_perm c l name :
  NoDup (site_Name <$> cfg_Secondaries (fc_cfg c)) → cfg_Secondaries (fc_cfg c) ≡ₚ l →
  findSecondary (with_cfg c (with_secondaries (fc_cfg c) l)) name = findSecondary c name.
Proof.
  intros Hnd Hp. unfold findSecondary. cbn.
  set (f := λ s, bool_decide (site_Name s = name)).
  assert (List.find f l = List.find f (cfg_Secondaries (fc_cfg c))) as ->; [|done].
  apply option_eq. intros s. unfold f.
  rewrite !find_name_spec; [by rewrite Hp|done|by rewrite <- Hp].
Qed.

(** Which site is promoted, and which site is re-based from, is never
    decided by the order of the configuration: permuting the secondaries
    (whose names are unique) changes neither choice; and a site is chosen
    without being named only when it is the only one. *)
Lemma choice_ignores_order c l name :
  NoDup (site_Name <$> cfg_Secondaries (fc_cfg c)) → cfg_Secondaries (fc_cfg c) ≡ₚ l →
  let c' := with_cfg c (with_secondaries (fc_cfg c) l) in
  autoFailoverTarget c' = autoFailoverTarget c ∧
  ResolveNewPrimary c' name = ResolveNewPrimary c name ∧
  (is_Ok (autoFailoverTarget c) = true → promote_secondary c = [] →
   length (cfg_Secondaries (fc_cfg c)) = 1) ∧
  (is_Ok (ResolveNewPrimary c name) = true → name = [] → length (cfg_Secondaries (fc_cfg c)) = 1).
Proof.
  intros Hnd Hp c'. unfold autoFailoverTarget, ResolveNewPrimary. subst c'.
  rewrite !findSecondary_perm by done.
  change (promote_secondary (with_cfg c _)) with (promote_secondary c).
  pose proof (Permutation_length Hp) as Hlen. cbn [with_cfg with_secondaries fc_cfg cfg_Secondaries].
  assert (∀ s, l = [s] → cfg_Secondaries (fc_cfg c) = [s]) as H1.
  { intros s ->. by apply Permutation_singleton_r in Hp. }
  split_and!.
  - case_bool_decide; [done|].
    destruct l as [|s [|s' l]]; [|by rewrite (H1 s)|];
      destruct (cfg_Secondaries (fc_cfg c)) as [|a [|b k]]; cbn in Hlen; try lia; [done|].
    by assert (length (a :: b :: k) = length (s :: s' :: l)) as -> by (cbn; lia).
  - case_bool_decide; [done|].
    destruct l as [|s [|s' l]]; [|by rewrite (H1 s)|];
      destruct (cfg_Secondaries (fc_cfg c)) as [|a [|b k]]; cbn in Hlen; try lia; [done|].
    by assert (length (a :: b :: k) = length (s :: s' :: l)) as -> by (cbn; lia).
  - intros Hok Hn. rewrite Hn in Hok. cbn in Hok.
    by destruct (cfg_Secondaries (fc_cfg c)) as [|a [|b k]].
  - intros Hok ->. cbn in Hok. by destruct (cfg_Secondaries (fc_cfg c)) as [|a [|b k]].
Qed.

(** ** Examples *)

(** A world where the primary does not answer, no command fails, and the
    files of every site say the same. *)
Definition ex_env : Env := {|
  env_exec _ _ args _ _ := (if bool_decide (last args = Some inspect_cmd) then [] else ex_line, None);
  env_get _ _ _ := Err (ErrExternal "connection refused");
  env_hops _ _ := [];
  env_disk _ _ := NFile;
  env_draw _ _ _ := 0;
  env_sql _ _ _ _ := Err (ErrExternal "no database");
  env_ctx _ := None;
  env_timer _ _ := true |}.

Definition ex_controller (auto dry : bool) : Controller :=
  mkController
    (Build_Config (ex_site "eu" "https://gitlab.eu" "eu") [ex_site "us" "https://gitlab.us" "root@us"]
      (Build_SyncConfig 0 0 0 true false (SpecFloat.S754_zero false)) (Build_MetricsConfig [])
      (Build_LogConfig [] [] false) [] None None None (Build_SSHConfig [] []))
    Default "https://gitlab.eu" ["https://gitlab.eu"] 1 (10 * Second) auto dry false false.

Definition ex_start : fstate := mkState false 0 [].
Definition ex_tick (s : fstate) : fstate := (check ex_env (ex_controller true false) s).2.

Lemma ex_monitored : monitored ex_env (ex_controller true false) [true; true] (ex_tick (ex_tick ex_start)).
Proof.
  assert (∀ bs s, monitored ex_env (ex_controller true false) bs s →
    failing ex_env (ex_controller true false) (fs_hist s) = true →
    monitored ex_env (ex_controller true false) (bs ++ [true]) (ex_tick s)) as Htick.
  { intros bs s Hm <-. apply monitored_tick; [done|]. unfold ex_tick.
    by destruct (check ex_env (ex_controller true false) s) as [[] s']. }
  apply (Htick [true]); [|vm_compute; reflexivity].
  apply (Htick []); [constructor|vm_compute; reflexivity].
Defined.

Lemma monitor_three_in_a_row_witness :
  (primaryDown (ex_tick (ex_tick ex_start)) = true ↔ [true; true; true] `suffix_of` [true; true]) ∧
  (∀ k : nat, (Z.of_nat k ≤ consecutiveFails (ex_tick (ex_tick ex_start)))%Z ↔
    replicate k true `suffix_of` [true; true]).
Proof.
  destruct (monitor_three_in_a_row _ _ _ _ ex_monitored) as (H1 & H2 & _); [cbn; lia|].
  exact (conj H1 H2).
Defined.

(** The third failed round promotes. *)
Lemma check_acts_only_when_witness :
  let s := ex_tick (ex_tick ex_start) in
  ∃ t, fs_hist (ex_tick s) = fs_hist s ++ t ∧ ¬ Forall is_probe t ∧
  failing ex_env (ex_controller true false) (fs_hist s) = true ∧ [true; true] `suffix_of` [true; true] ∧
  fc_autoFailover (ex_controller true false) = true ∧ fc_dryRun (ex_controller true false) = false ∧
  sync_FailoverEnabled (cfg_Sync (fc_cfg (ex_controller true false))) = true ∧
  ∃ target sec, autoFailoverTarget (ex_controller true false) = Ok target ∧
    findSecondary (ex_controller true false) target = Ok sec.
Proof.
  cbn zeta. exists (drop 2 (fs_hist (ex_tick (ex_tick (ex_tick ex_start))))).
  assert (fs_hist (ex_tick (ex_tick (ex_tick ex_start))) = fs_hist (ex_tick (ex_tick ex_start)) ++
    drop 2 (fs_hist (ex_tick (ex_tick (ex_tick ex_start))))) as Ht by (vm_compute; reflexivity).
  assert (¬ Forall is_probe (drop 2 (fs_hist (ex_tick (ex_tick (ex_tick ex_start)))))) as Hnp.
  { intros Hp. rewrite Forall_forall in Hp.
    assert (∃ e, e ∈ drop 2 (fs_hist (ex_tick (ex_tick (ex_tick ex_start)))) ∧
      remote_cmd e = Some ("sudo gitlab-ctl stop" : gostr)) as (e & He & Hc).
    { eexists. split; [apply (list_elem_of_lookup_2 _ 3); vm_compute; reflexivity|reflexivity]. }
    destruct (Hp e He) as [(u & hd & ->)|(cmd & Hcmd & Hin)]; [done|].
    rewrite Hc in Hcmd. injection Hcmd as <-.
    apply (bool_decide_eq_true_2 (("sudo gitlab-ctl stop" : gostr) ∈ probe_cmds)) in Hin.
    vm_compute in Hin. discriminate. }
  split; [exact Ht|]. split; [exact Hnp|].
  apply (check_acts_only_when ex_env (ex_controller true false) [true; true]
    (ex_tick (ex_tick ex_start)) (ex_tick (ex_tick (ex_tick ex_start)))
    (drop 2 (fs_hist (ex_tick (ex_tick (ex_tick ex_start))))) ex_monitored).
  - cbn. lia.
  - vm_compute. reflexivity.
  - exact Ht.
  - exact Hnp.
Defined.

Lemma Promote_gated_and_ordered_witness :
  let c := ex_controller false false in
  let '(r, s') := Promote ex_env c "us" ex_start in
  ∃ gates script, fs_hist s' = [] ++ gates ++ script ∧ Forall is_probe gates ∧
    (is_Ok r = true ∨ script ≠ [] →
     ∃ sec g1, findSecondary c "us" = Ok sec ∧
       sync_FailoverEnabled (cfg_Sync (fc_cfg c)) = true ∧ g1 `prefix_of` gates ∧
       (fc_force c = true ∨ primaryDown ex_start = true ∨ failing ex_env c (fs_hist ex_start) = true) ∧
       ¬ definite_mismatch ex_env c sec (fs_hist ex_start ++ g1) ∧
       script `prefix_of` on_host c (site_SSHHost sec) promotion_cmds ∧
       (is_Ok r = true → script = on_host c (site_SSHHost sec) promotion_cmds)).
Proof.
  apply (Promote_gated_and_ordered ex_env (ex_controller false false) "us" ex_start); reflexivity.
Defined.

(** The witness promotes for real. *)
Example Promote_example :
  let '(r, s') := Promote ex_env (ex_controller false false) "us" ex_start in
  r = nil_error ∧ primaryDown s' = true ∧ length (fs_hist s') = 9.
Proof. vm_compute. done. Qed.

Lemma dry_run_silent_witness :
  (∀ name s, (Promote ex_env (ex_controller false true) name s).2 = s ∧
     (is_Ok (Promote ex_env (ex_controller false true) name s).1 = true ↔
      is_Ok (findSecondary (ex_controller false true) name) = true)) ∧
  (∀ old new h, (AdoptAsSecondary ex_env (ex_controller false true) old new h).2 = h ∧
     (is_Ok (AdoptAsSecondary ex_env (ex_controller false true) old new h).1 = true ↔
      is_Ok (ResolveNewPrimary (ex_controller false true) new) = true)).
Proof. apply (dry_run_silent ex_env (ex_controller false true)). reflexivity. Defined.

Lemma AdoptAsSecondary_script_witness :
  let c := ex_controller false false in
  let '(r, h') := AdoptAsSecondary ex_env c "eu" [] [] in
  ∃ t, h' = [] ++ t ++ on_host c "eu" ["sudo rm -f -- /var/opt/gitlab/postgresql/.syncctl-pgpass"] ∧
    t `prefix_of` adopt_events c "eu" ex_postgres ∧
    (is_Ok r = true → t = adopt_events c "eu" ex_postgres).
Proof.
  cbn zeta. destruct (AdoptAsSecondary ex_env (ex_controller false false) "eu" [] []) as [r h'] eqn:Er.
  apply (AdoptAsSecondary_script ex_env (ex_controller false false) "eu" []
    (ex_site "us" "https://gitlab.us" "root@us") []); [reflexivity..|exact Er].
Defined.

Lemma choice_ignores_order_witness :
  let c := ex_controller false false in
  let l := cfg_Secondaries (fc_cfg c) in
  autoFailoverTarget (with_cfg c (with_secondaries (fc_cfg c) l)) = autoFailoverTarget c.
Proof.
  apply (choice_ignores_order (ex_controller false false) _ []); [|reflexivity].
  apply NoDup_singleton.
Defined.

(** A second automatic promotion of the new primary stops it again: the
    loop does not remember that it has already promoted. *)
Example auto_failover_repeats :
  let promotions (s : fstate) := length (filter (λ e, remote_cmd e = Some ("sudo gitlab-ctl stop" : gostr)) (fs_hist s)) in
  promotions (ex_tick (ex_tick (ex_tick ex_start))) = 1 ∧
  promotions (ex_tick (ex_tick (ex_tick (ex_tick ex_start)))) = 2.
Proof. vm_compute. done. Qed.

(** The passfile line is not escaped: a colon in the password ends the
    field early. *)
Example passfile_not_escaped :
  passfile_line (Build_PostgresConfig "db" 5432 [] [] [] "repl" "a:b" [] [] [] [] []) =
  "db:5432:*:repl:a:b" ++ [LF].
Proof. reflexivity. Qed.
