(* ===== verification/Promotion.v ===== *)
(** * Promotions that fail, and promotions that happen

    What [Promote] (Failover.v) tells when it does not succeed: which step
    failed and why, and whether the reason is that the two sites have
    different database keys.  And that automatic failover does promote, when
    the primary stays away and the secondary's host still obeys. *)
From Stdlib Require Import Ascii ZArith Lia.
From stdpp Require Import prelude strings gmap list.
From S2P Require Import Prelude World GoStrings SshExec DbKey ReadOnly ConfigData Config Failover.
Open Scope go_scope.

(** ** Errors that are not a given sentinel *)

Section foreign.
Context (id : gostr) (E : Env).

Definition foreign (e : error) : Prop := errors_Is e id = false.

(** The errors of running a process come from the operating system. *)
Definition exec_foreign : Prop := ∀ h name args env stdin e, (env_exec E h name args env stdin).2 = Some e → foreign e.

(** [m] fails with foreign errors only. *)
Class Foreign {S A} (m : ST S (res A)) : Prop := foreign_err s e s' : m s = (Err e, s') → foreign e.

#[export] Instance foreign_ret_Ok {S A} (a : A) : Foreign (mret (Ok a) : ST S (res A)).
Proof. by intros s e s'. Qed.

Lemma foreign_ret_Err {S A} (e : error) : foreign e → Foreign (mret (Err e) : ST S (res A)).
Proof. by intros He s e' s' [= <- <-]. Qed.

Lemma foreign_bind {S A B} (m : ST S A) (f : A → ST S (res B)) : (∀ a, Foreign (f a)) → Foreign (m ≫= f).
Proof. intros Hf s e s'. unfold mbind, ST_bind. destruct (m s) as [a s1]. apply Hf. Qed.

Lemma foreign_try {S A B} (m : ST S (res A)) (f : A → ST S (res B)) :
  Foreign m → (∀ a, Foreign (f a)) → Foreign (try_bind m f).
Proof.
  intros Hm Hf s e s'. unfold try_bind. destruct (m s) as [[a|e1] s1] eqn:Em; [apply Hf|].
  intros [= <- <-]. by eapply Hm.
Qed.

Lemma foreign_lift {A} (m : IO (res A)) : Foreign m → Foreign (lift m).
Proof.
  intros Hm s e s'. unfold lift. destruct (m (fs_hist s)) as [r h] eqn:Em. intros [= -> <-]. by eapply Hm.
Qed.

Lemma foreign_Errorf l : Forall (λ f, match f with FW e => foreign e | _ => True end) l → foreign (Errorf l).
Proof.
  intros Hl. unfold foreign. rewrite errors_Is_Errorf. induction Hl as [|f l Hf _ IH]; [done|]. cbn. rewrite IH.
  destruct f; try done. by rewrite Hf.
Qed.

(** [Errorf] of literals and foreign errors. *)
Ltac solve_foreign := apply foreign_Errorf; repeat constructor; try done.

Lemma splitHostPort_foreign s e : splitHostPort s = Err e → foreign e.
Proof.
  assert (∀ p e, validatePort p = Err e → foreign e) as Hp.
  { intros p e0. unfold validatePort. destruct (Atoi p); [destruct (_ || _); [|done]|]; intros [= <-]; solve_foreign. }
  unfold splitHostPort. destruct (HasPrefix s "[").
  - destruct (Index s "]"); [|intros [= <-]; solve_foreign]. case_bool_decide; [done|].
    destruct (HasPrefix _ _); [|intros [= <-]; solve_foreign].
    destruct (validatePort _) eqn:Hv; [done|]. intros [= <-]. by eapply Hp.
  - destruct (CountByte _ _) as [|[|]]; [done| |done].
    destruct (validatePort _) eqn:Hv; [done|]. intros [= <-]. by eapply Hp.
Qed.

Lemma ParseEndpoint_foreign raw e : ParseEndpoint raw = Err e → foreign e.
Proof.
  unfold ParseEndpoint. case_bool_decide; [intros [= <-]; solve_foreign|].
  destruct (ContainsAny _ _); [intros [= <-]; solve_foreign|]. destruct (split_user _) as [u s].
  case_bool_decide; [intros [= <-]; solve_foreign|].
  destruct (splitHostPort s) as [[host port]|e'] eqn:Hs.
  - case_bool_decide; [intros [= <-]; solve_foreign|].
    repeat (match goal with |- context [if ?b then _ else _] => destruct b end; [intros [= <-]; solve_foreign|]). done.
  - intros [= <-]. apply splitHostPort_foreign in Hs. solve_foreign.
Qed.

Lemma CheckHost_foreign host e : CheckHost host = Some e → foreign e.
Proof.
  unfold CheckHost. case_bool_decide; [intros [= <-]; solve_foreign|].
  destruct (ParseEndpoint host) eqn:Hp; [done|]. intros [= <-]. by eapply ParseEndpoint_foreign.
Qed.

Lemma CombinedOutput_foreign cfg host cmd h out e h' : exec_foreign →
  CombinedOutput E cfg host cmd h = ((out, Some e), h') → foreign e.
Proof.
  intros HE. unfold CombinedOutput, Command. destruct (ParseEndpoint host) eqn:Hp.
  - cbn. unfold io_exec. intros [= He _]. eapply HE. by rewrite He.
  - cbn. intros [= _ <- _]. by eapply ParseEndpoint_foreign.
Qed.

(** Running one remote command, with its error wrapped. *)
Lemma foreign_remote cfg host cmd (wrap : gostr → error → error) : exec_foreign →
  (∀ out e, foreign e → foreign (wrap out e)) →
  Foreign ('(out, err) ← CombinedOutput E cfg host cmd;
           mret (match err with Some e => Err (wrap out e) | None => nil_error end)).
Proof.
  intros HE Hw h e h'. unfold mbind, ST_bind. destruct (CombinedOutput E cfg host cmd h) as [[out [e1|]] h1] eqn:Ec; [|done].
  intros [= <- <-]. by eapply Hw, CombinedOutput_foreign.
Qed.

Lemma foreign_sshSecondary c host cmd : exec_foreign → Foreign (sshSecondary E c host cmd).
Proof.
  intros HE. unfold sshSecondary. destruct (CheckHost host) eqn:Hc.
  - apply foreign_ret_Err. by eapply CheckHost_foreign.
  - apply (foreign_remote _ _ _ (λ out e, ssh_failed host e out)); [done|]. intros out e He. solve_foreign.
Qed.

Lemma foreign_run_cmds host dry cfg cmds : exec_foreign → Foreign (run_cmds E host dry cfg cmds).
Proof.
  intros HE. induction cmds as [|cmd cmds IH]; cbn [run_cmds]; [apply _|]. apply foreign_try; [|intros _; exact IH].
  unfold runSSH. destruct (CheckHost host) eqn:Hc.
  - apply foreign_ret_Err. by eapply CheckHost_foreign.
  - destruct dry; [apply _|].
    apply (foreign_remote _ _ _ (λ out e, Errorf [FS "ssh "; FS host; FS ": "; FW e; FS ": "; FS out])); [done|].
    intros out e He. solve_foreign.
Qed.

Lemma foreign_verifyPrimaryDown c : Foreign (verifyPrimaryDown E c).
Proof.
  unfold verifyPrimaryDown. destruct (fc_force c); [apply _|]. apply foreign_bind. intros [|]; [apply _|].
  apply foreign_bind. intros fails. destruct (_ <=? _)%Z; [apply foreign_bind; intros _; apply _|].
  apply foreign_ret_Err. solve_foreign.
Qed.
End foreign.

(** ** Promotions *)

Definition mismatch : gostr := "dbkey.ErrKeyMismatch".
Definition parity_step : gostr := "verify db_key_base parity".

Section promotion.
Context (E : Env) (c : Controller).

Lemma verifyDBKeyParity_error sec s e s' : verifyDBKeyParity E c sec s = (Err e, s') → errors_Is e mismatch = true.
Proof.
  unfold verifyDBKeyParity. destruct (_ || _); [done|]. unfold mbind, ST_bind.
  destruct (lift _ s) as [[u|err] s1]; [done|]. unfold mret, ST_ret. destruct (errors_Is err _) eqn:Hm; [|done].
  by intros [= <- <-].
Qed.

(** Only the parity check fails with a mismatch. *)
Lemma step_mismatch sec step fn s e s' : exec_foreign mismatch E → (step, fn) ∈ promotionSteps E c sec →
  fn s = (Err e, s') → errors_Is e mismatch = bool_decide (step = parity_step).
Proof.
  intros HE Hin Hf.
  assert (step ≠ parity_step → Foreign mismatch fn → errors_Is e mismatch = bool_decide (step = parity_step)) as Hother.
  { intros Hne HF. rewrite bool_decide_eq_false_2 by done. by eapply HF. }
  unfold promotionSteps in Hin. rewrite !elem_of_cons, elem_of_nil in Hin. destruct_or!; simplify_eq.
  - apply Hother; [closed_decide|]. apply foreign_verifyPrimaryDown.
  - rewrite bool_decide_eq_true_2 by done. by eapply verifyDBKeyParity_error.
  - apply Hother; [closed_decide|]. by apply foreign_lift, foreign_sshSecondary.
  - apply Hother; [closed_decide|]. by apply foreign_lift, foreign_sshSecondary.
  - apply Hother; [closed_decide|]. by apply foreign_lift, foreign_run_cmds.
  - apply Hother; [closed_decide|]. by apply foreign_lift, foreign_sshSecondary.
Qed.

(** C25: what a failed promotion says.  [Promote] fails without touching
    anything when no secondary has the name, or when failover is disabled
    and the run is not dry.  Otherwise the error names the one step that
    failed and wraps its cause: the steps before it succeeded, in the order
    of the script, and those after it have not run.  The error is
    [dbkey.ErrKeyMismatch] exactly when the step is the parity check, which
    fails for no other reason (a key that cannot be read does not stop a
    promotion).  A dry run fails only for the name. *)
Theorem Promote_errors name s e s' : exec_foreign mismatch E → Promote E c name s = (Err e, s') →
  (s' = s ∧ e = Errorf [FS "secondary "; FQ name; FS " not found"] ∧
     ∀ sc, sc ∈ cfg_Secondaries (fc_cfg c) → site_Name sc ≠ name) ∨
  (s' = s ∧ fc_dryRun c = false ∧ sync_FailoverEnabled (cfg_Sync (fc_cfg c)) = false) ∨
  ∃ sec before step fn after s1 e', findSecondary c name = Ok sec ∧ fc_dryRun c = false ∧
    promotionSteps E c sec = before ++ (step, fn) :: after ∧
    run_steps false step_error before s = (nil_error, s1) ∧ fn s1 = (Err e', s') ∧
    e = Errorf [FS "step "; FQ step; FS ": "; FW e'] ∧
    (errors_Is e mismatch = true ↔ step = parity_step).
Proof.
  intros HE. unfold Promote. destruct (findSecondary c name) as [sec|e0] eqn:Hf.
  - destruct (fc_dryRun c) eqn:Hd.
    { cbn [negb andb]. by rewrite run_steps_skip. }
    destruct (sync_FailoverEnabled _) eqn:He; cbn [negb andb].
    + intros (before & step & fn & after & s1 & e' & Hs & Hb & Hfn & ->)%run_steps_Err. right. right.
      exists sec, before, step, fn, after, s1, e'. do 6 (split; [done|]).
      assert ((step, fn) ∈ promotionSteps E c sec) as Hin by (rewrite Hs; apply elem_of_app; right; left).
      unfold step_error. rewrite errors_Is_Errorf. cbn [existsb]. rewrite (step_mismatch _ _ _ _ _ _ HE Hin Hfn).
      rewrite orb_false_r. apply bool_decide_eq_true.
    + intros [= _ <-]. by right; left.
  - intros [= <- <-]. left. unfold findSecondary in Hf. destruct (List.find _ _) eqn:Hx; [done|]. injection Hf as <-.
    split; [done|]. split; [done|]. intros sc Hsc%list_elem_of_In Hn.
    pose proof (List.find_none _ _ Hx _ Hsc) as Hb. cbn in Hb. by rewrite bool_decide_eq_true_2 in Hb.
Qed.
End promotion.

(** ** Automatic failover acts *)

Lemma run_steps_Ok {S} wrap (steps : list (gostr * ST S err)) s :
  Forall (λ step, ∀ s, is_Ok (step.2 s).1 = true) steps → is_Ok (run_steps false wrap steps s).1 = true.
Proof.
  intros Hf. revert s. induction Hf as [|[name fn] steps Hfn _ IH]; intros s; [done|]. cbn [run_steps].
  specialize (Hfn s). cbn [snd] in Hfn. destruct (fn s) as [[u|e] s1]; [apply IH|done].
Qed.

Section acts.
Context (E : Env) (c : Controller) (sec : SiteConfig) (h : history).

(** From [h] on the primary does not answer, and the secondary's host runs
    the commands of the promotion, nothing being assumed of any other
    command; when both keys can be read (which needs the primary's host),
    they are not different ones. *)
Record outage : Prop := {
  ou_down t : failing E c (h ++ t) = true;
  ou_ticks t : env_timer E (h ++ t) (fc_checkInterval c) = true;
  ou_host : CheckHost (site_SSHHost sec) = None;
  ou_runs t cmd args : cmd ∈ promotion_cmds → Command (fc_sshCfg c) (site_SSHHost sec) cmd = Ok args →
    (env_exec E (h ++ t) "ssh" args [] None).2 = None;
  ou_keys t : ¬ definite_mismatch E c sec (h ++ t);
}.

Context (Hout : outage).

(** States of the outage. *)
Definition since (s : fstate) : Prop := ∃ t, fs_hist s = h ++ t.

Lemma CombinedOutput_runs cmd t : cmd ∈ promotion_cmds →
  (CombinedOutput E (fc_sshCfg c) (site_SSHHost sec) cmd (h ++ t)).1.2 = None ∧
  ∃ u, (CombinedOutput E (fc_sshCfg c) (site_SSHHost sec) cmd (h ++ t)).2 = h ++ u.
Proof using Hout.
  intros Hcmd. pose proof (ou_host Hout) as Hh. unfold CheckHost in Hh. case_bool_decide; [done|].
  pose proof (λ args, ou_runs Hout t cmd args Hcmd) as Hr. unfold CombinedOutput.
  destruct (Command _ _ cmd) as [args|] eqn:Ha; [|unfold Command in Ha; by destruct (ParseEndpoint _)].
  cbn. split; [by apply Hr|]. rewrite <- app_assoc. by eexists.
Qed.

(** A command that cannot fail during the outage. *)
Definition works (m : IO err) : Prop := ∀ t, is_Ok (m (h ++ t)).1 = true ∧ ∃ u, (m (h ++ t)).2 = h ++ u.

Lemma works_ret : works (mret nil_error).
Proof. intros t. split; [done|by exists t]. Qed.

Lemma works_remote cmd (wrap : gostr → error → error) : cmd ∈ promotion_cmds →
  works ('(out, err) ← CombinedOutput E (fc_sshCfg c) (site_SSHHost sec) cmd;
         mret (match err with Some e => Err (wrap out e) | None => nil_error end)).
Proof using Hout.
  intros Hcmd t. unfold mbind, ST_bind. destruct (CombinedOutput_runs cmd t Hcmd) as [Ho [u Hu]].
  destruct (CombinedOutput E (fc_sshCfg c) (site_SSHHost sec) cmd (h ++ t)) as [[out err] h1]. cbn in Ho, Hu. subst.
  split; [done|by exists u].
Qed.

Lemma works_sshSecondary cmd : cmd ∈ promotion_cmds → works (sshSecondary E c (site_SSHHost sec) cmd).
Proof using Hout.
  intros Hcmd. unfold sshSecondary. rewrite (ou_host Hout). by apply (works_remote _ (λ out e, ssh_failed _ e out)).
Qed.

Lemma works_run_cmds cmds : Forall (.∈ promotion_cmds) cmds → works (run_cmds E (site_SSHHost sec) false (fc_sshCfg c) cmds).
Proof using Hout.
  induction cmds as [|cmd cmds IH]; cbn [run_cmds]; [intros; apply works_ret|].
  intros [Hcmd Hcmds]%Forall_cons t. unfold try_bind.
  assert (works (runSSH E (site_SSHHost sec) false (fc_sshCfg c) cmd)) as Hw.
  { unfold runSSH. rewrite (ou_host Hout).
    by apply (works_remote _ (λ out e, Errorf [FS "ssh "; FS (site_SSHHost sec); FS ": "; FW e; FS ": "; FS out])). }
  destruct (Hw t) as [Hok [u Hu]]. destruct (runSSH E (site_SSHHost sec) false (fc_sshCfg c) cmd (h ++ t)) as [[v|e] h1]; [|done].
  cbn in Hu. subst h1. by apply IH.
Qed.

(** The steps after the two gates. *)
Lemma tail_works s : fc_dryRun c = false → since s →
  is_Ok (run_steps false step_error (drop 2 (promotionSteps E c sec)) s).1 = true.
Proof using Hout.
  intros Hdry.
  assert (∀ steps s, Forall (λ step, ∃ m, step.2 = lift m ∧ works m) steps → since s →
    is_Ok (run_steps false step_error steps s).1 = true) as Hall.
  { clear s. intros steps s Hf. revert s. induction Hf as [|[name fn] steps (m & Hfn & Hm) _ IH]; intros s [t Ht]; [done|].
    cbn [snd] in Hfn. subst fn. cbn [run_steps]. rewrite lift_run, Ht. destruct (Hm t) as [Hok [u Hu]].
    destruct (m (h ++ t)) as [[v|e] h1]; [|done]. cbn in Hu |- *. apply IH. by exists u. }
  intros Hs. apply Hall; [|done]. unfold promotionSteps. cbn [drop]. rewrite Hdry.
  repeat constructor; cbn [snd]; (eexists; split; [reflexivity|]);
    first [apply works_sshSecondary; closed_decide | apply works_run_cmds; closed_decide].
Qed.

Lemma Promote_works name s : fc_dryRun c = false → sync_FailoverEnabled (cfg_Sync (fc_cfg c)) = true →
  findSecondary c name = Ok sec → primaryDown s = true → since s → is_Ok (Promote E c name s).1 = true.
Proof using Hout.
  intros Hdry Hen Hf Hdown [t Ht]. unfold Promote. rewrite Hf, Hdry, Hen. cbn [negb andb].
  change (promotionSteps E c sec) with
    (("verify primary down" : gostr, verifyPrimaryDown E c) ::
     ("verify db_key_base parity" : gostr, verifyDBKeyParity E c sec) :: drop 2 (promotionSteps E c sec)).
  assert (verifyPrimaryDown E c s = (nil_error, s)) as Hv.
  { unfold verifyPrimaryDown. destruct (fc_force c); [done|]. unfold mbind, ST_bind, gets. by rewrite Hdown. }
  rewrite (run_steps_cons_Ok _ _ _ _ _ _ _ Hv).
  destruct (verifyDBKeyParity E c sec s) as [[u|e] s1] eqn:Ek.
  - rewrite (run_steps_cons_Ok _ _ _ _ _ _ _ Ek). apply tail_works; [done|].
    apply verifyDBKeyParity_gate in Ek as (g & Hg & _). exists (t ++ g). by rewrite Hg, Ht, app_assoc.
  - exfalso. pose proof (verifyDBKeyParity_error E c sec s e s1 Ek) as Hm. apply (ou_keys Hout t).
    unfold verifyDBKeyParity in Ek. destruct (_ || _) eqn:Eh; [done|]. apply orb_false_iff in Eh as [H1 H2].
    apply bool_decide_eq_false in H1, H2. split; [done|]. split; [done|]. unfold mbind, ST_bind in Ek.
    rewrite lift_run, Ht in Ek. destruct (CheckWithConfig _ _ _ _ (h ++ t)) as [[u|err] h1]; [done|].
    unfold mret, ST_ret in Ek. cbn [fst] in Ek. destruct (errors_Is err "dbkey.ErrKeyMismatch") eqn:Hi; [|done]. by exists err.
Qed.

(** *** The rounds *)

Lemma check_counts s : since s → (0 ≤ consecutiveFails s < 2)%Z →
  ∃ s', check E c s = (tt, s') ∧ consecutiveFails s' = (consecutiveFails s + 1)%Z ∧
    ∃ g, fs_hist s' = fs_hist s ++ g ∧ Forall is_probe g.
Proof using Hout.
  intros [t Ht] Hn. destruct (check E c s) as [[] s'] eqn:Ec. exists s'. split; [done|].
  assert (wrap64 (consecutiveFails s + 1) = (consecutiveFails s + 1)%Z) as Hw
    by (apply wrap64_id; unfold in_int64, int64_min, int64_max; lia).
  pose proof (check_fields _ _ _ _ Ec) as Hf. rewrite Ht, (ou_down Hout t), Hw in Hf. destruct Hf as [-> _].
  split; [done|]. destruct (check_events _ _ _ _ Ec) as (g & Hg & [Hp|(target & sec' & _ & Hle & _)]); [by exists g|lia].
Qed.

Lemma check_promotes target s : fc_autoFailover c = true → fc_dryRun c = false →
  sync_FailoverEnabled (cfg_Sync (fc_cfg c)) = true → autoFailoverTarget c = Ok target →
  findSecondary c target = Ok sec → since s → consecutiveFails s = 2%Z →
  ∃ s', check E c s = (tt, s') ∧ primaryDown s' = true ∧
    ∃ g, fs_hist s' = fs_hist s ++ g ++ on_host c (site_SSHHost sec) promotion_cmds ∧ Forall is_probe g.
Proof using Hout.
  intros Ha Hdry Hen Htar Hf [t Ht] Hn. pose proof (ou_down Hout t) as Hdown. unfold failing in Hdown.
  destruct (probes_count E (fc_healthURLs c) 0 (fs_hist s)) as (g0 & Hg0 & Hp0). fold (countHealthFailures E c) in Hg0.
  unfold check. unfold mbind at 1, ST_bind at 1. rewrite lift_run, Ht, Hdown. rewrite <- Ht.
  unfold mbind, ST_bind. cbn. rewrite Hn. change (3 <=? wrap64 (2 + 1))%Z with true. cbn. rewrite Ha, Htar.
  set (s1 := mkState true _ _).
  assert (since s1) as Hs1 by (exists (t ++ g0); cbn; by rewrite Hg0, Ht, app_assoc).
  pose proof (Promote_works target s1 Hdry Hen Hf eq_refl Hs1) as Hok.
  destruct (Promote E c target s1) as [r s'] eqn:Ep. exists s'. split; [done|].
  split; [by apply (keeps_Promote E c) in Ep as [_ ->]|].
  destruct (Promote_shape E c target s1 r s' Hdry Ep) as (g & script & Hh & Hg & Hcase). cbn [fst] in Hok.
  destruct Hcase as [[Hno _]|(sec' & g1 & g2 & Hf' & _ & _ & _ & _ & _ & Hscript)]; [congruence|].
  rewrite Hf in Hf'. injection Hf' as <-. rewrite (Hscript Hok) in Hh. cbn [s1 fs_hist] in Hh.
  exists (g0 ++ g). split; [by rewrite Hh, Hg0, <- !app_assoc|by apply Forall_app].
Qed.

Lemma watch_tick n s : since s →
  watch E (S n) c s = (_ ← check E c; watch E n c) (mkState (primaryDown s) (consecutiveFails s) (fs_hist s ++ [EvSleep (fc_checkInterval c)])).
Proof using Hout.
  intros [t Ht]. cbn [watch]. unfold mbind at 1, ST_bind at 1. rewrite lift_run. unfold io_after. cbn [fst snd].
  by rewrite Ht, (ou_ticks Hout t).
Qed.
End acts.

(** C8: automatic failover acts in time.  With automatic failover on,
    failover enabled, no dry run and a target that can be determined: if from
    the loop's start on the primary does not answer its health checks and the
    secondary's host runs the commands of the promotion, the third turn of
    the loop runs the whole promotion script on the secondary, in order,
    after nothing but probes and waits, and holds the primary for down; the
    loop then goes on.  Nothing is assumed of commands on the primary's host,
    which may be gone with it; only keys that can be read on both hosts and
    differ, a definite mismatch, are excluded. *)
Theorem automatic_failover_acts E c target sec h n :
  (0 < fc_checkInterval c)%Z → fc_autoFailover c = true → fc_dryRun c = false →
  sync_FailoverEnabled (cfg_Sync (fc_cfg c)) = true → autoFailoverTarget c = Ok target →
  findSecondary c target = Ok sec → outage E c sec h →
  ∃ ended s', Failover.Run E (3 + n) c (mkState false 0 h) = (Some ended, s') ∧
    (n = 0 → ended = false ∧ primaryDown s' = true) ∧
    ∃ gates more, fs_hist s' = h ++ gates ++ on_host c (site_SSHHost sec) promotion_cmds ++ more ∧
      Forall (λ e, is_probe e ∨ e = EvSleep (fc_checkInterval c)) gates ∧ (n = 0 → more = []).
Proof.
  intros Hiv Ha Hdry Hen Htar Hf Hout. unfold Failover.Run. destruct (Z.leb_spec (fc_checkInterval c) 0); [lia|].
  change (3 + n) with (S (S (S n))). unfold mbind at 1, ST_bind at 1.
  set (sleep := EvSleep (fc_checkInterval c)).
  rewrite (watch_tick E c sec h Hout) by (exists []; cbn; by rewrite app_nil_r). unfold mbind at 1, ST_bind at 1.
  edestruct (check_counts E c sec h Hout) as (s1 & -> & Hn1 & g1 & Hg1 & Hp1); [by exists [sleep]|done|]. cbn [fs_hist consecutiveFails] in Hn1, Hg1.
  rewrite (watch_tick E c sec h Hout) by (exists ([sleep] ++ g1); by rewrite Hg1, <- app_assoc). unfold mbind at 1, ST_bind at 1.
  edestruct (check_counts E c sec h Hout) as (s2 & -> & Hn2 & g2 & Hg2 & Hp2);
    [exists ([sleep] ++ g1 ++ [sleep]); cbn; by rewrite Hg1, <- !app_assoc|cbn; lia|]. cbn [fs_hist consecutiveFails] in Hn2, Hg2.
  rewrite (watch_tick E c sec h Hout) by (exists ([sleep] ++ g1 ++ [sleep] ++ g2); by rewrite Hg2, Hg1, <- !app_assoc).
  unfold mbind at 1, ST_bind at 1.
  edestruct (check_promotes E c sec h Hout target) as (s3 & -> & Hd & g3 & Hg3 & Hp3); [done..| |cbn; lia|].
  { exists ([sleep] ++ g1 ++ [sleep] ++ g2 ++ [sleep]). cbn. by rewrite Hg2, Hg1, <- !app_assoc. }
  cbn [fs_hist] in Hg3. destruct (watch E n c s3) as [ended s'] eqn:Ew. exists ended, s'. split; [done|].
  destruct (watch_events _ _ _ _ _ _ Ew) as (more & Hmore & _). split.
  { intros ->. by injection Ew as <- <-. }
  exists ([sleep] ++ g1 ++ [sleep] ++ g2 ++ [sleep] ++ g3), more. split; [|split].
  - rewrite Hmore, Hg3, Hg2, Hg1. by rewrite <- !app_assoc.
  - assert (∀ g, Forall is_probe g → Forall (λ e, is_probe e ∨ e = sleep) g) as Hw
      by (intros g Hg; eapply Forall_impl; [exact Hg|by left]).
    rewrite !Forall_app, !Forall_singleton. split_and!; first [by right | by apply Hw].
  - intros ->. injection Ew as _ <-. rewrite <- (app_nil_r (fs_hist s3)) in Hmore at 1. by apply app_inv_head in Hmore.
Qed.

(** ** Runs *)

(** PostgreSQL does not promote. *)
Definition ex_stuck_env : Env := {|
  env_exec _ _ args _ _ :=
    if bool_decide (last args = Some pg_promote_cmd) then ([], Some (ErrExternal "exit status 1")) else (ex_line, None);
  env_get _ _ _ := Err (ErrExternal "connection refused");
  env_hops _ _ := [];
  env_disk _ _ := NFile;
  env_draw _ _ _ := 0;
  env_sql _ _ _ _ := Err (ErrExternal "no database");
  env_ctx _ := None;
  env_timer _ _ := true |}.

(** Every host has a key of its own. *)
Definition ex_keys_env : Env := {|
  env_exec _ _ args _ _ := ("gitlab_rails['db_key_base'] = '" ++ List.nth 2 args [] ++ "'" ++ [LF], None);
  env_get _ _ _ := Err (ErrExternal "connection refused");
  env_hops _ _ := [];
  env_disk _ _ := NFile;
  env_draw _ _ _ := 0;
  env_sql _ _ _ _ := Err (ErrExternal "no database");
  env_ctx _ := None;
  env_timer _ _ := true |}.

Definition ex_promote (E : Env) : err * fstate := Promote E (ex_controller false false) "us" ex_start.

(** Only the secondary's host is left, and it runs the promotion's commands
    alone: the primary's key cannot be read, nor the secondary's. *)
Definition ex_outage_env : Env := {|
  env_exec _ _ args _ _ :=
    if bool_decide ("root@us" ∈ args) && bool_decide (default [] (last args) ∈ promotion_cmds) then ([], None)
    else ([], Some (ErrExternal "exit status 255"));
  env_get _ _ _ := Err (ErrExternal "connection refused");
  env_hops _ _ := [];
  env_disk _ _ := NFile;
  env_draw _ _ _ := 0;
  env_sql _ _ _ _ := Err (ErrExternal "no database");
  env_ctx _ := None;
  env_timer _ _ := true |}.

(** The end of the history shows where the promotion stopped: after the
    command that failed, and before anything was stopped. *)
Example promotions_stop :
  (match (ex_promote ex_stuck_env).1 with Err (Errorf [FS _; FQ step; FS _; FW _]) => step | _ => [] end) = "promote postgres" ∧
  length (fs_hist (ex_promote ex_stuck_env).2) = 5 ∧
  (match (ex_promote ex_keys_env).1 with Err e => errors_Is e mismatch | Ok _ => false end) = true ∧
  length (fs_hist (ex_promote ex_keys_env).2) = 3.
Proof. vm_compute. split_and!; reflexivity. Qed.

Lemma Promote_errors_witness :
  ∃ e s', ex_promote ex_stuck_env = (Err e, s') ∧
  ∃ before step fn after, promotionSteps ex_stuck_env (ex_controller false false) (ex_site "us" "https://gitlab.us" "root@us") =
    before ++ (step, fn) :: after ∧ (errors_Is e mismatch = true ↔ step = parity_step).
Proof.
  assert (is_Ok (ex_promote ex_stuck_env).1 = false ∧ fs_hist (ex_promote ex_stuck_env).2 ≠ []) as [Hok Hne]
    by (vm_compute; split; [reflexivity|discriminate]).
  assert (exec_foreign mismatch ex_stuck_env) as HE.
  { intros h n args v i e. unfold ex_stuck_env, env_exec. case_bool_decide; [|discriminate]. intros [= <-]. reflexivity. }
  destruct (ex_promote ex_stuck_env) as [[u|e] s'] eqn:Ep; [discriminate Hok|]. exists e, s'. split; [reflexivity|].
  destruct (Promote_errors ex_stuck_env (ex_controller false false) "us" ex_start e s' HE Ep)
    as [(-> & _)|[(-> & _)|(sec & before & step & fn & after & s1 & e' & Hf & _ & Hs & _ & _ & _ & Hm)]];
    [by destruct Hne|by destruct Hne|].
  vm_compute in Hf. injection Hf as <-. exists before, step, fn, after. split; [exact Hs|exact Hm].
Defined.

Lemma automatic_failover_acts_witness :
  ∃ ended s', Failover.Run ex_outage_env 3 (ex_controller true false) ex_start = (Some ended, s') ∧
    ended = false ∧ primaryDown s' = true ∧
    ∃ gates, fs_hist s' = [] ++ gates ++ on_host (ex_controller true false) "root@us" promotion_cmds ++ [].
Proof.
  set (sec := ex_site "us" "https://gitlab.us" "root@us").
  assert (outage ex_outage_env (ex_controller true false) sec []) as Hout.
  { split; try (intros; vm_compute; reflexivity).
    - intros t cmd args Hcmd Ha. vm_compute in Ha. injection Ha as <-. unfold ex_outage_env, env_exec.
      rewrite bool_decide_eq_true_2 by closed_decide. cbn [last default from_option id andb].
      rewrite bool_decide_eq_true_2; [reflexivity|exact Hcmd].
    - intros t (_ & _ & e & He & Hm). vm_compute in He. injection He as <-. vm_compute in Hm. discriminate Hm. }
  destruct (automatic_failover_acts ex_outage_env (ex_controller true false) "us" sec [] 0) as
    (ended & s' & Hr & H0 & gates & more & Hh & _ & Hm); [reflexivity..|exact Hout|].
  destruct (H0 eq_refl) as [H1 H2]. rewrite (Hm eq_refl) in Hh.
  exists ended, s'. split; [exact Hr|]. split; [exact H1|]. split; [exact H2|]. exists gates. exact Hh.
Defined.
