(* ===== verification/Webhook.v ===== *)
(** * internal/webhook: the receiver and the trigger manager

    Two state machines: the server, whose handler starts at most eight
    concurrent syncs, and the trigger manager, which lets a newer trigger
    for a project pre-empt the older one.  Goroutines and critical
    sections are the steps of the machines; the JSON decoder is a parameter. *)
From Stdlib Require Import Ascii ZArith Lia.
From stdpp Require Import prelude strings gmap list fin_maps.
From S2P Require Import Prelude GoStrings Sha256 ProjectPath.
Open Scope go_scope.

(** ** The server *)

Record request := mkRequest {
  req_Method : gostr;
  req_Token : gostr;               (** X-Gitlab-Token *)
  req_Event : gostr;               (** X-Gitlab-Event *)
  req_Body : res gostr;            (** the body, or the error of reading it *)
}.

(** A sync started by the handler and not finished yet. *)
Record job := mkJob { job_project : gostr; job_event : gostr }.

Record server := mkServer {
  sv_tokenDigest : digest;         (** SHA-256 of the secret *)
  sv_sem : nat;                    (** the elements in the channel [sem] *)
  sv_jobs : list job;              (** the goroutines running the trigger *)
  sv_drift : list gostr;           (** severities of [DriftTotal("webhook", _)] *)
  sv_synced : list bool;           (** outcomes recorded by finished jobs *)
}.

Definition sem_capacity : nat := 8.
Definition body_limit : nat := Nat.pow 2 20.

Section server.
Context (json_path : gostr → res gostr).

Definition NewServer (secretToken : gostr) : res server :=
  if bool_decide (secretToken = []) then
    Err (Errorf [FS "webhook secret_token must not be empty"])
  else Ok (mkServer (Sum256 secretToken) 0 [] [] []).

(** [json_path body] is [payload.Project.PathWithNamespace]. *)
Definition extractProjectPath (body : gostr) : res gostr :=
  match json_path body with
  | Err err => Err (Errorf [FS "parse webhook payload: "; FW err])
  | Ok [] => Err (Errorf [FS "no project.path_with_namespace in payload"])
  | Ok path => Ok path
  end.

Definition drift (severity : gostr) (s : server) : server :=
  mkServer (sv_tokenDigest s) (sv_sem s) (sv_jobs s) (sv_drift s ++ [severity]) (sv_synced s).

(** The handler: the status code and the next state. *)
Definition handleWebhook (req : request) : ST server Z := λ s,
  if negb (bool_decide (req_Method req = "POST")) then (405%Z, s)
  else if negb (bool_decide (Sum256 (req_Token req) = sv_tokenDigest s)) then
    (401%Z, drift "critical" s)
  else
    match req_Body req with
    | Err _ => (400%Z, s)
    | Ok body =>
        match extractProjectPath (take body_limit body) with
        | Err _ => (200%Z, s)
        | Ok projectPath =>
            match Validate projectPath with
            | Some _ => (200%Z, drift "warning" s)
            | None =>
                if (sv_sem s <? sem_capacity)%nat then
                  (200%Z, mkServer (sv_tokenDigest s) (S (sv_sem s))
                            (sv_jobs s ++ [mkJob projectPath (req_Event req)]) (sv_drift s) (sv_synced s))
                else (503%Z, drift "warning" s)
            end
        end
    end.

(** The routes of the mux.  [None]: the mux answers by itself. *)
Definition ServeHTTP (path : gostr) (req : request) : ST server (option Z) := λ s,
  if bool_decide (path = "/webhook") then
    let '(code, s') := handleWebhook req s in (Some code, s')
  else if bool_decide (path = "/healthz") then (Some 200%Z, s)
  else (None, s).

(** A goroutine ends: its outcome is recorded, then the deferred receive
    frees its place. *)
Definition finish_job (i : nat) (ok : bool) (s : server) : server :=
  mkServer (sv_tokenDigest s) (pred (sv_sem s)) (delete i (sv_jobs s)) (sv_drift s) (sv_synced s ++ [ok]).

Inductive server_step : server → server → Prop :=
| step_request req code s s' : handleWebhook req s = (code, s') → server_step s s'
| step_finish i ok s : i < length (sv_jobs s) → server_step s (finish_job i ok s).
End server.

(** ** The trigger manager *)

(** Where a call of [Trigger] is. *)
Inductive phase :=
| Waiting      (** in the debounce [select] *)
| Running      (** in [m.trigger] *)
| Returned     (** about to run its deferred functions *)
| Unlinked     (** its entry is cleaned up, its context not yet released *)
| Done.

Global Instance phase_eq_dec : EqDecision phase.
Proof. solve_decision. Defined.

(** A call of [Trigger]; [cancelled] is the state of its context [ctx2]. *)
Record call := mkCall { c_project : gostr; c_phase : phase; c_cancelled : bool }.

(** [pending] maps a project to the call that owns its slot; calls are
    named by numbers, as pointers name the [pendingTrigger]s. *)
Record manager := mkManager { pending : gmap gostr nat; calls : gmap nat call; next : nat }.

Definition NewTriggerManager : manager := mkManager ∅ ∅ 0.

Definition set_phase (ph : phase) (c : call) : call := mkCall (c_project c) ph (c_cancelled c).
Definition cancel_call (c : call) : call := mkCall (c_project c) (c_phase c) true.

(** The first critical section of [Trigger]. *)
Definition trigger_enter (projectPath : gostr) (m : manager) : manager :=
  let calls1 := match pending m !! projectPath with
                | Some prev => alter cancel_call prev (calls m)
                | None => calls m
                end in
  mkManager (<[projectPath := next m]> (pending m))
    (<[next m := mkCall projectPath Waiting false]> calls1) (S (next m)).

(** The second one: the entry is deleted only by the call that owns it. *)
Definition trigger_cleanup (id : nat) (c : call) (m : manager) : manager :=
  mkManager
    (if bool_decide (pending m !! c_project c = Some id) then delete (c_project c) (pending m) else pending m)
    (<[id := set_phase Unlinked c]> (calls m)) (next m).

Definition update (id : nat) (c : call) (m : manager) : manager :=
  mkManager (pending m) (<[id := c]> (calls m)) (next m).

(** The interleavings of any number of calls. *)
Inductive manager_step : manager → manager → Prop :=
| m_enter p m : manager_step m (trigger_enter p m)
| m_parent_done id c m : calls m !! id = Some c →
    manager_step m (update id (cancel_call c) m)
| m_preempted id c m : calls m !! id = Some c → c_phase c = Waiting → c_cancelled c = true →
    manager_step m (update id (set_phase Returned c) m)
| m_timer id c m : calls m !! id = Some c → c_phase c = Waiting →
    manager_step m (update id (set_phase Running c) m)
| m_return id c m : calls m !! id = Some c → c_phase c = Running →
    manager_step m (update id (set_phase Returned c) m)
| m_cleanup id c m : calls m !! id = Some c → c_phase c = Returned →
    manager_step m (trigger_cleanup id c m)
| m_release id c m : calls m !! id = Some c → c_phase c = Unlinked →
    manager_step m (update id (set_phase Done (cancel_call c)) m).

(** A call that may still do work. *)
Definition live (c : call) : bool := bool_decide (c_phase c ∈ [Waiting; Running; Returned]).

(** ** Properties of the server *)

Section server_props.
Context (json_path : gostr → res gostr).

(** The requests that are served. *)
Definition authentic (s : server) (req : request) : Prop :=
  req_Method req = "POST" ∧ Sum256 (req_Token req) = sv_tokenDigest s.

(** The handler either leaves the running jobs alone or adds one. *)
Lemma handleWebhook_jobs req s code s' : handleWebhook json_path req s = (code, s') →
  sv_tokenDigest s' = sv_tokenDigest s ∧
  ((sv_jobs s' = sv_jobs s ∧ sv_sem s' = sv_sem s) ∨
   (∃ body path, authentic s req ∧ code = 200%Z ∧ req_Body req = Ok body ∧
      json_path (take body_limit body) = Ok path ∧ path ≠ [] ∧ Validate path = None ∧
      sv_sem s < sem_capacity ∧ sv_sem s' = S (sv_sem s) ∧
      sv_jobs s' = sv_jobs s ++ [mkJob path (req_Event req)])).
Proof.
  unfold handleWebhook, authentic, extractProjectPath. intros H.
  case_bool_decide as Hm; cbn [negb] in H; [|injection H as <- <-; auto].
  case_bool_decide as Ht; cbn [negb] in H; [|injection H as <- <-; auto].
  destruct (req_Body req) as [body|]; [|injection H as <- <-; auto].
  destruct (json_path _) as [[|b path]|] eqn:Ej; [injection H as <- <-; auto| |injection H as <- <-; auto].
  destruct (Validate _) eqn:Ev; [injection H as <- <-; auto|].
  destruct (Nat.ltb_spec (sv_sem s) sem_capacity); injection H as <- <-; [|auto].
  split; [done|]. right. by exists body, (b :: path).
Qed.

(** Every request is one step of the server, or none. *)
Lemma ServeHTTP_runs path req code s s' : ServeHTTP json_path path req s = (code, s') →
  rtc (server_step json_path) s s' ∧
  (s' = s ∨ path = "/webhook" ∧ ∃ c, code = Some c ∧ handleWebhook json_path req s = (c, s')).
Proof.
  unfold ServeHTTP. destruct (bool_decide_reflect (path = "/webhook")) as [->|_].
  - destruct (handleWebhook json_path req s) as [c s1] eqn:Eh. intros [= <- <-].
    split; [apply rtc_once; by econstructor|]. right. split; [done|]. by exists c.
  - intros Hs. assert (s' = s) as -> by (revert Hs; case_bool_decide; by intros [= _ <-]).
    split; [apply rtc_refl|by left].
Qed.

(** A webhook starts a sync exactly when it deserves one.  The
    handler adds a running job iff the request is a POST with the
    configured token's digest, its body (cut at 1 MiB) reads and names a
    project whose path is valid, and fewer than eight jobs are running;
    the job is for that project; otherwise the running jobs are left
    alone, and a request with a wrong token is answered 401. *)
Lemma handleWebhook_starts_iff req s code s' :
  handleWebhook json_path req s = (code, s') →
  (sv_jobs s' ≠ sv_jobs s ↔
   authentic s req ∧ sv_sem s < sem_capacity ∧
   ∃ body path, req_Body req = Ok body ∧ json_path (take body_limit body) = Ok path ∧
     path ≠ [] ∧ Validate path = None ∧ sv_jobs s' = sv_jobs s ++ [mkJob path (req_Event req)]) ∧
  (req_Method req = "POST" → ¬ authentic s req → code = 401%Z).
Proof.
  intros H. split; [split|].
  - intros Hne. destruct (handleWebhook_jobs _ _ _ _ H) as (_ & [[? _]|(body & path & ?)]); [done|].
    destruct_and!. eauto 10.
  - intros (_ & _ & body & path & _ & _ & _ & _ & ->) Heq.
    apply (f_equal length) in Heq. rewrite length_app in Heq. cbn in Heq. lia.
  - intros Hm Ha. unfold handleWebhook in H. unfold authentic in Ha.
    rewrite bool_decide_eq_true_2, bool_decide_eq_false_2 in H by tauto. by injection H as <- _.
Qed.

Definition server_ok (dg : digest) (s : server) : Prop :=
  sv_tokenDigest s = dg ∧ sv_sem s = length (sv_jobs s) ∧ sv_sem s ≤ sem_capacity ∧
  Forall (λ j, valid_path (job_project j)) (sv_jobs s).

Lemma server_step_ok dg s s' :
  server_step json_path s s' → server_ok dg s → server_ok dg s'.
Proof.
  intros Hstep (Hd & Hn & Hc & Hv). destruct Hstep as [req code s s' H|i ok s Hi].
  - apply handleWebhook_jobs in H as (Hd' & [[Hj Hs]|(body & path & _ & _ & _ & _ & _ & Hval & Hlt & Hs & Hj)]).
    + unfold server_ok. by rewrite Hd', Hj, Hs.
    + unfold server_ok. rewrite Hd', Hj, Hs, length_app, Forall_app. cbn.
      split; [done|]. split; [lia|]. split; [unfold sem_capacity in *; lia|].
      split; [done|]. constructor; [|constructor]. by apply Validate_None.
  - unfold server_ok, finish_job. cbn. rewrite length_delete by by apply lookup_lt_is_Some.
    split; [done|]. split; [lia|]. split; [lia|]. by apply Forall_delete.
Qed.

Lemma rtc_server_ok dg s s' :
  rtc (server_step json_path) s s' → server_ok dg s → server_ok dg s'.
Proof. induction 1; [done|]. intros Hok. by apply IHrtc; eapply server_step_ok. Qed.

(** The concurrency cap holds in every reachable state.  However
    requests and completions interleave, the semaphore counts the running
    jobs, at most eight run at once, each is for a valid project path, and
    the token's digest never changes. *)
Lemma server_invariant secret s0 s :
  NewServer secret = Ok s0 → rtc (server_step json_path) s0 s →
  sv_tokenDigest s = Sum256 secret ∧ sv_sem s = length (sv_jobs s) ∧ length (sv_jobs s) ≤ 8 ∧
  Forall (λ j, valid_path (job_project j)) (sv_jobs s).
Proof.
  unfold NewServer. case_bool_decide; [done|]. intros [= <-] Hrtc.
  assert (server_ok (Sum256 secret) s) as (? & Hn & Hc & ?).
  { eapply rtc_server_ok; [exact Hrtc|]. repeat split; [unfold sem_capacity; cbn; lia|constructor]. }
  rewrite <- Hn. done.
Qed.
End server_props.

(** ** Properties of the trigger manager *)

(** The bookkeeping of the manager. *)
Record manager_ok (m : manager) : Prop := {
  mo_fresh : ∀ id, is_Some (calls m !! id) → id < next m;
  mo_owner : ∀ id c, calls m !! id = Some c → live c = true → c_cancelled c = false →
    pending m !! c_project c = Some id;
  mo_pending : ∀ p id, pending m !! p = Some id →
    ∃ c, calls m !! id = Some c ∧ c_project c = p ∧ live c = true;
}.

Lemma manager_ok_new : manager_ok NewTriggerManager.
Proof.
  split; cbn.
  - intros id. rewrite lookup_empty. by intros [].
  - intros id c. by rewrite lookup_empty.
  - intros p id. by rewrite lookup_empty.
Qed.

(** A step that keeps a call's project and liveness, and does not revive
    its context. *)
Lemma manager_ok_update m id c c' : manager_ok m → calls m !! id = Some c →
  c_project c' = c_project c → live c' = live c → (c_cancelled c = true → c_cancelled c' = true) →
  manager_ok (update id c' m).
Proof.
  intros [H1 H2 H3] Hc Hp Hl Hx. split; cbn.
  - intros i. rewrite lookup_insert_is_Some. intros [->|[_ ?]]; [by apply H1; exists c|auto].
  - intros i d. rewrite lookup_insert_Some. intros [[<- <-]|[_ Hd]]; [|by apply H2].
    rewrite Hp, Hl. intros Hl' Hx'. apply H2; [done|done|]. destruct (c_cancelled c); [|done].
    by rewrite Hx in Hx'.
  - intros p i Hi. destruct (H3 p i Hi) as (d & Hd & <- & Hld).
    destruct (decide (id = i)) as [<-|Hne].
    + rewrite lookup_insert_eq. exists c'. simplify_eq. rewrite Hl. done.
    + rewrite lookup_insert_ne by done. by exists d.
Qed.

Lemma manager_ok_enter p m : manager_ok m → manager_ok (trigger_enter p m).
Proof.
  intros [H1 H2 H3]. unfold trigger_enter.
  set (calls1 := match pending m !! p with Some prev => alter cancel_call prev (calls m) | None => calls m end).
  assert (∀ i, calls1 !! i = (if bool_decide (pending m !! p = Some i) then cancel_call else id) <$> calls m !! i) as Hc1.
  { intros i. subst calls1. destruct (pending m !! p) as [prev|] eqn:Ep.
    - destruct (decide (prev = i)) as [->|Hne].
      + by rewrite lookup_alter_eq, bool_decide_eq_true_2.
      + rewrite lookup_alter_ne, bool_decide_eq_false_2 by congruence. by destruct (calls m !! i).
    - rewrite bool_decide_eq_false_2 by done. by destruct (calls m !! i). }
  clearbody calls1.
  assert (∀ i c, calls m !! i = Some c → i ≠ next m) as Hfresh.
  { intros i c Hi ->. specialize (H1 (next m) ltac:(by exists c)). lia. }
  split; cbn.
  - intros i. rewrite lookup_insert_is_Some, Hc1, fmap_is_Some. intros [->|[_ Hi]]; [lia|].
    apply H1 in Hi. lia.
  - intros i c. rewrite lookup_insert_Some. intros [[<- <-]|[Hne Hi]]; cbn.
    + intros _ _. by rewrite lookup_insert_eq.
    + rewrite Hc1 in Hi. apply fmap_Some in Hi as (d & Hd & ->). case_bool_decide as Hp; [done|].
      unfold id. intros Hl Hx. specialize (H2 i d Hd Hl Hx).
      rewrite lookup_insert_ne; [done|]. intros ->. done.
  - intros q i. rewrite lookup_insert_Some. intros [[<- <-]|[Hne Hi]].
    + eexists. by rewrite lookup_insert_eq.
    + destruct (H3 q i Hi) as (d & Hd & <- & Hl).
      exists ((if bool_decide (pending m !! p = Some i) then cancel_call else id) d).
      rewrite lookup_insert_ne by (intros <-; by eapply Hfresh). rewrite Hc1, Hd. cbn.
      split; [done|]. by case_bool_decide.
Qed.

Lemma manager_ok_cleanup id c m : manager_ok m → calls m !! id = Some c → c_phase c = Returned →
  manager_ok (trigger_cleanup id c m).
Proof.
  intros [H1 H2 H3] Hc Hph. split; cbn.
  - intros i. rewrite lookup_insert_is_Some. intros [->|[_ ?]]; [by apply H1; exists c|auto].
  - intros i d. rewrite lookup_insert_Some. intros [[<- <-]|[Hne Hd]]; [done|].
    intros Hl Hx. specialize (H2 i d Hd Hl Hx). case_bool_decide as Hp; [|done].
    rewrite lookup_delete_ne; [done|]. intros Heq. rewrite Heq, H2 in Hp. by simplify_eq.
  - intros p i Hi. assert (pending m !! p = Some i ∧ i ≠ id) as [Hpi Hne].
    { revert Hi. case_bool_decide as Hp.
      - rewrite lookup_delete_Some. intros [Hcp Hi]. split; [done|]. intros ->.
        destruct (H3 p id Hi) as (d & Hd & Hpd & _). simplify_eq.
      - intros Hi. split; [done|]. intros ->. destruct (H3 p id Hi) as (d & Hd & Hpd & _). simplify_eq. }
    destruct (H3 p i Hpi) as (d & Hd & ? & ?). exists d. by rewrite lookup_insert_ne.
Qed.

Lemma manager_step_ok m m' : manager_step m m' → manager_ok m → manager_ok m'.
Proof.
  intros Hstep Hok. destruct Hstep as [p m|id c m Hc|id c m Hc Hp Hx|id c m Hc Hp|id c m Hc Hp|id c m Hc Hp|id c m Hc Hp].
  - by apply manager_ok_enter.
  - by eapply manager_ok_update.
  - eapply manager_ok_update; try done. unfold live. by rewrite Hp.
  - eapply manager_ok_update; try done. unfold live. by rewrite Hp.
  - eapply manager_ok_update; try done. unfold live. by rewrite Hp.
  - by apply manager_ok_cleanup.
  - eapply manager_ok_update; try done. unfold live. by rewrite Hp.
Qed.

Lemma rtc_manager_ok m m' : rtc manager_step m m' → manager_ok m → manager_ok m'.
Proof. induction 1; [done|]. intros Hok. by apply IHrtc; eapply manager_step_ok. Qed.

Lemma manager_reachable m : rtc manager_step NewTriggerManager m → manager_ok m.
Proof. intros Hrtc. by eapply rtc_manager_ok, manager_ok_new. Qed.

(** C31: debouncing.  In every reachable state of the manager, at most one
    call per project is both unfinished and not pre-empted, and it owns
    the project's slot; a slot is never left to a finished call (nothing
    leaks), and entering pre-empts the owner of the slot. *)
Theorem debounce m :
  rtc manager_step NewTriggerManager m →
  (∀ i j c d, calls m !! i = Some c → calls m !! j = Some d → c_project c = c_project d →
    live c = true → live d = true → c_cancelled c = false → c_cancelled d = false → i = j) ∧
  (∀ p i, pending m !! p = Some i → ∃ c, calls m !! i = Some c ∧ c_project c = p ∧ live c = true) ∧
  (∀ p i c, calls m !! i = Some c → c_project c = p → live c = true →
    ∃ d, calls (trigger_enter p m) !! i = Some d ∧ c_cancelled d = true).
Proof.
  intros Hm%manager_reachable. pose proof Hm as [H1 H2 H3]. split; [|split; [done|]].
  - intros i j c d Hi Hj Hp Hlc Hld Hxc Hxd.
    pose proof (H2 i c Hi Hlc Hxc) as A. pose proof (H2 j d Hj Hld Hxd) as B.
    rewrite Hp in A. rewrite A in B. by simplify_eq.
  - intros p i c Hi <- Hl. unfold trigger_enter. cbn.
    assert (i ≠ next m) by (intros ->; specialize (H1 (next m) ltac:(by exists c)); lia).
    rewrite lookup_insert_ne by done. destruct (c_cancelled c) eqn:Hx.
    + destruct (pending m !! c_project c) as [prev|]; [|by exists c].
      destruct (decide (prev = i)) as [->|Hne].
      * rewrite lookup_alter_eq, Hi. by eexists.
      * rewrite lookup_alter_ne by done. by exists c.
    + rewrite (H2 i c Hi Hl Hx), lookup_alter_eq, Hi. by eexists.
Qed.

(** ** Examples *)

Definition ex_json (body : gostr) : res gostr := Ok "group/project".
Definition ex_request (token : gostr) : request := mkRequest "POST" token "Push Hook" (Ok "{}").
Definition ex_server : server := mkServer (Sum256 "s3cret") 0 [] [] [].

Lemma handleWebhook_starts_iff_witness :
  let '(code, s') := handleWebhook ex_json (ex_request "s3cret") ex_server in
  (sv_jobs s' ≠ sv_jobs ex_server ↔
   authentic ex_server (ex_request "s3cret") ∧ sv_sem ex_server < sem_capacity ∧
   ∃ body path, req_Body (ex_request "s3cret") = Ok body ∧ ex_json (take body_limit body) = Ok path ∧
     path ≠ [] ∧ Validate path = None ∧
     sv_jobs s' = sv_jobs ex_server ++ [mkJob path (req_Event (ex_request "s3cret"))]) ∧
  (req_Method (ex_request "s3cret") = "POST" → ¬ authentic ex_server (ex_request "s3cret") → code = 401%Z).
Proof.
  destruct (handleWebhook ex_json (ex_request "s3cret") ex_server) as [code s'] eqn:Eh.
  exact (handleWebhook_starts_iff ex_json _ _ _ _ Eh).
Defined.

(** A good token starts the job, a bad one does not. *)
Example handleWebhook_example :
  sv_jobs (handleWebhook ex_json (ex_request "s3cret") ex_server).2 = [mkJob "group/project" "Push Hook"] ∧
  (handleWebhook ex_json (ex_request "guess") ex_server).1 = 401%Z.
Proof. split; vm_compute; reflexivity. Qed.

Lemma server_invariant_witness :
  let s := (handleWebhook ex_json (ex_request "s3cret") ex_server).2 in
  sv_tokenDigest s = Sum256 "s3cret" ∧ sv_sem s = length (sv_jobs s) ∧ length (sv_jobs s) ≤ 8 ∧
  Forall (λ j, valid_path (job_project j)) (sv_jobs s).
Proof.
  apply (server_invariant ex_json "s3cret" ex_server); [reflexivity|].
  apply rtc_once. eapply (step_request ex_json (ex_request "s3cret")). apply surjective_pairing.
Defined.

Definition ex_manager : manager := trigger_enter "g/p" (trigger_enter "g/p" NewTriggerManager).

Lemma debounce_witness :
  (∀ i j c d, calls ex_manager !! i = Some c → calls ex_manager !! j = Some d →
    c_project c = c_project d → live c = true → live d = true →
    c_cancelled c = false → c_cancelled d = false → i = j) ∧
  (∀ p i, pending ex_manager !! p = Some i →
    ∃ c, calls ex_manager !! i = Some c ∧ c_project c = p ∧ live c = true) ∧
  (∀ p i c, calls ex_manager !! i = Some c → c_project c = p → live c = true →
    ∃ d, calls (trigger_enter p ex_manager) !! i = Some d ∧ c_cancelled d = true).
Proof.
  apply (debounce ex_manager).
  apply (rtc_l _ _ (trigger_enter "g/p" NewTriggerManager)); [constructor|].
  apply rtc_once. constructor.
Defined.
