(* ===== verification/Logging.v ===== *)
(** * internal/logging: levels, formats and what a log line may reveal

    The global redaction switch is a state of its own; [ToLower] is
    [strings.ToLower]. *)
From Stdlib Require Import Ascii ZArith Lia.
From stdpp Require Import prelude strings gmap list.
From S2P Require Import Prelude GoStrings Utf8 Sha256 ConfigData.
Open Scope go_scope.

(** ** The code *)

Inductive Level := TraceLevel | DebugLevel | InfoLevel | WarnLevel | ErrorLevel | FatalLevel | PanicLevel.
Inductive Format := FormatJSON | FormatText.

#[export] Instance Level_eq_dec : EqDecision Level.
Proof. solve_decision. Defined.
#[export] Instance Format_eq_dec : EqDecision Format.
Proof. solve_decision. Defined.

(** The process-global logging state. *)
Record log_state := mkLog { redactPaths : bool; globalLevel : Level; console : bool }.

Definition maxOutputLog : nat := 200.

Definition truncated_mark : gostr :=
  encode_rune 8230 ++ " (truncated; run with --log-level debug for the full output)".

Definition CommandOutput (out : gostr) : gostr :=
  let out := TrimSpace out in
  if length out <=? maxOutputLog then out else take maxOutputLog out ++ truncated_mark.

Definition ProjectPath (on : bool) (path : gostr) : gostr :=
  if bool_decide (path = []) || negb on then path
  else "redacted:" ++ take 12 (EncodeToString (Sum256 path)).

Section logging.
Context (ToLower : gostr → gostr).

Definition parseLevel (s : gostr) : Level :=
  let s := ToLower (TrimSpace s) in
  if bool_decide (s = "trace") then TraceLevel
  else if bool_decide (s = "debug") then DebugLevel
  else if bool_decide (s = "warn") || bool_decide (s = "warning") then WarnLevel
  else if bool_decide (s = "error") then ErrorLevel
  else if bool_decide (s = "fatal") then FatalLevel
  else if bool_decide (s = "panic") then PanicLevel
  else InfoLevel.

Definition parseFormat (s : gostr) : Format :=
  let s := ToLower (TrimSpace s) in
  if bool_decide (s = "text") || bool_decide (s = "console") || bool_decide (s = "pretty") then FormatText
  else FormatJSON.

Definition ConfigureWith (level format : gostr) (redactProjectPaths : bool) : log_state :=
  mkLog redactProjectPaths (parseLevel level) (bool_decide (parseFormat format = FormatText)).

(** [Configure] keeps the redaction setting. *)
Definition Configure (level format : gostr) (s : log_state) : log_state :=
  ConfigureWith level format (redactPaths s).
End logging.

(** ** What a line may carry *)

Lemma trim_left_length encs s : length (trim_left encs s) ≤ length s.
Proof.
  unfold trim_left. generalize (length s) at 1. intros n. revert s.
  induction n as [|n IH]; intros s; cbn [trim_left_fuel]; [done|].
  destruct (List.find _ encs) as [e|]; [|done]. rewrite IH, length_drop. lia.
Qed.

Lemma TrimSpace_length s : length (TrimSpace s) ≤ length s.
Proof.
  unfold TrimSpace, trim_right. rewrite length_reverse, trim_left_length, length_reverse. apply trim_left_length.
Qed.

(** What the log reveals of a project and of a transcript.  With
    redaction on, every path is logged as [redacted:] and twelve lower-case
    hexadecimal digits, the first 48 bits of its digest, and nothing else; two
    paths with the same digest are logged alike, and with redaction off (or
    for the empty path) the path itself is logged.  A transcript is logged
    as it is, trimmed, up to 200 bytes; a longer one is cut there and marked,
    so no line carries more than 263 bytes of it. *)
Lemma log_bounds path out :
  (path ≠ [] → ∃ d, ProjectPath true path = "redacted:" ++ d ∧ length d = 12 ∧
     Forall (λ c, hex_byte c = true) d ∧ d = take 12 (EncodeToString (Sum256 path))) ∧
  (∀ path', path ≠ [] → path' ≠ [] → Sum256 path = Sum256 path' → ProjectPath true path = ProjectPath true path') ∧
  ProjectPath false path = path ∧ ProjectPath true [] = [] ∧
  length (CommandOutput out) ≤ 263 ∧
  (length (TrimSpace out) ≤ 200 → CommandOutput out = TrimSpace out) ∧
  (200 < length (TrimSpace out) →
     CommandOutput out = take 200 (TrimSpace out) ++ truncated_mark ∧ length (CommandOutput out) < length out + 63).
Proof.
  assert (length truncated_mark = 63) as Hmark by reflexivity.
  assert (∀ p, p ≠ [] → ProjectPath true p = "redacted:" ++ take 12 (EncodeToString (Sum256 p))) as Hpp.
  { intros p Hp. unfold ProjectPath. by rewrite bool_decide_eq_false_2. }
  split_and!.
  - intros Hp. eexists. split; [by apply Hpp|]. split; [by rewrite length_take, EncodeToString_length|].
    split; [apply Forall_take, EncodeToString_bytes|done].
  - intros p' Hp Hp' Hs. by rewrite !Hpp, Hs.
  - unfold ProjectPath. by rewrite orb_true_r.
  - done.
  - unfold CommandOutput, maxOutputLog. destruct (Nat.leb_spec (length (TrimSpace out)) 200); [lia|].
    rewrite length_app, length_take, Hmark. lia.
  - intros Hl. unfold CommandOutput, maxOutputLog. by destruct (Nat.leb_spec (length (TrimSpace out)) 200); [|lia].
  - intros Hl. unfold CommandOutput, maxOutputLog. destruct (Nat.leb_spec (length (TrimSpace out)) 200); [lia|].
    split; [done|]. rewrite length_app, length_take, Hmark. pose proof (TrimSpace_length out). lia.
Qed.

(** ** Levels *)

Section levels.
Context (ToLower : gostr → gostr).
Context (ToLower_ascii : ∀ s, Forall (λ c, is_ascii c = true) s → ToLower s = ToLowerASCII s).

(** A level or format name means the same in any case and with any
    surrounding spaces that [TrimSpace] removes. *)
Lemma parseLevel_case s t :
  Forall (λ c, is_ascii c = true) (TrimSpace s) → Forall (λ c, is_ascii c = true) (TrimSpace t) →
  ToLowerASCII (TrimSpace s) = ToLowerASCII (TrimSpace t) →
  parseLevel ToLower s = parseLevel ToLower t ∧ parseFormat ToLower s = parseFormat ToLower t.
Proof. intros Hs Ht He. unfold parseLevel, parseFormat. by rewrite !ToLower_ascii, He. Qed.
End levels.

Example levels_example :
  parseLevel ToLowerASCII " WARNING " = WarnLevel ∧ parseLevel ToLowerASCII "verbose" = InfoLevel ∧
  parseFormat ToLowerASCII "Pretty" = FormatText ∧ parseFormat ToLowerASCII [] = FormatJSON ∧
  ConfigureWith ToLowerASCII "error" "console" true = mkLog true ErrorLevel true ∧
  ProjectPath true "acme-corp/secret-product" = "redacted:" ++ take 12 (EncodeToString (Sum256 "acme-corp/secret-product")) ∧
  CommandOutput ("  short output" ++ [LF]) = "short output".
Proof. vm_compute. split_and!; reflexivity. Qed.
