(* ===== verification/LocalCmd.v ===== *)
(** * internal/localcmd: local subprocesses *)
From stdpp Require Import prelude strings gmap list.
From S2P Require Import Prelude World.
Open Scope go_scope.

(** The [Runner] interface: a command, its arguments and the environment
    variables appended to the program's own. *)
Definition LocalRunner : Type := gostr → list gostr → list gostr → IO (gostr * option error).

(** [realRunner.Run]. *)
Definition realRunner (E : Env) : LocalRunner := λ name args env, io_exec E name args env None.

(** [RunWith]: a nil runner is the default one. *)
Definition RunWith (E : Env) (r : option LocalRunner) : LocalRunner :=
  match r with Some run => run | None => realRunner E end.
