(* ===== verification/Signals.v ===== *)
(** * Signals: what a computation tells through its metrics

    Monitoring sees the drift counters, the last-sync times and the
    replication lags.  [Tells Q m] relates the result of [m] to the signals
    it sends, in order; its rules follow the binds of [m], and the calls
    that send no signal are found by instance search. *)
From stdpp Require Import prelude strings gmap list.
From S2P Require Import Prelude World GoStrings Reconciler LocalCmd.
Open Scope go_scope.

Definition is_signal (e : event) : bool :=
  match e with EvDrift _ _ | EvLastSync _ | EvPGLag _ _ => true | _ => false end.

Definition signals (h : history) : list event := List.filter is_signal h.

Definition silent (e : event) : Prop := is_signal e = false.

#[export] Instance silent_get : AllowsGet silent.
Proof. by intros url hd. Qed.

Lemma signals_app h t : signals (h ++ t) = signals h ++ signals t.
Proof. apply List.filter_app. Qed.

Lemma signals_cons e h : signals (e :: h) = signals [e] ++ signals h.
Proof. apply (signals_app [e]). Qed.

Lemma signals_silent h : Forall silent h → signals h = [].
Proof. induction 1 as [|e h He _ IH]; [done|]. unfold signals. cbn. by rewrite He. Qed.

Lemma elem_of_signals e h : e ∈ signals h ↔ e ∈ h ∧ is_signal e = true.
Proof. unfold signals. by rewrite !list_elem_of_In, List.filter_In. Qed.

Section tells.
Context `{HasHistory St}.

Definition Tells {A} (Q : A → list event → Prop) (m : ST St A) : Prop :=
  ∀ s, ∃ evs, hist (m s).2 = hist s ++ evs ∧ Q (m s).1 (signals evs).

Lemma tells_ret {A} (Q : A → list event → Prop) a : Q a [] → Tells Q (mret a).
Proof. intros HQ s. exists []. by rewrite app_nil_r. Qed.

Lemma tells_bind {A B} (Q : A → list event → Prop) (R : B → list event → Prop) m f :
  Tells Q m → (∀ a t, Q a t → Tells (λ b u, R b (t ++ u)) (f a)) → Tells R (m ≫= f).
Proof.
  intros Hm Hf s. unfold mbind, ST_bind. destruct (Hm s) as (e1 & H1 & Q1). destruct (m s) as [a s1].
  destruct (Hf a _ Q1 s1) as (e2 & H2 & R2). cbn in H1. exists (e1 ++ e2).
  by rewrite H2, H1, app_assoc, signals_app.
Qed.

(** A call that sends no signal. *)
Lemma tells_silent {A B} (R : B → list event → Prop) (m : ST St A) f :
  Only silent m → (∀ a, Tells R (f a)) → Tells R (m ≫= f).
Proof.
  intros Hm Hf. apply (tells_bind (λ _ t, t = [])).
  - intros s. destruct (Hm s) as (evs & He & Hs). exists evs. split; [done|]. by apply signals_silent.
  - by intros a t ->.
Qed.

(** One event. *)
Lemma tells_step {A B} (R : B → list event → Prop) (m : ST St A) f e :
  (∀ s, hist (m s).2 = hist s ++ [e]) → (∀ a, Tells (λ b u, R b (signals [e] ++ u)) (f a)) → Tells R (m ≫= f).
Proof.
  intros Hm Hf. apply (tells_bind (λ _ t, t = signals [e])).
  - intros s. by exists [e].
  - by intros a t ->.
Qed.

Lemma tells_weaken {A} (Q R : A → list event → Prop) m : (∀ a t, Q a t → R a t) → Tells Q m → Tells R m.
Proof. intros HQR Hm s. destruct (Hm s) as (evs & He & HQ). exists evs. split; [done|by apply HQR]. Qed.

Lemma tells_run {A} (Q : A → list event → Prop) m s a s' : Tells Q m → m s = (a, s') →
  ∃ evs, hist s' = hist s ++ evs ∧ Q a (signals evs).
Proof. intros Hm Hs. destruct (Hm s) as (evs & He). rewrite Hs in He. by exists evs. Qed.
End tells.

(** Calls that send no signal. *)
#[export] Instance silent_exec E n a v i : Only silent (io_exec E n a v i).
Proof. eapply only_one; done. Qed.
#[export] Instance silent_sql E p q a : Only silent (io_sql E p q a).
Proof. eapply only_one; done. Qed.
#[export] Instance silent_io_get E u hd : Only silent (io_get E u hd).
Proof. eapply only_one; done. Qed.
#[export] Instance silent_run E name args env : Only silent (RunWith E None name args env).
Proof. eapply only_one; done. Qed.

Lemma silent_Retry E {A} (zero : A) n d m (fn : IO (res A)) : Only silent fn → Only silent (Retry E zero n d m fn).
Proof. apply only_Retry. done. Qed.

(** Goals [Tells Q m], down to the signals of each path. *)
Ltac solve_tells :=
  repeat first
    [ apply tells_ret
    | apply tells_silent; [solve [solve_only]|intros ?]
    | eapply tells_step; [reflexivity|intros ?]
    | case_next ].

(** ** Counting what went wrong

    [counted n n' u]: while the number of failures went from [n] to [n'],
    the signals [u] were sent: each increase with an alarm, a critical drift
    only with an increase, and no last-sync time. *)
Section counted.
Context (alarm : event → Prop).

Record counted (n n' : Z) (u : list event) : Prop := {
  ct_le : (n ≤ n')%Z;
  ct_unsynced c : EvLastSync c ∉ u;
  ct_alarm : (n < n')%Z → Exists alarm u;
  ct_critical c : EvDrift c "critical" ∈ u → (n < n')%Z;
}.

Lemma counted_nil n : counted n n [].
Proof. split; [done|by intros c ?%elem_of_nil|lia|by intros c ?%elem_of_nil]. Qed.

Lemma counted_app n1 n2 n3 t u : counted n1 n2 t → counted n2 n3 u → counted n1 n3 (t ++ u).
Proof.
  intros [L1 S1 A1 C1] [L2 S2 A2 C2]. split.
  - lia.
  - intros c [He|He]%elem_of_app; [by apply (S1 c)|by apply (S2 c)].
  - intros Hlt. apply Exists_app. destruct (decide (n1 < n2)%Z); [left; by apply A1|right; apply A2; lia].
  - intros c [He|He]%elem_of_app; [apply C1 in He; lia|apply C2 in He; lia].
Qed.

Lemma counted_alarm n e : alarm e → (∀ c, e ≠ EvLastSync c) → counted n (n + 1) [e].
Proof.
  intros Ha Hs. split; [lia| | |lia].
  - intros c He%list_elem_of_singleton. by apply (Hs c).
  - intros _. by constructor.
Qed.

(** A signal that is neither a failure nor a sync. *)
Lemma counted_notice n e : (∀ c, e ≠ EvLastSync c) → (∀ c, e ≠ EvDrift c "critical") → counted n n [e].
Proof.
  intros Hs Hc. split; [done| |lia|].
  - intros c He%list_elem_of_singleton. by apply (Hs c).
  - intros c He%list_elem_of_singleton. by destruct (Hc c).
Qed.
End counted.
