(* ===== verification/Rsync.v ===== *)
(** * Mirroring with rsync: internal/reconciler/gitrsync and internal/reconciler/fsstorage

    Both reconcilers run the local [rsync] against the primary's endpoint;
    they share the argument vector and differ in what they make of the
    outcome.  The elapsed time, part of [Detail], is left out. *)
From Stdlib Require Import Ascii ZArith Lia.
From stdpp Require Import prelude strings gmap list.
From S2P Require Import Prelude World GoStrings ShellQuote SshExec ConfigData Config Reconciler LocalCmd.
Open Scope go_scope.

(** ** The code: the argument vector *)

(** [dest:src/], then the local directory. *)
Definition rsync_args (sshCmd : gostr) (dryRun : bool) (ep : Endpoint) (src dst : gostr) : list gostr :=
  ["-az"; "--delete"; "--checksum"; "-s"; "-e"; sshCmd; "--rsync-path"; "sudo rsync"] ++
  (if dryRun then ["--dry-run"] else []) ++
  [Destination ep ++ ":" ++ src ++ "/"; dst ++ "/"].

Section rsync.
Context (E : Env).

(** ** The code: gitrsync *)

Record git_rsync := mkGitRsync {
  gr_site : gostr;
  gr_sshHost : gostr;
  gr_srcPath : gostr;
  gr_dstPath : gostr;
  gr_sshCfg : SshConfig;
  gr_dryRun : bool;
  gr_runner : option LocalRunner;
}.

Definition gr_New (primary secondary : SiteConfig) (site : gostr) (dryRun : bool) (sshCfg : SshConfig) : git_rsync :=
  mkGitRsync site (site_SSHHost primary) (git_ReposPath (site_Git primary)) (git_ReposPath (site_Git secondary))
    sshCfg dryRun None.

Definition gr_name (r : git_rsync) : gostr := QualifyName "git_rsync" (gr_site r).

Definition errResult (err : option error) : gostr := match err with Some _ => "error" | None => "ok" end.

Definition gr_Reconcile (r : git_rsync) : IO Result :=
  match ParseEndpoint (gr_sshHost r) with
  | Err err => _ ← emit (EvDrift "git_rsync" "critical"); mret (mkResult false 0 [FV err] 0 1)
  | Ok ep =>
      match SSHString (gr_sshCfg r) (gr_sshHost r) with
      | Err err => _ ← emit (EvDrift "git_rsync" "critical"); mret (mkResult false 0 [FV err] 0 1)
      | Ok sshCmd =>
          let args := rsync_args sshCmd (gr_dryRun r) ep (gr_srcPath r) (gr_dstPath r) in
          run ← RunWith E (gr_runner r) "rsync" args [];
          let '(out, err) := run in
          _ ← emit (EvDuration (gr_name r) (errResult err));
          match err with
          | Some err =>
              _ ← emit (EvDrift (gr_name r) "critical");
              mret (mkResult false 0 [FS "rsync failed: "; FV err; FS ": "; FS (TrimSpace out)] 0 1)
          | None =>
              _ ← emit (EvLastSync (gr_name r));
              mret (mkResult true 0 (FS "rsync ok" :: if gr_dryRun r then [FS " (dry-run)"] else []) 0 0)
          end
      end
  end.

(** ** The code: fsstorage *)

Record PathPair := mkPair { Src : gostr; Dst : gostr }.

Record fs_storage := mkFs {
  fs_site : gostr;
  fs_sshHost : gostr;
  fs_sshCfg : SshConfig;
  pathPairs : list PathPair;
  fs_dryRun : bool;
  fs_runner : option LocalRunner;
}.

Definition registry_pair (primary secondary : SiteConfig) : list PathPair :=
  match site_Registry primary with
  | Some reg =>
      if bool_decide (reg_Mode reg = "fs") && bool_decide (reg_FSPath reg ≠ []) then
        let dst := match site_Registry secondary with
                   | Some sreg => if bool_decide (reg_FSPath sreg ≠ []) then reg_FSPath sreg else reg_FSPath reg
                   | None => reg_FSPath reg
                   end in
        [mkPair (reg_FSPath reg) dst]
      else []
  | None => []
  end.

Definition fs_New (primary secondary : SiteConfig) (site : gostr) (dryRun : bool) (sshCfg : SshConfig) : fs_storage :=
  mkFs site (site_SSHHost primary) sshCfg
    (((λ p, mkPair p p) <$> os_FSPaths (site_ObjectStore primary)) ++ registry_pair primary secondary) dryRun None.

Definition fs_name (r : fs_storage) : gostr := QualifyName "fs_storage" (fs_site r).

Definition errPathMissing : error := ErrSentinel "fsstorage.errPathMissing".

Definition rsyncPath (r : fs_storage) (pr : PathPair) : IO err :=
  match ParseEndpoint (fs_sshHost r) with
  | Err err => mret (Err err)
  | Ok ep =>
      match SSHString (fs_sshCfg r) (fs_sshHost r) with
      | Err err => mret (Err err)
      | Ok sshCmd =>
          run ← RunWith E (fs_runner r) "rsync" (rsync_args sshCmd (fs_dryRun r) ep (Src pr) (Dst pr)) [];
          let '(out, err) := run in
          mret (match err with
                | None => nil_error
                | Some err =>
                    let errStr := TrimSpace out in
                    if Contains errStr "No such file or directory" || Contains errStr "change_dir"
                    then Err errPathMissing
                    else Err (Errorf [FS "rsync "; FS (Src pr); FS ": "; FW err; FS ": "; FS errStr])
                end)
      end
  end.

(** The counters of the loop over the pairs. *)
Record fs_counts := mkCounts { n_failed : Z; n_repaired : Z; n_skipped : Z }.

(** The loop: [None] when the context was done before a pair. *)
Fixpoint fs_loop (r : fs_storage) (pairs : list PathPair) (n : fs_counts) : IO (option fs_counts) :=
  match pairs with
  | [] => mret (Some n)
  | pr :: pairs =>
      ctxErr ← io_ctx_Err E;
      match ctxErr with
      | Some _ => mret None
      | None =>
          res ← rsyncPath r pr;
          match res with
          | Ok _ => fs_loop r pairs (mkCounts (n_failed n) (n_repaired n + 1) (n_skipped n))
          | Err err =>
              if errors_Is err "fsstorage.errPathMissing" then
                _ ← emit (EvDrift ("fs_storage:" ++ Src pr) "warning");
                fs_loop r pairs (mkCounts (n_failed n) (n_repaired n) (n_skipped n + 1))
              else
                _ ← emit (EvDrift (fs_name r) "critical");
                fs_loop r pairs (mkCounts (n_failed n + 1) (n_repaired n) (n_skipped n))
          end
      end
  end.

Definition fs_Reconcile (r : fs_storage) : IO Result :=
  let total := Z.of_nat (length (pathPairs r)) in
  if bool_decide (pathPairs r = []) then mret (mkResult true 0 [FS "no fs paths configured"] 0 0)
  else
    counts ← fs_loop r (pathPairs r) (mkCounts 0 0 0);
    match counts with
    | None => mret (mkResult false 0 [FS "cancelled"] 0 total)
    | Some n =>
        _ ← emit (EvDuration (fs_name r) (if (0 <? n_failed n)%Z then "error" else "ok"));
        if (0 <? n_failed n)%Z then
          mret (mkResult false 0
                  [FS "rsynced "; FZ (n_repaired n); FS "/"; FZ total; FS " paths ("; FZ (n_failed n);
                   FS " failed, "; FZ (n_skipped n); FS " missing on primary)"]
                  (n_repaired n) (n_failed n))
        else
          _ ← emit (EvLastSync (fs_name r));
          mret (mkResult true 0
                  ([FS "rsynced "; FZ (n_repaired n); FS " paths"] ++
                   if (0 <? n_skipped n)%Z
                   then [FS " ("; FZ (n_skipped n); FS " configured paths do not exist on the primary)"] else [])
                  (n_repaired n) 0)
    end.
End rsync.

(** ** What rsync makes of its last two arguments

    The rule of rsync's manual: an argument whose first colon comes before
    any slash names a host, reached through the remote shell, or a daemon's
    module when a second colon follows; a bracketed host may hold colons;
    anything else is a local path. *)
Inductive location :=
| Local (path : gostr)
| Shell (host path : gostr)
| Daemon (host module : gostr).

Definition host_location (arg host rest : gostr) : location :=
  if in_set host "/"%char then Local arg
  else if HasPrefix rest ":" then Daemon host (drop 1 rest) else Shell host rest.

Definition rsync_location (arg : gostr) : location :=
  match CutByte arg ":"%char with
  | None => Local arg
  | Some (host, rest) => host_location arg host rest
  end.

Lemma rsync_location_shell host path : ":"%char ∉ host → "/"%char ∉ host → HasPrefix path "/" = true →
  rsync_location (host ++ ":" ++ path) = Shell host path.
Proof.
  intros Hc Hs Hp. unfold rsync_location. change (host ++ ":" ++ path) with (host ++ ":"%char :: path).
  rewrite CutByte_app by done. unfold host_location, in_set. rewrite bool_decide_eq_false_2 by done.
  apply HasPrefix_true in Hp as [t ->]. done.
Qed.

Lemma rsync_location_local path : HasPrefix path "/" = true → rsync_location path = Local path.
Proof.
  intros [t ->]%HasPrefix_true. unfold rsync_location. destruct (CutByte ("/" ++ t) ":"%char) as [[h r]|] eqn:E; [|done].
  cbn in E. unfold host_location. destruct (CutByte t ":"%char) as [[h' r']|]; [|done]. injection E as <- <-.
  unfold in_set. by rewrite bool_decide_eq_true_2 by left.
Qed.

Lemma Destination_no_colon ep : wf_endpoint ep → ":"%char ∉ Host ep → ":"%char ∉ Destination ep ∧ "/"%char ∉ Destination ep.
Proof.
  intros Hw Hc. pose proof (wf_host_bytes _ Hw) as Hh. pose proof (wf_user_bytes _ Hw) as Hu.
  assert (":"%char ∉ User ep ∧ "/"%char ∉ User ep ∧ "/"%char ∉ Host ep) as (H1 & H2 & H3).
  { rewrite Forall_forall in Hh, Hu. split_and!; intros Hin.
    - by apply Hu in Hin.
    - by apply Hu in Hin.
    - by apply Hh in Hin. }
  unfold Destination. case_bool_decide; [|done]. rewrite !not_elem_of_app. split_and!; try done; closed_decide.
Qed.

(** ** Runs *)

Definition is_metric (e : event) : Prop :=
  match e with EvDrift _ _ | EvDuration _ _ | EvLastSync _ => True | _ => False end.

(** One mirroring run: from the source directory on the primary, over ssh
    with the configured options, to the local destination; a dry run asks
    rsync not to change anything. *)
Definition mirror_run (cfg : SshConfig) (host : gostr) (dry : bool) (src dst : gostr) (e : event) : Prop :=
  ∃ ep sshCmd opts from, ParseEndpoint host = Ok ep ∧ SSHString cfg host = Ok sshCmd ∧
    e = EvExec "rsync" (opts ++ [from; dst ++ "/"]) [] None ∧
    opts = ["-az"; "--delete"; "--checksum"; "-s"; "-e"; sshCmd; "--rsync-path"; "sudo rsync"] ++
             (if dry then ["--dry-run"] else []) ∧
    HasPrefix from "-" = false ∧ rsync_location from = Shell (Destination ep) (src ++ "/") ∧
    rsync_location (dst ++ "/") = Local (dst ++ "/").

Definition absolute (p : gostr) : Prop := HasPrefix p "/" = true.

(** The primary's host has no colon (it is not an IPv6 literal). *)
Definition plain_host (host : gostr) : Prop := ∀ ep, ParseEndpoint host = Ok ep → ":"%char ∉ Host ep.

Lemma HasPrefix_append s t p : HasPrefix s p = true → HasPrefix (s ++ t) p = true.
Proof. intros [u ->]%HasPrefix_true. rewrite <- app_assoc. apply HasPrefix_app. Qed.

Lemma mirror_run_args cfg host dry src dst ep sshCmd :
  plain_host host → absolute src → absolute dst → ParseEndpoint host = Ok ep → SSHString cfg host = Ok sshCmd →
  mirror_run cfg host dry src dst (EvExec "rsync" (rsync_args sshCmd dry ep src dst) [] None).
Proof.
  intros Hh Hs Hd Hep Hcmd. pose proof (ParseEndpoint_wf _ _ Hep) as Hw.
  destruct (Destination_no_colon ep Hw (Hh _ Hep)) as [Hc Hsl].
  eexists ep, sshCmd, _, _. split; [done|]. split; [done|]. split; [unfold rsync_args; by rewrite app_assoc|].
  split; [done|]. split; [|split].
  - pose proof (Destination_head ep Hw) as Hdash.
    assert (Destination ep ≠ []) as Hne.
    { unfold Destination. case_bool_decide; [by destruct (User ep)|]. apply Hw. }
    destruct (Destination ep) as [|c d]; [done|]. exact Hdash.
  - apply rsync_location_shell; [done|done|]. by apply HasPrefix_append.
  - apply rsync_location_local. by apply HasPrefix_append.
Qed.

Section runs.
Context (E : Env).

Lemma only_rsync cfg host dry src dst ep sshCmd :
  plain_host host → absolute src → absolute dst → ParseEndpoint host = Ok ep → SSHString cfg host = Ok sshCmd →
  Only (λ e, is_metric e ∨ mirror_run cfg host dry src dst e)
    (RunWith E None "rsync" (rsync_args sshCmd dry ep src dst) []).
Proof. intros. eapply only_one; [done|]. right. by apply mirror_run_args. Qed.

Lemma only_metric Q e : is_metric e → Only (λ e, is_metric e ∨ Q e) (emit e).
Proof. intros He. apply only_emit. by left. Qed.

Lemma fs_loop_only f pairs n :
  fs_runner f = None → plain_host (fs_sshHost f) → Forall (λ pr, absolute (Src pr) ∧ absolute (Dst pr)) (pathPairs f) →
  pairs ⊆ pathPairs f →
  Only (λ e, is_metric e ∨ ∃ pr, pr ∈ pathPairs f ∧
          mirror_run (fs_sshCfg f) (fs_sshHost f) (fs_dryRun f) (Src pr) (Dst pr) e) (fs_loop E f pairs n).
Proof.
  intros Hr Hh Hp. rewrite Forall_forall in Hp. revert n.
  induction pairs as [|pr pairs IH]; intros n Hsub; [apply only_ret|].
  cbn [fs_loop]. apply only_bind; [apply _|intros [|]; [apply _|]].
  assert (pr ∈ pathPairs f) as Hin by (apply Hsub; left).
  assert (pairs ⊆ pathPairs f) as Hsub' by (intros x Hx; apply Hsub; by right).
  apply only_bind.
  - unfold rsyncPath. rewrite Hr. destruct (Hp pr Hin) as [Hs Hd].
    destruct (ParseEndpoint _) as [ep|] eqn:Hep; [|apply _].
    destruct (SSHString _ _) as [cmd|] eqn:Hc; [|apply _].
    apply only_bind; [|intros []; apply _].
    eapply only_weaken; [|by apply only_rsync]. intros e [He|He]; [by left|right; eauto].
  - intros [|e]; [by apply IH|].
    destruct (errors_Is e _); (apply only_bind; [by apply only_metric|intros _; by apply IH]).
Qed.

(** Mirroring goes one way.  Whatever happens, the two reconcilers run
    nothing but [rsync], and every run reads from the configured source
    directory on the primary's host, over ssh with the configured options,
    and writes to the local destination directory of the same pair; its
    source is never read as an option; with dry run set every run carries
    [--dry-run].  The hypotheses: the primary's host is not an IPv6 literal
    and the paths are absolute. *)
Lemma gr_Reconcile_only g :
  gr_runner g = None → plain_host (gr_sshHost g) → absolute (gr_srcPath g) → absolute (gr_dstPath g) →
  Only (λ e, is_metric e ∨ mirror_run (gr_sshCfg g) (gr_sshHost g) (gr_dryRun g) (gr_srcPath g) (gr_dstPath g) e)
    (gr_Reconcile E g).
Proof.
  intros Hr Hh Hs Hd. unfold gr_Reconcile. rewrite Hr.
  destruct (ParseEndpoint _) as [ep|] eqn:Hep; [|apply only_bind; [by apply only_metric|apply _]].
  destruct (SSHString _ _) as [cmd|] eqn:Hc; [|apply only_bind; [by apply only_metric|apply _]].
  apply only_bind; [by apply only_rsync|intros [out err]].
  apply only_bind; [by apply only_metric|intros _].
  destruct err; (apply only_bind; [by apply only_metric|apply _]).
Qed.

Lemma fs_Reconcile_only f :
  fs_runner f = None → plain_host (fs_sshHost f) → Forall (λ pr, absolute (Src pr) ∧ absolute (Dst pr)) (pathPairs f) →
  Only (λ e, is_metric e ∨ ∃ pr, pr ∈ pathPairs f ∧
          mirror_run (fs_sshCfg f) (fs_sshHost f) (fs_dryRun f) (Src pr) (Dst pr) e) (fs_Reconcile E f).
Proof.
  intros Hr Hh Hp. unfold fs_Reconcile. case_bool_decide; [apply _|].
  apply only_bind; [by apply fs_loop_only|].
  intros [n|]; [|apply _]. apply only_bind; [by apply only_metric|intros _].
  destruct (0 <? n_failed n)%Z; [apply _|]. apply only_bind; [by apply only_metric|apply _].
Qed.

End runs.

(** ** The report of the file storage sweep *)

Inductive pair_outcome := Synced | Missing | Broken.

#[export] Instance pair_outcome_eq_dec : EqDecision pair_outcome.
Proof. solve_decision. Defined.

Definition classify (r : err) : pair_outcome :=
  match r with
  | Ok _ => Synced
  | Err e => if errors_Is e "fsstorage.errPathMissing" then Missing else Broken
  end.

Definition count_outcomes (o : pair_outcome) (l : list pair_outcome) : Z :=
  Z.of_nat (length (filter (λ x, x = o) l)).

Lemma count_outcomes_cons o x l :
  count_outcomes o (x :: l) = ((if bool_decide (x = o) then 1 else 0) + count_outcomes o l)%Z.
Proof. unfold count_outcomes. rewrite filter_cons. case_decide; case_bool_decide; try done; cbn [length]; lia. Qed.

Lemma count_outcomes_total l :
  (count_outcomes Synced l + count_outcomes Missing l + count_outcomes Broken l = Z.of_nat (length l))%Z.
Proof. induction l as [|[] l IH]; [done|..]; rewrite !count_outcomes_cons; cbn [length]; repeat case_bool_decide; try done; lia. Qed.

Lemma count_outcomes_0 o l : count_outcomes o l = 0%Z ↔ o ∉ l.
Proof.
  unfold count_outcomes. split.
  - intros Hz Hin. assert (o ∈ filter (λ w, w = o) l) as Hf by (by apply list_elem_of_filter).
    destruct (filter _ l); [by apply elem_of_nil in Hf|cbn in Hz; lia].
  - intros Hn. assert (filter (λ w, w = o) l = []) as ->; [|done].
    apply elem_of_nil_inv. intros w [-> Hw]%list_elem_of_filter. done.
Qed.

Section report.
Context (E : Env) (r : fs_storage).

(** The metric of an outcome. *)
Definition outcome_events (pr : PathPair) (o : pair_outcome) : list event :=
  match o with
  | Synced => []
  | Missing => [EvDrift ("fs_storage:" ++ Src pr) "warning"]
  | Broken => [EvDrift (fs_name r) "critical"]
  end.

(** The pairs tried, in order: their outcomes, and whether none was left
    out because the context was done. *)
Fixpoint outcomes (pairs : list PathPair) (h : history) : (list pair_outcome * bool) * history :=
  match pairs with
  | [] => (([], true), h)
  | pr :: pairs =>
      match env_ctx E h with
      | Some _ => (([], false), h)
      | None =>
          let '(res, h1) := rsyncPath E r pr h in
          let '((os, complete), h2) := outcomes pairs (h1 ++ outcome_events pr (classify res)) in
          ((classify res :: os, complete), h2)
      end
  end.

Definition counts_ok (n0 : fs_counts) (os : list pair_outcome) (n : fs_counts) : Prop :=
  n_failed n = (n_failed n0 + count_outcomes Broken os)%Z ∧
  n_repaired n = (n_repaired n0 + count_outcomes Synced os)%Z ∧
  n_skipped n = (n_skipped n0 + count_outcomes Missing os)%Z.

Ltac solve_counts :=
  unfold counts_ok; cbn [n_failed n_repaired n_skipped];
  repeat match goal with
  | |- context [count_outcomes ?o ?l] =>
      let n := eval vm_compute in (count_outcomes o l) in change (count_outcomes o l) with n
  end; lia.

Lemma fs_loop_outcomes pairs n h :
  ∃ os complete h', outcomes pairs h = ((os, complete), h') ∧
    match complete with
    | true => length os = length pairs ∧ ∃ n', fs_loop E r pairs n h = (Some n', h') ∧ counts_ok n os n'
    | false => length os < length pairs ∧ fs_loop E r pairs n h = (None, h') ∧ env_ctx E h' ≠ None
    end.
Proof.
  revert n h. induction pairs as [|pr pairs IH]; intros n h; cbn [outcomes fs_loop].
  { eexists _, true, _. split; [done|]. split; [done|]. exists n. split; [done|].
    solve_counts. }
  unfold mbind, ST_bind, io_ctx_Err. destruct (env_ctx E h) eqn:Ec.
  { eexists _, false, _. split; [done|]. split; [cbn; lia|]. split; [done|]. by rewrite Ec. }
  destruct (rsyncPath E r pr h) as [res h1] eqn:Er.
  assert (∀ n1 h2, counts_ok n [classify res] n1 → h2 = h1 ++ outcome_events pr (classify res) →
    ∃ os complete h', (let '((os, complete), h2) := outcomes pairs h2 in ((classify res :: os, complete), h2)) = ((os, complete), h') ∧
    match complete with
    | true => length os = S (length pairs) ∧ ∃ n', fs_loop E r pairs n1 h2 = (Some n', h') ∧ counts_ok n os n'
    | false => length os < S (length pairs) ∧ fs_loop E r pairs n1 h2 = (None, h') ∧ env_ctx E h' ≠ None
    end) as Hstep.
  { intros n1 h2 Hn1 ->. destruct (IH n1 (h1 ++ outcome_events pr (classify res))) as (os & complete & h' & -> & Hrest).
    exists (classify res :: os), complete, h'. split; [done|]. destruct complete.
    - destruct Hrest as [Hl (n' & Hf & Hc)]. split; [cbn; lia|]. exists n'. split; [done|].
      revert Hn1 Hc. unfold counts_ok. rewrite !(count_outcomes_cons _ (classify res)).
      change (count_outcomes _ []) with 0%Z. lia.
    - destruct Hrest as (Hl & Hf & He). split; [cbn; lia|]. done. }
  destruct res as [u|e]; cbn [classify] in *.
  - destruct (Hstep (mkCounts (n_failed n) (n_repaired n + 1) (n_skipped n)) h1) as (os & cp & h' & H1 & H2);
      [solve_counts|by rewrite app_nil_r|].
    cbn [outcome_events] in H1 |- *. rewrite app_nil_r. by exists os, cp, h'.
  - destruct (errors_Is e _).
    + destruct (Hstep (mkCounts (n_failed n) (n_repaired n) (n_skipped n + 1))
        (h1 ++ [EvDrift ("fs_storage:" ++ Src pr) "warning"])) as (os & cp & h' & H1 & H2);
        [solve_counts|done|].
      by exists os, cp, h'.
    + destruct (Hstep (mkCounts (n_failed n + 1) (n_repaired n) (n_skipped n))
        (h1 ++ [EvDrift (fs_name r) "critical"])) as (os & cp & h' & H1 & H2);
        [solve_counts|done|].
      by exists os, cp, h'.
Qed.

(** The file storage report.  The pairs are tried in their configured
    order, each at most once, as long as the context is alive.  When all
    were tried, Repaired counts those copied, Remaining those that failed,
    a path missing on the primary counts in neither, and the result is OK,
    with the last-sync time updated, exactly when none failed; when the
    context ended first, the result is not OK and everything remains. *)
Lemma fs_report h : pathPairs r ≠ [] →
  let '((os, complete), h1) := outcomes (pathPairs r) h in
  let '(res, h2) := fs_Reconcile E r h in
  match complete with
  | true =>
      length os = length (pathPairs r) ∧
      (OK res = true ↔ Broken ∉ os) ∧ (last h2 = Some (EvLastSync (fs_name r)) ↔ Broken ∉ os) ∧
      Repaired res = count_outcomes Synced os ∧ Remaining res = count_outcomes Broken os ∧
      (Repaired res + Remaining res + count_outcomes Missing os = Z.of_nat (length (pathPairs r)))%Z
  | false =>
      length os < length (pathPairs r) ∧ h2 = h1 ∧ env_ctx E h1 ≠ None ∧
      OK res = false ∧ Repaired res = 0%Z ∧ Remaining res = Z.of_nat (length (pathPairs r))
  end.
Proof.
  intros Hne. destruct (fs_loop_outcomes (pathPairs r) (mkCounts 0 0 0) h) as (os & complete & h1 & -> & Hrest).
  unfold fs_Reconcile. rewrite bool_decide_eq_false_2 by done. unfold mbind, ST_bind. destruct complete.
  - destruct Hrest as [Hl (n & -> & Hf & Hr & Hs)]. cbn [n_failed n_repaired n_skipped] in Hf, Hr, Hs.
    pose proof (count_outcomes_total os) as Htot. rewrite Hl in Htot.
    pose proof (count_outcomes_0 Broken os) as H0.
    unfold emit. destruct (Z.ltb_spec 0 (n_failed n)); unfold mret, ST_ret; cbn [OK Repaired Remaining].
    + assert (¬ (Broken ∉ os)) as Hb by (intros Hb%H0; lia). rewrite last_snoc. by split_and!; try lia.
    + assert (count_outcomes Broken os = 0%Z) as Hz by (unfold count_outcomes in *; lia).
      pose proof (proj1 H0 Hz). rewrite last_snoc. split_and!; try lia; done.
  - by destruct Hrest as (Hl & -> & He).
Qed.
End report.

(** ** Runs *)

Definition ex_rsync_env : Env := {|
  env_exec _ _ args _ _ :=
    if bool_decide (last args = Some ("/lfs/" : gostr))
    then ("rsync: change_dir /lfs failed: No such file or directory (2)", Some (ErrExternal "exit status 23"))
    else ([], None);
  env_get _ _ _ := Err (ErrExternal "no network");
  env_hops _ _ := [];
  env_disk _ _ := NFile;
  env_draw _ _ _ := 0;
  env_sql _ _ _ _ := Ok [];
  env_ctx _ := None;
  env_timer _ _ := true |}.

Definition ex_fs (host : gostr) : fs_storage :=
  mkFs [] host Default [mkPair "/up loads" "/up loads"; mkPair "/lfs" "/lfs"] true None.

Example fs_example :
  let '(res, h) := fs_Reconcile ex_rsync_env (ex_fs "root@eu:2222") [] in
  OK res = true ∧ Repaired res = 1%Z ∧ Remaining res = 0%Z ∧
  head h = Some (EvExec "rsync" ["-az"; "--delete"; "--checksum"; "-s"; "-e"; "ssh -o StrictHostKeyChecking=accept-new -p 2222";
    "--rsync-path"; "sudo rsync"; "--dry-run"; "root@eu:/up loads/"; "/up loads/"] [] None).
Proof. vm_compute. split_and!; reflexivity. Qed.

(** An IPv6 host is not bracketed: rsync reads another host, or a daemon. *)
Example ipv6_host_misread :
  let arg ep := Destination ep ++ ":" ++ "/srv" ++ "/" in
  (∃ ep, ParseEndpoint "[fe80::1]:22" = Ok ep ∧ rsync_location (arg ep) = Daemon "fe80" "1:/srv/") ∧
  (∃ ep, ParseEndpoint "[2001:db8::1]" = Ok ep ∧ rsync_location (arg ep) = Shell "2001" "db8::1:/srv/").
Proof. split; eexists; (split; [vm_compute; reflexivity|reflexivity]). Qed.

Lemma fs_report_witness :
  let '((os, complete), h1) := outcomes ex_rsync_env (ex_fs "eu") (pathPairs (ex_fs "eu")) [] in
  complete = true ∧ length os = 2.
Proof.
  pose proof (fs_report ex_rsync_env (ex_fs "eu") [] ltac:(discriminate)) as H.
  destruct (outcomes _ _ _ _) as [[os complete] h1] eqn:Eo. destruct (fs_Reconcile _ _ _) as [res h2].
  assert (complete = true) as -> by (vm_compute in Eo; by injection Eo as _ <- _).
  split; [reflexivity|]. apply H.
Defined.
