(* ===== verification/GitFetch.v ===== *)
(** * internal/reconciler/gitfetch: fetching repositories over ssh *)
From Stdlib Require Import Ascii ZArith Lia.
From stdpp Require Import prelude strings gmap list.
From S2P Require Import Prelude World GoStrings Sha256 ProjectPath GoPath SshExec LocalCmd Reconciler.
Open Scope go_scope.

(** ** The code *)

Record gf_reconciler := mkGF {
  gf_primarySSHHost : gostr;
  gf_reposPath : gostr;
  gf_secondaryName : gostr;
  gf_pool : option gostr;          (** the connection pool, [None] when nil *)
  gf_sshCfg : SshConfig;
  gf_dryRun : bool;
  gf_maxParallel : Z;
}.

(** [New], with the default runner. *)
Definition New (primarySSHHost reposPath secondaryName : gostr) (pool : option gostr)
    (dryRun : bool) (sshCfg : SshConfig) : gf_reconciler :=
  mkGF primarySSHHost reposPath secondaryName pool sshCfg dryRun 8.

Definition gf_name (r : gf_reconciler) : gostr := QualifyName "git_fetch" (gf_secondaryName r).

Record projectRow := mkRow { ID : Z; RepoPath : gostr }.

Definition errNoRoutePath : error := ErrSentinel "gitfetch.errNoRoutePath".

(** The hex SHA-256 of the decimal project id. *)
Definition hashedStorageHash (projectID : Z) : gostr := EncodeToString (Sum256 (Itoa projectID)).

Definition repoDiskPath (hashed : bool) (routePath : gostr) (projectID : Z) : res gostr :=
  if hashed then
    let h := hashedStorageHash projectID in
    Ok ("@hashed/" ++ take 2 h ++ "/" ++ take 2 (drop 2 h) ++ "/" ++ h ++ ".git")
  else if bool_decide (routePath = []) then Err errNoRoutePath
  else
    match Validate routePath with
    | Some err => Err (Errorf [FS "route path "; FQ routePath; FS " is not a valid project path: "; FW err])
    | None => Ok (routePath ++ ".git")
    end.

Definition containedJoin (root rel : gostr) : res gostr :=
  let joined := PathJoin root rel in
  let cleanRoot := Clean root in
  if negb (bool_decide (joined = cleanRoot)) && negb (HasPrefix joined (cleanRoot ++ "/")) then
    Err (Errorf [FS "path "; FQ rel; FS " resolves to "; FQ joined; FS ", outside "; FQ cleanRoot])
  else Ok joined.

(** *** Rows *)

Definition scan_error : error := ErrExternal "can't scan".

(** [rows.Scan] into an [int32], a [string], a [bool], a [sql.NullInt64] and
    a [sql.NullString];
    cells carry PostgreSQL's text form. *)
Definition scan_int32 (c : option gostr) : res Z :=
  match c with
  | Some s =>
      match Atoi s with
      | Some n => if (-2147483648 <=? n)%Z && (n <=? 2147483647)%Z then Ok n else Err scan_error
      | None => Err scan_error
      end
  | None => Err scan_error
  end.
Definition scan_string (c : option gostr) : res gostr :=
  match c with Some s => Ok s | None => Err scan_error end.
Definition scan_bool (c : option gostr) : res bool :=
  match c with
  | Some s => if bool_decide (s = "t") then Ok true else if bool_decide (s = "f") then Ok false else Err scan_error
  | None => Err scan_error
  end.
Definition scan_null_int64 (c : option gostr) : res (option Z) :=
  match c with
  | None => Ok None
  | Some s => match Atoi s with Some n => Ok (Some n) | None => Err scan_error end
  end.
Definition null_string (c : option gostr) : gostr := default [] c.

Definition list_sql : gostr := "SELECT p.id, p.repository_storage, p.project_namespace_id, p.hashed_storage, r.path FROM projects p LEFT JOIN routes r ON r.source_id = p.id AND r.source_type = 'Project' WHERE p.repository_storage IS NOT NULL ORDER BY p.id".

Definition lookup_sql : gostr := "SELECT p.id, p.repository_storage, p.hashed_storage FROM projects p JOIN routes r ON r.source_id = p.id AND r.source_type = 'Project' WHERE r.path = $1 LIMIT 1".

(** The loop over the rows: a row that does not scan ends it, a row
    without a usable path is skipped. *)
Fixpoint scan_projects (rows : list sql_row) : res (list projectRow) :=
  match rows with
  | [] => Ok []
  | row :: rows =>
      match row with
      | [id; storage; namespaceID; hashed; route] =>
          id ← scan_int32 id;
          _ ← scan_string storage;
          _ ← scan_null_int64 namespaceID;
          hashed ← scan_bool hashed;
          rest ← scan_projects rows;
          match repoDiskPath hashed (null_string route) id with
          | Err _ => Ok rest
          | Ok diskPath => Ok (mkRow id diskPath :: rest)
          end
      | _ => Err scan_error
      end
  end.

Section gitfetch.
Context (E : Env) (runner : option LocalRunner).

Definition listProjects (pool : gostr) : IO (res (list projectRow)) :=
  rows ← io_sql E pool list_sql [];
  mret (rows ← rows; scan_projects rows).

Definition resolveProject (r : gf_reconciler) (projectPath : gostr) : IO (res projectRow) :=
  match gf_pool r with
  | None => mret (Ok (mkRow 0 (projectPath ++ ".git")))
  | Some pool =>
      rows ← io_sql E pool lookup_sql [projectPath];
      mret match rows with
           | Err err => Err (Errorf [FS "look up project "; FS projectPath; FS ": "; FW err])
           | Ok [] => Err (Errorf [FS "project "; FS projectPath; FS " not found in replicated DB"])
           | Ok (row :: _) =>
               let scanned :=
                 match row with
                 | [id; storage; hashed] =>
                     id ← scan_int32 id; _ ← scan_string storage; hashed ← scan_bool hashed; Ok (id, hashed)
                 | _ => Err scan_error
                 end in
               match scanned with
               | Err err => Err (Errorf [FS "scan project "; FS projectPath; FS ": "; FW err])
               | Ok (id, hashed) =>
                   match repoDiskPath hashed projectPath id with
                   | Err err => Err (Errorf [FS "resolve project "; FS projectPath; FS ": "; FW err])
                   | Ok diskPath => Ok (mkRow id diskPath)
                   end
               end
           end
  end.

(** The arguments of [git]. *)
Definition fetch_args (localPath remoteURL : gostr) : list gostr :=
  ["-C"; localPath; "fetch"; "--prune"; "--no-tags"; remoteURL; "+refs/*:refs/*"; "+refs/tags/*:refs/tags/*"].

Definition fetchOne (r : gf_reconciler) (p : projectRow) : IO bool :=
  if bool_decide (RepoPath p = []) then mret false
  else
    match ParseEndpoint (gf_primarySSHHost r), SSHString (gf_sshCfg r) (gf_primarySSHHost r) with
    | Ok ep, Ok sshCmd =>
        match containedJoin (gf_reposPath r) (RepoPath p) with
        | Err _ => mret false
        | Ok localPath =>
            let remoteURL := GitURL ep ("/var/opt/gitlab/git-data/repositories/" ++ RepoPath p) in
            if gf_dryRun r then mret true
            else
              '(_, err) ← RunWith E runner "git" (fetch_args localPath remoteURL) ["GIT_SSH_COMMAND=" ++ sshCmd];
              mret (match err with Some _ => false | None => true end)
        end
    | _, _ => mret false
    end.

Definition FetchProject (r : gf_reconciler) (projectPath : gostr) : IO err :=
  match Validate projectPath with
  | Some err => mret (Err (Errorf [FS "invalid project path: "; FW err]))
  | None =>
      p ← resolveProject r projectPath;
      match p with
      | Err err => mret (Err err)
      | Ok p =>
          ok ← fetchOne r p;
          mret (if (ok : bool) then nil_error else Err (Errorf [FS "git fetch failed for "; FS projectPath]))
      end
  end.

(** *** The sweep

    [errgroup] with a limit: the loop checks the context, then blocks in
    [g.Go] until fewer than [limit] fetches run. *)
Record pool := mkPool {
  gp_todo : list projectRow;          (** not reached by the loop yet *)
  gp_blocked : option projectRow;     (** the loop is in [g.Go] with this one *)
  gp_running : list projectRow;
  gp_repaired : Z;
  gp_failed : Z;
  gp_hist : history;
}.

Definition limit_of (r : gf_reconciler) (n : nat) : nat :=
  let parallel := if (gf_maxParallel r <? 1)%Z then 1%Z else gf_maxParallel r in
  Z.to_nat (if (Z.of_nat n <? parallel)%Z then Z.of_nat n else parallel).

(** The outcome of one fetch, at the time it completes. *)
Definition complete (r : gf_reconciler) (i : nat) (p : projectRow) (s : pool) : pool :=
  let '(ok, h) := fetchOne r p (gp_hist s) in
  mkPool (gp_todo s) (gp_blocked s) (delete i (gp_running s))
    (if ok then gp_repaired s + 1 else gp_repaired s)%Z
    (if ok then gp_failed s else gp_failed s + 1)%Z h.

Inductive pool_step (r : gf_reconciler) (limit : nat) : pool → pool → Prop :=
| pool_next p todo run rep fail h : env_ctx E h = None →
    pool_step r limit (mkPool (p :: todo) None run rep fail h) (mkPool todo (Some p) run rep fail h)
| pool_break p todo run rep fail h : env_ctx E h ≠ None →
    pool_step r limit (mkPool (p :: todo) None run rep fail h) (mkPool [] None run rep fail h)
| pool_go p todo run rep fail h : length run < limit →
    pool_step r limit (mkPool todo (Some p) run rep fail h) (mkPool todo None (run ++ [p]) rep fail h)
| pool_complete i p s : gp_running s !! i = Some p → pool_step r limit s (complete r i p s).

Definition pool_start (projects : list projectRow) (h : history) : pool := mkPool projects None [] 0 0 h.

(** [g.Wait()] has returned. *)
Definition pool_done (s : pool) : Prop := gp_todo s = [] ∧ gp_blocked s = None ∧ gp_running s = [].

(** What [Reconcile] reports after [g.Wait()]; the elapsed time, which is
    part of [Detail], is left out. *)
Definition finish (r : gf_reconciler) (projects : list projectRow) (s : pool) : Result * history :=
  let component := gf_name r in
  let n := Z.of_nat (length projects) in
  let h := gp_hist s ++ [EvDuration component (if (0 <? gp_failed s)%Z then "error" else "ok")] in
  if (0 <? gp_failed s)%Z then
    (mkResult false 0 [FS "fetched "; FZ (gp_repaired s); FS "/"; FZ n; FS " projects ("; FZ (gp_failed s);
                       FS " failed, parallel="; FZ (Z.of_nat (limit_of r (length projects))); FS ")"]
       (gp_repaired s) (gp_failed s), h ++ [EvDrift component "warning"])
  else
    (mkResult true 0 [FS "fetched "; FZ n; FS " projects (parallel="; FZ (Z.of_nat (limit_of r (length projects))); FS ")"]
       (gp_repaired s) 0, h ++ [EvLastSync component]).

(** The runs of [Reconcile]. *)
Inductive reconciles (r : gf_reconciler) (pool : gostr) (h : history) : Result → history → Prop :=
| rec_list_error err h1 : listProjects pool h = (Err err, h1) →
    reconciles r pool h (mkResult false 0 [FS "list projects: "; FV err] 0 1)
      (h1 ++ [EvDrift (gf_name r) "critical"])
| rec_none h1 : listProjects pool h = (Ok [], h1) →
    reconciles r pool h (mkResult true 0 [FS "no projects to sync"] 0 0) h1
| rec_sweep projects h1 s result h2 :
    listProjects pool h = (Ok projects, h1) → projects ≠ [] →
    rtc (pool_step r (limit_of r (length projects))) (pool_start projects h1) s → pool_done s →
    finish r projects s = (result, h2) → reconciles r pool h result h2.
End gitfetch.

(** ** Paths *)

Lemma containedJoin_proper t rel : Forall proper_segment (SplitByte rel SEP) → Clean (SEP :: t) ≠ "/" →
  containedJoin (SEP :: t) rel = Ok (Clean (SEP :: t) ++ "/" ++ rel).
Proof.
  intros Hrel Hroot. unfold containedJoin.
  assert (rel ≠ []) as Hne.
  { intros ->. apply Forall_cons in Hrel as [(Hp & _) _]. done. }
  rewrite PathJoin_rooted by done. rewrite Clean_rooted in Hroot |- *.
  change (Clean ((SEP :: t) ++ SEP :: rel)) with (Clean (SEP :: (t ++ SEP :: rel))).
  rewrite Clean_rooted. change (SEP :: (t ++ SEP :: rel)) with ((SEP :: t) ++ SEP :: rel).
  rewrite path_elems_app_proper by done.
  assert (path_elems (SEP :: t) ≠ []) as Her by (intros Hnil; by rewrite Hnil in Hroot).
  pose proof (JoinWith_prefix (path_elems (SEP :: t)) (SplitByte rel SEP) Her (SplitByte_nonempty _ _)) as Hpre.
  cbn [app]. rewrite Hpre, andb_false_r.
  rewrite Join_app by (done || apply SplitByte_nonempty). by rewrite (Join_Split rel SEP).
Qed.

(** Containment.  Below an absolute root, whatever the relative path
    is (with any [..] in it), a path that [containedJoin] returns is clean,
    absolute, and has all the elements of the root in front; and it
    returns exactly [root/rel] for every relative path made of proper
    segments, unless the root is [/]. *)
Lemma containedJoin_contained t rel :
  let root := SEP :: t in
  (∀ joined, containedJoin root rel = Ok joined →
    path_elems root `prefix_of` path_elems joined ∧ (∃ u, joined = SEP :: u) ∧ Clean joined = joined) ∧
  (Forall proper_segment (SplitByte rel SEP) → Clean root ≠ "/" →
    containedJoin root rel = Ok (Clean root ++ "/" ++ rel)).
Proof.
  cbn zeta. split; [unfold containedJoin|].
  - assert (∃ u, PathJoin (SEP :: t) rel = Clean (SEP :: u)) as [u Hu].
    { destruct (decide (rel = [])) as [->|Hr]; [by exists t|].
      rewrite PathJoin_rooted by done. by eexists. }
    rewrite Hu. intros joined Hj. destruct (negb _ && negb _) eqn:Hc; [done|]. injection Hj as <-.
    assert (path_elems (SEP :: t) `prefix_of` path_elems (SEP :: u)) as Hp.
    { apply andb_false_iff in Hc as [Hc|Hc]; apply negb_false_iff in Hc.
      - apply bool_decide_eq_true in Hc. apply (f_equal path_elems) in Hc.
        rewrite !path_elems_Clean_rooted in Hc. by rewrite Hc.
      - by apply below_root_elems. }
    rewrite path_elems_Clean_rooted. split; [done|]. split; [rewrite Clean_rooted; by eexists|].
    pose proof (path_elems_Clean_rooted u) as He. rewrite Clean_rooted in He |- * at 1.
    by rewrite Clean_rooted, He.
  - apply containedJoin_proper.
Qed.

(** ** Disk paths *)

Definition proper_path (rel : gostr) : Prop := Forall proper_segment (SplitByte rel SEP).

Lemma dot_git_proper x : proper_segment (x ++ ".git").
Proof.
  assert (∀ y : gostr, length y ≤ 2 → x ++ ".git" ≠ y) as Hl.
  { intros y Hy Heq. apply (f_equal length) in Heq. rewrite length_app in Heq. cbn in Heq. lia. }
  repeat split; apply Hl; cbn; lia.
Qed.

Lemma proper_path_git path : valid_path path → proper_path (path ++ ".git").
Proof.
  intros (Hp & _ & _). unfold proper_path. destruct (SplitByte_extend path SEP) as (l & x & Hs & Hg).
  rewrite Hs in Hp. apply Forall_app in Hp as [Hl _].
  rewrite Hg by (apply (bool_decide_eq_true_1 _); reflexivity).
  apply Forall_app. split; [done|]. constructor; [apply dot_git_proper|constructor].
Qed.

Lemma hex_proper h : Forall (λ c, hex_byte c = true) h → h ≠ [] → proper_segment h ∧ SEP ∉ h.
Proof.
  intros Hh Hne. pose proof (Forall_byte_notin hex_byte h SEP eq_refl Hh).
  pose proof (Forall_byte_notin hex_byte h "."%char eq_refl Hh) as Hd.
  split; [|done]. repeat split; [done|..]; intros ->; apply Hd; left.
Qed.

Lemma proper_path_hashed id : proper_path
  ("@hashed/" ++ take 2 (hashedStorageHash id) ++ "/" ++ take 2 (drop 2 (hashedStorageHash id)) ++ "/" ++
   hashedStorageHash id ++ ".git").
Proof.
  unfold hashedStorageHash. pose proof (EncodeToString_length (Sum256 (Itoa id))) as Hl.
  pose proof (EncodeToString_bytes (Sum256 (Itoa id))) as Hb. revert Hl Hb.
  generalize (EncodeToString (Sum256 (Itoa id))) as h. intros h Hl Hb.
  destruct (hex_proper (take 2 h)) as [H1 N1].
  { by apply Forall_take. } { intros Hn. apply (f_equal length) in Hn. rewrite length_take, Hl in Hn. done. }
  destruct (hex_proper (take 2 (drop 2 h))) as [H2 N2].
  { by apply Forall_take, Forall_drop. }
  { intros Hn. apply (f_equal length) in Hn. rewrite length_take, length_drop, Hl in Hn. done. }
  destruct (hex_proper h) as [H3 N3]; [done|by intros ->|].
  change (proper_path ("@hashed" ++ SEP :: take 2 h ++ SEP :: take 2 (drop 2 h) ++ SEP :: h ++ ".git")).
  unfold proper_path.
  rewrite SplitByte_app by (apply (bool_decide_eq_true_1 _); reflexivity).
  rewrite !SplitByte_app, SplitByte_single by
    (done || (rewrite not_elem_of_app; split; [done|apply (bool_decide_eq_true_1 _); reflexivity])).
  repeat (constructor; [first [done | apply dot_git_proper]|]). constructor.
Qed.

(** Every path [repoDiskPath] returns is made of proper segments. *)
Lemma repoDiskPath_proper hashed route id p : repoDiskPath hashed route id = Ok p → proper_path p.
Proof.
  unfold repoDiskPath. destruct hashed; [intros [= <-]; apply proper_path_hashed|].
  case_bool_decide; [done|]. destruct (Validate route) eqn:Hv; [done|]. intros [= <-].
  by apply proper_path_git, Validate_None.
Qed.

Lemma scan_projects_proper rows ps : scan_projects rows = Ok ps → Forall (λ p, proper_path (RepoPath p)) ps.
Proof.
  revert ps. induction rows as [|row rows IH]; intros ps; cbn [scan_projects]; [intros [= <-]; constructor|].
  destruct row as [|id [|st [|x [|hs [|rt [|y l]]]]]]; try done.
  unfold mbind, res_bind. destruct (scan_int32 id) as [i|]; [|done].
  destruct (scan_string st); [|done]. destruct (scan_null_int64 x); [|done]. destruct (scan_bool hs) as [b|]; [|done].
  destruct (scan_projects rows) as [rest|]; [|done]. specialize (IH rest eq_refl).
  destruct (repoDiskPath b (null_string rt) i) as [p|] eqn:Ep; intros [= <-]; [|done].
  constructor; [by eapply repoDiskPath_proper|done].
Qed.

(** A webhook's project is resolved to a path of [repoDiskPath]. *)
Lemma resolveProject_row E r path h p h1 : Validate path = None → resolveProject E r path h = (Ok p, h1) →
  ∃ hashed id, repoDiskPath hashed path id = Ok (RepoPath p).
Proof.
  intros Hv. unfold resolveProject. destruct (gf_pool r).
  2:{ intros [= <- <-]. exists false, 0%Z. unfold repoDiskPath. cbn [RepoPath].
      rewrite bool_decide_eq_false_2, Hv; [done|]. by intros ->. }
  unfold mbind, ST_bind, io_sql. destruct (env_sql _ _ _ _ _) as [[|row rows]|]; [done| |done].
  destruct row as [|id [|st [|hs [|y l2]]]]; try done. unfold mbind, res_bind.
  destruct (scan_int32 id) as [i|]; [|done]. destruct (scan_string st); [|done].
  destruct (scan_bool hs) as [b|]; [|done].
  destruct (repoDiskPath b path i) as [q|] eqn:Eq; [|done]. intros [= <- _]. by exists b, i.
Qed.

Section events.
Context (E : Env) (r : gf_reconciler) (t : gostr).
Context (Hroot : gf_reposPath r = SEP :: t) (Hslash : Clean (gf_reposPath r) ≠ "/").

(** A fetch of [p] is at most one run of [git], in the clone below the
    root and against the same relative path on the primary. *)
Definition stays (p : projectRow) : Prop := ∀ h,
  (fetchOne E None r p h).2 = h ∨
  ∃ ep sshCmd, ParseEndpoint (gf_primarySSHHost r) = Ok ep ∧
    SSHString (gf_sshCfg r) (gf_primarySSHHost r) = Ok sshCmd ∧
    (fetchOne E None r p h).2 = h ++
      [EvExec "git" (fetch_args (Clean (gf_reposPath r) ++ "/" ++ RepoPath p)
                       (GitURL ep ("/var/opt/gitlab/git-data/repositories/" ++ RepoPath p)))
         ["GIT_SSH_COMMAND=" ++ sshCmd] None].

Lemma fetchOne_stays p : proper_path (RepoPath p) → stays p.
Proof using Hroot Hslash.
  intros Hp h. unfold fetchOne.
  destruct (bool_decide_reflect (RepoPath p = [])) as [Hn|Hn]; [by left|].
  destruct (ParseEndpoint _) as [ep|]; [|by left].
  destruct (SSHString _ _) as [sshCmd|]; [|by left].
  assert (containedJoin (gf_reposPath r) (RepoPath p) = Ok (Clean (gf_reposPath r) ++ "/" ++ RepoPath p)) as ->.
  { rewrite Hroot in *. by apply containedJoin_proper. }
  destruct (gf_dryRun r); [by left|]. right. exists ep, sshCmd. split_and!; try done.
  unfold mbind, ST_bind, RunWith, realRunner, io_exec. by destruct (env_exec _ _ _ _ _ _) as [o [e|]].
Qed.

Lemma resolveProject_proper path h p h1 : Validate path = None →
  resolveProject E r path h = (Ok p, h1) → proper_path (RepoPath p).
Proof using.
  intros Hv (hashed & id & Hd)%resolveProject_row; [|done]. by eapply repoDiskPath_proper.
Qed.
End events.

(** C27: every fetch stays in its repository.  With an absolute root other
    than [/], whatever the database answers, each project the sweep lists,
    and the project a webhook resolves, is fetched by at most one run of
    [git] per attempt, with [-C] at [root/rel] and the URL of the same
    relative path [rel] on the primary, where [rel] is made of proper
    segments. *)
Theorem fetches_stay E r t :
  gf_reposPath r = SEP :: t → Clean (gf_reposPath r) ≠ "/" →
  (∀ pool h ps h1 p, listProjects E pool h = (Ok ps, h1) → p ∈ ps →
     proper_path (RepoPath p) ∧ stays E r p) ∧
  (∀ path h p h1, Validate path = None → resolveProject E r path h = (Ok p, h1) →
     proper_path (RepoPath p) ∧ stays E r p).
Proof.
  intros Hroot Hslash. split.
  - intros pool h ps h1 p. unfold listProjects, mbind, ST_bind, io_sql.
    destruct (env_sql _ _ _ _ _) as [rows|]; [|done]. cbn. intros [= Hps _] Hp.
    apply scan_projects_proper in Hps. rewrite Forall_forall in Hps.
    split; [by apply Hps|]. by eapply fetchOne_stays, Hps.
  - intros path h p h1 Hv Hp. apply resolveProject_proper in Hp; [|done].
    split; [done|]. by eapply fetchOne_stays.
Qed.

(** ** The sweep *)

Section accounting.
Context (E : Env) (runner : option LocalRunner) (r : gf_reconciler) (projects : list projectRow) (h0 : history).

(** The fetches that have completed, in that order, each with its outcome. *)
Inductive fetch_runs : list (projectRow * bool) → history → Prop :=
| fetch_runs_nil : fetch_runs [] h0
| fetch_runs_snoc done h p ok h' : fetch_runs done h → fetchOne E runner r p h = (ok, h') →
    fetch_runs (done ++ [(p, ok)]) h'.

(** The projects that are not finished. *)
Definition unfinished (s : pool) : list projectRow := gp_running s ++ option_list (gp_blocked s) ++ gp_todo s.

Definition fetch_tally (b : bool) (done : list (projectRow * bool)) : Z :=
  Z.of_nat (length (filter (λ x, x.2 = b) done)).

Lemma fetch_tally_snoc b done p ok : fetch_tally b (done ++ [(p, ok)]) = (fetch_tally b done + if Bool.eqb ok b then 1 else 0)%Z.
Proof.
  unfold fetch_tally. rewrite filter_app, length_app.
  destruct ok, b; rewrite ?filter_cons_True, ?filter_cons_False by done; cbn; lia.
Qed.

Record pool_ok (limit : nat) (s : pool) (done : list (projectRow * bool)) : Prop := {
  po_limit : length (gp_running s) ≤ limit;
  po_runs : fetch_runs done (gp_hist s);
  po_once : done.*1 ++ unfinished s ⊆+ projects;
  po_repaired : gp_repaired s = fetch_tally true done;
  po_failed : gp_failed s = fetch_tally false done;
  po_live : (∀ h, env_ctx E h = None) → done.*1 ++ unfinished s ≡ₚ projects;
}.

Lemma pool_start_ok limit : pool_ok limit (pool_start projects h0) [].
Proof. split; cbn; [lia|constructor|done..]. Qed.

Lemma complete_ok limit i p s done : gp_running s !! i = Some p → pool_ok limit s done →
  ∃ ok, pool_ok limit (complete E runner r i p s) (done ++ [(p, ok)]).
Proof.
  intros Hi [H1 H2 H3 H4 H5 H6]. unfold complete. destruct (fetchOne E runner r p (gp_hist s)) as [ok h] eqn:Ef. exists ok.
  assert ((done ++ [(p, ok)]).*1 ++ delete i (gp_running s) ++ option_list (gp_blocked s) ++ gp_todo s ≡ₚ done.*1 ++ unfinished s) as Hp.
  { rewrite fmap_app, <- app_assoc. apply Permutation_app_head. unfold unfinished.
    change ((p :: delete i (gp_running s)) ++ option_list (gp_blocked s) ++ gp_todo s ≡ₚ
      gp_running s ++ option_list (gp_blocked s) ++ gp_todo s).
    by rewrite <- (delete_Permutation (gp_running s) i p Hi). }
  split; unfold unfinished; cbn [gp_running gp_blocked gp_todo gp_hist gp_repaired gp_failed].
  - rewrite length_delete by by eexists. lia.
  - by eapply fetch_runs_snoc.
  - by rewrite Hp.
  - rewrite fetch_tally_snoc, H4. destruct ok; cbn; lia.
  - rewrite fetch_tally_snoc, H5. destruct ok; cbn; lia.
  - intros Hl. rewrite Hp. by apply H6.
Qed.

Lemma pool_step_ok limit s s' done : pool_step E runner r limit s s' → pool_ok limit s done →
  ∃ done', pool_ok limit s' done'.
Proof.
  intros Hstep Hok. destruct Hstep as [p todo run rep fail h Hc|p todo run rep fail h Hc|p todo run rep fail h Hl|i p s Hi];
    [| | |destruct (complete_ok _ _ _ _ _ Hi Hok) as [ok ?]; by eexists]; exists done;
    destruct Hok as [H1 H2 H3 H4 H5 H6]; unfold unfinished in *; cbn in *; (split; unfold unfinished; cbn; try done).
  - etransitivity; [|exact H3]. rewrite !app_nil_r. apply submseteq_app; [done|]. by apply submseteq_inserts_r.
  - intros Hlive. by rewrite Hlive in Hc.
  - rewrite length_app. cbn. lia.
  - by rewrite <- app_assoc.
  - by rewrite <- app_assoc.
Qed.

Lemma pool_run_ok limit s s' done : rtc (pool_step E runner r limit) s s' → pool_ok limit s done →
  ∃ done', pool_ok limit s' done'.
Proof.
  intros Hr. revert done. induction Hr as [s|s s1 s2 H12 _ IH]; intros done Hok; [by exists done|].
  destruct (pool_step_ok _ _ _ _ H12 Hok) as [done1 Hok1]. by eapply IH.
Qed.

Lemma fetch_tally_all done : fetch_tally false done = 0%Z ↔ Forall (λ x, x.2 = true) done.
Proof.
  unfold fetch_tally. induction done as [|[p ok] done IH]; [done|]. rewrite Forall_cons, <- IH. destruct ok.
  - rewrite filter_cons_False by done. cbn. tauto.
  - rewrite filter_cons_True by done. cbn [length snd]. split; [lia|]. by intros [? _].
Qed.

End accounting.

Lemma limit_of_bounds r n : limit_of r n ≤ n ∧ (gf_maxParallel r = 8%Z → limit_of r n ≤ 8) ∧ (0 < n → 0 < limit_of r n).
Proof.
  unfold limit_of. set (q := if (gf_maxParallel r <? 1)%Z then 1%Z else gf_maxParallel r).
  assert (1 ≤ q)%Z by (subst q; destruct (Z.ltb_spec (gf_maxParallel r) 1); lia).
  assert (gf_maxParallel r = 8%Z → q = 8%Z) by (intros Hm; subst q; by rewrite Hm).
  destruct (Z.ltb_spec (Z.of_nat n) q); lia.
Qed.

(** C28: the accounting of a parallel sweep.  However the fetches
    interleave, at most [limit] (never more than eight for a reconciler
    made by [New], nor more than there are projects) run at once; at any
    time the fetches that have completed are, one after the other, runs of
    [fetchOne] for projects of the list, each project of which is counted at
    most once, as repaired when its fetch succeeded and as failed when it
    failed.  When the sweep is over, the result is OK exactly when every
    fetch that ran succeeded; and when the context stayed alive, every
    project was fetched exactly once, and Repaired and Remaining are the
    numbers of fetches that succeeded and failed. *)
Theorem sweep_accounting E runner r projects h s :
  projects ≠ [] →
  rtc (pool_step E runner r (limit_of r (length projects))) (pool_start projects h) s →
  length (gp_running s) ≤ limit_of r (length projects) ≤ length projects ∧
  (gf_maxParallel r = 8%Z → length (gp_running s) ≤ 8) ∧
  ∃ done, fetch_runs E runner r h done (gp_hist s) ∧
    done.*1 ++ unfinished s ⊆+ projects ∧
    gp_repaired s = fetch_tally true done ∧ gp_failed s = fetch_tally false done ∧
    (pool_done s → (OK (finish r projects s).1 = true ↔ Forall (λ x, x.2 = true) done) ∧
     ((∀ h, env_ctx E h = None) → done.*1 ≡ₚ projects ∧
      Repaired (finish r projects s).1 = fetch_tally true done ∧ Remaining (finish r projects s).1 = fetch_tally false done)).
Proof.
  intros Hne Hrtc. destruct (pool_run_ok E runner r projects h _ _ _ _ Hrtc (pool_start_ok E runner r projects h _))
    as [done [H1 H2 H3 H4 H5 H6]].
  destruct (limit_of_bounds r (length projects)) as (Hb1 & Hb2 & _).
  split; [lia|]. split; [intros Hm; specialize (Hb2 Hm); lia|].
  exists done. do 4 (split; [done|]). intros (Ht & Hb & Hr). rewrite <- fetch_tally_all, <- H5.
  unfold unfinished in H6. rewrite Ht, Hb, Hr, app_nil_r in H6. unfold finish.
  assert (0 ≤ gp_failed s)%Z by (rewrite H5; unfold fetch_tally; lia).
  destruct (Z.ltb_spec 0 (gp_failed s)); cbn [fst OK Repaired Remaining]; (split; [split; [done || lia|lia || done]|]);
    intros Hlive; (split; [by apply H6|split; [done|lia]]).
Qed.

(** ** What a sweep does *)

Section effects.
Context (E : Env) (r : gf_reconciler).

(** A fetch of [rel]: [git] in the path that [containedJoin] accepted, from
    the same relative path on the primary; never in a dry run. *)
Definition fetch_at (rel : gostr) (e : event) : Prop :=
  gf_dryRun r = false ∧ ∃ ep sshCmd localPath,
    ParseEndpoint (gf_primarySSHHost r) = Ok ep ∧ SSHString (gf_sshCfg r) (gf_primarySSHHost r) = Ok sshCmd ∧
    containedJoin (gf_reposPath r) rel = Ok localPath ∧
    e = EvExec "git" (fetch_args localPath (GitURL ep ("/var/opt/gitlab/git-data/repositories/" ++ rel)))
          ["GIT_SSH_COMMAND=" ++ sshCmd] None.

Definition sweep_event (e : event) : Prop := observes [list_sql] e ∨ ∃ rel, fetch_at rel e.

Lemma only_fetch_at p : Only (fetch_at (RepoPath p)) (fetchOne E None r p).
Proof.
  unfold fetchOne. case_bool_decide; [apply _|].
  destruct (ParseEndpoint _) as [ep|] eqn:Ep; [|apply _]. destruct (SSHString _ _) as [cmd|] eqn:Es; [|apply _].
  destruct (containedJoin _ _) as [p'|] eqn:Ej; [|apply _]. destruct (gf_dryRun r) eqn:Ed; [apply _|].
  apply only_bind; [|intros [? ?]; apply _]. eapply only_one; [reflexivity|]. split; [done|].
  by exists ep, cmd, p'.
Qed.

Definition fetches (e : event) : Prop := ∃ rel, fetch_at rel e.

Lemma only_fetchOne p : Only fetches (fetchOne E None r p).
Proof. eapply only_weaken; [|apply only_fetch_at]. intros e He. by eexists. Qed.

(** What a webhook for a project may do: the look-up of the project, and
    the fetch of its repository. *)
Definition project_event (path : gostr) (e : event) : Prop :=
  (∃ pool, gf_pool r = Some pool ∧ e = EvSQL pool lookup_sql [path]) ∨
  (∃ hashed id rel, repoDiskPath hashed path id = Ok rel ∧ fetch_at rel e).

Lemma only_resolveProject path : Only (project_event path) (resolveProject E r path).
Proof.
  unfold resolveProject. destruct (gf_pool r) as [pool|] eqn:Ep; [|apply _].
  apply only_bind; [|intros ?; apply _]. eapply only_one; [reflexivity|]. left. by exists pool.
Qed.

Lemma FetchProject_adds path h x h' : FetchProject E None r path h = (x, h') →
  (Validate path ≠ None ∧ h' = h) ∨ adds (project_event path) h h'.
Proof.
  unfold FetchProject. destruct (Validate path) eqn:Ev; [intros [= _ <-]; by left|]. right. revert H.
  unfold mbind, ST_bind. destruct (resolveProject E r path h) as [[p|e] h1] eqn:Er;
    pose proof (only_adds _ _ _ _ _ (only_resolveProject path) Er) as H1; [|by intros [= _ <-]].
  destruct (resolveProject_row _ _ _ _ _ _ Ev Er) as (hashed & id & Hd).
  destruct (fetchOne E None r p h1) as [ok h2] eqn:Ef. intros [= _ <-]. etrans; [exact H1|].
  eapply adds_weaken; [|exact (only_adds _ _ _ _ _ (only_fetch_at p) Ef)].
  intros e He. right. by exists hashed, id, (RepoPath p).
Qed.

Lemma pool_step_adds limit s s' :
  pool_step E None r limit s s' → adds fetches (gp_hist s) (gp_hist s').
Proof.
  intros Hs. destruct Hs as [| | |i p s Hi]; [done..|]. unfold complete.
  destruct (fetchOne E None r p (gp_hist s)) as [ok h] eqn:Ef. cbn [gp_hist].
  apply (only_adds fetches _ _ _ _ (only_fetchOne p) Ef).
Qed.

Lemma pool_run_adds limit s s' : rtc (pool_step E None r limit) s s' → adds fetches (gp_hist s) (gp_hist s').
Proof.
  induction 1 as [|s1 s2 s3 H12 _ IH]; [reflexivity|]. transitivity (gp_hist s2); [by eapply pool_step_adds|exact IH].
Qed.

Lemma reconciles_adds pool h res h' : reconciles E None r pool h res h' → adds sweep_event h h'.
Proof.
  assert (∀ h e, observes [list_sql] e → adds sweep_event h (h ++ [e])) as Hone.
  { intros h0 e He. apply adds_one. by left. }
  assert (∀ x h1, listProjects E pool h = (x, h1) → adds sweep_event h h1) as Hl.
  { intros x h1 Hx. unfold listProjects, mbind, ST_bind, io_sql in Hx. injection Hx as _ <-. apply Hone. cbn. left. }
  intros Hr. destruct Hr as [err h1 El|h1 El|projects h1 s result h2 El _ Hs _ Hf].
  - etrans; [by eapply Hl|]. by apply Hone.
  - by eapply Hl.
  - etrans; [by eapply Hl|]. etrans.
    + eapply adds_weaken; [|exact (pool_run_adds _ _ _ Hs)]. by right.
    + revert Hf. unfold finish. destruct (0 <? gp_failed s)%Z; intros [= _ <-].
      * exact (transitivity (Hone _ (EvDuration _ _) I) (Hone _ (EvDrift _ _) I)).
      * exact (transitivity (Hone _ (EvDuration _ _) I) (Hone _ (EvLastSync _) I)).
Qed.
End effects.

(** ** The sweep ends *)

Section ends.
Context (E : Env) (runner : option LocalRunner) (r : gf_reconciler).

Definition blocked_count (s : pool) : nat := match gp_blocked s with Some _ => 1 | None => 0 end.

(** What is left to do: every project enters [g.Go], starts and completes. *)
Definition work (s : pool) : nat := 3 * length (gp_todo s) + 2 * blocked_count s + length (gp_running s).

Lemma pool_step_work limit s s' : pool_step E runner r limit s s' → work s' < work s.
Proof.
  intros [p todo run rep fail h Hc|p todo run rep fail h Hc|p todo run rep fail h Hl|i p t Hi];
    unfold work, blocked_count; cbn; rewrite ?length_app; cbn; try lia.
  unfold complete. destruct (fetchOne E runner r p (gp_hist t)) as [ok h]. cbn.
  rewrite length_delete by by eexists. pose proof (lookup_lt_Some _ _ _ Hi). lia.
Qed.

Lemma pool_steps_work limit n s s' : nsteps (pool_step E runner r limit) n s s' → n + work s' ≤ work s.
Proof. induction 1 as [s|n s s1 s' Hs _ IH]; [lia|]. apply pool_step_work in Hs. lia. Qed.

Lemma pool_done_or (s : pool) : pool_done s ∨ ¬ pool_done s.
Proof.
  destruct s as [[|? ?] [?|] [|? ?] ? ? ?]; unfold pool_done; cbn; (left; done) || (right; by intros (? & ? & ?)).
Qed.

(** No deadlock: an unfinished sweep can go on. *)
Lemma pool_progress limit s : 0 < limit → ¬ pool_done s → ∃ s', pool_step E runner r limit s s'.
Proof.
  intros Hl Hnd. destruct s as [todo blocked run rep fail h].
  destruct run as [|q run]; [|by eexists; apply (pool_complete E runner r limit 0 q)].
  destruct blocked as [p|]; [by eexists; apply pool_go|].
  destruct todo as [|p todo]; [by destruct Hnd|].
  destruct (env_ctx E h) eqn:Ec; [eexists; apply pool_break; congruence|by eexists; apply pool_next].
Qed.

Lemma pool_completes limit s : 0 < limit → ∃ s', rtc (pool_step E runner r limit) s s' ∧ pool_done s'.
Proof.
  intros Hl. remember (work s) as n eqn:Hn. revert s Hn.
  induction (lt_wf n) as [n _ IH]. intros s ->.
  destruct (pool_done_or s) as [?|Hnd]; [by exists s|].
  destruct (pool_progress limit s Hl Hnd) as [s1 Hs]. destruct (IH _ (pool_step_work _ _ _ Hs) s1 eq_refl) as (s2 & H2 & Hd).
  exists s2. split; [|done]. by eapply rtc_l.
Qed.

Lemma limit_pos (projects : list projectRow) : projects ≠ [] → 0 < limit_of r (length projects).
Proof. intros Hne. apply limit_of_bounds. destruct projects; [done|cbn; lia]. Qed.

Lemma reconciles_total pool h : ∃ result h', reconciles E runner r pool h result h'.
Proof.
  destruct (listProjects E pool h) as [[[|p ps]|e] h1] eqn:El.
  + eexists _, _. by apply rec_none.
  + destruct (pool_completes (limit_of r (length (p :: ps))) (pool_start (p :: ps) h1)) as (s & Hs & Hd); [by apply limit_pos|].
    destruct (finish r (p :: ps) s) as [result h2] eqn:Ef. exists result, h2.
    by eapply (rec_sweep E runner r pool h (p :: ps)).
  + eexists _, _. by apply rec_list_error.
Qed.

(** C30: a sweep always ends.  However the fetches interleave and whatever
    they and the context do, a sweep over [n] projects makes at most [3 n]
    steps, it is never stuck before it is finished, and so [Reconcile]
    returns a result in every environment. *)
Theorem sweep_ends :
  (∀ projects h n s, projects ≠ [] →
     nsteps (pool_step E runner r (limit_of r (length projects))) n (pool_start projects h) s →
     n ≤ 3 * length projects ∧
     (pool_done s ∨ ∃ s', pool_step E runner r (limit_of r (length projects)) s s')) ∧
  (∀ pool h, ∃ result h', reconciles E runner r pool h result h').
Proof.
  split; [|apply reconciles_total].
  intros projects h n s Hne Hn. split.
  - apply pool_steps_work in Hn. unfold work, blocked_count in Hn. cbn in Hn. lia.
  - destruct (pool_done_or s) as [?|Hnd]; [by left|]. right. by apply pool_progress, Hnd; apply limit_pos.
Qed.
End ends.

(** ** Examples *)

(** A database with one legacy and one malformed project; the context is
    done when [dead] says so. *)
Definition ex_env (dead : bool) : Env := {|
  env_exec _ _ _ _ _ := ([], None);
  env_get _ _ _ := Err (ErrExternal "no network");
  env_hops _ _ := [];
  env_disk _ _ := NFile;
  env_draw _ _ _ := 0;
  env_sql _ _ _ _ := Ok
    [[Some "7" : option gostr; Some "default" : option gostr; None; Some "f" : option gostr; Some "g/p" : option gostr];
     [Some "8" : option gostr; Some "default" : option gostr; None; Some "f" : option gostr; Some "../../etc" : option gostr]];
  env_ctx _ := if dead then Some ctx_Canceled else None;
  env_timer _ _ := true |}.

Definition ex_gf (root : gostr) : gf_reconciler :=
  New "git@eu" root "us" (Some ("primary" : gostr)) false Default.

Lemma fetches_stay_witness :
  (∀ pool h ps h1 p, listProjects (ex_env false) pool h = (Ok ps, h1) → p ∈ ps →
     proper_path (RepoPath p) ∧ stays (ex_env false) (ex_gf "/srv/git") p) ∧
  (∀ path h p h1, Validate path = None → resolveProject (ex_env false) (ex_gf "/srv/git") path h = (Ok p, h1) →
     proper_path (RepoPath p) ∧ stays (ex_env false) (ex_gf "/srv/git") p).
Proof. apply (fetches_stay (ex_env false) (ex_gf "/srv/git") "srv/git"); [reflexivity|]. vm_compute. discriminate. Defined.

(** The malformed row is skipped, the other one is fetched. *)
Example fetch_example :
  (listProjects (ex_env false) "primary" []).1 = Ok [mkRow 7 "g/p.git"] ∧
  fetchOne (ex_env false) None (ex_gf "/srv/git/") (mkRow 7 "g/p.git") [] =
    (true, [EvExec "git" ["-C"; "/srv/git/g/p.git"; "fetch"; "--prune"; "--no-tags";
        "ssh://git@eu/var/opt/gitlab/git-data/repositories/g/p.git"; "+refs/*:refs/*"; "+refs/tags/*:refs/tags/*"]
       ["GIT_SSH_COMMAND=ssh -o StrictHostKeyChecking=accept-new"] None]).
Proof. split; vm_compute; reflexivity. Qed.

(** A sweep over two projects: the second one fails. *)
Definition ex_sweep_env : Env := {|
  env_exec _ _ args _ _ :=
    ([], if bool_decide (args !! 1 = Some ("/srv/git/g/q.git" : gostr)) then Some (ErrExternal "exit status 128") else None);
  env_get := env_get (ex_env false);
  env_hops := env_hops (ex_env false);
  env_disk := env_disk (ex_env false);
  env_draw := env_draw (ex_env false);
  env_sql := env_sql (ex_env false);
  env_ctx _ := None;
  env_timer _ _ := true |}.

Definition ex_projects : list projectRow := [mkRow 7 "g/p.git"; mkRow 8 "g/q.git"].

(** Both run at once; the second completes first. *)
Definition ex_swept : pool :=
  let r := ex_gf "/srv/git" in
  complete ex_sweep_env None r 0 (mkRow 7 "g/p.git")
    (complete ex_sweep_env None r 1 (mkRow 8 "g/q.git") (mkPool [] None ex_projects 0 0 [])).

Lemma ex_sweep_runs :
  rtc (pool_step ex_sweep_env None (ex_gf "/srv/git") (limit_of (ex_gf "/srv/git") (length ex_projects)))
    (pool_start ex_projects []) ex_swept.
Proof.
  unfold ex_projects, pool_start. eapply rtc_l; [by apply pool_next|]. eapply rtc_l; [apply pool_go; vm_compute; lia|].
  eapply rtc_l; [by apply pool_next|]. eapply rtc_l; [apply pool_go; vm_compute; lia|].
  eapply rtc_l; [by apply (pool_complete _ _ _ _ 1 (mkRow 8 "g/q.git"))|]. apply rtc_once.
  apply (pool_complete _ _ _ _ 0 (mkRow 7 "g/p.git")). vm_compute. reflexivity.
Qed.

Lemma sweep_accounting_witness :
  pool_done ex_swept ∧ ∃ done, fetch_runs ex_sweep_env None (ex_gf "/srv/git") [] done (gp_hist ex_swept) ∧
    done.*1 ≡ₚ ex_projects ∧ OK (finish (ex_gf "/srv/git") ex_projects ex_swept).1 = false ∧
    fetch_tally true done = 1%Z ∧ fetch_tally false done = 1%Z.
Proof.
  assert (pool_done ex_swept) as Hd by (vm_compute; done). split; [exact Hd|].
  destruct (sweep_accounting ex_sweep_env None (ex_gf "/srv/git") ex_projects [] ex_swept ltac:(discriminate) ex_sweep_runs)
    as (_ & _ & done & Hf & _ & Hr & Hb & Hend).
  destruct (Hend Hd) as [_ Hlive]. destruct (Hlive (λ _, eq_refl)) as [Hp _]. exists done.
  split; [exact Hf|]. split; [exact Hp|]. split; [vm_compute; reflexivity|]. rewrite <- Hr, <- Hb. by vm_compute.
Defined.

(** A cancelled sweep fetches nothing and still reports success. *)
Example cancelled_sweep_reports_ok :
  ∃ h, reconciles (ex_env true) None (ex_gf "/srv/git") "primary" []
    (mkResult true 0 [FS "fetched "; FZ 1; FS " projects (parallel="; FZ 1; FS ")"] 0 0) h.
Proof.
  eexists. eapply (rec_sweep _ _ _ _ _ [mkRow 7 "g/p.git"]).
  - vm_compute. reflexivity.
  - discriminate.
  - apply rtc_once. apply (pool_break _ _ _ _ (mkRow 7 "g/p.git") [] [] 0 0). discriminate.
  - repeat split.
  - reflexivity.
Qed.

(** With no [repos_path], or with [/], every project is refused. *)
Example empty_root_refuses :
  is_Ok (containedJoin [] "g/p.git") = false ∧ is_Ok (containedJoin "/" "g/p.git") = false.
Proof. split; vm_compute; reflexivity. Qed.
