(* ===== verification/Registry.v ===== *)
(** * internal/reconciler/registry: comparing two container registries

    The Docker Registry v2 token exchange (auth.go) and the comparison
    (reconciler.go).  [ToLower] is [strings.ToLower], [url_Parse] is [net/url.Parse], [with_query] sets the
    service and scope of a parsed URL, the [json_*] decoders read the
    responses, and [range_set] is the order a [for range] visits a map in. *)
From Stdlib Require Import Ascii ZArith Lia.
From stdpp Require Import prelude strings gmap list.
From S2P Require Import Prelude World GoStrings Utf8 ConfigData Config Reconciler.
Open Scope go_scope.

(** ** The code: auth.go *)

(** The constant fields of an [authenticator]. *)
Record authenticator := mkAuth {
  au_static : gostr;
  au_allowedHosts : gset gostr;
  au_allowInsecure : bool;
}.

Definition newAuthenticator (ToLower : gostr → gostr)
    (staticToken : gostr) (allowedHosts : list gostr) (allowInsecure : bool) : authenticator :=
  mkAuth staticToken (list_to_set (ToLower <$> filter (λ h, h ≠ []) allowedHosts)) allowInsecure.

Definition errRealmNotAllowed : error := ErrSentinel "registry.errRealmNotAllowed".
Definition errAuthFailed : error := ErrSentinel "registry.errAuthFailed".

Record challenge := mkChallenge { Realm : gostr; Service : gostr; Scope : gostr }.

(** The loop of [splitParams] over the runes of the header. *)
Fixpoint split_runes (rs : list Z) (current : gostr) (inQuotes : bool) : list gostr :=
  match rs with
  | [] => if bool_decide (current = []) then [] else [current]
  | r :: rs =>
      if (r =? 34)%Z then split_runes rs (current ++ encode_rune r) (negb inQuotes)
      else if (r =? 44)%Z && negb inQuotes then current :: split_runes rs [] inQuotes
      else split_runes rs (current ++ encode_rune r) inQuotes
  end.

Definition splitParams (s : gostr) : list gostr := split_runes (runes s) [] false.

Definition set_param (c : challenge) (part : gostr) : challenge :=
  match CutByte part "="%char with
  | None => c
  | Some (key, value) =>
      let value := TrimByte (TrimSpace value) DQ in
      let key := TrimSpace key in
      if bool_decide (key = "realm") then mkChallenge value (Service c) (Scope c)
      else if bool_decide (key = "service") then mkChallenge (Realm c) value (Scope c)
      else if bool_decide (key = "scope") then mkChallenge (Realm c) (Service c) value
      else c
  end.

Definition parseChallenge (header : gostr) : option challenge :=
  if negb (HasPrefix header "Bearer ") then None
  else
    let c := foldl set_param (mkChallenge [] [] []) (splitParams (drop 7 header)) in
    if bool_decide (Realm c = []) then None else Some c.

(** The two token caches and the history. *)
Inductive side := Primary | Secondary.
Record rstate := mkRS { rs_primary : gmap gostr gostr; rs_secondary : gmap gostr gostr; rs_hist : history }.

#[export] Instance rstate_hist : HasHistory rstate := rs_hist.

Definition cached (sd : side) (s : rstate) : gmap gostr gostr :=
  match sd with Primary => rs_primary s | Secondary => rs_secondary s end.
Definition set_cached (sd : side) (m : gmap gostr gostr) (s : rstate) : rstate :=
  match sd with
  | Primary => mkRS m (rs_secondary s) (rs_hist s)
  | Secondary => mkRS (rs_primary s) m (rs_hist s)
  end.

Record token_body := mkTokenBody { tb_Token : gostr; tb_AccessToken : gostr; tb_ExpiresIn : Z }.

(** One side of the comparison: its cache, authenticator and URL. *)
Record endpoint := mkEnd { en_side : side; en_auth : authenticator; en_url : gostr }.

Section registry.
Context (E : Env) (ToLower : gostr → gostr) (url_Parse : gostr → res URL) (with_query : gostr → gostr → gostr → gostr).
Context (json_token : gostr → res token_body) (json_catalog json_tags : gostr → res (list gostr)).
Context (range_set : gset gostr → list gostr).

Definition log_event (e : event) : ST rstate unit :=
  modify (λ s, mkRS (rs_primary s) (rs_secondary s) (rs_hist s ++ [e])).

(** *** net/http's client

    A request follows the redirects it meets, as long as [check] (the
    client's [CheckRedirect]) allows; [via] counts the requests already made.
    The [Authorization] header goes along until a hop leaves the host of the
    first URL and its subdomains.  (net/http compares names in their ASCII
    form, which for an ASCII name is the name.) *)
Definition isDomainOrSubdomain (sub parent : gostr) : bool :=
  if bool_decide (sub = parent) then true
  else if ContainsAny sub ":%" then false
  else if negb (HasSuffix sub parent) then false
  else bool_decide (sub !! (length sub - length parent - 1) = Some "."%char).

Fixpoint follow (check : nat → URL → option error) (initial : URL) (hd : list (gostr * gostr))
    (strip : bool) (via : nat) (hops : list gostr) : ST rstate (option error) :=
  match hops with
  | [] => mret None
  | hop :: hops =>
      match url_Parse hop with
      | Err err => mret (Some err)
      | Ok r =>
          let strip := strip || negb (isDomainOrSubdomain (Hostname r) (Hostname initial)) in
          match check via r with
          | Some err => mret (Some (Errorf [FS "Get "; FQ hop; FS ": "; FW err]))
          | None => _ ← log_event (EvGet hop (if strip then [] else hd)); follow check initial hd strip (S via) hops
          end
      end
  end.

(** [http.NewRequestWithContext] and [client.Do]; the answer is that of the
    last request. *)
Definition client_Do (check : nat → URL → option error) (url : gostr) (hd : list (gostr * gostr))
    : ST rstate (res http_response) :=
  match url_Parse url with
  | Err err => mret (Err err)
  | Ok u =>
      hops ← gets (λ s, env_hops E (rs_hist s) url);
      resp ← (λ s, let '(r, h) := io_get E url hd (rs_hist s) in (r, mkRS (rs_primary s) (rs_secondary s) h));
      refused ← follow check u hd false 1 hops;
      mret (match refused with Some err => Err err | None => resp end)
  end.

(** The check of a client that has none of its own. *)
Definition defaultCheckRedirect (via : nat) (r : URL) : option error :=
  if 10 <=? via then Some (ErrExternal "stopped after 10 redirects") else None.

(** A GET, with an [Authorization] header when a token is given. *)
Definition doGet (url token : gostr) : ST rstate (res http_response) :=
  client_Do defaultCheckRedirect url
    (if bool_decide (token = []) then [] else [("Authorization" : gostr, "Bearer " ++ token)]).

Definition checkRealm (a : authenticator) (raw : gostr) : res URL :=
  match url_Parse raw with
  | Err err => Err (Errorf [FS "parse auth realm: "; FW err])
  | Ok u =>
      if bool_decide (Scheme u = "http") && negb (au_allowInsecure a) then
        Err (Errorf [FS "auth realm uses http but the registry is https"])
      else if negb (bool_decide (Scheme u = "https") || bool_decide (Scheme u = "http")) then
        Err (Errorf [FS "auth realm scheme "; FQ (Scheme u); FS " is not http or https"])
      else if bool_decide (URLHost u = []) then Err (Errorf [FS "auth realm has no host"])
      else if negb (bool_decide (ToLower (Hostname u) ∈ au_allowedHosts a)) then
        Err (Errorf [FW errRealmNotAllowed; FS " (host "; FQ (Hostname u); FS ")"])
      else Ok u
  end.

(** The client of a token request asks this before it follows a redirect. *)
Definition CheckRedirect (a : authenticator) (_ : nat) (r : URL) : option error :=
  if bool_decide (ToLower (Hostname r) ∈ au_allowedHosts a) then None
  else Some (Errorf [FW errRealmNotAllowed; FS " (redirect to "; FQ (Hostname r); FS ")"]).

Definition token (en : endpoint) (c : challenge) : ST rstate (res gostr) :=
  let a := en_auth en in
  if bool_decide (au_static a ≠ []) then mret (Ok (au_static a))
  else
    hit ← gets (λ s, cached (en_side en) s !! Scope c);
    match hit with
    | Some tok => mret (Ok tok)
    | None =>
        match checkRealm a (Realm c) with
        | Err err => mret (Err err)
        | Ok u =>
            resp ← client_Do (CheckRedirect a) (with_query (Realm c) (Service c) (Scope c)) [];
            match resp with
            | Err err => mret (Err (Errorf [FS "fetch registry token: "; FW err]))
            | Ok resp =>
                if negb (bool_decide (StatusCode resp = 200%Z)) then
                  mret (Err (Errorf [FS "auth realm at "; FS (Hostname u); FS ": status "; FZ (StatusCode resp)]))
                else
                  match json_token (Body resp) with
                  | Err err => mret (Err (Errorf [FS "decode token response: "; FW err]))
                  | Ok body =>
                      let tok := if bool_decide (tb_Token body = []) then tb_AccessToken body else tb_Token body in
                      if bool_decide (tok = []) then
                        mret (Err (Errorf [FS "auth realm "; FS (Realm c); FS " returned no token"]))
                      else
                        _ ← (if (120 <? tb_ExpiresIn body)%Z
                             then modify (λ s, set_cached (en_side en) (<[Scope c := tok]> (cached (en_side en) s)) s)
                             else mret tt);
                        mret (Ok tok)
                  end
            end
        end
    end.

Definition invalidate (sd : side) (scope : gostr) : ST rstate unit :=
  modify (λ s, set_cached sd (delete scope (cached sd s)) s).

(** ** The code: reconciler.go *)

Definition get (en : endpoint) (url : gostr) : ST rstate (res http_response) :=
  resp ←? doGet url [];
  if negb (bool_decide (StatusCode resp = 401%Z)) then mret (Ok resp)
  else
    match parseChallenge (Header resp "WWW-Authenticate") with
    | None => mret (Err (Errorf [FW errAuthFailed; FS ": registry returned 401 with no usable Bearer challenge"]))
    | Some chal =>
        tok ← token en chal;
        match tok with
        | Err err => mret (Err (Errorf [FW errAuthFailed; FS ": "; FV err]))
        | Ok tok =>
            resp ←? doGet url tok;
            if bool_decide (StatusCode resp = 401%Z) then
              _ ← invalidate (en_side en) (Scope chal);
              mret (Err (Errorf [FW errAuthFailed; FS ": registry rejected the token for scope "; FQ (Scope chal)]))
            else mret (Ok resp)
        end
    end.

Definition listRepositories (en : endpoint) : ST rstate (res (list gostr)) :=
  resp ←? get en (en_url en ++ "/_catalog?n=1000");
  if negb (bool_decide (StatusCode resp = 200%Z)) then
    mret (Err (Errorf [FS "catalog: status "; FZ (StatusCode resp); FS ": "; FS (take 1024 (Body resp))]))
  else mret (wrap_err (λ err, Errorf [FS "decode catalog: "; FW err]) (json_catalog (Body resp))).

Definition toSet (l : list gostr) : gset gostr := list_to_set l.

Definition listTags (en : endpoint) (repo : gostr) : ST rstate (res (gset gostr)) :=
  resp ←? get en (en_url en ++ "/" ++ repo ++ "/tags/list");
  if negb (bool_decide (StatusCode resp = 200%Z)) then
    mret (Err (Errorf [FS "tags for "; FS repo; FS ": status "; FZ (StatusCode resp)]))
  else mret (tags ← json_tags (Body resp); Ok (toSet tags)).

Definition setDiff (a b : gset gostr) : list gostr := filter (λ k, k ∉ b) (range_set a).

Definition equalSet (a b : gset gostr) : bool :=
  bool_decide (size a = size b) && forallb (λ k, bool_decide (k ∈ b)) (range_set a).

(** The deep check of one repository: does it drift? *)
Definition repo_drifts (p s : endpoint) (repo : gostr) : ST rstate bool :=
  pDigests ← listTags p repo;
  match pDigests with
  | Err _ => mret true
  | Ok pDigests =>
      sDigests ← listTags s repo;
      mret (match sDigests with
            | Err _ => true
            | Ok sDigests => negb (equalSet pDigests sDigests)
            end)
  end.

Fixpoint count_drift (p s : endpoint) (repos : list gostr) (n : Z) : ST rstate Z :=
  match repos with
  | [] => mret n
  | repo :: repos =>
      d ← repo_drifts p s repo;
      count_drift p s repos (if (d : bool) then (n + 1)%Z else n)
  end.

Definition Reconcile (name : gostr) (p s : endpoint) : ST rstate Result :=
  pRepos ← listRepositories p;
  match pRepos with
  | Err err =>
      _ ← log_event (EvDrift name "critical");
      mret (mkResult false 0 [FS "primary list repos: "; FV err] 0 1)
  | Ok pRepos =>
      sRepos ← listRepositories s;
      match sRepos with
      | Err err =>
          _ ← log_event (EvDrift name "critical");
          mret (mkResult false 0 [FS "secondary list repos: "; FV err] 0 1)
      | Ok sRepos =>
          let pSet := toSet pRepos in
          let sSet := toSet sRepos in
          let missing := setDiff pSet sSet in
          let extra := setDiff sSet pSet in
          if bool_decide (missing = []) && bool_decide (extra = []) then
            driftRepos ← count_drift p s (range_set pSet) 0;
            _ ← log_event (EvDuration name "ok");
            if (0 <? driftRepos)%Z then
              _ ← log_event (EvDrift name "warning");
              mret (mkResult false 0 [FZ driftRepos; FS "/"; FZ (Z.of_nat (size pSet)); FS " repos have manifest drift"]
                      0 driftRepos)
            else
              _ ← log_event (EvLastSync name);
              mret (mkResult true 0 [FS "registry in sync: "; FZ (Z.of_nat (size pSet)); FS " repos"] 0 0)
          else
            _ ← log_event (EvDuration name "error");
            _ ← log_event (EvDrift name "warning");
            mret (mkResult false 0 [FS "repo list drift: "; FZ (Z.of_nat (length missing)); FS " missing, ";
                                    FZ (Z.of_nat (length extra)); FS " extra on secondary"]
                    0 (Z.of_nat (length missing) + Z.of_nat (length extra)))
      end
  end.

(** *** Construction *)

Definition registryBaseURL (s : SiteConfig) : gostr :=
  match site_Registry s with
  | Some r => if bool_decide (reg_URL r = []) then [] else TrimSuffix (reg_URL r) "/" ++ "/v2"
  | None => []
  end.

Definition realm_host (raw : gostr) : list gostr :=
  if bool_decide (raw = []) then []
  else match url_Parse raw with
       | Ok u => if bool_decide (Hostname u = []) then [] else [Hostname u]
       | Err _ => []
       end.

Definition realmHosts (s : SiteConfig) : list gostr :=
  realm_host (site_ExternalURL s) ++
  match site_Registry s with
  | Some r => realm_host (reg_URL r) ++ realm_host (reg_AuthRealm r)
  | None => []
  end.

Definition insecureRegistry (s : SiteConfig) : bool :=
  match site_Registry s with
  | Some r =>
      if bool_decide (reg_URL r = []) then false
      else match url_Parse (reg_URL r) with Ok u => bool_decide (Scheme u = "http") | Err _ => false end
  | None => false
  end.

Definition registryToken (s : SiteConfig) : gostr :=
  match site_Registry s with Some r => reg_Token r | None => [] end.

(** [New]: nothing when a side has no registry URL. *)
Definition New (primary secondary : SiteConfig) : option (endpoint * endpoint) :=
  let primaryURL := registryBaseURL primary in
  let secondaryURL := registryBaseURL secondary in
  if bool_decide (primaryURL = []) || bool_decide (secondaryURL = []) then None
  else Some
    (mkEnd Primary (newAuthenticator ToLower (registryToken primary) (realmHosts primary) (insecureRegistry primary)) primaryURL,
     mkEnd Secondary (newAuthenticator ToLower (registryToken secondary) (realmHosts secondary) (insecureRegistry secondary)) secondaryURL).
End registry.

Definition Name (site : gostr) : gostr := QualifyName "registry" site.

(** ** Challenges *)

Section challenge.

Lemma encode_rune_ascii c : is_ascii c = true → encode_rune (byte_val c) = [c].
Proof.
  intros Hc. apply is_ascii_true in Hc. pose proof (byte_val_bound c) as Hb. unfold encode_rune.
  destruct (Z.leb_spec 0 (byte_val c)); [|lia]. destruct (Z.leb_spec (byte_val c) 127); [|lia].
  cbn [andb]. f_equal. unfold byte_of, byte_val. rewrite N2Z.id. apply ascii_N_embedding.
Qed.

Definition plain (v : gostr) : Prop := Forall (λ c, is_ascii c = true ∧ c ≠ DQ) v.

Lemma plain_true v : forallb (λ c, is_ascii c && bool_decide (c ≠ DQ)) v = true → plain v.
Proof. intros Hv%forallb_Forall. eapply Forall_impl; [exact Hv|]. intros c [? ?%bool_decide_eq_true_1]%andb_true_iff. done. Qed.

Lemma byte_val_ne c d : c ≠ d → (byte_val c =? byte_val d)%Z = false.
Proof. intros Hc. apply Z.eqb_neq. intros He. by apply byte_val_inj in He. Qed.

(** Inside quotes everything up to the next quote is kept. *)
Lemma split_quoted v rest cur : plain v →
  split_runes (byte_val <$> (v ++ DQ :: rest)) cur true =
  split_runes (byte_val <$> rest) (cur ++ v ++ [DQ]) false.
Proof.
  intros Hv. revert cur. induction Hv as [|c v [Ha Hq] Hv IH]; intros cur; [done|].
  cbn [app fmap list_fmap split_runes]. change 34%Z with (byte_val DQ).
  rewrite byte_val_ne, encode_rune_ascii by done. cbn [negb]. rewrite andb_false_r.
  rewrite (IH (cur ++ [c])). by rewrite <- app_assoc.
Qed.

(** Outside quotes, what is neither a quote nor a comma is kept. *)
Lemma split_plain k rest cur : plain k → ","%char ∉ k →
  split_runes (byte_val <$> (k ++ rest)) cur false = split_runes (byte_val <$> rest) (cur ++ k) false.
Proof.
  intros Hk. revert cur. induction Hk as [|c k [Ha Hq] Hk IH]; intros cur Hc; [by rewrite app_nil_r|].
  apply not_elem_of_cons in Hc as [Hc1 Hc].
  cbn [app fmap list_fmap split_runes]. change 34%Z with (byte_val DQ). change 44%Z with (byte_val ","%char).
  rewrite !byte_val_ne, encode_rune_ascii by done. cbn [negb andb].
  rewrite (IH (cur ++ [c])) by done. by rewrite <- app_assoc.
Qed.

(** A parameter [key=DQ value DQ]. *)
Definition param (k v : gostr) : gostr := k ++ "=" ++ [DQ] ++ v ++ [DQ].

Lemma split_param k v rest : plain k → ","%char ∉ k → plain v →
  split_runes (byte_val <$> (param k v ++ rest)) [] false =
  split_runes (byte_val <$> rest) (param k v) false.
Proof.
  intros Hk Hc Hv. unfold param. rewrite <- !app_assoc. rewrite (app_assoc k "=").
  rewrite split_plain.
  - cbn [app fmap list_fmap]. change (split_runes (byte_val DQ :: ?l) ?cur false) with
      (split_runes l (cur ++ [DQ]) true).
    rewrite (split_quoted v rest) by done. cbn [app]. by rewrite <- !app_assoc.
  - apply Forall_app. split; [done|]. constructor; [done|constructor].
  - rewrite not_elem_of_app. split; [done|]. by apply (bool_decide_eq_true_1 _).
Qed.

Lemma splitParams_three k1 v1 k2 v2 k3 v3 :
  Forall plain [k1; v1; k2; v2; k3; v3] → Forall (λ k, ","%char ∉ k) [k1; k2; k3] →
  splitParams (param k1 v1 ++ "," ++ param k2 v2 ++ "," ++ param k3 v3) =
  [param k1 v1; param k2 v2; param k3 v3].
Proof.
  rewrite !Forall_cons. intros (?&?&?&?&?&?&_) (?&?&?&_). unfold splitParams.
  assert (∀ k v, plain k → plain v → Forall (λ c, is_ascii c = true) (param k v)) as Hp.
  { intros k v Hk Hv. unfold param. rewrite !Forall_app. split_and!; try (by repeat constructor).
    - eapply Forall_impl; [exact Hk|]. by intros c [].
    - eapply Forall_impl; [exact Hv|]. by intros c []. }
  rewrite runes_ascii by (rewrite !Forall_app; split_and!; auto; by repeat constructor).
  rewrite split_param by done. cbn [app fmap list_fmap].
  change (split_runes (byte_val ","%char :: ?l) ?cur false) with (cur :: split_runes l [] false). f_equal.
  rewrite split_param by done. cbn [app fmap list_fmap].
  change (split_runes (byte_val ","%char :: ?l) ?cur false) with (cur :: split_runes l [] false). f_equal.
  rewrite <- (app_nil_r (param k3 v3)) at 1. rewrite split_param by done. cbn [fmap list_fmap split_runes].
  rewrite bool_decide_eq_false_2; [done|]. unfold param. by destruct k3.
Qed.


Lemma trim_fuel_stop n c s : head s ≠ Some c → trim_left_fuel n [[c]] s = s.
Proof.
  intros Hs. destruct n as [|n]; [done|]. cbn [trim_left_fuel List.find].
  destruct (HasPrefix s [c]) eqn:E; [|done]. by apply HasPrefix_cons in E.
Qed.

Lemma trim_left_one c s : head s ≠ Some c → trim_left [[c]] (c :: s) = s.
Proof.
  intros Hs. unfold trim_left. cbn [length trim_left_fuel List.find].
  rewrite (proj2 (HasPrefix_cons c (c :: s))) by done. cbn [drop length].
  by apply trim_fuel_stop.
Qed.

Lemma TrimByte_quoted c v : c ∉ v → TrimByte (c :: v ++ [c]) c = v.
Proof.
  intros Hc. unfold TrimByte, trim_right. destruct v as [|d v].
  - cbn [app]. enough (trim_left [[c]] [c; c] = []) as -> by done. unfold trim_left.
    cbn [length trim_left_fuel List.find app].
    rewrite (proj2 (HasPrefix_cons c [c; c])) by done. cbn [drop length].
    rewrite (proj2 (HasPrefix_cons c [c])) by done. done.
  - assert (c ≠ d) as Hd by (intros ->; apply Hc; left).
    rewrite trim_left_one by (cbn; congruence).
    rewrite reverse_app. change (reverse <$> [[c]]) with [[c]].
    change (reverse [c] ++ reverse (d :: v)) with (c :: reverse (d :: v)).
    rewrite trim_left_one; [apply reverse_involutive|].
    intros Hh. apply Hc. rewrite <- elem_of_reverse. by apply head_Some_elem_of.
Qed.

Lemma TrimSpace_quoted v : TrimSpace (DQ :: v ++ [DQ]) = DQ :: v ++ [DQ].
Proof.
  assert (∀ e s, e ∈ space_encodings → HasPrefix (DQ :: s) e = false ∧ HasPrefix (DQ :: s) (reverse e) = false) as H.
  { intros e s He.
    assert (head e ≠ Some DQ ∧ head (reverse e) ≠ Some DQ ∧ e ≠ [] ∧ reverse e ≠ []) as (H1 & H2 & H3 & H4).
    { revert e He. apply Forall_forall. apply (bool_decide_eq_true_1 _). reflexivity. }
    split; apply HasPrefix_false; intros [t Ht].
    - destruct e; [done|]. injection Ht as <- _. by apply H1.
    - destruct (reverse e); [done|]. injection Ht as <- _. by apply H2. }
  unfold TrimSpace. rewrite trim_left_id by (intros e He; by apply H).
  apply trim_right_id. intros e He. change (DQ :: v ++ [DQ]) with ((DQ :: v) ++ [DQ]).
  rewrite reverse_app. by apply (H e (reverse (DQ :: v))).
Qed.

Lemma set_param_param c k v : "="%char ∉ k → DQ ∉ v →
  set_param c (param k v) =
  (let key := TrimSpace k in
   if bool_decide (key = "realm") then mkChallenge v (Service c) (Scope c)
   else if bool_decide (key = "service") then mkChallenge (Realm c) v (Scope c)
   else if bool_decide (key = "scope") then mkChallenge (Realm c) (Service c) v
   else c).
Proof.
  intros Hk Hv. unfold set_param, param. cbn [app].
  rewrite CutByte_app by done. rewrite TrimSpace_quoted, TrimByte_quoted by done. done.
Qed.
End challenge.

(** ParseChallenge reads the header of the Docker token flow back: for
    any realm (not empty), service and scope of ASCII bytes other than the
    double quote, commas and equals signs included, with or without a space
    after the separating commas, it returns exactly the three values. *)
Lemma parseChallenge_roundtrip realm service scope sp :
  plain realm → plain service → plain scope → realm ≠ [] → sp = [] ∨ sp = " " →
  parseChallenge ("Bearer " ++ param "realm" realm ++ "," ++ param (sp ++ "service") service
                    ++ "," ++ param (sp ++ "scope") scope) =
  Some (mkChallenge realm service scope).
Proof.
  intros H1 H2 H3 Hne Hsp. unfold parseChallenge. rewrite HasPrefix_app. cbn [negb].
  change 7 with (length ("Bearer " : gostr)). rewrite drop_app_length.
  rewrite splitParams_three.
  - assert (∀ v, plain v → DQ ∉ v) as Hq.
    { intros v Hv Hin. unfold plain in Hv. rewrite Forall_forall in Hv. by destruct (Hv _ Hin). }
    cbn [foldl]. rewrite !set_param_param by first [by apply Hq | destruct Hsp as [-> | ->]; closed_decide].
    cbv zeta. change (TrimSpace "realm") with ("realm" : gostr).
    assert (TrimSpace (sp ++ "service") = "service" ∧ TrimSpace (sp ++ "scope") = "scope") as [-> ->]
      by (destruct Hsp as [-> | ->]; done).
    cbn. by rewrite bool_decide_eq_false_2.
  - repeat constructor; try done; apply plain_true; destruct Hsp as [-> | ->]; reflexivity.
  - repeat constructor; destruct Hsp as [-> | ->]; closed_decide.
Qed.

Lemma parseChallenge_roundtrip_witness :
  parseChallenge ("Bearer " ++ param "realm" "https://gitlab.example.com/jwt/auth?a=b" ++ ","
    ++ param (" " ++ "service") "container_registry" ++ "," ++ param (" " ++ "scope") "repository:a/b:pull,push") =
  Some (mkChallenge "https://gitlab.example.com/jwt/auth?a=b" "container_registry" "repository:a/b:pull,push").
Proof. apply parseChallenge_roundtrip; first [by apply plain_true | done | by right]. Defined.

(** ** Requests *)

Section requests.
Context (E : Env) (ToLower : gostr → gostr) (url_Parse : gostr → res URL) (with_query : gostr → gostr → gostr → gostr).
Context (json_token : gostr → res token_body) (json_catalog json_tags : gostr → res (list gostr)).
Context (range_set : gset gostr → list gostr).

Abbreviation get' := (get E ToLower url_Parse with_query json_token).
Abbreviation token' := (token E ToLower url_Parse with_query json_token).

(** The realms the operator's configuration of a site allows. *)
Definition configured_urls (s : SiteConfig) : list gostr :=
  site_ExternalURL s :: from_option (λ r, [reg_URL r; reg_AuthRealm r]) [] (site_Registry s).

Definition allowed_host (site : SiteConfig) (u : URL) : Prop :=
  ∃ raw v, raw ∈ configured_urls site ∧ url_Parse raw = Ok v ∧ Hostname v ≠ [] ∧
    ToLower (Hostname u) = ToLower (Hostname v).

Definition allowed_realm (site : SiteConfig) (realm : gostr) : Prop :=
  ∃ u, url_Parse realm = Ok u ∧ allowed_host site u ∧
    (Scheme u = "https" ∨ Scheme u = "http" ∧ ∃ r w, site_Registry site = Some r ∧
       url_Parse (reg_URL r) = Ok w ∧ Scheme w = "http").

(** The redirects the client of a token request follows. *)
Definition allowed_hops (site : SiteConfig) (hops : list gostr) : Prop :=
  Forall (λ hop, ∃ u, url_Parse hop = Ok u ∧ allowed_host site u) hops.

Definition plain_gets (urls : list gostr) : list event := (λ u, EvGet u []) <$> urls.

(** What one request may send: first the request itself without credentials;
    then, when challenged, at most one token request to an allowed realm,
    with the redirects it meets on allowed hosts, without credentials; then
    the request again with the token, which goes along with redirects to the
    same host or a subdomain of it alone. *)
Definition bearer (t : gostr) : list (gostr * gostr) := [("Authorization" : gostr, "Bearer " ++ t)].

Definition same_site (url hop : gostr) : Prop :=
  ∃ u r, url_Parse url = Ok u ∧ url_Parse hop = Ok r ∧
    (Hostname r = Hostname u ∨ ∃ sub, Hostname r = sub ++ "." ++ Hostname u).

Definition plain_request (url : gostr) (evs : list event) : Prop :=
  ∃ hops, length hops ≤ 9 ∧ evs = plain_gets (url :: hops).

Definition token_request (site : SiteConfig) (evs : list event) : Prop :=
  ∃ realm service scope hops, allowed_realm site realm ∧ allowed_hops site hops ∧
    evs = plain_gets (with_query realm service scope :: hops).

Definition authorised_request (url : gostr) (evs : list event) : Prop :=
  ∃ t hops, t ≠ [] ∧ length hops ≤ 9 ∧ evs = EvGet url (bearer t) :: hops ∧
    Forall (λ e, ∃ hop, e = EvGet hop [] ∨ e = EvGet hop (bearer t) ∧ same_site url hop) hops.

Definition exchange (site : SiteConfig) (url : gostr) (evs : list event) : Prop :=
  ∃ e1 e2 e3, evs = e1 ++ e2 ++ e3 ∧ (e1 = [] ∨ plain_request url e1) ∧
    (e2 = [] ∨ token_request site e2) ∧ (e3 = [] ∨ authorised_request url e3).

(** What [New] makes of a site's configuration. *)
Definition auth_of (site : SiteConfig) (a : authenticator) : Prop :=
  a = newAuthenticator ToLower (registryToken site) (realmHosts url_Parse site) (insecureRegistry url_Parse site).

Lemma elem_of_realm_host raw h : h ∈ realm_host url_Parse raw →
  ∃ v, url_Parse raw = Ok v ∧ Hostname v = h ∧ Hostname v ≠ [].
Proof.
  unfold realm_host. case_bool_decide; [by intros ?%elem_of_nil|].
  destruct (url_Parse raw) as [v|]; [|by intros ?%elem_of_nil].
  case_bool_decide; [by intros ?%elem_of_nil|]. intros ->%list_elem_of_singleton. eauto.
Qed.

Lemma elem_of_realmHosts site h : h ∈ realmHosts url_Parse site →
  ∃ raw v, raw ∈ configured_urls site ∧ url_Parse raw = Ok v ∧ Hostname v = h ∧ Hostname v ≠ [].
Proof.
  unfold realmHosts, configured_urls. rewrite elem_of_app. intros [Hh|Hh].
  - apply elem_of_realm_host in Hh as (v & ? & ? & ?). exists (site_ExternalURL site), v. split; [left|done].
  - destruct (site_Registry site) as [r|]; [|by apply elem_of_nil in Hh].
    apply elem_of_app in Hh as [Hh|Hh]; apply elem_of_realm_host in Hh as (v & ? & ? & ?).
    + exists (reg_URL r), v. split; [right; left|done].
    + exists (reg_AuthRealm r), v. split; [right; right; left|done].
Qed.

Lemma allowedHosts_allowed site a u : auth_of site a →
  ToLower (Hostname u) ∈ au_allowedHosts a → allowed_host site u.
Proof.
  intros -> Hin. cbn [newAuthenticator au_allowedHosts] in Hin.
  apply elem_of_list_to_set, list_elem_of_fmap in Hin as (h & Hl & Hh).
  apply list_elem_of_filter in Hh as [Hne Hh]. apply elem_of_realmHosts in Hh as (rw & v & Hin & Hv & <- & _).
  by exists rw, v.
Qed.

Lemma checkRealm_allowed site a raw u : auth_of site a →
  checkRealm ToLower url_Parse a raw = Ok u → allowed_realm site raw.
Proof.
  intros Ha Hc. unfold checkRealm in Hc. destruct (url_Parse raw) as [u'|] eqn:Hu; [|done].
  destruct (bool_decide (Scheme u' = "http") && _) eqn:H1; [done|].
  destruct (negb (_ || _)) eqn:H2; [done|].
  case_bool_decide; [done|]. destruct (negb (bool_decide (_ ∈ _))) eqn:H3; [done|].
  injection Hc as ->. apply negb_false_iff, bool_decide_eq_true_1 in H3.
  exists u. split_and!; [done|by eapply allowedHosts_allowed|].
  apply negb_false_iff, orb_true_iff in H2 as [H2|H2]; apply bool_decide_eq_true_1 in H2; [by left|right].
  split; [done|]. rewrite bool_decide_eq_true_2 in H1 by done. rewrite Ha in H1.
  apply negb_false_iff in H1. cbn in H1.
  unfold insecureRegistry in H1. destruct (site_Registry site) as [r|]; [|done].
  case_bool_decide; [done|]. destruct (url_Parse (reg_URL r)) as [w|] eqn:Hw; [|done].
  exists r, w. by apply bool_decide_eq_true_1 in H1.
Qed.

(** The invariant of the token caches. *)
Definition tokens_ok (s : rstate) : Prop :=
  map_Forall (λ _ t, t ≠ ([] : gostr)) (rs_primary s) ∧ map_Forall (λ _ t, t ≠ ([] : gostr)) (rs_secondary s).

Lemma cached_ne sd s scope t : tokens_ok s → cached sd s !! scope = Some t → t ≠ [].
Proof. intros [H1 H2]. destruct sd; cbn; [apply H1|apply H2]. Qed.

Lemma set_cached_ok sd m s : tokens_ok s → map_Forall (λ _ t, t ≠ ([] : gostr)) m → tokens_ok (set_cached sd m s).
Proof. intros [H1 H2] Hm. by destruct sd. Qed.

Lemma cached_ok sd s : tokens_ok s → map_Forall (λ _ t, t ≠ ([] : gostr)) (cached sd s).
Proof. intros [H1 H2]. by destruct sd. Qed.

Lemma set_cached_hist sd m s : rs_hist (set_cached sd m s) = rs_hist s.
Proof. by destruct sd. Qed.

(** *** The client *)

Lemma isDomainOrSubdomain_true sub parent : isDomainOrSubdomain sub parent = true →
  sub = parent ∨ ∃ pre, sub = pre ++ "." ++ parent.
Proof.
  unfold isDomainOrSubdomain. case_bool_decide as He; [by left|]. destruct (ContainsAny _ _); [done|].
  destruct (HasSuffix sub parent) eqn:Hs; [|done]. intros Hd%bool_decide_eq_true_1. right.
  apply HasSuffix_true in Hs as [pre ->]. rewrite length_app in Hd.
  destruct pre as [|c pre _] using rev_ind; [done|]. exists pre.
  rewrite length_app in Hd. cbn [length] in Hd.
  replace (length pre + 1 + length parent - length parent - 1) with (length pre) in Hd by lia.
  rewrite <- app_assoc in Hd. cbn [app] in Hd. rewrite list_lookup_middle in Hd by done. injection Hd as ->.
  by rewrite <- app_assoc.
Qed.

Definition sent_gets (l : list (gostr * list (gostr * gostr))) : list event := (λ p, EvGet p.1 p.2) <$> l.

(** A hop that was taken: [check] allowed it, and the header went along only
    to the first host or a subdomain of it. *)
Definition hop_taken (check : nat → URL → option error) (initial : URL) (hd : list (gostr * gostr)) (via : nat)
    (p : gostr * list (gostr * gostr)) : Prop :=
  ∃ u, url_Parse p.1 = Ok u ∧ check via u = None ∧
    (p.2 = [] ∨ p.2 = hd ∧ isDomainOrSubdomain (Hostname u) (Hostname initial) = true).

Lemma follow_events check initial hd strip via hops s r s' :
  follow url_Parse check initial hd strip via hops s = (r, s') →
  (∀ sd, cached sd s' = cached sd s) ∧ ∃ taken, rs_hist s' = rs_hist s ++ sent_gets taken ∧
    ∀ i p, taken !! i = Some p → hop_taken check initial hd (via + i) p.
Proof.
  revert strip via s. induction hops as [|hop hops IH]; intros strip via s; cbn [follow].
  { intros [= <- <-]. split; [done|]. exists []. by rewrite app_nil_r. }
  assert (∀ o, (o, s) = (r, s') → (∀ sd, cached sd s' = cached sd s) ∧
    ∃ taken, rs_hist s' = rs_hist s ++ sent_gets taken ∧
    ∀ i p, taken !! i = Some p → hop_taken check initial hd (via + i) p) as Hstop.
  { intros o [= <- <-]. split; [done|]. exists []. by rewrite app_nil_r. }
  destruct (url_Parse hop) as [u|e] eqn:Hu; [|by apply Hstop].
  destruct (check via u) as [e|] eqn:Hc; [by apply Hstop|].
  set (strip' := strip || _). intros (Hca & taken & Hh & Ht)%IH. split.
  { intros sd. rewrite Hca. by destruct sd. }
  exists ((hop, if strip' then [] else hd) :: taken). split; [by rewrite Hh; cbn [rs_hist]; rewrite <- app_assoc|].
  intros [|i] p.
  - intros [= <-]. exists u. rewrite Nat.add_0_r. split; [done|]. split; [done|]. unfold strip'.
    destruct strip; [by left|]. cbn [orb snd]. destruct (isDomainOrSubdomain _ _) eqn:Ei; [by right|by left].
  - cbn [lookup list_lookup]. intros Hp%Ht. by rewrite <- Nat.add_succ_comm.
Qed.

Lemma client_Do_events check url hd s r s' : client_Do E url_Parse check url hd s = (r, s') →
  (∀ sd, cached sd s' = cached sd s) ∧
  (rs_hist s' = rs_hist s ∨ ∃ u taken, url_Parse url = Ok u ∧ rs_hist s' = rs_hist s ++ EvGet url hd :: sent_gets taken ∧
     ∀ i p, taken !! i = Some p → hop_taken check u hd (1 + i) p).
Proof.
  unfold client_Do. destruct (url_Parse url) as [u|e] eqn:Hu; [|intros [= <- <-]; split; [done|by left]].
  unfold mbind, ST_bind, gets, io_get. set (s1 := mkRS _ _ _).
  destruct (follow _ _ _ _ _ _ _ s1) as [r2 s2] eqn:Ef. intros [= _ <-].
  apply follow_events in Ef as (Hca & taken & Hh & Ht). split.
  { intros sd. rewrite Hca. by destruct sd. }
  right. exists u, taken. split; [done|]. split; [|done]. rewrite Hh. cbn [s1 rs_hist]. by rewrite <- app_assoc.
Qed.

Lemma tokens_ok_cached s s' : (∀ sd, cached sd s' = cached sd s) → tokens_ok s → tokens_ok s'.
Proof. intros Hc [H1 H2]. pose proof (Hc Primary) as Hp. pose proof (Hc Secondary) as Hs. cbn in Hp, Hs. by rewrite <- Hp, <- Hs in *. Qed.

Lemma sent_gets_plain taken check u via : (∀ i p, taken !! i = Some p → hop_taken check u [] (via + i) p) →
  sent_gets taken = plain_gets taken.*1.
Proof.
  intros Ht. unfold sent_gets, plain_gets. rewrite <- list_fmap_compose. apply list_fmap_ext. intros i [hop hd] Hi.
  destruct (Ht _ _ Hi) as (? & _ & _ & Hd). cbn in *. destruct Hd as [->|[-> _]]; done.
Qed.

(** At most nine redirects. *)
Lemma default_taken taken u hd : (∀ i p, taken !! i = Some p → hop_taken defaultCheckRedirect u hd (1 + i) p) →
  length taken ≤ 9.
Proof.
  intros Ht. destruct (decide (length taken ≤ 9)) as [|Hn]; [done|].
  destruct (lookup_lt_is_Some_2 taken 9) as [p Hp]; [lia|]. destruct (Ht _ _ Hp) as (? & _ & Hc & _). done.
Qed.

Lemma doGet_plain url s r s' : doGet E url_Parse url [] s = (r, s') →
  (tokens_ok s → tokens_ok s') ∧ ∃ e1, rs_hist s' = rs_hist s ++ e1 ∧ (e1 = [] ∨ plain_request url e1).
Proof.
  unfold doGet. rewrite bool_decide_eq_true_2 by done. intros (Hc & Hh)%client_Do_events.
  split; [by apply tokens_ok_cached|]. destruct Hh as [->|(u & taken & _ & -> & Ht)].
  { exists []. rewrite app_nil_r. split; [done|by left]. }
  eexists. split; [done|]. right. exists taken.*1. rewrite length_fmap. split; [by eapply default_taken|].
  by rewrite (sent_gets_plain _ _ _ _ Ht).
Qed.

Lemma doGet_authorised url t s r s' : t ≠ [] → doGet E url_Parse url t s = (r, s') →
  (tokens_ok s → tokens_ok s') ∧ ∃ e3, rs_hist s' = rs_hist s ++ e3 ∧ (e3 = [] ∨ authorised_request url e3).
Proof.
  intros Hne. unfold doGet. rewrite bool_decide_eq_false_2 by done. intros (Hc & Hh)%client_Do_events.
  split; [by apply tokens_ok_cached|]. destruct Hh as [->|(u & taken & Hu & -> & Ht)].
  { exists []. rewrite app_nil_r. split; [done|by left]. }
  eexists. split; [done|]. right. exists t, (sent_gets taken). split; [done|]. unfold sent_gets at 1. rewrite length_fmap.
  split; [by eapply default_taken|]. split; [done|]. apply Forall_fmap, Forall_forall. intros [hop hd] Hin.
  apply list_elem_of_lookup in Hin as [i Hi]. destruct (Ht _ _ Hi) as (v & Hv & _ & Hd). exists hop. cbn in *.
  destruct Hd as [->|[-> Hd]]; [by left|]. right. split; [done|]. exists u, v. split; [done|]. split; [done|].
  by apply isDomainOrSubdomain_true.
Qed.

(** A token request that [checkRealm] allowed. *)
Lemma token_Do_events site a c s r s' : auth_of site a → allowed_realm site (Realm c) →
  client_Do E url_Parse (CheckRedirect ToLower a) (with_query (Realm c) (Service c) (Scope c)) [] s = (r, s') →
  (tokens_ok s → tokens_ok s') ∧ ∃ e2, rs_hist s' = rs_hist s ++ e2 ∧ (e2 = [] ∨ token_request site e2).
Proof.
  intros Ha Hr (Hc & Hh)%client_Do_events. split; [by apply tokens_ok_cached|].
  destruct Hh as [->|(u & taken & _ & -> & Ht)].
  { exists []. rewrite app_nil_r. split; [done|by left]. }
  eexists. split; [done|]. right. exists (Realm c), (Service c), (Scope c), taken.*1. split; [done|].
  split; [|by rewrite (sent_gets_plain _ _ _ _ Ht)]. apply Forall_fmap, Forall_forall. intros [hop hd] Hin.
  apply list_elem_of_lookup in Hin as [i Hi]. destruct (Ht _ _ Hi) as (v & Hv & Hck & _). exists v. split; [done|].
  unfold CheckRedirect in Hck. case_bool_decide; [|done]. by eapply allowedHosts_allowed.
Qed.

(** A token comes without a request, or from a request to an allowed realm. *)
Lemma token_events site en c s r s' : auth_of site (en_auth en) → tokens_ok s → token' en c s = (r, s') →
  tokens_ok s' ∧ (∀ t, r = Ok t → t ≠ []) ∧
  ∃ e2, rs_hist s' = rs_hist s ++ e2 ∧ (e2 = [] ∨ token_request site e2).
Proof.
  intros Ha Hok. assert (∃ e2, rs_hist s = rs_hist s ++ e2 ∧ (e2 = [] ∨ token_request site e2)) as Hno.
  { exists []. rewrite app_nil_r. split; [done|by left]. }
  unfold token. case_bool_decide as Hs. { intros [= <- <-]. split_and!; [done|by intros t [= <-]|done]. }
  unfold mbind, ST_bind, gets. destruct (cached (en_side en) s !! Scope c) as [t|] eqn:Ec.
  { intros [= <- <-]. split_and!; [done| |done]. intros t' [= <-]. by eapply cached_ne. }
  destruct (checkRealm _ _ _ _) as [u|e] eqn:Er; [|by intros [= <- <-]].
  apply (checkRealm_allowed site) in Er; [|done]. destruct (client_Do _ _ _ _ _ s) as [r1 s1] eqn:Ed.
  apply (token_Do_events site) in Ed as (Hok1 & He2); [|done..]. specialize (Hok1 Hok).
  assert (∀ r0 s0, tokens_ok s0 → rs_hist s0 = rs_hist s1 → (∀ t, r0 = Ok t → t ≠ []) → (r0, s0) = (r, s') →
    tokens_ok s' ∧ (∀ t, r = Ok t → t ≠ []) ∧ ∃ e2, rs_hist s' = rs_hist s ++ e2 ∧ (e2 = [] ∨ token_request site e2)) as Hfin.
  { intros r0 s0 Hs0 Hh0 Hr0 [= <- <-]. rewrite Hh0. by split_and!. }
  destruct r1 as [resp|e]; [|by apply Hfin].
  destruct (negb _); [by apply Hfin|].
  destruct (json_token (Body resp)) as [body|e]; [|by apply Hfin].
  cbv zeta. case_bool_decide as Ht; [by apply Hfin|].
  set (tok := if bool_decide (tb_Token body = []) then tb_AccessToken body else tb_Token body) in *.
  destruct (120 <? tb_ExpiresIn body)%Z; unfold modify, mret, ST_ret; apply Hfin; try done.
  - apply set_cached_ok; [done|]. apply map_Forall_insert_2; [done|]. by apply cached_ok.
  - apply set_cached_hist.
  - by intros t [= <-].
  - by intros t [= <-].
Qed.

Lemma exchange_get en site url s r s' : tokens_ok s → auth_of site (en_auth en) →
  get' en url s = (r, s') →
  tokens_ok s' ∧ ∃ evs, rs_hist s' = rs_hist s ++ evs ∧ exchange site url evs.
Proof.
  intros Hok Ha. unfold get, try_bind.
  destruct (doGet _ _ url [] s) as [r1 s1] eqn:E1. apply doGet_plain in E1 as (Hok1 & e1 & Hh1 & He1).
  specialize (Hok1 Hok).
  assert (∀ r0, (r0, s1) = (r, s') → tokens_ok s' ∧ ∃ evs, rs_hist s' = rs_hist s ++ evs ∧ exchange site url evs) as Hplain.
  { intros r0 [= <- <-]. split; [done|]. exists e1. split; [done|]. exists e1, [], []. rewrite !app_nil_r. by split_and!; [| |left|left]. }
  destruct r1 as [resp|e]; [|by apply Hplain].
  destruct (negb _); [by apply Hplain|].
  destruct (parseChallenge _) as [c|]; [|by apply Hplain].
  unfold mbind, ST_bind. destruct (token' en c s1) as [rt s2] eqn:Et.
  apply (token_events site) in Et as (Hok2 & Hne & e2 & Hh2 & He2); [|done..].
  destruct rt as [t|e].
  2: { intros [= <- <-]. split; [done|]. exists (e1 ++ e2). rewrite Hh2, Hh1, <- app_assoc. split; [done|].
       exists e1, e2, []. rewrite app_nil_r. by split_and!; [| | |left]. }
  specialize (Hne t eq_refl). destruct (doGet _ _ url t s2) as [r3 s3] eqn:E3.
  apply doGet_authorised in E3 as (Hok3 & e3 & Hh3 & He3); [|done]. specialize (Hok3 Hok2).
  assert (∀ s0 r0, tokens_ok s0 → rs_hist s0 = rs_hist s3 → (r0, s0) = (r, s') →
    tokens_ok s' ∧ ∃ evs, rs_hist s' = rs_hist s ++ evs ∧ exchange site url evs) as Hfin.
  { intros s0 r0 Hs0 Hh0 [= <- <-]. split; [done|]. exists (e1 ++ e2 ++ e3). rewrite Hh0, Hh3, Hh2, Hh1, <- !app_assoc.
    split; [done|]. by exists e1, e2, e3. }
  destruct r3 as [resp3|e]; [|by apply Hfin].
  case_bool_decide; [|by apply Hfin].
  unfold invalidate, modify, mret, ST_ret. apply Hfin; [|apply set_cached_hist].
  apply set_cached_ok; [done|]. apply map_Forall_delete. by apply cached_ok.
Qed.

(** C32: however the registry answers, a request of either endpoint built by
    [New] sends, in this order: the request without credentials, with at
    most nine redirects; at most one token request, also without credentials,
    and only to a realm whose scheme is https (or http for a registry that is
    itself http) and whose host is one of the hosts in the site's own
    configuration, with the redirects it meets as long as they stay on these
    hosts; at most one retry of the same URL with a token, with at most nine
    redirects, of which only those to the registry's host or a subdomain of
    it carry the token.  The caches never hold an
    empty token. *)
Theorem requests_stay_configured primary secondary p s site en url st r st' :
  New ToLower url_Parse primary secondary = Some (p, s) →
  (en, site) ∈ [(p, primary); (s, secondary)] → tokens_ok st →
  get' en url st = (r, st') →
  tokens_ok st' ∧ ∃ evs, rs_hist st' = rs_hist st ++ evs ∧ exchange site url evs.
Proof.
  unfold New. destruct (_ || _); [done|]. intros [= <- <-] Hin Hok. apply exchange_get; [done|].
  apply elem_of_cons in Hin as [Heq|Hin].
  - by injection Heq as -> ->.
  - apply list_elem_of_singleton in Hin. by injection Hin as -> ->.
Qed.
End requests.

(** Whatever happens, a comparison sends GETs and sets metrics; only its last
    steps set metrics. *)
Section reads.
Context (E : Env) (ToLower : gostr → gostr) (url_Parse : gostr → res URL) (with_query : gostr → gostr → gostr → gostr).
Context (json_token : gostr → res token_body) (json_catalog json_tags : gostr → res (list gostr)).
Context (range_set : gset gostr → list gostr) (P : event → Prop) {HP : AllowsGet P}.

#[export] Instance only_follow check u hd strip via hops : Only P (follow url_Parse check u hd strip via hops).
Proof using HP.
  revert strip via. induction hops as [|hop hops IH]; intros strip via; cbn [follow]; [apply _|].
  destruct (url_Parse hop); [|apply _]. destruct (check _ _); [apply _|].
  apply only_bind; [|done]. eapply only_one; [reflexivity|apply allows_get].
Qed.

#[export] Instance only_client_Do check url hd : Only P (client_Do E url_Parse check url hd).
Proof using HP.
  unfold client_Do. destruct (url_Parse url); [|apply _]. apply only_bind; [apply _|intros hops].
  apply only_bind; [|intros resp; apply only_bind; [apply _|intros ?; apply _]].
  eapply only_one; [reflexivity|apply allows_get].
Qed.

#[export] Instance only_doGet url t : Only P (doGet E url_Parse url t).
Proof using HP. apply _. Qed.

#[export] Instance only_set_cached (sd : side) (f : rstate → gmap gostr gostr) :
  Only P (modify (λ s : rstate, set_cached sd (f s) s)).
Proof. apply only_modify. intros s. apply set_cached_hist. Qed.

#[export] Instance only_token en c : Only P (token E ToLower url_Parse with_query json_token en c).
Proof using HP. unfold token. solve_only. Qed.

#[export] Instance only_get en url : Only P (get E ToLower url_Parse with_query json_token en url).
Proof using HP. unfold get, invalidate. solve_only. Qed.

#[export] Instance only_repo_drifts p s repo :
  Only P (repo_drifts E ToLower url_Parse with_query json_token json_tags range_set p s repo).
Proof using HP. unfold repo_drifts, listTags. solve_only. Qed.

#[export] Instance only_count_drift p s repos n :
  Only P (count_drift E ToLower url_Parse with_query json_token json_tags range_set p s repos n).
Proof using HP. revert n. induction repos; intros n; cbn [count_drift]; solve_only. Qed.

#[export] Instance only_listRepositories en :
  Only P (listRepositories E ToLower url_Parse with_query json_token json_catalog en).
Proof using HP. unfold listRepositories. solve_only. Qed.
End reads.

#[export] Instance only_Reconcile E ToLower url_Parse with_query json_token json_catalog json_tags range_set name p s :
  Only (observes []) (Reconcile E ToLower url_Parse with_query json_token json_catalog json_tags range_set name p s).
Proof. unfold Reconcile, log_event. solve_only. Qed.

(** ** The comparison *)

Section comparison.
Context (E : Env) (ToLower : gostr → gostr) (url_Parse : gostr → res URL) (with_query : gostr → gostr → gostr → gostr).
Context (json_token : gostr → res token_body) (json_catalog json_tags : gostr → res (list gostr)).
Context (range_set : gset gostr → list gostr) (range_perm : ∀ X, range_set X ≡ₚ elements X).

Abbreviation listRepositories' := (listRepositories E ToLower url_Parse with_query json_token json_catalog).
Abbreviation listTags' := (listTags E ToLower url_Parse with_query json_token json_tags).
Abbreviation repo_drifts' := (repo_drifts E ToLower url_Parse with_query json_token json_tags range_set).
Abbreviation count_drift' := (count_drift E ToLower url_Parse with_query json_token json_tags range_set).
Abbreviation Reconcile' := (Reconcile E ToLower url_Parse with_query json_token json_catalog json_tags range_set).

Lemma elem_of_range X k : k ∈ range_set X ↔ k ∈ X.
Proof. by rewrite range_perm, elem_of_elements. Qed.

Lemma equalSet_spec a b : equalSet range_set a b = true ↔ a = b.
Proof.
  unfold equalSet. rewrite andb_true_iff, bool_decide_eq_true, forallb_Forall, Forall_forall.
  split; [intros [Hs Hin]|intros ->; split; [done|]].
  - apply leibniz_equiv. assert (a ⊆ b) as Hsub.
    { intros k Hk%elem_of_range%Hin. by apply (bool_decide_eq_true_1 (k ∈ b)). }
    apply set_equiv_subseteq. split; [done|].
    destruct (decide (a = b)) as [->|Hne]; [done|].
    exfalso. assert (a ⊂ b) as Hss%subset_size.
    { split; [done|]. intros Hb. apply Hne, leibniz_equiv. by apply set_equiv_subseteq. }
    lia.
  - intros k Hk%elem_of_range. by apply (bool_decide_eq_true_2 (k ∈ b)).
Qed.

Lemma elem_of_setDiff a b k : k ∈ setDiff range_set a b ↔ k ∈ a ∖ b.
Proof. unfold setDiff. rewrite list_elem_of_filter, elem_of_range, elem_of_difference. tauto. Qed.

Lemma setDiff_length a b : length (setDiff range_set a b) = size (a ∖ b).
Proof.
  assert (setDiff range_set a b ≡ₚ elements (a ∖ b)) as ->; [|done].
  apply NoDup_Permutation.
  - unfold setDiff. apply NoDup_filter. rewrite range_perm. apply NoDup_elements.
  - apply NoDup_elements.
  - intros k. by rewrite elem_of_setDiff, elem_of_elements.
Qed.

Lemma size_difference_0 (a b : gset gostr) : size (a ∖ b) = 0 → a ⊆ b.
Proof.
  intros Hs%size_empty_inv k Hk. destruct (decide (k ∈ b)); [done|].
  destruct (Hs k) as [Hd _]. exfalso. apply (not_elem_of_empty (C:=gset gostr) k), Hd. by apply elem_of_difference.
Qed.

Lemma setDiff_nil a b : setDiff range_set a b = [] ↔ a ⊆ b.
Proof.
  split.
  - intros Hd k Hk. destruct (decide (k ∈ b)); [done|].
    assert (k ∈ setDiff range_set a b) as Hin by (by apply elem_of_setDiff, elem_of_difference).
    rewrite Hd in Hin. by apply elem_of_nil in Hin.
  - intros Hs. apply elem_of_nil_inv. intros k [Hka Hkb]%elem_of_setDiff%elem_of_difference. by apply Hkb, Hs.
Qed.

Definition agrees (p s : endpoint) (repo : gostr) (st st' : rstate) : Prop :=
  ∃ tags st1, listTags' p repo st = (Ok tags, st1) ∧ listTags' s repo st1 = (Ok tags, st').

Lemma repo_drifts_spec p s repo st b st' : repo_drifts' p s repo st = (b, st') →
  b = false ∧ agrees p s repo st st' ∨ b = true ∧ ∀ st2, ¬ agrees p s repo st st2.
Proof.
  unfold repo_drifts, mbind, ST_bind, agrees.
  destruct (listTags' p repo st) as [[X|e] st1] eqn:E1; [|intros [= <- <-]; right; split; [done|]; by intros ? (?&?&?&?)].
  destruct (listTags' s repo st1) as [[Y|e] st2] eqn:E2; intros [= <- <-].
  - destruct (equalSet range_set X Y) eqn:Ee; [left|right]; (split; [done|]).
    + apply equalSet_spec in Ee as ->. eauto.
    + intros st3 (tags & st4 & [= -> ->] & H2). rewrite E2 in H2. injection H2 as -> ->.
      by rewrite (proj2 (equalSet_spec _ _) eq_refl) in Ee.
  - right. split; [done|]. intros st3 (tags & st4 & [= -> ->] & H2). by rewrite E2 in H2.
Qed.

Lemma agrees_fun p s repo st st1 st2 : agrees p s repo st st1 → agrees p s repo st st2 → st1 = st2.
Proof. intros (?&?&H1&H2) (?&?&H3&H4). rewrite H1 in H3. injection H3 as <- <-. congruence. Qed.

(** The tags of every repository were read from both sides and are equal. *)
Fixpoint all_agree (p s : endpoint) (repos : list gostr) (st : rstate) : Prop :=
  match repos with
  | [] => True
  | repo :: repos => ∃ st', agrees p s repo st st' ∧ all_agree p s repos st'
  end.

Lemma count_drift_spec p s repos n st k st' : count_drift' p s repos n st = (k, st') →
  (n ≤ k)%Z ∧ (k = n ↔ all_agree p s repos st).
Proof.
  revert n st. induction repos as [|repo repos IH]; intros n st; cbn [count_drift all_agree].
  - intros [= <- <-]. split; [lia|done].
  - unfold mbind, ST_bind. destruct (repo_drifts' p s repo st) as [b st1] eqn:E1.
    intros [Hle Hk]%IH. apply repo_drifts_spec in E1 as [[-> Ha]|[-> Ha]].
    + split; [lia|]. rewrite Hk. split; [by eauto|]. intros (st2 & Ha2 & H).
      by rewrite (agrees_fun _ _ _ _ _ _ Ha Ha2).
    + split; [lia|]. split; [lia|]. intros (st2 & Ha2 & _). by apply Ha in Ha2.
Qed.

(** Both lists were obtained, in the order [Reconcile] asks for them. *)
Definition listed (p s : endpoint) (st : rstate) (pl sl : list gostr) (st2 : rstate) : Prop :=
  ∃ st1, listRepositories' p st = (Ok pl, st1) ∧ listRepositories' s st1 = (Ok sl, st2).

(** C33: the registry reconciler reports OK exactly when it obtained both
    repository lists, they are the same set, and for every repository both
    sides answered with the same set of tags; the last-sync time is updated
    exactly then; Remaining is zero exactly when OK, and when the lists
    differ it is the size of their symmetric difference.  The order maps are
    iterated in does not matter. *)
Theorem Reconcile_in_sync name p s st r st' :
  Reconcile' name p s st = (r, st') →
  (OK r = true ↔ ∃ pl sl st2, listed p s st pl sl st2 ∧ toSet pl = toSet sl ∧
     all_agree p s (range_set (toSet pl)) st2) ∧
  (last (rs_hist st') = Some (EvLastSync name) ↔ OK r = true) ∧
  (Remaining r = 0%Z ↔ OK r = true) ∧
  (∀ pl sl st2, listed p s st pl sl st2 → toSet pl ≠ toSet sl →
     Remaining r = Z.of_nat (size (toSet pl ∖ toSet sl) + size (toSet sl ∖ toSet pl))).
Proof.
  unfold Reconcile, mbind, ST_bind.
  destruct (listRepositories' p st) as [[pl|e] st1] eqn:E1.
  2: { intros [= <- <-]. cbn [OK Remaining rs_hist]. rewrite last_snoc.
       split_and!; [split; [done|intros (? & ? & ? & (? & H & _) & _); by rewrite E1 in H]|done|done|].
       intros ? ? ? (? & H & _). by rewrite E1 in H. }
  destruct (listRepositories' s st1) as [[sl|e] st2] eqn:E2.
  2: { intros [= <- <-]. cbn [OK Remaining rs_hist]. rewrite last_snoc.
       assert (∀ pl' sl st3, ¬ listed p s st pl' sl st3) as Hno.
       { intros ? ? ? (? & H1 & H2). rewrite E1 in H1. injection H1 as <- <-. by rewrite E2 in H2. }
       split_and!; [split; [done|intros (? & ? & ? & H & _); by apply Hno in H]|done|done|].
       intros ? ? ? H. by apply Hno in H. }
  assert (∀ pl' sl' st3, listed p s st pl' sl' st3 → pl' = pl ∧ sl' = sl ∧ st3 = st2) as Hl.
  { intros ? ? ? (? & H1 & H2). rewrite E1 in H1. injection H1 as <- <-. rewrite E2 in H2. by injection H2. }
  cbv zeta. destruct (bool_decide (setDiff range_set (toSet pl) (toSet sl) = []) && _) eqn:Ed.
  - apply andb_true_iff in Ed as [Hd1%bool_decide_eq_true_1%setDiff_nil Hd2%bool_decide_eq_true_1%setDiff_nil].
    assert (toSet pl = toSet sl) as Heq by (apply leibniz_equiv, set_equiv_subseteq; done).
    destruct (count_drift' p s _ 0 st2) as [k st3] eqn:E3. apply count_drift_spec in E3 as [Hk Ha].
    destruct (Z.ltb_spec 0 k); intros [= <- <-]; cbn [OK Remaining rs_hist]; rewrite last_snoc.
    + split_and!; [|done|split; [lia|done]|by intros ? ? ? [-> [-> _]]%Hl].
      split; [done|]. intros (? & ? & ? & (-> & -> & ->)%Hl & _ & Hag). apply Ha in Hag. lia.
    + split_and!; [|done|done|by intros ? ? ? [-> [-> _]]%Hl].
      split; [intros _|done]. exists pl, sl, st2. split_and!; [by exists st1|done|]. apply Ha. lia.
  - assert (toSet pl ≠ toSet sl) as Hne.
    { intros Heq. rewrite Heq in Ed. rewrite (proj2 (setDiff_nil _ _)) in Ed by done. done. }
    assert (0 < size (toSet pl ∖ toSet sl) + size (toSet sl ∖ toSet pl)) as Hpos.
    { destruct (size (toSet pl ∖ toSet sl)) eqn:S1; [|lia]. destruct (size (toSet sl ∖ toSet pl)) eqn:S2; [|lia].
      destruct Hne. apply leibniz_equiv, set_equiv_subseteq. split; by apply size_difference_0. }
    intros [= <- <-]; cbn [OK Remaining rs_hist]. rewrite last_snoc, !setDiff_length. split_and!.
    + split; [done|]. by intros (? & ? & ? & (-> & -> & _)%Hl & Heq & _).
    + done.
    + split; [lia|done].
    + intros ? ? ? [-> [-> _]]%Hl _. lia.
Qed.
End comparison.

(** ** A run

    A registry that challenges every unauthenticated request. *)
Definition ex_parse_url (u : gostr) : res URL :=
  let host n := (span (λ c, negb (bool_decide (c = "/"%char))) (drop n u)).1 in
  Ok (if HasPrefix u "http://" then mkURL "http" (host 7) (host 7) else mkURL "https" (host 8) (host 8)).
Definition ex_query (realm service scope : gostr) : gostr := realm ++ "?service=" ++ service.
Definition ex_realm : gostr := "https://gitlab.eu/jwt/auth".
Definition ex_registry_env : Env := {|
  env_exec _ _ _ _ _ := ([], None);
  env_get _ url hd :=
    if HasPrefix url ex_realm then Ok (Build_http_response 200 (λ _, []) "tok")
    else if bool_decide (hd = []) then
      Ok (Build_http_response 401 (λ _, "Bearer " ++ param "realm" ex_realm ++ "," ++ param "service" "reg") [])
    else Ok (Build_http_response 200 (λ _, []) "g/p");
  env_hops _ _ := [];
  env_disk _ _ := NFile;
  env_draw _ _ _ := 0;
  env_sql _ _ _ _ := Ok [];
  env_ctx _ := None;
  env_timer _ _ := true |}.
Definition ex_registry_site : SiteConfig :=
  Build_SiteConfig "eu" "https://gitlab.eu" ex_postgres (Build_GitStorage "fetch" [] true)
    (Build_ObjectStoreConfig "s3" None []) (Some (Build_RegistryConfig "api" "https://reg.eu/" [] [] [] None)) [].
Definition ex_token_json (b : gostr) : res token_body := Ok (mkTokenBody b [] 300).
Definition ex_list_json (b : gostr) : res (list gostr) := Ok [b].
Definition ex_rs_start : rstate := mkRS ∅ ∅ [].
Definition ex_end (sd : side) : endpoint :=
  mkEnd sd (newAuthenticator ToLowerASCII [] (realmHosts ex_parse_url ex_registry_site) false) "https://reg.eu/v2".

(** The catalog is fetched with a token of the site's own realm; the second
    request to the same registry uses the cached one. *)
Example registry_example :
  let get' := get ex_registry_env ToLowerASCII ex_parse_url ex_query ex_token_json (ex_end Primary) in
  let '(r1, s1) := get' "https://reg.eu/v2/_catalog" ex_rs_start in
  let '(r2, s2) := get' "https://reg.eu/v2/g/p/tags/list" s1 in
  rs_hist s2 = [EvGet "https://reg.eu/v2/_catalog" []; EvGet "https://gitlab.eu/jwt/auth?service=reg" [];
    EvGet "https://reg.eu/v2/_catalog" (bearer "tok");
    EvGet "https://reg.eu/v2/g/p/tags/list" []; EvGet "https://reg.eu/v2/g/p/tags/list" (bearer "tok")] ∧
  is_Ok r1 = true ∧ is_Ok r2 = true.
Proof. vm_compute. split_and!; reflexivity. Qed.

(** The token service redirects.  Only the host of a redirect is checked: a
    site that accepts https realms only is taken to http by a redirect. *)
Definition ex_redirecting (hops : list gostr) : Env := {|
  env_exec := env_exec ex_registry_env;
  env_get := env_get ex_registry_env;
  env_hops _ url := if HasPrefix url ex_realm then hops else [];
  env_disk := env_disk ex_registry_env;
  env_draw := env_draw ex_registry_env;
  env_sql := env_sql ex_registry_env;
  env_ctx := env_ctx ex_registry_env;
  env_timer := env_timer ex_registry_env |}.

Definition ex_redirected (hops : list gostr) : res http_response * rstate :=
  get (ex_redirecting hops) ToLowerASCII ex_parse_url ex_query ex_token_json (ex_end Primary)
    "https://reg.eu/v2/_catalog" ex_rs_start.

Example redirect_leaves_host :
  let '(r, s) := ex_redirected ["https://gitlab.eu/next"; "https://evil.example/jwt"; "https://gitlab.eu/last"] in
  rs_hist s = plain_gets ["https://reg.eu/v2/_catalog"; "https://gitlab.eu/jwt/auth?service=reg"; "https://gitlab.eu/next"] ∧
  is_Ok r = false.
Proof. vm_compute. by split. Qed.

Example redirect_downgrades :
  let '(r, s) := ex_redirected ["http://gitlab.eu/jwt"] in
  is_Ok (checkRealm ToLowerASCII ex_parse_url (en_auth (ex_end Primary)) "http://gitlab.eu/jwt") = false ∧
  EvGet "http://gitlab.eu/jwt" [] ∈ rs_hist s ∧ is_Ok r = true ∧ last (rs_hist s) = Some (EvGet "https://reg.eu/v2/_catalog" (bearer "tok")).
Proof. vm_compute. split_and!; try reflexivity. do 2 right. left. Qed.

(** The registry redirects too: its token goes to a subdomain, and to no
    host after it has left the site; the tenth redirect is refused. *)
Example token_stays_on_site :
  let E hops := {| env_exec := env_exec ex_registry_env; env_get := env_get ex_registry_env; env_hops _ _ := hops;
    env_disk := env_disk ex_registry_env; env_draw := env_draw ex_registry_env; env_sql := env_sql ex_registry_env;
    env_ctx := env_ctx ex_registry_env; env_timer := env_timer ex_registry_env |} in
  let ask hops := doGet (E hops) ex_parse_url "https://reg.eu/v2" "tok" ex_rs_start in
  rs_hist (ask ["https://blobs.reg.eu/a"; "https://notreg.eu/b"; "https://reg.eu/c"]).2 =
    [EvGet "https://reg.eu/v2" (bearer "tok"); EvGet "https://blobs.reg.eu/a" (bearer "tok");
     EvGet "https://notreg.eu/b" []; EvGet "https://reg.eu/c" []] ∧
  is_Ok (ask (replicate 9 "https://reg.eu/a")).1 = true ∧ is_Ok (ask (replicate 10 "https://reg.eu/a")).1 = false.
Proof. vm_compute. split_and!; reflexivity. Qed.

Lemma requests_stay_configured_witness :
  let '(r, st) := get (ex_redirecting ["https://gitlab.eu/next"]) ToLowerASCII ex_parse_url ex_query ex_token_json (ex_end Secondary)
    "https://reg.eu/v2/_catalog?n=1000" ex_rs_start in
  tokens_ok st ∧ ∃ evs, rs_hist st = [] ++ evs ∧
    exchange ToLowerASCII ex_parse_url ex_query ex_registry_site "https://reg.eu/v2/_catalog?n=1000" evs.
Proof.
  destruct (get _ _ _ _ _ _ _ _) as [r st] eqn:Eg.
  apply (requests_stay_configured (ex_redirecting ["https://gitlab.eu/next"]) ToLowerASCII ex_parse_url ex_query ex_token_json
    ex_registry_site ex_registry_site (ex_end Primary) (ex_end Secondary) ex_registry_site (ex_end Secondary)
    "https://reg.eu/v2/_catalog?n=1000" ex_rs_start r st).
  - reflexivity.
  - right. left.
  - split; apply map_Forall_empty.
  - exact Eg.
Defined.

Lemma Reconcile_in_sync_witness :
  let '(r, st) := Reconcile ex_registry_env ToLowerASCII ex_parse_url ex_query ex_token_json ex_list_json
    ex_list_json elements "registry" (ex_end Primary) (ex_end Secondary) ex_rs_start in
  OK r = true ∧ last (rs_hist st) = Some (EvLastSync "registry").
Proof.
  destruct (Reconcile _ _ _ _ _ _ _ _ _ _ _ _) as [r st] eqn:Er.
  destruct (Reconcile_in_sync ex_registry_env ToLowerASCII ex_parse_url ex_query ex_token_json ex_list_json
    ex_list_json elements (λ X, Permutation_refl _) _ _ _ _ _ _ Er) as (_ & Hlast & _).
  assert (OK r = true) as Hok; [|by split; [|apply Hlast]].
  vm_compute in Er. injection Er as <- <-. reflexivity.
Defined.
