(* ===== verification/GoFloat.v ===== *)
(** * float64 conversions *)
From Stdlib Require Import ZArith Lia SpecFloat.
From stdpp Require Import prelude.
From S2P Require Import Prelude.

(** [float64(n)]. *)
Definition float_of_int (n : Z) : spec_float := binary_normalize 53 1024 n 0 false.

(** [int64(f)]: truncation, with the smallest integer for what does not fit
    (what amd64 computes; the language leaves it open). *)
Definition int_of_float (f : spec_float) : Z :=
  let z := match f with
           | S754_zero _ => 0%Z
           | S754_finite s m e =>
               let a := if (0 <=? e)%Z then (Z.pos m * 2 ^ e)%Z else (Z.pos m / 2 ^ (- e))%Z in
               if s then (- a)%Z else a
           | _ => int64_min
           end in
  if (int64_min <=? z)%Z && (z <=? int64_max)%Z then z else int64_min.

Lemma int_of_float_range f : in_int64 (int_of_float f).
Proof.
  unfold int_of_float. cbv zeta. generalize (match f with
    | S754_zero _ => 0%Z
    | S754_finite s m e =>
        if s then (- (if (0 <=? e)%Z then Z.pos m * 2 ^ e else Z.pos m / 2 ^ (- e)))%Z
        else (if (0 <=? e)%Z then Z.pos m * 2 ^ e else Z.pos m / 2 ^ (- e))%Z
    | _ => int64_min
    end).
  intros z. unfold in_int64, int64_min, int64_max.
  destruct (Z.leb_spec (-9223372036854775808) z); cbn [andb]; [|lia].
  destruct (Z.leb_spec z 9223372036854775807); lia.
Qed.

Definition float_mul (a b : spec_float) : spec_float := SFmul 53 1024 a b.

(** ** Small integers are exact *)

Lemma digits2_pos_bounds p : (2 ^ (Z.pos (digits2_pos p) - 1) ≤ Z.pos p < 2 ^ Z.pos (digits2_pos p))%Z.
Proof.
  induction p as [p IH|p IH|]; cbn [digits2_pos]; [| |cbn; lia];
    replace (Z.pos (Pos.succ (digits2_pos p)) - 1)%Z with (Z.pos (digits2_pos p) - 1 + 1)%Z by lia;
    replace (Z.pos (Pos.succ (digits2_pos p))) with (Z.succ (Z.pos (digits2_pos p))) by lia;
    rewrite Z.pow_add_r, Z.pow_succ_r, Z.pow_1_r by lia;
    set (u := (2 ^ (Z.pos (digits2_pos p) - 1))%Z) in *; set (v := (2 ^ Z.pos (digits2_pos p))%Z) in *; lia.
Qed.

Lemma digits2_pos_unique p d : (0 < d)%Z → (2 ^ (d - 1) ≤ Z.pos p < 2 ^ d)%Z → Z.pos (digits2_pos p) = d.
Proof.
  intros Hd [H1 H2]. destruct (digits2_pos_bounds p) as [H3 H4].
  destruct (Z.lt_trichotomy (Z.pos (digits2_pos p)) d) as [Hlt|[Heq|Hgt]]; [|done|].
  - assert (2 ^ Z.pos (digits2_pos p) ≤ 2 ^ (d - 1))%Z by (apply Z.pow_le_mono_r; lia). lia.
  - assert (2 ^ d ≤ 2 ^ (Z.pos (digits2_pos p) - 1))%Z by (apply Z.pow_le_mono_r; lia). lia.
Qed.

Lemma iter_xO p k : Z.pos (Pos.iter xO p k) = (Z.pos p * 2 ^ Z.pos k)%Z.
Proof.
  induction k as [|k IH] using Pos.peano_ind; [cbn; lia|].
  rewrite Pos.iter_succ, Pos2Z.inj_succ, Z.pow_succ_r by lia.
  change (Z.pos (Pos.iter xO p k)~0) with (2 * Z.pos (Pos.iter xO p k))%Z. rewrite IH. lia.
Qed.

(** A mantissa of 53 bits is already rounded. *)
Lemma round_53 m e : Z.pos (digits2_pos m) = 53%Z → (-1074 ≤ e ≤ 971)%Z →
  binary_round_aux 53 1024 false (Z.pos m) e loc_Exact = S754_finite false m e.
Proof.
  intros Hm He. unfold binary_round_aux.
  assert (shr_fexp 53 1024 (Z.pos m) e loc_Exact = (Build_shr_record (Z.pos m) false false, e)) as Hs.
  { unfold shr_fexp, Zdigits2, fexp, emin. rewrite Hm.
    replace (Z.max (53 + e - 53) (3 - 1024 - 53) - e)%Z with 0%Z by lia. done. }
  rewrite Hs. cbn [shr_m loc_of_shr_record round_nearest_even]. rewrite Hs. cbn [shr_m].
  by destruct (Z.leb_spec e (1024 - 53)); [|lia].
Qed.

Lemma float_of_pos p : (Z.pos p < 2 ^ 53)%Z →
  ∃ m e, float_of_int (Z.pos p) = S754_finite false m e ∧ (-53 ≤ e ≤ 0)%Z ∧ Z.pos m = (Z.pos p * 2 ^ (- e))%Z.
Proof.
  intros Hp. destruct (digits2_pos_bounds p) as [H1 H2]. unfold float_of_int, binary_normalize, binary_round.
  set (d := Z.pos (digits2_pos p)) in *. assert (1 ≤ d)%Z as Hd1 by (unfold d; lia).
  assert (d ≤ 53)%Z as Hd2.
  { destruct (Z.le_gt_cases d 53) as [?|Hgt]; [done|]. assert (2 ^ 53 ≤ 2 ^ (d - 1))%Z by (apply Z.pow_le_mono_r; lia). lia. }
  assert (fexp 53 1024 (d + 0) = d - 53)%Z as -> by (unfold fexp, emin; lia).
  assert (∃ m, shl_align p 0 (d - 53) = (m, (d - 53)%Z) ∧ Z.pos m = (Z.pos p * 2 ^ (53 - d))%Z) as (m & -> & Hm).
  { unfold shl_align. replace (d - 53 - 0)%Z with (d - 53)%Z by lia.
    destruct (d - 53)%Z as [|k|k] eqn:Ek; [| lia |].
    - exists p. split; [done|]. replace (53 - d)%Z with 0%Z by lia. lia.
    - exists (Pos.iter xO p k). split; [done|]. rewrite iter_xO. by replace (53 - d)%Z with (Z.pos k) by lia. }
  exists m, (d - 53)%Z. split.
  - apply round_53; [|lia]. apply digits2_pos_unique; [lia|]. rewrite Hm.
    assert (0 < 2 ^ (53 - d))%Z by (apply Z.pow_pos_nonneg; lia).
    replace (53 - 1)%Z with ((d - 1) + (53 - d))%Z by lia. rewrite Z.pow_add_r by lia.
    replace (2 ^ 53)%Z with (2 ^ d * 2 ^ (53 - d))%Z by (rewrite <- Z.pow_add_r by lia; f_equal; lia). nia.
  - split; [lia|]. by replace (- (d - 53))%Z with (53 - d)%Z by lia.
Qed.

(** An integer below 2^53 is represented exactly. *)
Lemma int_of_float_of_int z : (0 ≤ z < 2 ^ 53)%Z → int_of_float (float_of_int z) = z.
Proof.
  intros [H0 H1]. destruct z as [|p|p]; [done| |lia].
  destruct (float_of_pos p H1) as (m & e & -> & He & Hm). unfold int_of_float.
  assert ((if (0 <=? e)%Z then (Z.pos m * 2 ^ e)%Z else (Z.pos m / 2 ^ (- e))%Z) = Z.pos p) as ->.
  { destruct (Z.leb_spec 0 e).
    - replace e with 0%Z in * by lia. lia.
    - rewrite Hm, Z.div_mul; [done|]. apply Z.pow_nonzero; lia. }
  unfold int64_min, int64_max. destruct (Z.leb_spec (-9223372036854775808) (Z.pos p)); [|lia].
  destruct (Z.leb_spec (Z.pos p) 9223372036854775807); [done|lia].
Qed.

Lemma float_of_int_positive z : (0 ≤ z < 2 ^ 53)%Z → SFltb (S754_zero false) (float_of_int z) = (0 <? z)%Z.
Proof.
  intros [H0 H1]. destruct z as [|p|p]; [done| |lia]. by destruct (float_of_pos p H1) as (m & e & -> & _).
Qed.
