(* ===== verification/Verdict.v ===== *)
(** * What an audit concludes

    The reconcilers that only observe (consistency, apivalidator) compare
    one quantity after another; their counters are specified by the list of
    the verdicts. *)
From Stdlib Require Import ZArith Lia.
From stdpp Require Import prelude list.
From S2P Require Import Prelude.

Inductive verdict := Skipped | Failed | Agrees | Drifts.

#[export] Instance verdict_eq_dec : EqDecision verdict.
Proof. solve_decision. Defined.

Definition count_verdicts (v : verdict) (l : list verdict) : Z := Z.of_nat (length (filter (λ w, w = v) l)).

Lemma count_verdicts_cons w v vs :
  count_verdicts w (v :: vs) = (count_verdicts w [v] + count_verdicts w vs)%Z.
Proof. unfold count_verdicts. change (v :: vs) with ([v] ++ vs). rewrite filter_app, length_app. lia. Qed.

Lemma count_verdicts_pos v vs : (0 ≤ count_verdicts v vs)%Z.
Proof. unfold count_verdicts. lia. Qed.

Lemma count_verdicts_0 v vs : count_verdicts v vs = 0%Z ↔ v ∉ vs.
Proof.
  unfold count_verdicts. split.
  - intros Hz Hin. assert (v ∈ filter (λ w, w = v) vs) as Hf by (by apply list_elem_of_filter).
    destruct (filter _ vs); [by apply elem_of_nil in Hf|cbn in Hz; lia].
  - intros Hn. assert (filter (λ w, w = v) vs = []) as ->; [|done].
    apply elem_of_nil_inv. intros w [-> Hw]%list_elem_of_filter. done.
Qed.

(** Counts of closed lists, by evaluation. *)
Ltac eval_verdicts :=
  repeat match goal with
  | |- context [count_verdicts ?w ?l] =>
      let n := eval vm_compute in (count_verdicts w l) in change (count_verdicts w l) with n
  end.
