(* ===== verification/Consistency.v ===== *)
(** * internal/reconciler/consistency: the periodic audit

    Row-count estimates of the key tables are compared within a tolerance
    band, and [git fsck] runs on a random sample of the repositories.  The
    directory tree and the random generator belong to the environment. *)
From Stdlib Require Import Ascii ZArith Lia SpecFloat.
From stdpp Require Import prelude strings gmap list.
From S2P Require Import Prelude World GoStrings GoFloat ProjectPath GoPath Reconciler Verdict.
Open Scope go_scope.

(** ** The code *)

Definition tablesToCount : list gostr :=
  ["projects"; "namespaces"; "users"; "merge_requests"; "issues"; "notes"; "ci_builds"; "ci_pipelines";
   "labels"; "milestones"].

(** The pools are named; [samplePct] is a [float64]. *)
Record con_reconciler := mkCon {
  con_primary : gostr;
  con_secondary : gostr;
  con_secondaryName : gostr;
  con_reposPath : gostr;
  con_samplePct : spec_float;
}.

Definition con_New (primary secondary secondaryName reposPath : gostr) (samplePct : spec_float) : con_reconciler :=
  mkCon primary secondary secondaryName reposPath samplePct.

Definition con_name (r : con_reconciler) : gostr := QualifyName "consistency_sweep" (con_secondaryName r).

Definition errCountUnknown : error := ErrSentinel "consistency.errCountUnknown".

Definition count_sql : gostr := "SELECT c.reltuples::bigint FROM pg_class c JOIN pg_namespace n ON n.oid = c.relnamespace WHERE c.relname = $1 AND c.relkind = 'r' AND n.nspname = 'public' LIMIT 1".

(** [Scan] into an [int64], from PostgreSQL's text form. *)
Definition scan_int64 (row : sql_row) : res Z :=
  match row with
  | Some s :: _ => match Atoi s with Some n => Ok n | None => Err (ErrExternal "can't scan into dest[0]") end
  | _ => Err (ErrExternal "can't scan into dest[0]")
  end.

(** [int64] division by a constant truncates; [a - b] and [-diff] wrap. *)
Definition isApproxEqual (a b : Z) : bool :=
  let diff := wrap64 (a - b) in
  let diff := if (diff <? 0)%Z then wrap64 (- diff) else diff in
  let tolerance := Z.quot a 10 in
  let tolerance := if (a <? b)%Z then Z.quot b 10 else tolerance in
  let tolerance := if (tolerance <? 5)%Z then 5%Z else tolerance in
  (diff <=? tolerance)%Z.

(** [filepath.Base]. *)
Definition Base (p : gostr) : gostr :=
  if bool_decide (p = []) then "."
  else
    let q := trim_right ["/"] p in
    if bool_decide (q = []) then "/" else List.last (SplitByte q SEP) [].

Definition is_repo (path : gostr) : bool := bool_decide (Base path = ".git") || HasSuffix path ".git".

(** The repositories the walk collects: a directory named like one is
    taken and not entered, errors are logged and skipped. *)
Fixpoint collect (path : gostr) (n : node) : list gostr :=
  match n with
  | NDir entries =>
      if is_repo path then [path]
      else
        (fix go (l : list (gostr * node)) : list gostr :=
           match l with
           | [] => []
           | (name, m) :: l => collect (PathJoin path name) m ++ go l
           end) entries
  | _ => []
  end.

(** How many repositories are checked. *)
Definition sample_size (len : nat) (pct : spec_float) : nat :=
  let n := int_of_float (float_mul (float_of_int (Z.of_nat len)) pct) in
  let n := if (n <? 1)%Z then 1%Z else n in
  let n := if (Z.of_nat len <? n)%Z then Z.of_nat len else n in
  Z.to_nat n.

(** [a[i], a[j] = a[j], a[i]]; [None] is a run-time panic. *)
Definition swap {A} (l : list A) (i j : nat) : option (list A) :=
  x ← l !! i; y ← l !! j; Some (<[j := x]> (<[i := y]> l)).

(** The counters of [Reconcile]. *)
Record acc := mkAcc { a_drifts : Z; a_unanalyzed : Z; a_remaining : Z; a_detail : list frag }.
Definition acc_skip (a : acc) : acc := mkAcc (a_drifts a) (a_unanalyzed a + 1) (a_remaining a) (a_detail a).
Definition acc_error (msg : list frag) (a : acc) : acc :=
  mkAcc (a_drifts a) (a_unanalyzed a) (a_remaining a + 1) (a_detail a ++ msg).
Definition acc_drift (msg : list frag) (a : acc) : acc :=
  mkAcc (a_drifts a + 1) (a_unanalyzed a) (a_remaining a + 1) (a_detail a ++ msg).

Section consistency.
Context (E : Env).

Definition rowCount (pool table : gostr) : IO (res Z) :=
  rows ← io_sql E pool count_sql [table];
  mret (match rows with
        | Err err => Err err
        | Ok [] => Ok 0%Z
        | Ok (row :: _) => n ← scan_int64 row; if (n <? 0)%Z then Err errCountUnknown else Ok n
        end).

Definition unknown (err : error) : bool := errors_Is err "consistency.errCountUnknown".

(** One turn of the loop over the tables. *)
Definition audit_table (r : con_reconciler) (table : gostr) (a : acc) : IO acc :=
  pCount ← rowCount (con_primary r) table;
  match pCount with
  | Err err =>
      mret (if unknown err then acc_skip a
            else acc_error [FS "; "; FS table; FS " primary count error: "; FV err] a)
  | Ok pCount =>
      sCount ← rowCount (con_secondary r) table;
      match sCount with
      | Err err =>
          mret (if unknown err then acc_skip a
                else acc_error [FS "; "; FS table; FS " secondary count error: "; FV err] a)
      | Ok sCount =>
          if bool_decide (pCount = sCount) then mret a
          else if isApproxEqual pCount sCount then mret a
          else
            _ ← emit (EvDrift (QualifyName ("db:" ++ table) (con_secondaryName r)) "warning");
            mret (acc_drift [FS "; "; FS table; FS " drift: primary="; FZ pCount; FS " secondary="; FZ sCount] a)
      end
  end.

Fixpoint audit_tables (r : con_reconciler) (tables : list gostr) (a : acc) : IO acc :=
  match tables with
  | [] => mret a
  | table :: tables => a ← audit_table r table a; audit_tables r tables a
  end.

(** The partial Fisher-Yates shuffle, from index [i], [n] steps. *)
Fixpoint shuffle (Intn : nat → nat → nat) (n i : nat) (l : list gostr) : option (list gostr) :=
  match n with
  | O => Some l
  | S n =>
      let j := i + Intn i (length l - i) in
      l ← swap l i j;
      shuffle Intn n (S i) l
  end.

Definition execCommand (name : gostr) (args : list gostr) : IO (gostr * option error) := io_exec E name args [] None.

Definition execGitFsck (repoPath : gostr) : IO (gostr * option error) :=
  execCommand "git" ["-C"; repoPath; "fsck"; "--no-dangling"].

Definition gitFsck (repoPath : gostr) : IO bool :=
  res ← execGitFsck repoPath;
  mret (bool_decide (res.2 = None)).

Fixpoint fsck_all (r : con_reconciler) (repos : list gostr) (failed : Z) : IO Z :=
  match repos with
  | [] => mret failed
  | repo :: repos =>
      ok ← gitFsck repo;
      if (ok : bool) then fsck_all r repos failed
      else
        _ ← emit (EvDrift (QualifyName "git_fsck" (con_secondaryName r)) "critical");
        fsck_all r repos (failed + 1)
  end.

(** [None] is a panic. *)
Definition sampleGitFsck (r : con_reconciler) : IO (option Z) :=
  if SFleb (con_samplePct r) (S754_zero false) || bool_decide (con_reposPath r = []) then mret (Some 0%Z)
  else
    fs ← io_disk E;
    let allRepos := collect (con_reposPath r) (fs (con_reposPath r)) in
    if bool_decide (allRepos = []) then mret (Some 0%Z)
    else
      let n := sample_size (length allRepos) (con_samplePct r) in
      Intn ← io_draw E;
      match shuffle Intn n 0 allRepos with
      | None => mret None
      | Some allRepos => failed ← fsck_all r (take n allRepos) 0; mret (Some failed)
      end.

Definition con_Reconcile (r : con_reconciler) : IO (option Result) :=
  a ← audit_tables r tablesToCount (mkAcc 0 0 0 [FS "sweep complete"]);
  let detail := if (0 <? a_unanalyzed a)%Z
                then a_detail a ++ [FS "; "; FZ (a_unanalyzed a); FS " tables not yet analyzed"]
                else a_detail a in
  fsck ← (if bool_decide (con_reposPath r = []) then mret (Some 0%Z) else sampleGitFsck r);
  mret (match fsck with
        | None => None
        | Some fsckDrifts =>
            Some (mkResult (bool_decide (a_drifts a + fsckDrifts = 0)%Z) 0 detail 0 (a_remaining a))
        end).
End consistency.

(** ** The tolerance band *)

(** Two counts agree when they differ by at most a tenth of the larger one,
    or by at most five rows. *)
Definition near (a b : Z) : Prop := (Z.abs (a - b) ≤ Z.max 5 (Z.max a b / 10))%Z.

#[export] Instance near_dec a b : Decision (near a b).
Proof. unfold near. apply _. Defined.

#[export] Instance near_sym : Symmetric near.
Proof. intros a b. unfold near. rewrite (Z.max_comm b a). lia. Qed.

Lemma isApproxEqual_near a b : (0 ≤ a ≤ int64_max)%Z → (0 ≤ b ≤ int64_max)%Z →
  isApproxEqual a b = bool_decide (near a b).
Proof.
  intros Ha Hb. unfold isApproxEqual. cbv zeta. unfold int64_max in *.
  rewrite (wrap64_id (a - b)) by (unfold in_int64, int64_min, int64_max; lia).
  rewrite (wrap64_id (- (a - b))) by (unfold in_int64, int64_min, int64_max; lia).
  rewrite !Z.quot_div_nonneg by lia. unfold near.
  replace (if (a - b <? 0)%Z then (- (a - b))%Z else (a - b)%Z) with (Z.abs (a - b))
    by (destruct (Z.ltb_spec (a - b) 0); lia).
  replace (if (a <? b)%Z then (b / 10)%Z else (a / 10)%Z) with (Z.max a b / 10)%Z
    by (destruct (Z.ltb_spec a b); f_equal; lia).
  replace (if (Z.max a b / 10 <? 5)%Z then 5%Z else (Z.max a b / 10)%Z) with (Z.max 5 (Z.max a b / 10))
    by (destruct (Z.ltb_spec (Z.max a b / 10) 5); lia).
  case_bool_decide; [by apply Z.leb_le|]. apply Z.leb_gt. lia.
Qed.

Lemma scan_int64_range row n : scan_int64 row = Ok n → in_int64 n.
Proof.
  unfold scan_int64. destruct row as [|[s|] row]; [done| |done].
  destruct (Atoi s) as [m|] eqn:Es; [|done]. intros [= <-]. by destruct (Atoi_bytes s m Es) as (_ & _ & ?).
Qed.

(** ** The audit of the tables *)

Section audit.
Context (E : Env) (r : con_reconciler).

Definition error_verdict (err : error) : verdict := if unknown err then Skipped else Failed.

Definition table_verdict (table : gostr) : IO verdict :=
  p ← rowCount E (con_primary r) table;
  match p with
  | Err err => mret (error_verdict err)
  | Ok p =>
      s ← rowCount E (con_secondary r) table;
      match s with
      | Err err => mret (error_verdict err)
      | Ok s =>
          if bool_decide (near p s) then mret Agrees
          else _ ← emit (EvDrift (QualifyName ("db:" ++ table) (con_secondaryName r)) "warning"); mret Drifts
      end
  end.

Fixpoint verdicts (tables : list gostr) : IO (list verdict) :=
  match tables with
  | [] => mret []
  | table :: tables => v ← table_verdict table; vs ← verdicts tables; mret (v :: vs)
  end.

Lemma rowCount_range pool table h n h' :
  rowCount E pool table h = (Ok n, h') → (0 ≤ n ≤ int64_max)%Z.
Proof.
  unfold rowCount, mbind, ST_bind, io_sql, mret, ST_ret. intros [= Hn _].
  destruct (env_sql _ _ _ _ _) as [[|row rows]|e]; [injection Hn as <-; unfold int64_max; lia| |done].
  cbn in Hn. destruct (scan_int64 row) as [m|] eqn:Es; [|done]. cbn in Hn.
  apply scan_int64_range in Es as [_ Hm]. destruct (Z.ltb_spec m 0); [done|]. injection Hn as <-. lia.
Qed.

(** The counters agree with the verdicts. *)
Definition acc_ok (a0 : acc) (vs : list verdict) (a : acc) : Prop :=
  a_drifts a = (a_drifts a0 + count_verdicts Drifts vs)%Z ∧
  a_unanalyzed a = (a_unanalyzed a0 + count_verdicts Skipped vs)%Z ∧
  a_remaining a = (a_remaining a0 + count_verdicts Drifts vs + count_verdicts Failed vs)%Z.

Ltac solve_acc :=
  unfold acc_ok; cbn [a_drifts a_unanalyzed a_remaining acc_skip acc_error acc_drift];
  eval_verdicts; lia.

Lemma acc_ok_trans a0 v a1 vs a2 : acc_ok a0 [v] a1 → acc_ok a1 vs a2 → acc_ok a0 (v :: vs) a2.
Proof.
  unfold acc_ok. rewrite (count_verdicts_cons Drifts v vs), (count_verdicts_cons Skipped v vs), (count_verdicts_cons Failed v vs). lia.
Qed.

Lemma audit_table_verdict table a h :
  ∃ v a' h', audit_table E r table a h = (a', h') ∧ table_verdict table h = (v, h') ∧ acc_ok a [v] a'.
Proof.
  unfold audit_table, table_verdict, error_verdict, mbind, ST_bind.
  destruct (rowCount E (con_primary r) table h) as [[p|e] h1] eqn:Ep.
  2: { destruct (unknown e); eexists _, _, _; (split; [done|]; split; [done|]); solve_acc. }
  destruct (rowCount E (con_secondary r) table h1) as [[s|e] h2] eqn:Es.
  2: { destruct (unknown e); eexists _, _, _; (split; [done|]; split; [done|]); solve_acc. }
  apply rowCount_range in Ep, Es. rewrite isApproxEqual_near by done.
  case_bool_decide as Heq.
  - subst s. rewrite bool_decide_eq_true_2 by (unfold near; lia).
    eexists _, _, _. split; [done|]. split; [done|]. solve_acc.
  - destruct (bool_decide (near p s)); eexists _, _, _; (split; [done|]; split; [done|]); solve_acc.
Qed.

Lemma audit_tables_verdicts tables a h :
  ∃ vs a' h', audit_tables E r tables a h = (a', h') ∧ verdicts tables h = (vs, h') ∧ acc_ok a vs a'.
Proof.
  revert a h. induction tables as [|table tables IH]; intros a h.
  - eexists [], _, _. split; [done|]. split; [done|]. solve_acc.
  - cbn [audit_tables verdicts]. unfold mbind, ST_bind.
    destruct (audit_table_verdict table a h) as (v & a1 & h1 & -> & -> & H1).
    destruct (IH a1 h1) as (vs & a2 & h2 & -> & -> & H2).
    exists (v :: vs), a2, h2. split; [done|]. split; [done|]. by eapply acc_ok_trans.
Qed.
End audit.

(** ** The sample *)

Section swap.
Context {A : Type}.

Lemma swap_some (l : list A) i j : i < length l → j < length l →
  ∃ l', swap l i j = Some l' ∧ l' ≡ₚ l.
Proof.
  intros Hi Hj. destruct (lookup_lt_is_Some_2 l i Hi) as [x Hx]. destruct (lookup_lt_is_Some_2 l j Hj) as [y Hy].
  unfold swap. rewrite Hx. cbn. rewrite Hy. cbn. eexists. split; [done|]. by apply Permutation_insert_swap.
Qed.
End swap.

Lemma shuffle_perm Intn n i l : (∀ k m, 0 < m → Intn k m < m) → i + n ≤ length l →
  ∃ l', shuffle Intn n i l = Some l' ∧ l' ≡ₚ l.
Proof.
  intros HI. revert i l. induction n as [|n IH]; intros i l Hn; [by exists l|]. cbn [shuffle].
  specialize (HI i (length l - i)). destruct (swap_some l i (i + Intn i (length l - i))) as (l1 & -> & Hp1); [lia..|].
  cbn. destruct (IH (S i) l1) as (l2 & -> & Hp2); [rewrite Hp1; lia|]. exists l2. split; [done|]. by rewrite Hp2.
Qed.

Lemma sample_size_bounds len pct : 0 < len → 1 ≤ sample_size len pct ≤ len.
Proof.
  intros Hl. unfold sample_size. cbv zeta. set (z := int_of_float _).
  destruct (Z.ltb_spec z 1).
  - destruct (Z.ltb_spec (Z.of_nat len) 1); lia.
  - destruct (Z.ltb_spec (Z.of_nat len) z); lia.
Qed.

(** *** The walk *)

(** The names in a directory are distinct and are single segments. *)
#[warnings="-register-all"]
Inductive good_node : node → Prop :=
| good_file : good_node NFile
| good_err : good_node NErr
| good_dir_err : good_node NDirErr
| good_dir entries :
    NoDup entries.*1 → Forall (λ e, proper_segment e.1 ∧ SEP ∉ e.1) entries →
    Forall (λ e, good_node e.2) entries → good_node (NDir entries).

Definition collect_entries (path : gostr) (l : list (gostr * node)) : list gostr :=
  mjoin ((λ e, collect (PathJoin path e.1) e.2) <$> l).

Lemma collect_dir path entries :
  collect path (NDir entries) = if is_repo path then [path] else collect_entries path entries.
Proof.
  cbn [collect]. destruct (is_repo path); [done|].
  induction entries as [|[name m] l IH]; [done|]. by rewrite IH.
Qed.

Lemma child_path t name : proper_segment name → SEP ∉ name →
  ∃ u, PathJoin (SEP :: t) name = SEP :: u ∧ path_elems (SEP :: u) = path_elems (SEP :: t) ++ [name].
Proof.
  intros Hp Hn. rewrite PathJoin_rooted by (by intros ->; destruct Hp).
  change ((SEP :: t) ++ SEP :: name) with (SEP :: (t ++ SEP :: name)). rewrite Clean_rooted.
  eexists. split; [done|].
  rewrite <- Clean_rooted, path_elems_Clean_rooted.
  change (SEP :: (t ++ SEP :: name)) with ((SEP :: t) ++ SEP :: name).
  rewrite path_elems_app_proper; rewrite SplitByte_single by done; [done|by apply Forall_singleton].
Qed.

Lemma prefix_snoc_inj {A} (l k : list A) x y :
  l ++ [x] `prefix_of` k → l ++ [y] `prefix_of` k → x = y.
Proof.
  intros [k1 ->] [k2 Hk]. rewrite <- !app_assoc in Hk. apply app_inv_head in Hk. by injection Hk.
Qed.

Lemma collect_distinct n : good_node n → ∀ t,
  NoDup (path_elems <$> collect (SEP :: t) n) ∧
  Forall (λ p, path_elems (SEP :: t) `prefix_of` path_elems p) (collect (SEP :: t) n).
Proof.
  revert n. fix IH 2. intros n Hn. destruct Hn as [| | |entries Hnd Hp Hg]; intros t.
  1-3: cbn; split; [constructor|done].
  rewrite collect_dir. destruct (is_repo _).
  { split; [apply NoDup_singleton|by repeat constructor]. }
  enough (NoDup (path_elems <$> collect_entries (SEP :: t) entries) ∧
    Forall (λ p, ∃ name, name ∈ entries.*1 ∧ path_elems (SEP :: t) ++ [name] `prefix_of` path_elems p)
      (collect_entries (SEP :: t) entries)) as [H1 H2].
  { split; [done|]. eapply Forall_impl; [exact H2|]. intros p (name & _ & Hpre).
    etransitivity; [|exact Hpre]. by apply prefix_app_r. }
  induction Hg as [|[name m] l Hm Hl IHl]; [by split; [constructor|]|].
  apply NoDup_cons in Hnd as [Hname Hnd]. apply Forall_cons in Hp as [[Hp1 Hp2] Hp].
  destruct (child_path t name Hp1 Hp2) as (u & Hpath & Hu). destruct (IH m Hm u) as [Hnd1 Hpre1].
  destruct (IHl Hnd Hp) as [Hnd2 Hpre2]. rewrite Hu in Hpre1.
  change (collect_entries (SEP :: t) ((name, m) :: l)) with
    (collect (PathJoin (SEP :: t) name) m ++ collect_entries (SEP :: t) l). rewrite Hpath. split.
  - rewrite fmap_app. apply NoDup_app. split_and!; [done| |done].
    intros e (p & -> & Hin1)%list_elem_of_fmap (q & Heq & Hin2)%list_elem_of_fmap.
    rewrite Forall_forall in Hpre1, Hpre2. specialize (Hpre1 p Hin1).
    destruct (Hpre2 q Hin2) as (name' & Hn' & Hq). rewrite <- Heq in Hq.
    pose proof (prefix_snoc_inj _ _ _ _ Hpre1 Hq) as <-. by apply Hname.
  - apply Forall_app. split.
    + eapply Forall_impl; [exact Hpre1|]. intros p Hpre. exists name. split; [left|done].
    + eapply Forall_impl; [exact Hpre2|]. intros p (name' & Hn' & Hpre). exists name'. split; [by right|done].
Qed.

Lemma collect_NoDup t n : good_node n → NoDup (collect (SEP :: t) n).
Proof. intros Hn. destruct (collect_distinct n Hn t) as [Hnd _]. by apply NoDup_fmap_1 in Hnd. Qed.

(** *** git fsck *)

Definition fsck_event (repo : gostr) : event := EvExec "git" ["-C"; repo; "fsck"; "--no-dangling"] [] None.

(** What an audit does: it counts rows, sets metrics, and checks
    repositories below its path. *)
Definition audit_event (root : gostr) (e : event) : Prop :=
  observes [count_sql] e ∨ ∃ repo, e = fsck_event repo ∧ path_elems root `prefix_of` path_elems repo.

Lemma only_audit_tables E r tables a : Only (observes [count_sql]) (audit_tables E r tables a).
Proof.
  revert a. induction tables as [|table tables IH]; intros a; cbn [audit_tables]; [apply _|].
  apply only_bind; [|apply IH]. unfold audit_table, rowCount. solve_only.
  all: eapply only_one; [reflexivity|]; cbn [observes]; closed_decide.
Qed.

(** What the walk and [rng.Intn] promise. *)
Class Machine (E : Env) : Prop := {
  disk_good h p : good_node (env_disk E h p);
  draw_below h i k : 0 < k → env_draw E h i k < k;
}.

Section sample.
Context (E : Env) {HM : Machine E}.

(** *** The specification of the check

    [git fsck] runs once on each repository of the list, in order; [failed]
    are those on which it exits with an error, each counted as drift. *)
Inductive fsck_runs (component : gostr) : list gostr → history → list gostr → history → Prop :=
| fr_nil h : fsck_runs component [] h [] h
| fr_ok repo repos h failed h' :
    (env_exec E h "git" ["-C"; repo; "fsck"; "--no-dangling"] [] None).2 = None →
    fsck_runs component repos (h ++ [fsck_event repo]) failed h' →
    fsck_runs component (repo :: repos) h failed h'
| fr_fail repo repos h err failed h' :
    (env_exec E h "git" ["-C"; repo; "fsck"; "--no-dangling"] [] None).2 = Some err →
    fsck_runs component repos (h ++ [fsck_event repo; EvDrift component "critical"]) failed h' →
    fsck_runs component (repo :: repos) h (repo :: failed) h'.

(** The sample: none without a path or a positive percentage; else of the
    computed size, at least one and at most all, drawn without repetition
    from the repositories of the disk. *)
Definition is_sample (r : con_reconciler) (h : history) (sample : list gostr) : Prop :=
  let repos := collect (con_reposPath r) (env_disk E h (con_reposPath r)) in
  if bool_decide (con_reposPath r = []) || SFleb (con_samplePct r) (S754_zero false) || bool_decide (repos = [])
  then sample = []
  else (∃ rest, sample ++ rest ≡ₚ repos) ∧ length sample = sample_size (length repos) (con_samplePct r) ∧
       1 ≤ length sample ≤ length repos.

Lemma fsck_all_runs r repos k h :
  ∃ failed h', fsck_all E r repos k h = ((k + Z.of_nat (length failed))%Z, h') ∧
    fsck_runs (QualifyName "git_fsck" (con_secondaryName r)) repos h failed h'.
Proof.
  revert k h. induction repos as [|repo repos IH]; intros k h.
  - exists [], h. rewrite Z.add_0_r. split; [done|constructor].
  - cbn [fsck_all]. unfold gitFsck, execGitFsck, execCommand, mbind, ST_bind, io_exec, mret, ST_ret.
    fold (fsck_event repo). cbn [fst snd]. destruct (env_exec E h _ _ _ _).2 as [err|] eqn:Ee.
    + rewrite bool_decide_eq_false_2 by done. unfold emit.
      destruct (IH (k + 1)%Z ((h ++ [fsck_event repo]) ++ [EvDrift (QualifyName "git_fsck" (con_secondaryName r)) "critical"]))
        as (failed & h' & -> & Hr). rewrite <- app_assoc in Hr.
      exists (repo :: failed), h'. split; [f_equal; cbn [length]; lia|]. by eapply fr_fail.
    + rewrite bool_decide_eq_true_2 by done. destruct (IH k (h ++ [fsck_event repo])) as (failed & h' & -> & Hr).
      exists failed, h'. split; [done|]. by eapply fr_ok.
Qed.

Lemma sampleGitFsck_runs r h :
  ∃ sample failed h', sampleGitFsck E r h = (Some (Z.of_nat (length failed)), h') ∧ is_sample r h sample ∧
    fsck_runs (QualifyName "git_fsck" (con_secondaryName r)) sample h failed h'.
Proof using HM.
  unfold sampleGitFsck, is_sample. rewrite (orb_comm (bool_decide (con_reposPath r = []))).
  destruct (_ || bool_decide (con_reposPath r = [])).
  { exists [], [], h. split; [done|]. split; [done|constructor]. }
  unfold mbind, ST_bind, io_disk, io_draw. cbv zeta. set (repos := collect _ _). cbn [orb]. case_bool_decide as Er.
  { exists [], [], h. split; [done|]. split; [done|constructor]. }
  assert (0 < length repos) as Hl by (destruct repos; [done|cbn; lia]).
  pose proof (sample_size_bounds (length repos) (con_samplePct r) Hl) as Hn. set (n := sample_size _ _) in *.
  destruct (shuffle_perm (env_draw E h) n 0 repos (draw_below h)) as (l & -> & Hp); [lia|].
  destruct (fsck_all_runs r (take n l) 0 h) as (failed & h' & -> & Hr). exists (take n l), failed, h'.
  split; [done|]. split; [|done]. rewrite length_take, Hp. split; [|lia].
  exists (drop n l). by rewrite take_drop.
Qed.

(** What the check adds to the history. *)
Lemma fsck_runs_adds root component repos h failed h' : fsck_runs component repos h failed h' →
  Forall (λ repo, path_elems root `prefix_of` path_elems repo) repos → adds (audit_event root) h h'.
Proof.
  induction 1 as [h|repo repos h failed h' _ _ IH|repo repos h err failed h' _ _ IH]; intros Hf; [done|..];
    apply Forall_cons in Hf as [Hrepo Hf]; (etransitivity; [|by apply IH]); eexists; (split; [done|]).
  - apply Forall_singleton. right. by exists repo.
  - apply Forall_cons. split; [right; by exists repo|]. apply Forall_singleton. by left.
Qed.

Lemma is_sample_below r t h sample : con_reposPath r = SEP :: t → is_sample r h sample →
  NoDup sample ∧ Forall (λ repo, path_elems (con_reposPath r) `prefix_of` path_elems repo) sample.
Proof using HM.
  intros Hp. unfold is_sample. cbv zeta. destruct (_ || _).
  { intros ->. split; [constructor|done]. }
  intros [[rest Hperm] _]. pose proof (disk_good h (con_reposPath r)) as Hgood. rewrite Hp in Hgood, Hperm |- *.
  destruct (collect_distinct _ Hgood t) as [_ Hpre]. pose proof (collect_NoDup t _ Hgood) as Hnd.
  rewrite <- Hperm in Hnd, Hpre. apply NoDup_app in Hnd as [Hnd _]. by apply Forall_app in Hpre as [Hpre _].
Qed.

(** The whole audit, in one form. *)
Lemma con_Reconcile_runs r h :
  let '(vs, h1) := verdicts E r tablesToCount h in
  ∃ res sample failed h2, con_Reconcile E r h = (Some res, h2) ∧
    is_sample r h1 sample ∧ fsck_runs (QualifyName "git_fsck" (con_secondaryName r)) sample h1 failed h2 ∧
    (OK res = true ↔ Drifts ∉ vs ∧ failed = []) ∧
    Remaining res = (count_verdicts Drifts vs + count_verdicts Failed vs)%Z ∧ Repaired res = 0%Z.
Proof using HM.
  unfold con_Reconcile, mbind, ST_bind.
  destruct (audit_tables_verdicts E r tablesToCount (mkAcc 0 0 0 [FS "sweep complete"]) h)
    as (vs & a & h1 & -> & -> & Hd & _ & Hr). cbn [a_drifts a_remaining] in Hd, Hr.
  assert (∃ sample failed h2, (if bool_decide (con_reposPath r = []) then mret (Some 0%Z) else sampleGitFsck E r) h1 =
    (Some (Z.of_nat (length failed)), h2) ∧ is_sample r h1 sample ∧
    fsck_runs (QualifyName "git_fsck" (con_secondaryName r)) sample h1 failed h2) as (sample & failed & h2 & -> & Hs & Hf).
  { case_bool_decide as Hp; [|apply sampleGitFsck_runs]. exists [], [], h1. split; [done|].
    split; [unfold is_sample; by rewrite bool_decide_eq_true_2|constructor]. }
  eexists _, sample, failed, h2. split; [done|]. split; [done|]. split; [done|]. cbn [OK Remaining Repaired].
  split; [|split; [lia|done]].
  rewrite bool_decide_eq_true, Hd, <- count_verdicts_0. pose proof (count_verdicts_pos Drifts vs).
  destruct failed; cbn [length]; (split; [intros ?; split; [lia|try done]|intros [? ?]; try done; lia]). lia.
Qed.

Lemma con_Reconcile_audits r t h : con_reposPath r = SEP :: t →
  ∃ res h', con_Reconcile E r h = (Some res, h') ∧ adds (audit_event (con_reposPath r)) h h'.
Proof using HM.
  intros Hp. pose proof (con_Reconcile_runs r h) as Hr.
  destruct (audit_tables_verdicts E r tablesToCount (mkAcc 0 0 0 []) h) as (vs & a & h1 & Ha & Hv & _). rewrite Hv in Hr.
  destruct Hr as (res & sample & failed & h2 & -> & Hs & Hf & _). exists res, h2. split; [done|].
  apply (only_adds (observes [count_sql])) in Ha; [|apply only_audit_tables].
  transitivity h1; [eapply adds_weaken; [|exact Ha]; intros e; by left|].
  eapply fsck_runs_adds; [exact Hf|]. by eapply is_sample_below.
Qed.

(** C35: the audit's result.  The audit never panics.  After the tables it
    runs [git fsck] once on each repository of a sample drawn without
    repetition from the repositories on the disk: of the configured share,
    at least one and at most all of them, or none without a path or a
    positive percentage.  It is OK exactly when no table drifts (both counts
    known, and further apart than a tenth of the larger and than five rows)
    and [git fsck] exits without an error on every repository of the sample;
    a table whose count cannot be read does not make it fail, it only counts
    in Remaining, as a drifting table does; a table without statistics counts
    nowhere. *)
Theorem audit_result r h :
  let '(vs, h1) := verdicts E r tablesToCount h in
  ∃ res sample failed h2, con_Reconcile E r h = (Some res, h2) ∧
    is_sample r h1 sample ∧ fsck_runs (QualifyName "git_fsck" (con_secondaryName r)) sample h1 failed h2 ∧
    (OK res = true ↔ Drifts ∉ vs ∧ failed = []) ∧
    Remaining res = (count_verdicts Drifts vs + count_verdicts Failed vs)%Z ∧ Repaired res = 0%Z.
Proof using HM. exact (con_Reconcile_runs r h). Qed.
End sample.

(** ** A run *)

Definition ex_pct : spec_float := binary_normalize 53 1024 1 (-1) false.
Definition ex_con : con_reconciler := mkCon "eu" "us" "us" "/srv/git" ex_pct.
Definition ex_tree : node :=
  NDir [("@hashed" : gostr, NDir [("a.git" : gostr, NDir []); ("b.git" : gostr, NDir [("x.git" : gostr, NDir [])]);
                                  ("c.git" : gostr, NDir []); ("d.git" : gostr, NDirErr)]);
        ("README" : gostr, NFile); ("lost" : gostr, NErr)].
Definition ex_con_env : Env := {|
  env_exec _ _ args _ _ :=
    ([], if bool_decide (args !! 1 = Some ("/srv/git/@hashed/c.git" : gostr)) then Some (ErrExternal "exit status 1") else None);
  env_get _ _ _ := Err (ErrExternal "no network");
  env_hops _ _ := [];
  env_disk _ _ := ex_tree;
  env_draw _ _ k := k - 1;
  env_sql _ pool _ args := Ok
    (if bool_decide (args = [("issues" : gostr)]) then [[Some ("-1" : gostr)]]
     else if bool_decide (pool = "eu") then [[Some ("100" : gostr)]] else [[Some ("111" : gostr)]]);
  env_ctx _ := None;
  env_timer _ _ := true |}.

Example collect_example :
  collect "/srv/git" ex_tree = ["/srv/git/@hashed/a.git"; "/srv/git/@hashed/b.git"; "/srv/git/@hashed/c.git"] ∧
  sample_size 3 ex_pct = 1 ∧ sample_size 5 ex_pct = 2 ∧ sample_size 5 S754_nan = 1 ∧
  isApproxEqual 100 111 = true ∧ isApproxEqual 100 112 = false ∧ isApproxEqual 3 8 = true ∧ isApproxEqual 3 9 = false.
Proof. vm_compute. split_and!; reflexivity. Qed.

Lemma ex_tree_good : good_node ex_tree.
Proof.
  assert (∀ l : list gostr, NoDup l ↔ bool_decide (NoDup l) = true) as Hnd by (intros l; by rewrite bool_decide_eq_true).
  repeat first [apply Hnd; reflexivity | constructor; cbn | split; cbn | closed_decide].
Qed.

#[export] Instance ex_con_machine : Machine ex_con_env.
Proof. split; [intros; apply ex_tree_good|cbn; intros; lia]. Qed.

(** The last repository is drawn; it fails, so the audit does. *)
Example audit_example :
  (λ r, (OK r, Remaining r)) <$> (con_Reconcile ex_con_env ex_con []).1 = Some (false, 0%Z) ∧
  last (con_Reconcile ex_con_env ex_con []).2 = Some (EvDrift "git_fsck@us" "critical").
Proof. vm_compute. split; reflexivity. Qed.

Lemma audit_result_witness :
  let '(vs, h1) := verdicts ex_con_env ex_con tablesToCount [] in
  ∃ res sample failed h2, con_Reconcile ex_con_env ex_con [] = (Some res, h2) ∧
    is_sample ex_con_env ex_con h1 sample ∧ fsck_runs ex_con_env (QualifyName "git_fsck" "us") sample h1 failed h2 ∧
    (OK res = true ↔ Drifts ∉ vs ∧ failed = []) ∧
    Remaining res = (count_verdicts Drifts vs + count_verdicts Failed vs)%Z ∧ Repaired res = 0%Z.
Proof. apply (audit_result ex_con_env ex_con []). Defined.
