(* ===== verification/ApiValidator.v ===== *)
(** * internal/reconciler/apivalidator: comparing the public API

    [url_String] is [url.Parse] followed by [String]; the HTTP client is the
    environment. *)
From Stdlib Require Import Ascii ZArith Lia.
From stdpp Require Import prelude strings gmap list.
From S2P Require Import Prelude World GoStrings ConfigData Config Reconciler Verdict.
Open Scope go_scope.

(** ** The code *)

Record api_reconciler := mkApi {
  av_site : gostr;
  av_primaryURL : gostr;
  av_secondaryURL : gostr;
  av_primaryToken : gostr;
  av_secondaryToken : gostr;
}.

(** [None]: the section is missing, and reading its tokens panics. *)
Definition api_New (cfg : Config) (secondary : SiteConfig) (site : gostr) : option api_reconciler :=
  let primaryURL := TrimSuffix (site_ExternalURL (cfg_Primary cfg)) "/" ++ "/api/v4" in
  let secondaryURL := TrimSuffix (site_ExternalURL secondary) "/" ++ "/api/v4" in
  v ← cfg_APIValidator cfg;
  Some (mkApi site primaryURL secondaryURL (api_PrimaryToken v) (api_SecondaryToken v)).

Definition api_name (r : api_reconciler) : gostr := QualifyName "api_validator" (av_site r).

(** Pairs of path and label. *)
Definition endpoints : list (gostr * gostr) :=
  [("projects", "projects"); ("users", "users"); ("groups", "groups"); ("issues", "issues");
   ("merge_requests", "merge_requests")].

(** [fmt.Sscanf(s, "%d", &n)]: leading spaces (a line feed makes it fail),
    an optional sign, digits; what follows is ignored. *)
Definition Sscanf_d (s : gostr) : res Z :=
  let t := trim_left (filter (λ e, e ≠ [LF]) space_encodings) s in
  let sign := filter (λ c, c ∈ ("+-" : gostr)) (take 1 t) in
  let digits := (span is_digit (drop (length sign) t)).1 in
  if bool_decide (digits = []) then Err (ErrExternal "expected integer")
  else match Atoi (sign ++ digits) with Some n => Ok n | None => Err (ErrExternal "integer overflow") end.

Record api_acc := mkApiAcc { av_drifts : Z; av_remaining : Z; av_detail : list frag }.
Definition api_error (msg : list frag) (a : api_acc) : api_acc :=
  mkApiAcc (av_drifts a) (av_remaining a + 1) (av_detail a ++ msg).
Definition api_drift (msg : list frag) (a : api_acc) : api_acc :=
  mkApiAcc (av_drifts a + 1) (av_remaining a + 1) (av_detail a ++ msg).

Section apivalidator.
Context (E : Env) (url_String : gostr → res gostr).

Definition count_url (baseURL path : gostr) : gostr := baseURL ++ "/" ++ path ++ "?per_page=1".

Definition fetchCount (baseURL token path : gostr) : IO (res Z) :=
  match url_String (count_url baseURL path) with
  | Err err => mret (Err err)
  | Ok u =>
      resp ← io_get E u [("PRIVATE-TOKEN" : gostr, token)];
      mret (match resp with
            | Err err => Err err
            | Ok resp =>
                if negb (bool_decide (StatusCode resp = 200%Z)) then
                  Err (Errorf [FS "status "; FZ (StatusCode resp); FS ": "; FS (take 512 (Body resp))])
                else
                  match Sscanf_d (Header resp "X-Total") with
                  | Err err => Err (Errorf [FS "no X-Total header: "; FW err])
                  | Ok total => Ok total
                  end
            end)
  end.

(** One turn of the loop over the endpoints. *)
Definition compare_endpoint (r : api_reconciler) (ep : gostr * gostr) (a : api_acc) : IO api_acc :=
  let '(path, label) := ep in
  pCount ← fetchCount (av_primaryURL r) (av_primaryToken r) path;
  match pCount with
  | Err err => mret (api_error [FS "; "; FS label; FS " primary error: "; FV err] a)
  | Ok pCount =>
      sCount ← fetchCount (av_secondaryURL r) (av_secondaryToken r) path;
      match sCount with
      | Err err => mret (api_error [FS "; "; FS label; FS " secondary error: "; FV err] a)
      | Ok sCount =>
          if bool_decide (pCount = sCount) then mret a
          else
            _ ← emit (EvDrift (QualifyName ("api:" ++ label) (av_site r)) "warning");
            mret (api_drift [FS "; "; FS label; FS " drift: primary="; FZ pCount; FS " secondary="; FZ sCount] a)
      end
  end.

Fixpoint compare_endpoints (r : api_reconciler) (eps : list (gostr * gostr)) (a : api_acc) : IO api_acc :=
  match eps with
  | [] => mret a
  | ep :: eps => a ← compare_endpoint r ep a; compare_endpoints r eps a
  end.

Definition api_Reconcile (r : api_reconciler) : IO Result :=
  a ← compare_endpoints r endpoints (mkApiAcc 0 0 [FS "api validation complete"]);
  mret (mkResult (bool_decide (av_drifts a = 0%Z)) 0 (av_detail a) 0 (av_remaining a)).
End apivalidator.

(** ** The result *)

Section result.
Context (E : Env) (url_String : gostr → res gostr) (r : api_reconciler).

(** What the comparison concludes about one endpoint. *)
Definition endpoint_verdict (ep : gostr * gostr) : IO verdict :=
  p ← fetchCount E url_String (av_primaryURL r) (av_primaryToken r) ep.1;
  match p with
  | Err _ => mret Failed
  | Ok p =>
      s ← fetchCount E url_String (av_secondaryURL r) (av_secondaryToken r) ep.1;
      match s with
      | Err _ => mret Failed
      | Ok s =>
          if bool_decide (p = s) then mret Agrees
          else _ ← emit (EvDrift (QualifyName ("api:" ++ ep.2) (av_site r)) "warning"); mret Drifts
      end
  end.

Fixpoint endpoint_verdicts (eps : list (gostr * gostr)) : IO (list verdict) :=
  match eps with
  | [] => mret []
  | ep :: eps => v ← endpoint_verdict ep; vs ← endpoint_verdicts eps; mret (v :: vs)
  end.

Definition api_acc_ok (a0 : api_acc) (vs : list verdict) (a : api_acc) : Prop :=
  av_drifts a = (av_drifts a0 + count_verdicts Drifts vs)%Z ∧
  av_remaining a = (av_remaining a0 + count_verdicts Drifts vs + count_verdicts Failed vs)%Z.

Ltac solve_api := unfold api_acc_ok; cbn [av_drifts av_remaining api_error api_drift]; eval_verdicts; lia.

Lemma compare_endpoint_verdict ep a h :
  ∃ v a' h', compare_endpoint E url_String r ep a h = (a', h') ∧ endpoint_verdict ep h = (v, h') ∧ api_acc_ok a [v] a'.
Proof.
  destruct ep as [path label]. unfold compare_endpoint, endpoint_verdict, mbind, ST_bind. cbn [fst snd].
  destruct (fetchCount _ _ (av_primaryURL r) _ _ _) as [[p|e] h1].
  2: { eexists _, _, _. split; [done|]. split; [done|]. solve_api. }
  destruct (fetchCount _ _ (av_secondaryURL r) _ _ _) as [[s|e] h2].
  2: { eexists _, _, _. split; [done|]. split; [done|]. solve_api. }
  case_bool_decide; eexists _, _, _; (split; [done|]); (split; [done|]); solve_api.
Qed.

Lemma compare_endpoints_verdicts eps a h :
  ∃ vs a' h', compare_endpoints E url_String r eps a h = (a', h') ∧ endpoint_verdicts eps h = (vs, h') ∧
    length vs = length eps ∧ api_acc_ok a vs a'.
Proof.
  revert a h. induction eps as [|ep eps IH]; intros a h.
  - eexists [], _, _. split; [done|]. split; [done|]. split; [done|]. solve_api.
  - cbn [compare_endpoints endpoint_verdicts]. unfold mbind, ST_bind.
    destruct (compare_endpoint_verdict ep a h) as (v & a1 & h1 & -> & -> & H1).
    destruct (IH a1 h1) as (vs & a2 & h2 & -> & -> & Hl & H2).
    exists (v :: vs), a2, h2. split; [done|]. split; [done|]. split; [cbn; by f_equal|]. revert H1 H2. unfold api_acc_ok.
    rewrite (count_verdicts_cons Drifts v vs), (count_verdicts_cons Failed v vs). lia.
Qed.

(** The events of a comparison: GETs of one side's counts with that side's
    token, and drift counters. *)
Definition api_event (e : event) : Prop :=
  (∃ base tok path u, (base, tok) ∈ [(av_primaryURL r, av_primaryToken r); (av_secondaryURL r, av_secondaryToken r)] ∧
     url_String (count_url base path) = Ok u ∧ path ∈ endpoints.*1 ∧ e = EvGet u [("PRIVATE-TOKEN" : gostr, tok)]) ∨
  (∃ label, e = EvDrift (QualifyName ("api:" ++ label) (av_site r)) "warning").

Lemma only_api_drift label : Only api_event (emit (EvDrift (QualifyName ("api:" ++ label) (av_site r)) "warning")).
Proof. apply only_emit. right. by eexists. Qed.

Lemma only_api_fetch base tok path : path ∈ endpoints.*1 →
  (base, tok) ∈ [(av_primaryURL r, av_primaryToken r); (av_secondaryURL r, av_secondaryToken r)] →
  Only api_event (fetchCount E url_String base tok path).
Proof.
  intros Hp Hb. unfold fetchCount. destruct (url_String _) as [u|e] eqn:Hu; [|apply _].
  apply only_bind; [|apply _]. eapply only_one; [done|]. left. by exists base, tok, path, u.
Qed.

Lemma only_api_compare ep a : ep.1 ∈ endpoints.*1 → Only api_event (compare_endpoint E url_String r ep a).
Proof.
  destruct ep as [path label]. cbn [fst]. intros Hp. unfold compare_endpoint.
  apply only_bind; [apply only_api_fetch; [done|left]|intros [p|e]; [|apply _]].
  apply only_bind; [apply only_api_fetch; [done|right; left]|intros [s|e]; [|apply _]].
  case_bool_decide; [apply _|]. apply only_bind; [apply only_api_drift|apply _].
Qed.

Lemma only_api_endpoints eps a : eps ⊆ endpoints → Only api_event (compare_endpoints E url_String r eps a).
Proof.
  revert a. induction eps as [|ep eps IH]; intros a Hs; [apply _|]. cbn [compare_endpoints].
  apply only_bind.
  - apply only_api_compare. apply list_elem_of_fmap_2, Hs. left.
  - intros a'. apply IH. intros x Hx. apply Hs. by right.
Qed.

(** The API validator never writes, keeps each site's token to that
    site, and reports OK exactly when no endpoint's counts were both read
    and differ; a count that could not be read counts in Remaining only. *)
Lemma api_result h :
  let '(vs, h1) := endpoint_verdicts endpoints h in
  ∃ res, api_Reconcile E url_String r h = (res, h1) ∧ length vs = 5 ∧
    (OK res = true ↔ Drifts ∉ vs) ∧
    Remaining res = (count_verdicts Drifts vs + count_verdicts Failed vs)%Z ∧
    ∃ evs, h1 = h ++ evs ∧ Forall api_event evs.
Proof.
  destruct (compare_endpoints_verdicts endpoints (mkApiAcc 0 0 [FS "api validation complete"]) h)
    as (vs & a & h1 & Hc & -> & Hl & Hd & Hr). cbn [av_drifts av_remaining] in Hd, Hr.
  unfold api_Reconcile, mbind, ST_bind. rewrite Hc. eexists. split; [done|]. cbn [OK Remaining].
  split; [done|]. split; [|split; [lia|]].
  - rewrite bool_decide_eq_true, Hd, <- count_verdicts_0. lia.
  - destruct (only_api_endpoints endpoints (mkApiAcc 0 0 [FS "api validation complete"]) (reflexivity _) h)
      as (evs & He & Hf). rewrite Hc in He. by exists evs.
Qed.
End result.

#[export] Instance only_api_Reconcile E url_String r : Only (observes []) (api_Reconcile E url_String r).
Proof.
  unfold api_Reconcile. apply only_bind; [|apply _]. generalize (mkApiAcc 0 0 [FS "api validation complete"]).
  induction endpoints as [|ep eps IH]; intros a; cbn [compare_endpoints]; [apply _|].
  apply only_bind; [|by apply IH]. destruct ep. unfold compare_endpoint, fetchCount. solve_only.
Qed.
