(* ===== verification/PostgresRec.v ===== *)
(** * internal/reconciler/postgres: replication lag

    Connection pools are numbered; [connect] is the pool factory, and
    [scan_float64] decodes a [float64] column. *)
From Stdlib Require Import Ascii ZArith Lia SpecFloat.
From stdpp Require Import prelude strings gmap list.
From S2P Require Import Prelude World GoStrings GoFloat ConfigData Config Dsn Reconciler.
Open Scope go_scope.

(** ** The code: pools *)

(** The pools that are open, and the number of pools ever opened. *)
Record pools := mkPools { p_next : nat; p_open : gset nat }.

Record secondaryConn := mkConn { sc_name : gostr; sc_pool : nat }.
Record pg_reconciler := mkPg { pg_primary : nat; pg_secondaries : list secondaryConn }.

Section pools.
Context (connect : nat → gostr → option error).

Definition pg_name : gostr := "postgres".

(** [PoolFactory]. *)
Definition open_pool (dsn : gostr) : ST pools (res nat) := λ s,
  match connect (p_next s) dsn with
  | Some err => (Err err, mkPools (S (p_next s)) (p_open s))
  | None => (Ok (p_next s), mkPools (S (p_next s)) ({[p_next s]} ∪ p_open s))
  end.

Definition close_pool (id : nat) : ST pools unit := modify (λ s, mkPools (p_next s) (p_open s ∖ {[id]})).

Fixpoint close_all (conns : list secondaryConn) : ST pools unit :=
  match conns with
  | [] => mret tt
  | c :: conns => _ ← close_pool (sc_pool c); close_all conns
  end.

(** The loop of [NewWithFactory]. *)
Fixpoint connect_secondaries (r : pg_reconciler) (sites : list SiteConfig) : ST pools (res pg_reconciler) :=
  match sites with
  | [] => mret (Ok r)
  | sc :: sites =>
      sPool ← open_pool (DSN (site_Postgres sc));
      match sPool with
      | Err err =>
          _ ← close_pool (pg_primary r);
          _ ← close_all (pg_secondaries r);
          mret (Err (Errorf [FS "connect secondary "; FS (site_Name sc); FS " pg: "; FW err]))
      | Ok sPool =>
          connect_secondaries (mkPg (pg_primary r) (pg_secondaries r ++ [mkConn (site_Name sc) sPool])) sites
      end
  end.

Definition NewWithFactory (cfg : Config) : ST pools (res pg_reconciler) :=
  pPool ← open_pool (DSN (site_Postgres (cfg_Primary cfg)));
  match pPool with
  | Err err => mret (Err (Errorf [FS "connect primary pg: "; FW err]))
  | Ok pPool => connect_secondaries (mkPg pPool []) (cfg_Secondaries cfg)
  end.

Definition pg_Close (r : pg_reconciler) : ST pools unit :=
  _ ← close_pool (pg_primary r); close_all (pg_secondaries r).
End pools.

(** ** The code: Reconcile *)

Definition recovery_sql : gostr := "SELECT pg_is_in_recovery()".
Definition lag_sql : gostr := "SELECT COALESCE(EXTRACT(EPOCH FROM replay_lag), 0) FROM pg_stat_replication WHERE application_name = $1 LIMIT 1".

Definition errNoRows : error := ErrSentinel "pgx.ErrNoRows".

Section reconcile.
Context (E : Env) (pool_name : nat → gostr) (scan_float64 : sql_row → res spec_float).

(** [QueryRow(...).Scan(&v)] *)
Definition QueryRow {A} (scan : sql_row → res A) (pool : nat) (sql : gostr) (args : list gostr) : IO (res A) :=
  rows ← io_sql E (pool_name pool) sql args;
  mret (match rows with
        | Err err => Err err
        | Ok [] => Err errNoRows
        | Ok (row :: _) => scan row
        end).

Definition scan_bool_row (row : sql_row) : res bool :=
  match row with
  | Some s :: _ => if bool_decide (s = "t") then Ok true
                   else if bool_decide (s = "f") then Ok false else Err (ErrExternal "can't scan into dest[0]")
  | _ => Err (ErrExternal "can't scan into dest[0]")
  end.

(** [time.Duration(lagSec * float64(time.Second))] *)
Definition duration_of_seconds (f : spec_float) : Z := int_of_float (float_mul f (float_of_int Second)).

Definition checkSecondary (r : pg_reconciler) (sc : secondaryConn) : IO (res Z) :=
  inRecovery ← QueryRow scan_bool_row (sc_pool sc) recovery_sql [];
  match inRecovery with
  | Err err => mret (Err (Errorf [FS "query pg_is_in_recovery: "; FW err]))
  | Ok false =>
      mret (Err (Errorf [FS "secondary "; FS (sc_name sc); FS " is not in recovery mode (already promoted?)"]))
  | Ok true =>
      lagSec ← QueryRow scan_float64 (pg_primary r) lag_sql [sc_name sc];
      mret (match lagSec with
            | Err err => Err (Errorf [FS "primary has no replication row for "; FS (sc_name sc); FS ": "; FW err])
            | Ok lagSec => Ok (duration_of_seconds lagSec)
            end)
  end.

(** One turn of the loop: the result so far and the flag [ok]. *)
Definition check_one (r : pg_reconciler) (sc : secondaryConn) (acc : Result * bool) : IO (Result * bool) :=
  let '(result, ok) := acc in
  lag ← checkSecondary r sc;
  match lag with
  | Err err =>
      _ ← emit (EvPGLag (sc_name sc) None);
      mret (mkResult (OK result) (Lag result) (Detail result ++ [FS "; "; FS (sc_name sc); FS " error: "; FV err])
              (Repaired result) (Remaining result + 1), false)
  | Ok lag =>
      _ ← emit (EvPGLag (sc_name sc) (Some lag));
      mret (if (0 <? lag)%Z
            then (mkResult (OK result) (Z.max (Lag result) lag)
                    (Detail result ++ [FS "; "; FS (sc_name sc); FS " lag="; FD lag])
                    (Repaired result) (Remaining result), ok)
            else (result, ok))
  end.

Fixpoint check_all (r : pg_reconciler) (scs : list secondaryConn) (acc : Result * bool) : IO (Result * bool) :=
  match scs with
  | [] => mret acc
  | sc :: scs => acc ← check_one r sc acc; check_all r scs acc
  end.

Definition pg_Reconcile (r : pg_reconciler) : IO Result :=
  acc ← check_all r (pg_secondaries r) (mkResult false 0 [FS "ok"] 0 0, true);
  mret (mkResult acc.2 (Lag acc.1) (Detail acc.1) (Repaired acc.1) (Remaining acc.1)).
End reconcile.

Definition SecondaryQuerier (r : pg_reconciler) (name : gostr) : option nat :=
  sc_pool <$> List.find (λ sc, bool_decide (sc_name sc = name)) (pg_secondaries r).

(** ** No pool leaks *)

Section leaks.
Context (connect : nat → gostr → option error).

(** Every open pool has been numbered. *)
Definition pools_ok (s : pools) : Prop := ∀ i, i ∈ p_open s → i < p_next s.

Lemma no_pools_ok n : pools_ok (mkPools n ∅).
Proof. intros i Hi. cbn [p_open] in Hi. by apply elem_of_empty in Hi. Qed.

(** The pools a reconciler holds. *)
Definition held (r : pg_reconciler) : gset nat := {[pg_primary r]} ∪ list_to_set (sc_pool <$> pg_secondaries r).

Lemma open_pool_ok dsn s r s' : pools_ok s → open_pool connect dsn s = (r, s') →
  pools_ok s' ∧ match r with
                | Ok id => id ∉ p_open s ∧ p_open s' = {[id]} ∪ p_open s
                | Err _ => p_open s' = p_open s
                end.
Proof.
  intros Hok. unfold open_pool. destruct (connect _ _); intros [= <- <-]; split.
  - intros i Hi. cbn in *. specialize (Hok i Hi). lia.
  - done.
  - intros i Hi. cbn in *. apply elem_of_union in Hi as [->%elem_of_singleton|Hi]; [lia|].
    specialize (Hok i Hi). lia.
  - split; [|done]. intros Hi. specialize (Hok _ Hi). lia.
Qed.

Lemma close_all_open conns s :
  p_next (close_all conns s).2 = p_next s ∧
  p_open (close_all conns s).2 = p_open s ∖ list_to_set (sc_pool <$> conns).
Proof.
  revert s. induction conns as [|c conns IH]; intros s; cbn [close_all].
  - cbn. split; [done|]. apply leibniz_equiv. set_solver.
  - unfold close_pool, mbind, ST_bind, modify. destruct (IH (mkPools (p_next s) (p_open s ∖ {[sc_pool c]}))) as [-> ->].
    cbn [p_next p_open]. split; [done|]. apply leibniz_equiv. rewrite fmap_cons, list_to_set_cons.
    by rewrite difference_difference_l.
Qed.

Lemma pg_Close_open r s : p_open (pg_Close r s).2 = p_open s ∖ held r.
Proof.
  unfold pg_Close, close_pool, mbind, ST_bind, modify. destruct (close_all_open (pg_secondaries r)
    (mkPools (p_next s) (p_open s ∖ {[pg_primary r]}))) as [_ ->]. cbn. unfold held.
  apply leibniz_equiv. by rewrite difference_difference_l.
Qed.

(** While connecting, what is open is what was open and what is held. *)
Definition holding (s0 : gset nat) (r : pg_reconciler) (s : pools) : Prop :=
  pools_ok s ∧ held r ## s0 ∧ p_open s = held r ∪ s0.

Lemma connect_secondaries_open s0 r sites s res s' :
  holding s0 r s → connect_secondaries connect r sites s = (res, s') →
  match res with
  | Ok r' => holding s0 r' s' ∧ pg_primary r' = pg_primary r ∧
      sc_name <$> pg_secondaries r' = (sc_name <$> pg_secondaries r) ++ (site_Name <$> sites)
  | Err _ => p_open s' = s0
  end.
Proof.
  revert r s. induction sites as [|sc sites IH]; intros r s Hh; cbn [connect_secondaries].
  { intros [= <- <-]. rewrite app_nil_r. done. }
  unfold mbind, ST_bind. destruct (open_pool connect _ s) as [rp s1] eqn:Eo.
  destruct Hh as (Hok & Hdisj & Hopen). apply open_pool_ok in Eo as [Hok1 Ho]; [|done].
  destruct rp as [id|e].
  - destruct Ho as [Hid Ho]. intros Hrun. apply IH in Hrun.
    + destruct res as [r'|e]; [|done]. destruct Hrun as (Hh' & Hp & Hn). split; [done|]. split; [done|].
      rewrite Hn. cbn [pg_secondaries]. rewrite fmap_app, <- app_assoc. done.
    + rewrite Hopen in Hid, Ho. split; [done|]. unfold held in *. cbn [pg_primary pg_secondaries].
      rewrite fmap_app, list_to_set_app_L. cbn. split; [set_solver|]. rewrite Ho. set_solver.
  - intros Hrun. unfold mret, ST_ret in Hrun.
    pose proof (pg_Close_open r s1) as Hc. unfold pg_Close, mbind, ST_bind in Hc.
    destruct (close_pool (pg_primary r) s1) as [u s2]. destruct (close_all (pg_secondaries r) s2) as [v s3].
    injection Hrun as <- <-. cbn in Hc. rewrite Hc, Ho, Hopen. set_solver.
Qed.

Lemma NewWithFactory_open cfg s res s' :
  pools_ok s → NewWithFactory connect cfg s = (res, s') →
  match res with
  | Err _ => p_open s' = p_open s
  | Ok r => sc_name <$> pg_secondaries r = site_Name <$> cfg_Secondaries cfg ∧
      held r ## p_open s ∧ p_open s' = held r ∪ p_open s ∧ p_open (pg_Close r s').2 = p_open s
  end.
Proof.
  intros Hok. unfold NewWithFactory, mbind, ST_bind. destruct (open_pool connect _ s) as [rp s1] eqn:Eo.
  apply open_pool_ok in Eo as [Hok1 Ho]; [|done]. destruct rp as [id|e]; [|by intros [= <- <-]].
  destruct Ho as [Hid Ho]. intros Hrun. apply (connect_secondaries_open (p_open s)) in Hrun.
  - destruct res as [r|e]; [|done]. destruct Hrun as ((_ & Hdisj & Hopen) & _ & Hn). cbn in Hn.
    split_and!; [done|done|done|]. rewrite pg_Close_open, Hopen. set_solver.
  - split; [done|]. unfold held. cbn. split; [set_solver|]. rewrite Ho. set_solver.
Qed.
(** Which pool dials which database: they are opened one after the other,
    the primary's first and then one per secondary, in order. *)
Lemma connect_secondaries_dials r sites s r' s' : connect_secondaries connect r sites s = (Ok r', s') →
  pg_primary r' = pg_primary r ∧
  pg_secondaries r' = pg_secondaries r ++ imap (λ i sc, mkConn (site_Name sc) (p_next s + i)) sites ∧
  ∀ i sc, sites !! i = Some sc → connect (p_next s + i) (DSN (site_Postgres sc)) = None.
Proof.
  revert r s. induction sites as [|sc sites IH]; intros r s; cbn [connect_secondaries].
  { intros [= <- <-]. rewrite app_nil_r. by split_and!. }
  unfold mbind, ST_bind. unfold open_pool at 1. destruct (connect (p_next s) _) as [e|] eqn:Ec.
  - destruct (close_pool _ _) as [u1 s1]. by destruct (close_all _ _).
  - intros (-> & -> & Hd)%IH. cbn [p_next pg_primary pg_secondaries] in *. split; [done|]. split.
    + rewrite <- app_assoc. cbn [app imap]. rewrite Nat.add_0_r. do 2 f_equal. apply imap_ext. intros i x _. cbn.
      by rewrite Nat.add_succ_r.
    + intros [|i] x; cbn; [intros [= ->]; by rewrite Nat.add_0_r|]. intros Hx%Hd. by rewrite Nat.add_succ_r.
Qed.

Lemma NewWithFactory_dials cfg s r s' : NewWithFactory connect cfg s = (Ok r, s') →
  pg_primary r = p_next s ∧ connect (p_next s) (DSN (site_Postgres (cfg_Primary cfg))) = None ∧
  pg_secondaries r = imap (λ i sc, mkConn (site_Name sc) (S (p_next s) + i)) (cfg_Secondaries cfg) ∧
  ∀ i sc, cfg_Secondaries cfg !! i = Some sc → connect (S (p_next s) + i) (DSN (site_Postgres sc)) = None.
Proof.
  unfold NewWithFactory, mbind, ST_bind. unfold open_pool at 1. destruct (connect (p_next s) _) as [e|] eqn:Ec; [done|].
  intros (-> & -> & Hd)%connect_secondaries_dials. by split_and!.
Qed.

(** No connection pool leaks.  When [NewWithFactory] fails, every pool
    it opened is closed again and no other one; when it succeeds, exactly
    the primary's pool and one per secondary, in the configuration's order,
    have been opened, and [Close] closes exactly these. *)
Lemma pools_no_leak cfg s res s' :
  pools_ok s → NewWithFactory connect cfg s = (res, s') →
  match res with
  | Err _ => p_open s' = p_open s
  | Ok r => sc_name <$> pg_secondaries r = site_Name <$> cfg_Secondaries cfg ∧
      held r ## p_open s ∧ p_open s' = held r ∪ p_open s ∧ p_open (pg_Close r s').2 = p_open s
  end.
Proof. apply NewWithFactory_open. Qed.
End leaks.

(** ** The result of a sweep *)

Section result.
Context (E : Env) (pool_name : nat → gostr) (scan_float64 : sql_row → res spec_float) (r : pg_reconciler).

(** What the checks return, with the gauge each of them sets. *)
Fixpoint lags (scs : list secondaryConn) : IO (list (res Z)) :=
  match scs with
  | [] => mret []
  | sc :: scs =>
      lag ← checkSecondary E pool_name scan_float64 r sc;
      _ ← emit (EvPGLag (sc_name sc) (match lag with Ok l => Some l | Err _ => None end));
      rest ← lags scs;
      mret (lag :: rest)
  end.

Definition failures (l : list (res Z)) : Z := Z.of_nat (length (filter (λ x, is_Ok x = false) l)).
Definition max_lag (l : list (res Z)) : Z :=
  foldr (λ x m, match x with Ok lag => Z.max lag m | Err _ => m end) 0%Z l.

Lemma failures_cons x l : failures (x :: l) = ((if is_Ok x then 0 else 1) + failures l)%Z.
Proof. unfold failures. rewrite filter_cons. destruct x; cbn [is_Ok]; case_decide; cbn [length]; try done; lia. Qed.

Lemma max_lag_cons x l : max_lag (x :: l) = match x with Ok lag => Z.max lag (max_lag l) | Err _ => max_lag l end.
Proof. done. Qed.

Lemma max_lag_nonneg l : (0 ≤ max_lag l)%Z.
Proof. induction l as [|[lag|e] l IH]; [done| |]; rewrite max_lag_cons; lia. Qed.

Lemma check_all_lags scs res0 ok0 h :
  (0 ≤ Lag res0)%Z →
  ∃ l h' res ok, lags scs h = (l, h') ∧ check_all E pool_name scan_float64 r scs (res0, ok0) h = ((res, ok), h') ∧
    Lag res = Z.max (Lag res0) (max_lag l) ∧ Remaining res = (Remaining res0 + failures l)%Z ∧
    Repaired res = Repaired res0 ∧ ok = ok0 && bool_decide (failures l = 0%Z).
Proof.
  revert res0 ok0 h. induction scs as [|sc scs IH]; intros res0 ok0 h Hl; cbn [lags check_all].
  { eexists _, _, _, _. split; [done|]. split; [done|]. cbn. change (failures []) with 0%Z. rewrite andb_true_r.
    split_and!; [lia|lia|done|done]. }
  unfold check_one, mbind, ST_bind. destruct (checkSecondary E pool_name scan_float64 r sc h) as [[lag|e] h1].
  - unfold emit. destruct (Z.ltb_spec 0 lag) as [Hlt|Hlt]; unfold mret, ST_ret.
    + destruct (IH (mkResult (OK res0) (Z.max (Lag res0) lag)
        (Detail res0 ++ [FS "; "; FS (sc_name sc); FS " lag="; FD lag]) (Repaired res0) (Remaining res0)) ok0
        (h1 ++ [EvPGLag (sc_name sc) (Some lag)])) as (l & h' & res & ok & -> & -> & H1 & H2 & H3 & H4); [cbn; lia|].
      eexists _, _, _, _. split; [done|]. split; [done|]. rewrite failures_cons, max_lag_cons. cbn [is_Ok Lag Remaining Repaired] in *.
      split_and!; [lia|lia|done|done].
    + destruct (IH res0 ok0 (h1 ++ [EvPGLag (sc_name sc) (Some lag)]) Hl)
        as (l & h' & res & ok & -> & -> & H1 & H2 & H3 & H4).
      pose proof (max_lag_nonneg l).
      eexists _, _, _, _. split; [done|]. split; [done|]. rewrite failures_cons, max_lag_cons. cbn [is_Ok Lag Remaining Repaired] in *.
      split_and!; [lia|lia|done|done].
  - unfold emit, mret, ST_ret.
    destruct (IH (mkResult (OK res0) (Lag res0) (Detail res0 ++ [FS "; "; FS (sc_name sc); FS " error: "; FV e])
        (Repaired res0) (Remaining res0 + 1)) false (h1 ++ [EvPGLag (sc_name sc) None]))
      as (l & h' & res & ok & -> & -> & H1 & H2 & H3 & H4); [done|].
    eexists _, _, _, _. split; [done|]. split; [done|]. rewrite failures_cons, max_lag_cons. cbn [is_Ok Lag Remaining Repaired] in *.
    split_and!; [done|lia|done|]. rewrite H4. assert (0 ≤ failures l)%Z by (unfold failures; lia).
    rewrite (bool_decide_eq_false_2 (1 + failures l = 0)%Z) by lia. by rewrite andb_false_r.
Qed.

(** The replication report.  Every secondary is checked whatever the
    others answer, and its lag gauge is set right after its check (to -1
    when the check failed); the result is OK exactly when no check failed,
    Remaining counts the failures, and Lag is the largest measured lag
    (zero when none is positive). *)
Lemma pg_report h :
  let '(l, h') := lags (pg_secondaries r) h in
  ∃ res, pg_Reconcile E pool_name scan_float64 r h = (res, h') ∧
    (OK res = true ↔ Forall (λ x, is_Ok x = true) l) ∧
    Remaining res = failures l ∧ Lag res = max_lag l ∧ Repaired res = 0%Z.
Proof.
  destruct (check_all_lags (pg_secondaries r) (mkResult false 0 [FS "ok"] 0 0) true h)
    as (l & h' & res & ok & -> & Hc & H1 & H2 & H3 & H4); [done|].
  unfold pg_Reconcile, mbind, ST_bind. rewrite Hc. eexists. split; [done|].
  cbn [fst snd OK Remaining Lag Repaired] in *. pose proof (max_lag_nonneg l). split_and!; [|lia|lia|done].
  rewrite H4. cbn [andb]. rewrite bool_decide_eq_true. clear. induction l as [|x l IH].
  - split; [constructor|done].
  - rewrite failures_cons, Forall_cons, <- IH. assert (0 ≤ failures l)%Z by (unfold failures; lia).
    destruct x; cbn [is_Ok]; [split; [intros; split; [done|lia]|intros [_ ?]; lia]|split; [lia|by intros []]].
Qed.
End result.

#[export] Instance only_pg_Reconcile E pool_name scan_float64 r :
  Only (observes [recovery_sql; lag_sql]) (pg_Reconcile E pool_name scan_float64 r).
Proof.
  unfold pg_Reconcile. apply only_bind; [|apply _]. generalize (mkResult false 0 [FS "ok"] 0 0, true).
  induction (pg_secondaries r) as [|sc scs IH]; intros acc; cbn [check_all]; [apply _|].
  apply only_bind; [|by apply IH]. destruct acc as [res ok]. unfold check_one, checkSecondary. solve_only.
  all: eapply only_one; [reflexivity|]; cbn [observes]; closed_decide.
Qed.

(** A standby with a lag and one that has been promoted. *)
Definition ex_pg_env : Env := {|
  env_exec _ _ _ _ _ := ([], None);
  env_get _ _ _ := Err (ErrExternal "no network");
  env_hops _ _ := [];
  env_disk _ _ := NFile;
  env_draw _ _ _ := 0;
  env_sql _ pool sql args := Ok
    (if bool_decide (sql = lag_sql) then [[Some ("1.5" : gostr)]]
     else if bool_decide (pool = "us") then [[Some ("t" : gostr)]] else [[Some ("f" : gostr)]]);
  env_ctx _ := None;
  env_timer _ _ := true |}.

Example pg_example :
  let r := mkPg 0 [mkConn "us" 1; mkConn "ap" 2] in
  let '(res, h) := pg_Reconcile ex_pg_env (λ i, nth i ["eu"; "us"; "ap"] []) (λ _, Ok (binary_normalize 53 1024 3 (-1) false)) r [] in
  OK res = false ∧ Lag res = 1500000000%Z ∧ Remaining res = 1%Z ∧
  h = [EvSQL "us" recovery_sql []; EvSQL "eu" lag_sql ["us"]; EvPGLag "us" (Some 1500000000%Z);
       EvSQL "ap" recovery_sql []; EvPGLag "ap" None].
Proof. vm_compute. split_and!; reflexivity. Qed.

Lemma pools_no_leak_witness :
  let '(res, s') := NewWithFactory (λ i _, if decide (i = 1) then Some (ErrExternal "refused") else None)
    (ex_config None) (mkPools 0 ∅) in
  p_open s' = ∅.
Proof.
  destruct (NewWithFactory _ _ _) as [res s'] eqn:En.
  pose proof (no_pools_ok 0) as Hok.
  pose proof (pools_no_leak _ _ _ _ _ Hok En) as H. revert H. vm_compute in En.
  injection En as <- <-. intros H. exact H.
Defined.
