(* ===== verification/ObjectStorage.v ===== *)
(** * internal/reconciler/objectstorage: parity of two S3 buckets

    The reconciler sees a bucket through the interface [bucketLister].  The
    SDK is a parameter: [LoadDefaultConfig] builds a client's configuration,
    and a paginator ([NewPaginator], [HasMorePages], [NextPage]) serves the
    pages of a listing, each a list of object sizes (nil when absent). *)
From Stdlib Require Import Ascii ZArith Lia.
From stdpp Require Import prelude strings gmap list.
From S2P Require Import Prelude World GoStrings ConfigData Reconciler.
Open Scope go_scope.

(** ** The code *)

Record s3_client := mkClient {
  cl_region : gostr;
  cl_accessKey : gostr;
  cl_secretKey : gostr;
  cl_endpoint : option gostr;
}.

(** [listerAdapter]. *)
Record lister := mkLister { li_client : s3_client; li_bucket : gostr }.

Record os_reconciler := mkOs {
  os_site : gostr;
  os_primary : lister;
  os_replica : lister;
  os_lagThreshold : Z;
}.

Definition os_name (r : os_reconciler) : gostr := QualifyName "object_storage" (os_site r).

(** The static credentials of a bucket's configuration. *)
Definition credentialsFromConfig (s3cfg : S3Config) : gostr * gostr := (s3_AccessKey s3cfg, s3_SecretKey s3cfg).

Section construction.
Context (LoadDefaultConfig : gostr → option error).

Definition newS3Client (s3cfg : S3Config) (bucket : gostr) : res lister :=
  match LoadDefaultConfig (s3_Region s3cfg) with
  | Some err => Err (Errorf [FS "load aws config (region="; FS (s3_Region s3cfg); FS "): "; FW err])
  | None =>
      Ok (mkLister (mkClient (s3_Region s3cfg) (credentialsFromConfig s3cfg).1 (credentialsFromConfig s3cfg).2
                      (if bool_decide (s3_Endpoint s3cfg ≠ []) then Some (s3_Endpoint s3cfg) else None)) bucket)
  end.

Definition os_New (site : gostr) (primary secondary : option S3Config) : res os_reconciler :=
  match primary with
  | None => Err (Errorf [FS "primary.object_storage.s3 is required for s3 backend"])
  | Some primary =>
      match newS3Client primary (s3_PrimaryBucket primary) with
      | Err err => Err (Errorf [FS "primary s3 client: "; FW err])
      | Ok pClient =>
          let repCfg := default primary secondary in
          match newS3Client repCfg (s3_ReplicaBucket repCfg) with
          | Err err => Err (Errorf [FS "replica s3 client: "; FW err])
          | Ok rClient => Ok (mkOs site pClient rClient (s3_ReplicationLag primary))
          end
      end
  end.
End construction.

(** *** Listing *)

Section stats.
Context {P : Type} (HasMorePages : P → bool) (NextPage : P → IO (res (list (option Z)) * P)).

(** The loop over the objects of a page. *)
Fixpoint add_page (contents : list (option Z)) (count totalSize : Z) : Z * Z :=
  match contents with
  | [] => (count, totalSize)
  | size :: contents =>
      add_page contents (wrap64 (count + 1))
        (match size with Some z => wrap64 (totalSize + z) | None => totalSize end)
  end.

(** The loop over the pages, for at most [fuel] turns; [None] when they are
    used up. *)
Fixpoint bucketStats (fuel : nat) (paginator : P) (count totalSize : Z) : IO (option (res (Z * Z))) :=
  match fuel with
  | O => mret None
  | S fuel =>
      if HasMorePages paginator then
        next ← NextPage paginator;
        match next with
        | (Err err, _) => mret (Some (Err err))
        | (Ok contents, paginator) =>
            let '(count, totalSize) := add_page contents count totalSize in
            bucketStats fuel paginator count totalSize
        end
      else mret (Some (Ok (count, totalSize)))
  end.
End stats.

(** *** The comparison *)

Section reconcile.
Context (E : Env).

(** [primary] and [replica] are the two [bucketLister]s. *)
Definition os_Reconcile (name : gostr) (primary replica : IO (res (Z * Z))) : IO Result :=
  p ← Retry E (0, 0)%Z 3 (2 * Second) (10 * Second) primary;
  match p with
  | Err err =>
      _ ← emit (EvDrift name "critical");
      mret (mkResult false 0 [FS "primary list: "; FV err] 0 1)
  | Ok (pCount, pSize) =>
      q ← Retry E (0, 0)%Z 3 (2 * Second) (10 * Second) replica;
      match q with
      | Err err =>
          _ ← emit (EvDrift name "critical");
          mret (mkResult false 0 [FS "replica list: "; FV err] 0 1)
      | Ok (rCount, rSize) =>
          _ ← emit (EvDuration name "ok");
          if bool_decide (pCount = rCount) && bool_decide (pSize = rSize) then
            _ ← emit (EvLastSync name);
            mret (mkResult true 0 [FS "buckets match: "; FZ pCount; FS " objects, "; FZ pSize; FS " bytes"] 0 0)
          else
            let delta := wrap64 (pCount - rCount) in
            let remaining := if (delta <? 0)%Z then wrap64 (- delta) else delta in
            _ ← emit (EvDrift name "warning");
            mret (mkResult false 0
                    [FS "drift: primary="; FZ pCount; FS "/"; FZ pSize; FS " replica="; FZ rCount; FS "/"; FZ rSize;
                     FS " (delta="; FZ delta; FS ")"] 0 remaining)
      end
  end.
End reconcile.

(** ** Listing *)

Section listing.
Context {P : Type} (HasMorePages : P → bool) (NextPage : P → IO (res (list (option Z)) * P)).

(** What a paginator serves from here: its pages until it has no more, or
    until the first error. *)
Inductive serves : P → history → list (list (option Z)) → option error → history → Prop :=
| serves_end p h : HasMorePages p = false → serves p h [] None h
| serves_page p h contents p' h' pages e h'' :
    HasMorePages p = true → NextPage p h = ((Ok contents, p'), h') → serves p' h' pages e h'' →
    serves p h (contents :: pages) e h''
| serves_err p h e p' h' :
    HasMorePages p = true → NextPage p h = ((Err e, p'), h') → serves p h [] (Some e) h'.

Definition total_size (contents : list (option Z)) : Z := foldr Z.add 0%Z (default 0%Z <$> contents).

Lemma total_size_app l k : total_size (l ++ k) = (total_size l + total_size k)%Z.
Proof. unfold total_size. induction l as [|x l IH]; cbn in *; [done|]. rewrite IH. lia. Qed.

Lemma add_page_sum contents c s :
  add_page contents (wrap64 c) (wrap64 s) = (wrap64 (c + Z.of_nat (length contents)), wrap64 (s + total_size contents)).
Proof.
  revert c s. induction contents as [|x contents IH]; intros c s; cbn [add_page length].
  { by rewrite !Z.add_0_r. }
  assert (match x with Some z => wrap64 (wrap64 s + z) | None => wrap64 s end = wrap64 (s + default 0%Z x)) as ->.
  { destruct x; cbn [default from_option id]; [apply wrap64_add|]. by rewrite Z.add_0_r. }
  rewrite wrap64_add, IH. unfold total_size. cbn [fmap list_fmap foldr]. f_equal; f_equal; lia.
Qed.

Lemma bucketStats_serves p h pages e h' fuel c s : serves p h pages e h' → length pages < fuel →
  bucketStats HasMorePages NextPage fuel p (wrap64 c) (wrap64 s) h =
  (Some (match e with
         | None => Ok (wrap64 (c + Z.of_nat (length (mjoin pages))), wrap64 (s + total_size (mjoin pages)))
         | Some e => Err e
         end), h').
Proof.
  intros Hs. revert fuel c s. induction Hs as [p h Hm|p h contents p' h' pages e h'' Hm Hn Hs IH|p h e p' h' Hm Hn];
    intros [|fuel] c s Hf; cbn [length] in Hf; try lia; cbn [bucketStats]; rewrite Hm.
  - cbn. by rewrite !Z.add_0_r.
  - unfold mbind, ST_bind. rewrite Hn, add_page_sum, IH by lia. cbn [mjoin list_join]. destruct e; [done|].
    by rewrite length_app, total_size_app, Nat2Z.inj_add, !Z.add_assoc.
  - unfold mbind, ST_bind. by rewrite Hn.
Qed.

(** Listing a bucket ends and adds everything up.  For a paginator that
    serves finitely many pages, one turn more than there are pages is
    enough; the result is the number of objects and the sum of their sizes
    (an object without a size counts as nothing) over all the pages, in
    64-bit arithmetic, or the paginator's first error, never a partial
    sum. *)
Lemma bucketStats_total p h pages e h' fuel :
  serves p h pages e h' → length pages < fuel →
  bucketStats HasMorePages NextPage fuel p 0 0 h =
  (Some (match e with
         | None => Ok (wrap64 (Z.of_nat (length (mjoin pages))), wrap64 (total_size (mjoin pages)))
         | Some e => Err e
         end), h').
Proof. intros Hs Hf. apply (bucketStats_serves p h pages e h' fuel 0 0 Hs Hf). Qed.
End listing.

#[export] Instance only_os_Reconcile E sqls name primary replica :
  Only (observes sqls) primary → Only (observes sqls) replica → Only (observes sqls) (os_Reconcile E name primary replica).
Proof.
  intros Hp Hq. unfold os_Reconcile. apply only_bind; [by apply only_Retry|intros [[pc ps]|e]; [|solve_only]].
  apply only_bind; [by apply only_Retry|intros [[rc rs]|e]; solve_only].
Qed.

(** ** Parity *)

Section parity.
Context (E : Env) (Hctx : ctx_cancels E).

Definition waits : list Z := [2 * Second; 4 * Second]%Z.

Lemma Retry_tries fn h r h' : Retry E (0, 0)%Z 3 (2 * Second) (10 * Second) fn h = (r, h') → tries E fn waits h r h'.
Proof using Hctx. intros Hr. by apply retry_loop_tries in Hr; [|done|unfold Second; lia..]. Qed.

(** C34: bucket parity.  The primary is listed first, then the replica, each
    in up to three attempts: after a failed attempt comes a wait of 2, then
    of 4 seconds, and then the next attempt; the first listing that succeeds
    counts, the error of the third attempt is final, and a wait that the end
    of the context cuts short gives the context's error.  The result is OK,
    and the last-sync time updated, exactly when both listings gave the same
    count and the same size; when a listing fails for good, or the context
    ends, one thing remains; otherwise Remaining is the difference of the
    counts, which is zero when only the sizes differ.  The counts are those
    of the listings, read as [int64]s. *)
Theorem bucket_parity name primary replica h r h' :
  os_Reconcile E name primary replica h = (r, h') →
  ∃ p h1, tries E primary waits h p h1 ∧
    match p with
    | Err _ => OK r = false ∧ Remaining r = 1%Z ∧ h' = h1 ++ [EvDrift name "critical"]
    | Ok (pCount, pSize) => ∃ q h2, tries E replica waits h1 q h2 ∧
        match q with
        | Err _ => OK r = false ∧ Remaining r = 1%Z ∧ h' = h2 ++ [EvDrift name "critical"]
        | Ok (rCount, rSize) =>
            (OK r = true ↔ pCount = rCount ∧ pSize = rSize) ∧
            h' = h2 ++ [EvDuration name "ok"; if OK r then EvLastSync name else EvDrift name "warning"] ∧
            (OK r = true → Remaining r = 0%Z) ∧
            ((0 ≤ pCount ≤ int64_max)%Z → (0 ≤ rCount ≤ int64_max)%Z → Remaining r = Z.abs (pCount - rCount))
        end
    end.
Proof using Hctx.
  unfold os_Reconcile, mbind, ST_bind.
  destruct (Retry E (0, 0)%Z 3 _ _ primary h) as [p h1] eqn:E1. apply Retry_tries in E1 as L1.
  destruct p as [[pCount pSize]|e].
  2: { unfold emit. intros [= <- <-]. by exists (Err e), h1. }
  destruct (Retry E (0, 0)%Z 3 _ _ replica h1) as [q h2] eqn:E2. apply Retry_tries in E2 as L2.
  intros Hr. exists (Ok (pCount, pSize)), h1. split; [done|]. exists q, h2. split; [done|]. revert Hr.
  destruct q as [[rCount rSize]|e]; [|unfold emit; by intros [= <- <-]].
  unfold emit. destruct (bool_decide (pCount = rCount) && bool_decide (pSize = rSize)) eqn:Ed; unfold mret, ST_ret;
    intros [= <- <-]; cbn [OK Remaining]; rewrite <- app_assoc.
  - apply andb_true_iff in Ed as [->%bool_decide_eq_true_1 ->%bool_decide_eq_true_1].
    split_and!; [done|done|done|intros; lia].
  - apply andb_false_iff in Ed. split_and!; [|done|done|].
    + split; [done|]. intros [-> ->]. rewrite !bool_decide_eq_true_2 in Ed by done. by destruct Ed.
    + intros H1 H2. unfold int64_max in *. rewrite (wrap64_id (pCount - rCount)) by (unfold in_int64, int64_min, int64_max; lia).
      destruct (Z.ltb_spec (pCount - rCount) 0); [|lia].
      rewrite wrap64_id by (unfold in_int64, int64_min, int64_max; lia). lia.
Qed.
End parity.

(** ** Runs *)

(** A listing that fails once. *)
Definition ex_listing (size : Z) : IO (res (Z * Z)) := λ h,
  (if bool_decide (sleeps h = []) then Err (ErrExternal "throttled") else Ok (7, size)%Z, h).

(** Equal counts with different sizes: drift, with nothing remaining. *)
Example same_count_other_size :
  let '(r, h) := os_Reconcile Reconciler.ex_env "object_storage" (ex_listing 10) (ex_listing 11) [] in
  OK r = false ∧ Remaining r = 0%Z ∧ sleeps h = [2 * Second]%Z.
Proof. vm_compute. split_and!; reflexivity. Qed.

(** A paginator over a list of pages. *)
Definition ex_more (p : list (list (option Z))) : bool := negb (bool_decide (p = [])).
Definition ex_page (p : list (list (option Z))) : IO (res (list (option Z)) * list (list (option Z))) := λ h,
  match p with
  | [] => ((Err (ErrExternal "no more pages"), []), h)
  | contents :: p => ((Ok contents, p), h)
  end.

Lemma bucketStats_total_witness :
  bucketStats ex_more ex_page 3 [[Some 5; None]; [Some 7]]%Z 0 0 [] = (Some (Ok (3, 12)%Z), []).
Proof.
  rewrite (bucketStats_total ex_more ex_page [[Some 5; None]; [Some 7]]%Z [] [[Some 5; None]; [Some 7]]%Z None [] 3).
  - reflexivity.
  - repeat econstructor.
  - cbn. lia.
Defined.

Lemma bucket_parity_witness :
  ∃ p h1, tries Reconciler.ex_env (ex_listing 10) waits [] p h1 ∧
    match p with
    | Err _ => OK (os_Reconcile Reconciler.ex_env "object_storage" (ex_listing 10) (ex_listing 11) []).1 = false
    | Ok _ => ∃ q h2, tries Reconciler.ex_env (ex_listing 11) waits h1 q h2
    end.
Proof.
  destruct (bucket_parity Reconciler.ex_env (λ h d H, False_ind _ (diff_true_false H)) "object_storage" (ex_listing 10) (ex_listing 11) []
    (os_Reconcile Reconciler.ex_env "object_storage" (ex_listing 10) (ex_listing 11) []).1
    (os_Reconcile Reconciler.ex_env "object_storage" (ex_listing 10) (ex_listing 11) []).2) as (p & h1 & H1 & H2).
  - apply surjective_pairing.
  - exists p, h1. split; [exact H1|]. destruct p as [[pc ps]|e]; [|exact (proj1 H2)].
    destruct H2 as (q & h2 & Hq & _). by exists q, h2.
Defined.
