(* ===== verification/PgSetup.v ===== *)
(** * internal/pgsetup: bootstrapping a standby

    [pg_basebackup] runs through the environment; the data directory is
    listed by [ReadDir], and [postgresql.auto.conf] is read by [ReadFile]
    after it.  Files the program writes are recorded in the state. *)
From Stdlib Require Import Ascii ZArith Lia.
From stdpp Require Import prelude strings gmap list.
From S2P Require Import Prelude World GoStrings GoPath Dsn.
Open Scope go_scope.

(** ** The code *)

Record Options := mkOptions {
  PrimaryDSN : gostr;
  Password : gostr;
  DataDir : gostr;
  SlotName : gostr;
  DryRun : bool;
}.

Definition buildBasebackupArgs (opts : Options) : list gostr :=
  ["-D"; DataDir opts; "-d"; PrimaryDSN opts; "-X"; "stream"; "-c"; "fast"; "-R"; "-P"] ++
  (if bool_decide (SlotName opts ≠ []) then ["-S"; SlotName opts; "--create-slot"] else []).

(** [dsnPasswordRe]: after the key, a single-quoted string with backslash
    escapes (of anything but a line feed), or else a run of bytes that are
    not spaces.  [quoted_end s] is the rest after the closing quote; without
    one the second alternative applies. *)
Fixpoint quoted_end (s : gostr) : option gostr :=
  match s with
  | [] => None
  | c :: s' =>
      if bool_decide (c = SQ) then Some s'
      else if bool_decide (c = BSL) then
        match s' with
        | [] => None
        | d :: s'' => if bool_decide (d = LF) then None else quoted_end s''
        end
      else quoted_end s'
  end.

Definition re_space (c : ascii) : bool := in_set [TAB; LF; "012"%char; CR; SPC] c.

Definition bare_end (s : gostr) : gostr := (span (λ c, negb (re_space c)) s).2.

Definition password_end (s : gostr) : gostr :=
  match s with
  | [] => []
  | c :: s' =>
      if bool_decide (c = SQ) then match quoted_end s' with Some r => r | None => bare_end s end
      else bare_end s
  end.

Definition password_key : gostr := "password=".

(** [ReplaceAllString]: matches are found from left to right; each step
    consumes at least a byte, so the length is enough fuel. *)
Fixpoint redact (fuel : nat) (s : gostr) : gostr :=
  match fuel, s with
  | S fuel, c :: s' =>
      if HasPrefix s password_key
      then password_key ++ "***" ++ redact fuel (password_end (drop (length password_key) s))
      else c :: redact fuel s'
  | _, _ => []
  end.

Definition RedactDSN (s : gostr) : gostr := redact (length s) s.

Definition ErrNotExist : gostr := "fs.ErrNotExist".

(** [injectAppName]. *)
Definition injectAppName (line appName : gostr) : gostr :=
  match LastIndex line [SQ] with
  | None => line ++ " application_name=" ++ appName ++ "'"
  | Some idx => take idx line ++ " application_name=" ++ appName ++ "'"
  end.

Definition conninfo_prefix : gostr := "primary_conninfo = ".

(** The loop over the lines: the new lines, and whether one was found. *)
Fixpoint update_lines (appName : gostr) (lines : list gostr) : list gostr * bool :=
  match lines with
  | [] => ([], false)
  | line :: lines =>
      if HasPrefix line conninfo_prefix then
        ((if Contains line "application_name=" then line else injectAppName line appName) :: lines, true)
      else
        let '(rest, found) := update_lines appName lines in (line :: rest, found)
  end.

(** The text [appendConnInfoAppname] writes. *)
Definition new_conf (appName content : gostr) : gostr :=
  let '(lines, found) := update_lines appName (SplitByte content LF) in
  let lines := if (found : bool) then lines
               else lines ++ ["primary_conninfo = 'application_name=" ++ appName ++ "'"] in
  let out := JoinWith lines [LF] in
  if negb (HasSuffix out [LF]) then out ++ [LF] else out.

(** The history and the files written: path and content. *)
Record setup := mkSetup { ps_hist : history; ps_files : list (gostr * gostr) }.

Section pgsetup.
Context (E : Env).
Context (ReadDir : gostr → res (list gostr)) (ReadFile : history → gostr → res gostr).
Context (WriteFile : history → gostr → gostr → option error).

Definition checkDataDir (dir : gostr) : err :=
  match ReadDir dir with
  | Ok entries =>
      if bool_decide (entries ≠ [])
      then Err (Errorf [FS "data_dir "; FS dir; FS " is not empty (refusing to overwrite)"])
      else nil_error
  | Err err =>
      if errors_Is err ErrNotExist then nil_error
      else Err (Errorf [FS "inspect data_dir "; FS dir; FS ": "; FW err])
  end.

(** [runBasebackup(ctx, opts).Run()]. *)
Definition runBasebackup (opts : Options) : ST setup err := λ s,
  let env := if bool_decide (Password opts ≠ []) then ["PGPASSWORD=" ++ Password opts] else [] in
  let '((_, e), h) := io_exec E "pg_basebackup" (buildBasebackupArgs opts) env None (ps_hist s) in
  (of_error e, mkSetup h (ps_files s)).

Definition appendConnInfoAppname (dataDir appName : gostr) : ST setup err := λ s,
  if bool_decide (appName = []) then (nil_error, s)
  else
    let path := PathJoin dataDir "postgresql.auto.conf" in
    match ReadFile (ps_hist s) path with
    | Err err => (Err (Errorf [FS "read postgresql.auto.conf: "; FW err]), s)
    | Ok content =>
        let out := new_conf appName content in
        match WriteFile (ps_hist s) path out with
        | Some err => (Err err, s)
        | None => (nil_error, mkSetup (ps_hist s) (ps_files s ++ [(path, out)]))
        end
    end.

(** What a run prints is its second result. *)
Definition setup_Run (opts : Options) : ST setup (err * list gostr) := λ s,
  if bool_decide (DataDir opts = []) then ((Err (Errorf [FS "data_dir is required"]), []), s)
  else if bool_decide (PrimaryDSN opts = []) then ((Err (Errorf [FS "primary_dsn is required"]), []), s)
  else
    match checkDataDir (DataDir opts) with
    | Err err => ((Err err, []), s)
    | Ok _ =>
        let args := buildBasebackupArgs opts in
        if DryRun opts then
          ((nil_error, ["[dry-run] pg_basebackup " ++ RedactDSN (JoinWith args " ")] ++
              (if bool_decide (Password opts ≠ []) then ["[dry-run] PGPASSWORD supplied via environment"] else [])), s)
        else
          let out := ["running pg_basebackup into " ++ DataDir opts ++ " ..."] in
          match runBasebackup opts s with
          | (Err err, s) => ((Err (Errorf [FS "pg_basebackup: "; FW err]), out), s)
          | (Ok _, s) =>
              match appendConnInfoAppname (DataDir opts) (SlotName opts) s with
              | (Err err, s) => ((Err err, out), s)
              | (Ok _, s) => ((nil_error, out ++ ["standby bootstrap complete. data_dir=" ++ DataDir opts]), s)
              end
          end
    end.
End pgsetup.

(** ** Redaction *)

Lemma Contains_cons c s sub : Contains s sub = true → Contains (c :: s) sub = true.
Proof.
  unfold Contains. cbn [Index]. destruct (HasPrefix (c :: s) sub); [done|]. by destruct (Index s sub).
Qed.

Lemma Contains_true s sub : Contains s sub = true ↔ ∃ x y, s = x ++ sub ++ y.
Proof.
  split.
  - induction s as [|c s IH]; unfold Contains; cbn [Index].
    + destruct (HasPrefix [] sub) eqn:E; [|done]. intros _. apply HasPrefix_true in E as [y ->]. by exists [], y.
    + destruct (HasPrefix (c :: s) sub) eqn:E.
      { intros _. apply HasPrefix_true in E as [y ->]. by exists [], y. }
      unfold Contains in IH. destruct (Index s sub) as [i|]; cbn; [|done].
      intros _. destruct IH as (x & y & ->); [done|]. by exists (c :: x), y.
  - intros (x & y & ->). induction x as [|c x IH].
    + unfold Contains. cbn [app]. destruct (sub ++ y) eqn:E; cbn [Index]; rewrite <- E, HasPrefix_app; done.
    + by apply Contains_cons.
Qed.

Lemma Contains_HasPrefix s sub : Contains s sub = false → HasPrefix s sub = false.
Proof. unfold Contains. destruct s; cbn [Index]; by destruct (HasPrefix _ sub). Qed.

Lemma Contains_false_cons c s sub : Contains (c :: s) sub = false → Contains s sub = false.
Proof.
  intros H. apply not_true_iff_false. intros Hc. apply (Contains_cons c) in Hc. congruence.
Qed.

Lemma quoted_end_length n s r : length s ≤ n → quoted_end s = Some r → length r ≤ length s.
Proof.
  revert s. induction n as [|n IH]; intros [|c s] Hn; cbn [length quoted_end] in *; try done; [lia|].
  case_bool_decide; [intros [= ->]; lia|]. case_bool_decide.
  - destruct s as [|d s]; [done|]. case_bool_decide; [done|]. cbn [length] in *.
    intros Hr%IH; lia.
  - intros Hr%IH; lia.
Qed.

Lemma bare_end_length s : length (bare_end s) ≤ length s.
Proof.
  unfold bare_end. destruct (span_spec (λ c, negb (re_space c)) s) as [Hs _].
  apply (f_equal length) in Hs. rewrite length_app in Hs. lia.
Qed.

Lemma password_end_length s : length (password_end s) ≤ length s.
Proof.
  unfold password_end. destruct s as [|c s]; [done|]. case_bool_decide; [|apply bare_end_length].
  destruct (quoted_end s) eqn:E; [|apply bare_end_length].
  apply (quoted_end_length _ _ _ (le_n _)) in E. cbn. lia.
Qed.

Lemma redact_fuel n m s : length s ≤ n → length s ≤ m → redact n s = redact m s.
Proof.
  revert m s. induction n as [|n IH]; intros m s Hn Hm.
  { destruct s; [|cbn in Hn; lia]. by destruct m. }
  destruct s as [|c s]; [by destruct m|]. destruct m as [|m]; [cbn in Hm; lia|].
  cbn [length] in Hn, Hm. cbn [redact]. destruct (HasPrefix (c :: s) password_key).
  - do 2 f_equal. pose proof (password_end_length (drop (length password_key) (c :: s))) as Hl.
    rewrite length_drop in Hl. cbn [length password_key] in Hl |- *. apply IH; cbn [length] in *; lia.
  - f_equal. apply IH; lia.
Qed.

Lemma RedactDSN_key s : RedactDSN (password_key ++ s) = password_key ++ "***" ++ RedactDSN (password_end s).
Proof.
  unfold RedactDSN. pose proof (password_end_length s) as Hl.
  change (length (password_key ++ s)) with (S (8 + length s)).
  assert (redact (S (8 + length s)) (password_key ++ s) =
    if HasPrefix (password_key ++ s) password_key
    then password_key ++ "***" ++ redact (8 + length s) (password_end (drop (length password_key) (password_key ++ s)))
    else "p"%char :: redact (8 + length s) (drop 1 (password_key ++ s))) as -> by done.
  rewrite HasPrefix_app, drop_app_length. do 2 f_equal. apply redact_fuel; lia.
Qed.

Lemma RedactDSN_cons c s : HasPrefix (c :: s) password_key = false → RedactDSN (c :: s) = c :: RedactDSN s.
Proof. intros H. unfold RedactDSN. cbn [length redact]. by rewrite H. Qed.

(** Text that holds no password, up to a space. *)
Definition no_password (pre : gostr) : Prop :=
  Contains pre password_key = false ∧ (pre = [] ∨ last pre = Some SPC).

Lemma app_prefix_cases {A} (u v k t : list A) : u ++ v = k ++ t → length u < length k → u `prefix_of` k.
Proof.
  revert k. induction u as [|x u IH]; intros [|y k] H Hl; cbn in *; try lia; [apply prefix_nil|].
  injection H as -> H. apply prefix_cons. apply IH; [done|lia].
Qed.

Lemma no_password_prefix pre rest : no_password pre → pre ≠ [] → HasPrefix (pre ++ rest) password_key = false.
Proof.
  intros [Hc [->|Hl]] Hne; [done|]. apply HasPrefix_false. intros [t Ht].
  destruct (decide (length pre < length password_key)) as [Hlt|Hge].
  - pose proof (app_prefix_cases _ _ _ _ Ht Hlt) as [k Hk].
    assert (SPC ∈ password_key) as Hin by (rewrite Hk; apply elem_of_app; left; by apply last_Some_elem_of).
    revert Hin. closed_decide.
  - apply not_true_iff_false in Hc. apply Hc, Contains_true. exists [], (drop (length password_key) pre).
    cbn [app]. apply (f_equal (take (length password_key))) in Ht.
    rewrite take_app_length, take_app_le in Ht by lia. 
    transitivity (take (length password_key) pre ++ drop (length password_key) pre); [by rewrite take_drop|by rewrite Ht].
Qed.

Lemma RedactDSN_pre pre rest : no_password pre → RedactDSN (pre ++ rest) = pre ++ RedactDSN rest.
Proof.
  induction pre as [|c pre IH]; intros Hn; [done|]. cbn [app].
  rewrite RedactDSN_cons by (by apply (no_password_prefix (c :: pre))). f_equal. apply IH.
  destruct Hn as [Hc [Hl|Hl]]; [done|]. split; [by eapply Contains_false_cons|].
  destruct pre as [|d pre]; [by left|by right].
Qed.

Lemma quoted_end_escape v rest : quoted_end (escape_libpq v ++ SQ :: rest) = Some rest.
Proof.
  induction v as [|c v IH]; [done|]. cbn [escape_libpq]. unfold in_set. case_bool_decide as Hc.
  - rewrite <- app_assoc. cbn [app quoted_end]. rewrite (bool_decide_eq_false_2 (BSL = SQ)), (bool_decide_eq_true_2 (BSL = BSL)) by done.
    rewrite bool_decide_eq_false_2; [done|]. intros ->. revert Hc. closed_decide.
  - rewrite <- app_assoc. cbn [app quoted_end]. rewrite !bool_decide_eq_false_2; [done| |];
      intros ->; apply Hc; [left|right; left].
Qed.

(** The values whose rendering the regular expression covers whole. *)
Definition redactable (v : gostr) : Prop :=
  ContainsAny v [SPC; SQ; BSL] = true ∨ Forall (λ c, re_space c = false) v.

(** What follows a value in a connection string. *)
Definition follows (rest : gostr) : Prop := rest = [] ∨ head rest = Some SPC.

Lemma bare_end_value v rest : Forall (λ c, re_space c = false) v → follows rest → bare_end (v ++ rest) = rest.
Proof.
  intros Hv Hr. unfold bare_end.
  assert (Forall (λ c, negb (re_space c) = true) v) as Hv' by (eapply Forall_impl; [exact Hv|]; by intros c ->).
  destruct rest as [|c rest].
  - rewrite app_nil_r. induction Hv' as [|c v Hc Hv' IH]; [done|]. cbn [span]. rewrite Hc.
    apply Forall_cons in Hv as [_ Hv]. specialize (IH Hv). by destruct (span _ v).
  - destruct Hr as [|[= ->]]; [done|]. by rewrite span_stop.
Qed.

Lemma password_end_value v rest : redactable v → follows rest → password_end (quoteLibPQValue v ++ rest) = rest.
Proof.
  intros Hv Hr. unfold quoteLibPQValue. case_bool_decide as Hne; [done|].
  destruct (ContainsAny v [SPC; SQ; BSL]) eqn:Ec; cbn [negb].
  - rewrite <- !app_assoc. change ("'" ++ escape_libpq v ++ "'" ++ rest) with (SQ :: escape_libpq v ++ SQ :: rest).
    cbn [password_end]. rewrite bool_decide_eq_true_2 by done. by rewrite quoted_end_escape.
  - destruct Hv as [Hv|Hv]; [congruence|]. destruct v as [|c v]; [done|]. cbn [app password_end].
    assert (c ≠ SQ) as Hc.
    { intros ->. apply ContainsAny_false, Forall_cons in Ec as [Ec _]. apply Ec. right; left. }
    rewrite bool_decide_eq_false_2 by done. by apply (bare_end_value (c :: v)).
Qed.

(** What [pg setup] prints of a connection string hides the password.
    A password field whose value was rendered by [quoteLibPQValue], anywhere
    in a text (after text with no other password), is printed as three
    stars, the text before it is untouched, and the text after it is treated
    the same way; the value may hold anything, spaces and quotes included,
    except a tab, line feed, form feed or carriage return in a value that
    [quoteLibPQValue] leaves bare. *)
Lemma RedactDSN_hides pre v rest :
  no_password pre → redactable v → follows rest →
  RedactDSN (pre ++ password_key ++ quoteLibPQValue v ++ rest) = pre ++ password_key ++ "***" ++ RedactDSN rest.
Proof. intros Hp Hv Hr. by rewrite RedactDSN_pre, RedactDSN_key, password_end_value. Qed.

Lemma RedactDSN_hides_witness :
  RedactDSN ("-d host=db " ++ password_key ++ quoteLibPQValue "it's \ 1" ++ " sslmode=require") =
  "-d host=db " ++ password_key ++ "***" ++ RedactDSN " sslmode=require".
Proof.
  apply RedactDSN_hides; [split; [reflexivity|by right]|left; reflexivity|by right].
Defined.

(** The bare value with a tab that [quoteLibPQValue] does not quote. *)
Example tab_password_leaks :
  RedactDSN (password_key ++ quoteLibPQValue ("se" ++ TAB :: "cret")) = password_key ++ "***" ++ TAB :: "cret".
Proof. reflexivity. Qed.

(** ** postgresql.auto.conf *)

Section conf.
Context (appName : gostr).

Definition app_key : gostr := "application_name=".

Definition updated (line : gostr) : gostr := if Contains line app_key then line else injectAppName line appName.

(** The line the standby reads its connection from: the first one. *)
Definition conninfo_at (lines l1 : list gostr) (line : gostr) (l2 : list gostr) : Prop :=
  lines = l1 ++ line :: l2 ∧ Forall (λ l, HasPrefix l conninfo_prefix = false) l1 ∧ HasPrefix line conninfo_prefix = true.

Lemma update_lines_found l1 line l2 : conninfo_at (l1 ++ line :: l2) l1 line l2 →
  update_lines appName (l1 ++ line :: l2) = (l1 ++ updated line :: l2, true).
Proof.
  intros (_ & Hl1 & Hline). induction Hl1 as [|x l1 Hx Hl1 IH]; cbn [app update_lines]; [by rewrite Hline|].
  by rewrite Hx, IH.
Qed.

Lemma update_lines_cases lines :
  (∃ l1 line l2, conninfo_at lines l1 line l2 ∧ update_lines appName lines = (l1 ++ updated line :: l2, true)) ∨
  (Forall (λ l, HasPrefix l conninfo_prefix = false) lines ∧ update_lines appName lines = (lines, false)).
Proof.
  induction lines as [|x lines IH]; [by right|]. cbn [update_lines].
  destruct (HasPrefix x conninfo_prefix) eqn:Ex.
  - left. by exists [], x, lines.
  - destruct IH as [(l1 & line & l2 & (-> & H1 & H2) & ->)|[Hl ->]].
    + left. exists (x :: l1), line, l2. split; [|done]. split_and!; [done|by constructor|done].
    + right. split; [by constructor|done].
Qed.

(** The injected parameter is there, and the line is still the same key. *)
Lemma injectAppName_shape line : ∃ u v, injectAppName line appName = u ++ " application_name=" ++ appName ++ v ∧
  v = "'" ∧ u `prefix_of` line ∧ (conninfo_prefix `prefix_of` line → conninfo_prefix `prefix_of` u).
Proof.
  unfold injectAppName. destruct (LastIndex line [SQ]) as [i|] eqn:E.
  - exists (take i line), "'". split; [done|]. split; [done|]. split; [apply prefix_take|].
    apply LastIndex_byte_Some in E as [Hl _]. intros [t Ht].
    assert (length conninfo_prefix ≤ i) as Hi.
    { apply Nat.nlt_ge. intros Hlt. assert (line !! i = Some SQ) as Hi.
      { rewrite Hl, lookup_app_r by (rewrite length_take; lia). rewrite length_take.
        assert (i < length line) by (rewrite Ht, length_app; lia). by replace (i - i `min` length line) with 0 by lia. }
      rewrite Ht, lookup_app_l in Hi by done. apply list_elem_of_lookup_2 in Hi. revert Hi. closed_decide. }
    exists (take (i - length conninfo_prefix) t). rewrite Ht, take_app_ge by done. done.
  - exists line, "'". split; [done|]. split; [done|]. split; [done|done].
Qed.

Lemma updated_ok line : HasPrefix line conninfo_prefix = true →
  HasPrefix (updated line) conninfo_prefix = true ∧ Contains (updated line) app_key = true.
Proof.
  intros Hp. unfold updated. destruct (Contains line app_key) eqn:Ec; [done|].
  destruct (injectAppName_shape line) as (u & v & -> & _ & _ & Hu).
  apply HasPrefix_true in Hp as [t Ht]. destruct Hu as [w ->]; [by exists t|]. split.
  - rewrite <- app_assoc. apply HasPrefix_app.
  - apply Contains_true. exists ((conninfo_prefix ++ w) ++ " "), (appName ++ v). by rewrite <- !app_assoc.
Qed.

Lemma updated_no_LF line : LF ∉ appName → LF ∉ line → LF ∉ updated line.
Proof.
  intros Ha Hl. unfold updated. destruct (Contains line app_key); [done|].
  destruct (injectAppName_shape line) as (u & v & -> & -> & [w ->] & _).
  rewrite !not_elem_of_app in *. split_and!; [apply Hl|closed_decide|done|closed_decide].
Qed.

(** [out ++ LF] unless it ends so. *)
Definition end_line (out : gostr) : gostr := if negb (HasSuffix out [LF]) then out ++ [LF] else out.

Lemma HasSuffix_byte s c : HasSuffix (s ++ [c]) [c] = true.
Proof.
  unfold HasSuffix. apply andb_true_iff. split; apply bool_decide_eq_true; [rewrite length_app; cbn; lia|].
  rewrite length_app, Nat.add_sub. apply drop_app_length.
Qed.

Lemma end_line_suffix s : HasSuffix (end_line s) [LF] = true.
Proof. unfold end_line. destruct (HasSuffix s [LF]) eqn:E; cbn [negb]; [done|apply HasSuffix_byte]. Qed.

Lemma end_line_idem s : end_line (end_line s) = end_line s.
Proof.
  unfold end_line at 2. destruct (HasSuffix s [LF]) eqn:E; cbn [negb]; [done|].
  unfold end_line. by rewrite HasSuffix_byte, E.
Qed.

(** The lines of a text that has been ended: one more empty line at most. *)
Lemma end_line_lines lines : lines ≠ [] → Forall (λ l, LF ∉ l) lines →
  ∃ tail, SplitByte (end_line (JoinWith lines [LF])) LF = lines ++ tail ∧ Forall (λ l, l = []) tail.
Proof.
  intros Hne Hl. unfold end_line. destruct (negb _).
  - exists [[]]. split; [|by repeat constructor].
    change (JoinWith lines [LF] ++ [LF]) with (JoinWith lines [LF] ++ [LF] ++ JoinWith [[]] [LF]).
    rewrite <- Join_app by done. apply Split_Join; [by destruct lines|].
    apply Forall_app. split; [done|]. repeat constructor. apply not_elem_of_nil.
  - exists []. rewrite app_nil_r. split; [by apply Split_Join|constructor].
Qed.

(** A file whose first conninfo line names the application is only ended. *)
Lemma new_conf_named content l1 line l2 :
  conninfo_at (SplitByte content LF) l1 line l2 → Contains line app_key = true → new_conf appName content = end_line content.
Proof.
  intros Hat Hc. unfold new_conf. destruct Hat as (He & Hrest). rewrite He.
  rewrite update_lines_found by done. unfold updated. rewrite Hc. rewrite <- He. fold (end_line (JoinWith (SplitByte content LF) [LF])).
  by rewrite Join_Split.
Qed.

Definition appended_line : gostr := "primary_conninfo = 'application_name=" ++ appName ++ "'".

(** The standby's configuration.  The file [pg setup] writes ends in a
    line feed; its first [primary_conninfo] line, the one the standby reads,
    names the application; every other line is kept, in order; running it
    again changes nothing; and a quoted conninfo gets the parameter inside
    its closing quote. *)
Lemma new_conf_names content : LF ∉ appName →
  let out := new_conf appName content in
  HasSuffix out [LF] = true ∧
  (∃ l1 line l2, conninfo_at (SplitByte out LF) l1 line l2 ∧ Contains line app_key = true ∧
     ((∃ old l2', conninfo_at (SplitByte content LF) l1 old l2' ∧ line = updated old ∧ l2' `prefix_of` l2) ∨
      (l1 = SplitByte content LF ∧ line = appended_line))) ∧
  new_conf appName out = out ∧
  (∀ key x, injectAppName (key ++ "'" ++ x ++ "'") appName = key ++ "'" ++ x ++ " application_name=" ++ appName ++ "'").
Proof.
  intros Ha. cbv zeta.
  assert (∃ l1 line l2 tail, new_conf appName content = end_line (JoinWith (l1 ++ line :: l2) [LF]) ∧
    SplitByte (new_conf appName content) LF = (l1 ++ line :: l2) ++ tail ∧
    conninfo_at (l1 ++ line :: l2) l1 line l2 ∧ Contains line app_key = true ∧
     ((∃ old, conninfo_at (SplitByte content LF) l1 old l2 ∧ line = updated old) ∨
      (l1 = SplitByte content LF ∧ line = appended_line))) as (l1 & line & l2 & tail & Hout & Hsplit & (_ & Hl1 & Hline) & Hc & Hold).
  { pose proof (SplitByte_no_sep content LF) as Hlf. unfold new_conf.
    destruct (update_lines_cases (SplitByte content LF)) as [(l1 & old & l2 & Hat & ->)|[Hno ->]].
    - destruct Hat as (He & Hl1 & Hp). rewrite He in Hlf.
      apply Forall_app in Hlf as [Hf1 [Hf2 Hf3]%Forall_cons]. destruct (updated_ok old Hp) as [Hp' Hc].
      destruct (end_line_lines (l1 ++ updated old :: l2)) as (tail & Ht & _); [by destruct l1| |].
      { apply Forall_app. split; [done|]. constructor; [by apply updated_no_LF|done]. }
      exists l1, (updated old), l2, tail. split_and!; try done. left. by exists old.
    - destruct (end_line_lines (SplitByte content LF ++ [appended_line])) as (tail & Ht & _).
      { by destruct (SplitByte content LF). }
      { apply Forall_app. split; [done|]. constructor; [|constructor]. unfold appended_line.
        rewrite !not_elem_of_app. split_and!; [closed_decide|done|closed_decide]. }
      exists (SplitByte content LF), appended_line, [], tail. split_and!; try done.
      by right. }
  assert (conninfo_at (SplitByte (new_conf appName content) LF) l1 line (l2 ++ tail)) as Hat.
  { split_and!; [|done|done]. by rewrite Hsplit, <- app_assoc. }
  split_and!.
  - rewrite Hout. apply end_line_suffix.
  - exists l1, line, (l2 ++ tail). split; [done|]. split; [done|].
    destruct Hold as [(old & ? & ?)|?]; [left|by right]. exists old, l2. split_and!; [done|done|by apply prefix_app_r].
  - rewrite (new_conf_named _ _ _ _ Hat Hc). rewrite Hout. apply end_line_idem.
  - intros key x. unfold injectAppName.
    replace (key ++ "'" ++ x ++ "'") with ((key ++ "'" ++ x) ++ SQ :: []) by (by rewrite <- !app_assoc).
    rewrite LastIndex_byte_app by apply not_elem_of_nil. rewrite take_app_length. by rewrite <- !app_assoc.
Qed.
End conf.

Lemma new_conf_names_witness :
  HasSuffix (new_conf "us" ("port = 1" ++ [LF] ++ "primary_conninfo = 'host=eu'")) [LF] = true ∧
  new_conf "us" (new_conf "us" "port = 1") = new_conf "us" "port = 1".
Proof.
  assert (LF ∉ ("us" : gostr)) as Hlf by closed_decide. split.
  - apply (new_conf_names "us" ("port = 1" ++ [LF] ++ "primary_conninfo = 'host=eu'") Hlf).
  - apply (new_conf_names "us" "port = 1" Hlf).
Defined.

Example new_conf_example :
  new_conf "us" ("port = 1" ++ [LF] ++ "primary_conninfo = 'host=eu'") =
    "port = 1" ++ [LF] ++ "primary_conninfo = 'host=eu application_name=us'" ++ [LF] ∧
  new_conf "us" ("port = 1" ++ [LF]) = "port = 1" ++ [LF; LF] ++ "primary_conninfo = 'application_name=us'" ++ [LF].
Proof. split; reflexivity. Qed.

(** An unquoted value gets a closing quote it has no opening one for. *)
Example unquoted_conninfo :
  injectAppName "primary_conninfo = host" "us" = "primary_conninfo = host application_name=us'".
Proof. reflexivity. Qed.

(** ** The run *)

Section run.
Context (E : Env) (ReadDir : gostr → res (list gostr)) (ReadFile : history → gostr → res gostr).
Context (WriteFile : history → gostr → gostr → option error).

(** The directory may be filled: it is empty or does not exist. *)
Definition usable_dir (dir : gostr) : Prop :=
  ReadDir dir = Ok [] ∨ ∃ err, ReadDir dir = Err err ∧ errors_Is err ErrNotExist = true.

Lemma checkDataDir_ok dir : is_Ok (checkDataDir ReadDir dir) = true ↔ usable_dir dir.
Proof.
  unfold checkDataDir, usable_dir. destruct (ReadDir dir) as [[|x l]|e].
  - cbn. split; [by left|done].
  - cbn. split; [done|]. by intros [?|(? & ? & _)].
  - destruct (errors_Is e ErrNotExist) eqn:Ee; cbn; (split; [|done || (intros [?|(? & [= <-] & ?)]; congruence)]).
    + intros _. right. by exists e.
    + done.
Qed.

Definition basebackup_event (opts : Options) : event :=
  EvExec "pg_basebackup" (buildBasebackupArgs opts)
    (if bool_decide (Password opts ≠ []) then ["PGPASSWORD=" ++ Password opts] else []) None.

(** How the backup exits. *)
Definition backup_outcome (opts : Options) (s : setup) : option error :=
  (env_exec E (ps_hist s) "pg_basebackup" (buildBasebackupArgs opts)
     (if bool_decide (Password opts ≠ []) then ["PGPASSWORD=" ++ Password opts] else []) None).2.

(** What a run did: whether the backup ran, and the file was written. *)
Definition safe_run (opts : Options) (s : setup) (r : err) (s' : setup) : Prop :=
  ∃ ran wrote : bool,
    ps_hist s' = ps_hist s ++ (if ran then [basebackup_event opts] else []) ∧
    (ran = true ↔ DryRun opts = false ∧ DataDir opts ≠ [] ∧ PrimaryDSN opts ≠ [] ∧ usable_dir (DataDir opts)) ∧
    (∀ pw, buildBasebackupArgs opts =
       buildBasebackupArgs (mkOptions (PrimaryDSN opts) pw (DataDir opts) (SlotName opts) (DryRun opts))) ∧
    (wrote = false → ps_files s' = ps_files s) ∧
    (∀ err, ran = true → backup_outcome opts s = Some err →
       wrote = false ∧ r = Err (Errorf [FS "pg_basebackup: "; FW err])) ∧
    (wrote = true → ran = true ∧ backup_outcome opts s = None ∧ SlotName opts ≠ [] ∧
       ∃ content, let path := PathJoin (DataDir opts) "postgresql.auto.conf" in
         ReadFile (ps_hist s') path = Ok content ∧
         ps_files s' = ps_files s ++ [(path, new_conf (SlotName opts) content)]) ∧
    (is_Ok r = true → DryRun opts = false →
       ran = true ∧ backup_outcome opts s = None ∧ (SlotName opts ≠ [] → wrote = true)).

(** C39: bootstrapping never overwrites and never shows the password.
    [pg setup] runs at most one program, [pg_basebackup], and exactly outside
    a dry run, with both names given, and with a directory that is empty or
    absent; the password is in its environment only: the arguments do not
    depend on it.  It writes at most [postgresql.auto.conf], only when the
    backup has exited without an error, and never in a dry run; a backup that
    fails is the error it returns, and nothing is written.  When it reports
    success outside a dry run, the backup ran and succeeded and, with a slot
    name, the file was written. *)
Theorem setup_Run_safe opts s r out s' :
  setup_Run E ReadDir ReadFile WriteFile opts s = ((r, out), s') →
  safe_run opts s r s'.
Proof.
  unfold setup_Run.
  assert (∀ r0 out0, ¬ (DryRun opts = false ∧ DataDir opts ≠ [] ∧ PrimaryDSN opts ≠ [] ∧ usable_dir (DataDir opts)) →
    (is_Ok r0 = true → DryRun opts = true) → ((r0, out0), s) = ((r, out), s') → safe_run opts s r s') as Hstop.
  { intros r0 out0 Hn Hr [= <- <- <-]. exists false, false. rewrite app_nil_r. split_and!; try done.
    intros Hok Hdry. rewrite Hr in Hdry; done. }
  case_bool_decide as Hd; [apply Hstop; [by intros (_ & ? & _)|done]|].
  case_bool_decide as Hp; [apply Hstop; [by intros (_ & _ & ? & _)|done]|].
  pose proof (checkDataDir_ok (DataDir opts)) as Hdir.
  destruct (checkDataDir ReadDir (DataDir opts)) as [u|e].
  2: { apply Hstop; [intros (_ & _ & _ & Hu)|done]. by apply Hdir in Hu. }
  apply proj1 in Hdir. specialize (Hdir eq_refl).
  destruct (DryRun opts) eqn:Hdry; [apply Hstop; [by intros (? & _)|done]|]. clear Hstop.
  unfold runBasebackup, io_exec. fold (basebackup_event opts).
  assert (backup_outcome opts s = (env_exec E (ps_hist s) "pg_basebackup" (buildBasebackupArgs opts)
     (if bool_decide (Password opts ≠ []) then ["PGPASSWORD=" ++ Password opts] else []) None).2) as Ho by done.
  destruct (env_exec _ _ _ _ _ _) as [txt [e|]]; cbn [of_error snd] in *.
  { intros [= <- _ <-]. exists true, false. split_and!; try done. intros err _ He. rewrite Ho in He. by injection He as ->. }
  unfold appendConnInfoAppname. case_bool_decide as Hslot.
  { intros [= <- _ <-]. exists true, false. split_and!; try done. by rewrite Ho. }
  cbn [ps_hist ps_files]. destruct (ReadFile _ _) as [content|e] eqn:Er.
  2: { intros [= <- _ <-]. exists true, false. split_and!; try done. by rewrite Ho. }
  destruct (WriteFile _ _ _) as [e|].
  { intros [= <- _ <-]. exists true, false. split_and!; try done. by rewrite Ho. }
  intros [= <- _ <-]. exists true, true. split_and!; try done; [by rewrite Ho|]. intros _. split_and!; try done.
  by exists content.
Qed.
End run.

Definition ex_setup_env : Env := {|
  env_exec _ _ _ _ _ := ([], None);
  env_get _ _ _ := Err (ErrExternal "no network");
  env_hops _ _ := [];
  env_disk _ _ := NFile;
  env_draw _ _ _ := 0;
  env_sql _ _ _ _ := Ok [];
  env_ctx _ := None;
  env_timer _ _ := true |}.

Definition ex_setup (dry : bool) (entries : list gostr) : (err * list gostr) * setup :=
  setup_Run ex_setup_env (λ _, Ok entries) (λ _ _, Ok "primary_conninfo = 'host=eu'") (λ _ _ _, None)
    (mkOptions "host=eu password=pw" "s3cret" "/data" "us" dry) (mkSetup [] []).

Example setup_example :
  ps_hist (ex_setup false []).2 = [EvExec "pg_basebackup"
    ["-D"; "/data"; "-d"; "host=eu password=pw"; "-X"; "stream"; "-c"; "fast"; "-R"; "-P"; "-S"; "us"; "--create-slot"]
    ["PGPASSWORD=s3cret"] None] ∧
  ps_files (ex_setup false []).2 =
    [("/data/postgresql.auto.conf" : gostr, "primary_conninfo = 'host=eu application_name=us'" ++ [LF])] ∧
  ps_hist (ex_setup false ["PG_VERSION"]).2 = [] ∧
  (ex_setup true []).1.2 = ["[dry-run] pg_basebackup -D /data -d host=eu password=*** -X stream -c fast -R -P -S us --create-slot" : gostr;
    "[dry-run] PGPASSWORD supplied via environment" : gostr].
Proof. vm_compute. split_and!; reflexivity. Qed.

Lemma setup_Run_safe_witness :
  let '((r, out), s) := ex_setup false [] in
  ∃ ran wrote : bool, ps_hist s = [] ++ (if ran then [basebackup_event (mkOptions "host=eu password=pw" "s3cret" "/data" "us" false)] else []) ∧
    ran = true ∧ wrote = true.
Proof.
  destruct (ex_setup false []) as [[r out] s] eqn:Es.
  destruct (setup_Run_safe _ _ _ _ _ _ _ _ _ Es) as (ran & wrote & Hh & _ & _ & _ & _ & _ & Hok).
  exists ran, wrote. split; [exact Hh|].
  assert (is_Ok r = true) as Hr by (vm_compute in Es; by injection Es as <- _ _).
  destruct (Hok Hr eq_refl) as (Hran & _ & Hw). split; [exact Hran|]. apply Hw. discriminate.
Defined.
