(* ===== verification/Doctor.v ===== *)
(** * internal/doctor: prerequisite checks of both sites

    Remote commands go through the interface [Runner]; a pool factory
    ([connect], as in PostgresRec.v) opens the connection pools.  A check is
    a computation on the history and the set of open pools. *)
From Stdlib Require Import Ascii ZArith Lia.
From stdpp Require Import prelude strings gmap list.
From S2P Require Import Prelude World GoStrings Utf8 ShellQuote SshExec ConfigData Config Dsn DbKey PostgresRec.
Open Scope go_scope.

(** ** The code *)

(** [Check], with the fragments of its detail. *)
Record CheckItem := mkCheck { ck_Name : gostr; ck_Category : gostr; ck_Status : gostr; ck_Detail : list frag }.

(** [Result]. *)
Record DoctorResult := mkDoctor { Checks : list CheckItem; Pass : Z; Fail : Z; Warn : Z }.

(** The history and the pools. *)
Record dstate := mkD { d_hist : history; d_pools : pools }.
Definition D (A : Type) : Type := ST dstate A.

Definition lift_io {A} (m : IO A) : D A := λ s, let '(a, h) := m (d_hist s) in (a, mkD h (d_pools s)).
Definition lift_pools {A} (m : ST pools A) : D A := λ s, let '(a, p) := m (d_pools s) in (a, mkD (d_hist s) p).

Definition dbKeyPresentCmd : gostr :=
  "sudo grep -c 'db_key_base' /var/opt/gitlab/gitlab-rails/etc/secrets.yml 2>/dev/null || " ++
  "grep -c 'db_key_base' /var/opt/gitlab/gitlab-rails/etc/secrets.yml 2>/dev/null || " ++
  "sudo grep -c " ++ [DQ] ++ "gitlab_rails\['db_key_base'\]" ++ [DQ] ++ " /etc/gitlab/gitlab.rb 2>/dev/null || " ++
  "grep -c " ++ [DQ] ++ "gitlab_rails\['db_key_base'\]" ++ [DQ] ++ " /etc/gitlab/gitlab.rb 2>/dev/null || echo 0".

Definition role_sql : gostr := "SELECT rolreplication FROM pg_roles WHERE rolname = $1".

(** A [string] column. *)
Definition scan_string_row (row : sql_row) : res gostr :=
  match row with Some s :: _ => Ok s | _ => Err (ErrExternal "can't scan into dest[0]") end.

(** The text before the first occurrence of [sep], when that is not at the
    start. *)
Definition before (s sep : gostr) : gostr :=
  match Index s sep with Some (S i) => take (S i) s | _ => s end.

Section doctor.
Context (E : Env) (connect : nat → gostr → option error) (pool_name : nat → gostr) `{Runner R}.

(** [pool, err := pf(connCtx, pg.DSN())], the return on error, and
    [defer pool.Close()] around [body]. *)
Definition with_pool (pg : PostgresConfig) (on_err : error → CheckItem) (body : nat → D CheckItem) : D CheckItem :=
  pool ← lift_pools (open_pool connect (DSN pg));
  match pool with
  | Err err => mret (on_err err)
  | Ok pool => c ← body pool; _ ← lift_pools (close_pool pool); mret c
  end.

Definition query {A} (scan : sql_row → res A) (pool : nat) (sql : gostr) (args : list gostr) : D (res A) :=
  lift_io (QueryRow E pool_name scan pool sql args).

Definition sshCheck (label sshHost : gostr) (runner : R) : D CheckItem :=
  let ck := mkCheck ("ssh:" ++ label) "connectivity" in
  if bool_decide (sshHost = []) then
    mret (ck "WARN" [FS "ssh_host not configured (needed for rsync/fetch/failover)"])
  else
    '(out, err) ← lift_io (run_remote E runner sshHost "echo ok");
    mret (match err with
          | Some err => ck "FAIL" [FS "ssh "; FS sshHost; FS ": "; FV err; FS ": "; FS (TrimSpace out)]
          | None => ck "PASS" [FS sshHost]
          end).

Definition pgControlCheck (label : gostr) (pg : PostgresConfig) : D CheckItem :=
  let ck := mkCheck ("pg:" ++ label ++ ":control") "postgres" in
  if bool_decide (pg_Host pg = []) then mret (ck "FAIL" [FS "postgres.host not configured"])
  else
    with_pool pg (λ err, ck "FAIL" [FS "connect: "; FV err]) (λ pool,
      version ← query scan_string_row pool "SELECT version()" [];
      mret (match version with
            | Err err => ck "FAIL" [FS "query version: "; FV err]
            | Ok version => ck "PASS" [FS (before version " (")]
            end)).

Definition pgReplicationRoleCheck (label : gostr) (pg : PostgresConfig) : D CheckItem :=
  let ck := mkCheck ("pg:" ++ label ++ ":repl-role") "postgres" in
  with_pool pg (λ err, ck "FAIL" [FS "connect: "; FV err]) (λ pool,
    hasRepl ← query scan_bool_row pool role_sql [pg_ReplicationUser pg];
    mret (match hasRepl with
          | Err err => ck "FAIL" [FS "role "; FS (pg_ReplicationUser pg); FS " not found: "; FV err]
          | Ok false => ck "FAIL" [FS "role "; FS (pg_ReplicationUser pg); FS " exists but lacks REPLICATION privilege"]
          | Ok true => ck "PASS" [FS "role "; FS (pg_ReplicationUser pg); FS " has REPLICATION"]
          end)).

Definition pgWalLevelCheck (label : gostr) (pg : PostgresConfig) : D CheckItem :=
  let ck := mkCheck ("pg:" ++ label ++ ":wal_level") "postgres" in
  with_pool pg (λ err, ck "FAIL" [FS "connect: "; FV err]) (λ pool,
    level ← query scan_string_row pool "SHOW wal_level" [];
    mret (match level with
          | Err err => ck "FAIL" [FS "query: "; FV err]
          | Ok level =>
              if negb (bool_decide (level = "replica")) && negb (bool_decide (level = "logical")) then
                ck "FAIL" [FS "wal_level="; FS level; FS ", need replica or logical"]
              else ck "PASS" [FS "wal_level="; FS level]
          end)).

Definition pgWalSendersCheck (label : gostr) (pg : PostgresConfig) : D CheckItem :=
  let ck := mkCheck ("pg:" ++ label ++ ":max_wal_senders") "postgres" in
  with_pool pg (λ err, ck "FAIL" [FS "connect: "; FV err]) (λ pool,
    level ← query scan_string_row pool "SHOW max_wal_senders" [];
    mret (match level with
          | Err err => ck "FAIL" [FS "query: "; FV err]
          | Ok level =>
              if bool_decide (level = "0") then ck "FAIL" [FS "max_wal_senders=0, must be > 0"]
              else ck "PASS" [FS "max_wal_senders="; FS level]
          end)).

Definition pgInRecoveryCheck (label : gostr) (pg : PostgresConfig) : D CheckItem :=
  let ck := mkCheck ("pg:" ++ label ++ ":in_recovery") "postgres" in
  with_pool pg (λ err, ck "WARN" [FS "connect: "; FV err; FS " (expected if not yet bootstrapped)"]) (λ pool,
    inRecovery ← query scan_bool_row pool recovery_sql [];
    mret (match inRecovery with
          | Err err => ck "WARN" [FS "query: "; FV err; FS " (expected if not yet bootstrapped)"]
          | Ok false => ck "WARN" [FS "secondary PG is NOT in recovery mode (run `syncctl pg setup` first)"]
          | Ok true => ck "PASS" [FS "in recovery (standby)"]
          end)).

Definition dbKeyPresentCheck (label sshHost : gostr) (runner : R) : D CheckItem :=
  let ck := mkCheck ("dbkey:" ++ label) "dbkey" in
  if bool_decide (sshHost = []) then mret (ck "WARN" [FS "ssh_host not configured"])
  else
    '(out, err) ← lift_io (run_remote E runner sshHost dbKeyPresentCmd);
    mret (match err with
          | Some err => ck "FAIL" [FS "ssh: "; FV err]
          | None =>
              let lines := SplitByte (TrimSpace out) LF in
              let count := TrimSpace (default [] (last lines)) in
              if bool_decide (count = "0") then ck "FAIL" [FS "db_key_base not found in secrets.yml or gitlab.rb"]
              else ck "PASS" [FS "present in secrets.yml or gitlab.rb"]
          end).

Definition dbKeyParityCheck (primarySSH secondarySSH secondaryName : gostr) (runner : R) : D CheckItem :=
  let ck := mkCheck ("dbkey:parity:" ++ secondaryName) "dbkey" in
  err ← lift_io (CheckWithRunner E primarySSH secondarySSH runner);
  mret (match err with
        | Err err => ck "FAIL" [FV err]
        | Ok _ => ck "PASS" [FS "primary and secondary match"]
        end).

Definition remoteBinaryCheck (label bin sshHost cmd : gostr) (runner : R) : D CheckItem :=
  let ck := mkCheck (bin ++ ":" ++ label) "tools" in
  if bool_decide (sshHost = []) then mret (ck "WARN" [FS "ssh_host not configured"])
  else
    '(out, err) ← lift_io (run_remote E runner sshHost cmd);
    mret (match err with
          | Some err => ck "FAIL" [FS bin; FS " not found: "; FV err]
          | None => ck "PASS" [FS (before (TrimSpace out) [LF])]
          end).

Definition rsyncCheck (label sshHost : gostr) (runner : R) : D CheckItem :=
  remoteBinaryCheck label "rsync" sshHost "rsync --version" runner.

Definition gitCheck (label sshHost : gostr) (runner : R) : D CheckItem :=
  remoteBinaryCheck label "git" sshHost "git --version" runner.

Definition pathExistsCheck (label sshHost path pathName : gostr) (runner : R) : D CheckItem :=
  let ck := mkCheck ("path:" ++ label ++ ":" ++ pathName) "filesystem" in
  if bool_decide (sshHost = []) then mret (ck "WARN" [FS "ssh_host not configured"])
  else
    '(_, err) ← lift_io (run_remote E runner sshHost ("test -d " ++ Quote path));
    mret (match err with
          | Some _ => ck "WARN" [FS path; FS " does not exist yet (will be created on first sync)"]
          | None => ck "PASS" [FS path]
          end).

Definition s3BucketCheck (label : gostr) (s3 : S3Config) : D CheckItem :=
  let ck := mkCheck ("s3:" ++ label) "storage" in
  mret (if bool_decide (s3_PrimaryBucket s3 = []) then ck "FAIL" [FS "primary_bucket not set"]
        else if bool_decide (s3_ReplicaBucket s3 = []) then ck "FAIL" [FS "replica_bucket not set"]
        else if bool_decide (s3_AccessKey s3 = []) || bool_decide (s3_SecretKey s3 = []) then
          ck "FAIL" [FS "access_key/secret_key empty (check env vars)"]
        else ck "PASS" [FS "primary="; FS (s3_PrimaryBucket s3); FS " replica="; FS (s3_ReplicaBucket s3)]).

(** The arguments of the calls of [r.add] in [checks], in order. *)
Definition primary_checks (p : SiteConfig) (runner : R) : list (D CheckItem) :=
  [sshCheck "primary" (site_SSHHost p) runner;
   pgControlCheck "primary" (site_Postgres p);
   pgReplicationRoleCheck "primary" (site_Postgres p);
   pgWalLevelCheck "primary" (site_Postgres p);
   pgWalSendersCheck "primary" (site_Postgres p);
   dbKeyPresentCheck "primary" (site_SSHHost p) runner;
   rsyncCheck "primary" (site_SSHHost p) runner;
   gitCheck "primary" (site_SSHHost p) runner].

Definition secondary_checks (p sc : SiteConfig) (runner : R) : list (D CheckItem) :=
  let label := "secondary:" ++ site_Name sc in
  [sshCheck label (site_SSHHost sc) runner;
   pgControlCheck label (site_Postgres sc);
   pgInRecoveryCheck label (site_Postgres sc);
   dbKeyPresentCheck label (site_SSHHost sc) runner] ++
  (if bool_decide (site_SSHHost p ≠ []) && bool_decide (site_SSHHost sc ≠ [])
   then [dbKeyParityCheck (site_SSHHost p) (site_SSHHost sc) (site_Name sc) runner] else []) ++
  [rsyncCheck label (site_SSHHost sc) runner;
   gitCheck label (site_SSHHost sc) runner] ++
  (if bool_decide (git_ReposPath (site_Git sc) ≠ [])
   then [pathExistsCheck label (site_SSHHost sc) (git_ReposPath (site_Git sc)) "repos_path" runner] else []).

Definition storage_checks (p : SiteConfig) : list (D CheckItem) :=
  match os_S3 (site_ObjectStore p) with
  | Some s3 => if bool_decide (os_Backend (site_ObjectStore p) = "s3") then [s3BucketCheck "primary" s3] else []
  | None => []
  end.

Definition checks (cfg : Config) (runner : R) : list (D CheckItem) :=
  primary_checks (cfg_Primary cfg) runner ++
  mjoin ((λ sc, secondary_checks (cfg_Primary cfg) sc runner) <$> cfg_Secondaries cfg) ++
  storage_checks (cfg_Primary cfg).

(** [r.add] on each of them. *)
Fixpoint add_all (cs : list (D CheckItem)) (r : list CheckItem) : D (list CheckItem) :=
  match cs with
  | [] => mret r
  | m :: cs => c ← m; add_all cs (r ++ [c])
  end.

(** One turn of the counting loop. *)
Definition tally (r : DoctorResult) (c : CheckItem) : DoctorResult :=
  let '(mkDoctor l p f w) := r in
  if bool_decide (ck_Status c = "PASS") then mkDoctor l (p + 1) f w
  else if bool_decide (ck_Status c = "FAIL") then mkDoctor l p (f + 1) w
  else if bool_decide (ck_Status c = "WARN") then mkDoctor l p f (w + 1)
  else r.

Definition RunWith (cfg : Config) (runner : R) : D DoctorResult :=
  l ← add_all (checks cfg runner) [];
  mret (foldl tally (mkDoctor l 0 0 0) l).
End doctor.

(** [%-ns]: padded with blanks to [n] runes. *)
Definition pad_right (n : nat) (s : gostr) : gostr := s ++ replicate (n - length (runes s)) SPC.

(** The first three columns of a line of the table. *)
Definition columns (name category status : gostr) : gostr :=
  pad_right 40 name ++ [SPC] ++ pad_right 12 category ++ [SPC] ++ pad_right 10 status ++ [SPC].

Definition check_row (c : CheckItem) : list frag :=
  [FS (columns (ck_Name c) (ck_Category c) (ck_Status c))] ++ ck_Detail c ++ [FS [LF]].

Definition rule : gostr := replicate 100 "-"%char ++ [LF].

Definition closing (r : DoctorResult) : gostr :=
  if (0 <? Fail r)%Z then "Fix the FAIL items above before proceeding."
  else if (0 <? Warn r)%Z then "WARN items may be expected if you haven't bootstrapped yet."
  else "All checks passed. Ready to sync!".

(** What [Print] writes. *)
Definition doctor_Print (r : DoctorResult) : list frag :=
  [FS ([LF] ++ columns "CHECK" "CATEGORY" "STATUS" ++ "DETAIL" ++ [LF]); FS rule] ++
  mjoin (check_row <$> Checks r) ++
  [FS rule; FS ([LF] ++ "Summary: "); FZ (Pass r); FS " PASS, "; FZ (Warn r); FS " WARN, "; FZ (Fail r);
   FS (" FAIL" ++ [LF]); FS ([LF] ++ closing r ++ [LF])].

(** ** The specification *)

(** The remote commands and the queries of a doctor run. *)
Definition doctor_cmds (cfg : Config) : list gostr :=
  ["echo ok"; dbKeyPresentCmd; "rsync --version"; "git --version"; grep_cmd;
   "sudo grep 'db_key_base' /var/opt/gitlab/gitlab-rails/etc/secrets.yml 2>/dev/null || " ++ grep_cmd] ++
  ((λ sc, "test -d " ++ Quote (git_ReposPath (site_Git sc))) <$> cfg_Secondaries cfg).

Definition doctor_queries (cfg : Config) : list (gostr * list gostr) :=
  [("SELECT version()", []); (role_sql, [pg_ReplicationUser (site_Postgres (cfg_Primary cfg))]);
   ("SHOW wal_level", []); ("SHOW max_wal_senders", []); (recovery_sql, [])].

(** An event that only looks. *)
Definition inspects (cfg : Config) (e : event) : Prop :=
  match e with
  | EvExec name args env stdin =>
      name = "ssh" ∧ env = [] ∧ stdin = None ∧ ∃ cmd, last args = Some cmd ∧ cmd ∈ doctor_cmds cfg
  | EvSQL _ sql args => (sql, args) ∈ doctor_queries cfg
  | _ => False
  end.

Section spec.
Context (E : Env) (connect : nat → gostr → option error) (pool_name : nat → gostr) (cfg : Config) (runner : SshConfig).

(** The states in which the run starts and ends. *)
Context (s0 s1 : dstate).

(** During the run, [cmd] ran on [host] with the output and error [r]. *)
Definition ran (host cmd : gostr) (r : gostr * option error) : Prop :=
  ∃ h, d_hist s0 `prefix_of` h ∧ (run_remote E runner host cmd h).2 `prefix_of` d_hist s1 ∧
    (run_remote E runner host cmd h).1 = r.

(** During the run, the database that [pg] connects to was asked [sql] with
    the result [r]: the error of the connection, or that of the query, or
    its answer. *)
Definition asked {A} (pg : PostgresConfig) (scan : sql_row → res A) (sql : gostr) (args : list gostr) (r : res A) : Prop :=
  ∃ id, p_next (d_pools s0) ≤ id < p_next (d_pools s1) ∧
    match connect id (DSN pg) with
    | Some err => r = Err err
    | None => ∃ h, d_hist s0 `prefix_of` h ∧ (QueryRow E pool_name scan id sql args h).2 `prefix_of` d_hist s1 ∧
        (QueryRow E pool_name scan id sql args h).1 = r
    end.

(** During the run, the keys of both hosts were compared with the result
    [r]. *)
Definition compared (p s : gostr) (r : err) : Prop :=
  ∃ h, d_hist s0 `prefix_of` h ∧ (CheckWithRunner E p s runner h).2 `prefix_of` d_hist s1 ∧
    (CheckWithRunner E p s runner h).1 = r.

(** What a status says. *)
Definition by_status (pass fail warn : Prop) (st : gostr) : Prop :=
  st = "PASS" ∧ pass ∨ st = "FAIL" ∧ fail ∨ st = "WARN" ∧ warn.

(** The command is there and runs. *)
Definition command_says (host cmd : gostr) : gostr → Prop :=
  by_status (host ≠ [] ∧ ∃ out, ran host cmd (out, None)) (host ≠ [] ∧ ∃ out e, ran host cmd (out, Some e)) (host = []).

(** The answer to a query suffices. *)
Definition query_says {A} (pg : PostgresConfig) (scan : sql_row → res A) (sql : gostr) (args : list gostr) (good : A → Prop)
    : gostr → Prop :=
  by_status (∃ a, asked pg scan sql args (Ok a) ∧ good a)
    ((∃ e, asked pg scan sql args (Err e)) ∨ ∃ a, asked pg scan sql args (Ok a) ∧ ¬ good a) False.

Definition control_says (pg : PostgresConfig) : gostr → Prop :=
  by_status (pg_Host pg ≠ [] ∧ ∃ v, asked pg scan_string_row "SELECT version()" [] (Ok v))
    (pg_Host pg = [] ∨ ∃ e, asked pg scan_string_row "SELECT version()" [] (Err e)) False.

Definition recovery_says (pg : PostgresConfig) : gostr → Prop :=
  by_status (asked pg scan_bool_row recovery_sql [] (Ok true)) False
    (asked pg scan_bool_row recovery_sql [] (Ok false) ∨ ∃ e, asked pg scan_bool_row recovery_sql [] (Err e)).

(** The count on the last line of the output. *)
Definition key_count (out : gostr) : gostr := TrimSpace (default [] (last (SplitByte (TrimSpace out) LF))).

Definition key_says (host : gostr) : gostr → Prop :=
  by_status (host ≠ [] ∧ ∃ out, ran host dbKeyPresentCmd (out, None) ∧ key_count out ≠ "0")
    (host ≠ [] ∧ ((∃ out e, ran host dbKeyPresentCmd (out, Some e)) ∨
       ∃ out, ran host dbKeyPresentCmd (out, None) ∧ key_count out = "0")) (host = []).

Definition parity_says (p s : gostr) : gostr → Prop :=
  by_status (compared p s nil_error) (∃ e, compared p s (Err e)) False.

Definition path_says (host path : gostr) : gostr → Prop :=
  by_status (host ≠ [] ∧ ∃ out, ran host ("test -d " ++ Quote path) (out, None)) False
    (host = [] ∨ ∃ out e, ran host ("test -d " ++ Quote path) (out, Some e)).

Definition s3_says (s3 : S3Config) : gostr → Prop :=
  by_status (s3_PrimaryBucket s3 ≠ [] ∧ s3_ReplicaBucket s3 ≠ [] ∧ s3_AccessKey s3 ≠ [] ∧ s3_SecretKey s3 ≠ [])
    (s3_PrimaryBucket s3 = [] ∨ s3_ReplicaBucket s3 = [] ∨ s3_AccessKey s3 = [] ∨ s3_SecretKey s3 = []) False.

(** The checks of a report, by name, with what their status says. *)
Definition primary_claims (p : SiteConfig) : list (gostr * (gostr → Prop)) :=
  [("ssh:primary" : gostr, command_says (site_SSHHost p) "echo ok");
   ("pg:primary:control" : gostr, control_says (site_Postgres p));
   ("pg:primary:repl-role" : gostr,
      query_says (site_Postgres p) scan_bool_row role_sql [pg_ReplicationUser (site_Postgres p)] (λ b, b = true));
   ("pg:primary:wal_level" : gostr,
      query_says (site_Postgres p) scan_string_row "SHOW wal_level" [] (λ l, l = "replica" ∨ l = "logical"));
   ("pg:primary:max_wal_senders" : gostr,
      query_says (site_Postgres p) scan_string_row "SHOW max_wal_senders" [] (λ n, n ≠ "0"));
   ("dbkey:primary" : gostr, key_says (site_SSHHost p));
   ("rsync:primary" : gostr, command_says (site_SSHHost p) "rsync --version");
   ("git:primary" : gostr, command_says (site_SSHHost p) "git --version")].

Definition secondary_claims (p sc : SiteConfig) : list (gostr * (gostr → Prop)) :=
  let label := "secondary:" ++ site_Name sc in
  [("ssh:" ++ label, command_says (site_SSHHost sc) "echo ok");
   ("pg:" ++ label ++ ":control", control_says (site_Postgres sc));
   ("pg:" ++ label ++ ":in_recovery", recovery_says (site_Postgres sc));
   ("dbkey:" ++ label, key_says (site_SSHHost sc))] ++
  (if bool_decide (site_SSHHost p ≠ []) && bool_decide (site_SSHHost sc ≠ []) then
     [("dbkey:parity:" ++ site_Name sc, parity_says (site_SSHHost p) (site_SSHHost sc))] else []) ++
  [("rsync:" ++ label, command_says (site_SSHHost sc) "rsync --version");
   ("git:" ++ label, command_says (site_SSHHost sc) "git --version")] ++
  (if bool_decide (git_ReposPath (site_Git sc) ≠ [])
   then [("path:" ++ label ++ ":repos_path", path_says (site_SSHHost sc) (git_ReposPath (site_Git sc)))] else []).

Definition storage_claims (p : SiteConfig) : list (gostr * (gostr → Prop)) :=
  match os_S3 (site_ObjectStore p) with
  | Some s3 =>
      if bool_decide (os_Backend (site_ObjectStore p) = "s3") then [("s3:primary" : gostr, s3_says s3)] else []
  | None => []
  end.

Definition claims : list (gostr * (gostr → Prop)) :=
  primary_claims (cfg_Primary cfg) ++
  mjoin (secondary_claims (cfg_Primary cfg) <$> cfg_Secondaries cfg) ++
  storage_claims (cfg_Primary cfg).

Definition statuses : list gostr := ["PASS"; "FAIL"; "WARN"].

Definition honest (x : gostr * (gostr → Prop)) (c : CheckItem) : Prop :=
  ck_Name c = x.1 ∧ ck_Status c ∈ statuses ∧ x.2 (ck_Status c).

(** ** Lemmas *)

(** From [s] to [s'] is within the run. *)
Definition within (s s' : dstate) : Prop :=
  d_hist s0 `prefix_of` d_hist s ∧ d_hist s' `prefix_of` d_hist s1 ∧
  p_next (d_pools s0) ≤ p_next (d_pools s) ∧ p_next (d_pools s') ≤ p_next (d_pools s1).

(** [m] only looks, leaves no pool open and closes no other pool, and its
    result is a [Q], when it runs within the run. *)
Class Tame {A} (Q : A → Prop) (m : D A) : Prop :=
  tame s : pools_ok (d_pools s) → ∃ a s', m s = (a, s') ∧
    (within s s' → Q a) ∧ pools_ok (d_pools s') ∧
    p_open (d_pools s') = p_open (d_pools s) ∧ p_next (d_pools s) ≤ p_next (d_pools s') ∧
    ∃ evs, d_hist s' = d_hist s ++ evs ∧ Forall (inspects cfg) evs.

Lemma tame_ret {A} (Q : A → Prop) a : Q a → Tame Q (mret a).
Proof. intros Hq s Hs. exists a, s. split_and!; [done..|]. exists []. by rewrite app_nil_r. Qed.

Lemma tame_bind {A B} (P : A → Prop) (Q : B → Prop) (m : D A) (f : A → D B) :
  Tame P m → (∀ a, Tame (λ b, P a → Q b) (f a)) → Tame Q (m ≫= f).
Proof.
  intros Hm Hf s Hs. destruct (Hm s Hs) as (a & t & E1 & Pa & H1 & O1 & N1 & e1 & L1 & F1).
  destruct (Hf a t H1) as (b & t2 & E2 & Qb & H2 & O2 & N2 & e2 & L2 & F2).
  exists b, t2. unfold mbind, ST_bind. rewrite E1, E2, O2, O1. split; [done|].
  split; [|split_and!; [done|done|lia|]].
  - intros (Ha & Hb & Hc & Hd). apply Qb; [|apply Pa]; split_and!; try done; try lia.
    + rewrite L1. by apply prefix_app_r.
    + rewrite L2 in Hb. by apply prefix_app_l in Hb.
  - exists (e1 ++ e2). rewrite L2, L1, app_assoc. split; [done|]. by apply Forall_app.
Qed.

Lemma tame_io {A} (Q : A → Prop) (m : IO A) : Only (inspects cfg) m →
  (∀ h, d_hist s0 `prefix_of` h → (m h).2 `prefix_of` d_hist s1 → Q (m h).1) → Tame Q (lift_io m).
Proof.
  intros Hm Hq s Hs. destruct (Hm (d_hist s)) as (evs & L & F). specialize (Hq (d_hist s)).
  unfold lift_io. destruct (m (d_hist s)) as [a h]. exists a, (mkD h (d_pools s)). cbn [d_pools d_hist].
  split; [done|]. split; [intros (Ha & Hb & _); by apply Hq|]. split_and!; try done. by exists evs.
Qed.

Lemma only_query {A} (scan : sql_row → res A) pool sql args : (sql, args) ∈ doctor_queries cfg →
  Only (inspects cfg) (QueryRow E pool_name scan pool sql args).
Proof. intros Hq. unfold QueryRow. apply only_bind; [by eapply only_one|apply _]. Qed.

(** One query on a connection of its own. *)
Lemma tame_ask {A} (Q : CheckItem → Prop) pg on_err (scan : sql_row → res A) sql args (f : res A → CheckItem) :
  (sql, args) ∈ doctor_queries cfg →
  (∀ err, asked pg scan sql args (Err err) → Q (on_err err)) → (∀ r, asked pg scan sql args r → Q (f r)) →
  Tame Q (with_pool connect pg on_err (λ pool, r ← query E pool_name scan pool sql args; mret (f r))).
Proof.
  intros Hq He Hf s Hs. unfold with_pool, lift_pools, mbind, ST_bind, query, lift_io. cbn [d_hist d_pools].
  destruct (open_pool connect (DSN pg) (d_pools s)) as [r p1] eqn:Eo.
  pose proof (open_pool_ok connect _ _ _ _ Hs Eo) as [Hok1 Ho].
  unfold open_pool in Eo. destruct (connect (p_next (d_pools s)) (DSN pg)) as [err|] eqn:Ec; injection Eo as <- <-.
  - exists (on_err err), (mkD (d_hist s) (mkPools (S (p_next (d_pools s))) (p_open (d_pools s)))). cbn [d_pools d_hist].
    split; [done|]. split; [|split_and!; [done|done|cbn; lia|exists []; by rewrite app_nil_r]].
    intros (_ & _ & Ha & Hb). apply He. exists (p_next (d_pools s)). cbn in Hb. rewrite Ec. split; [lia|done].
  - cbn [d_hist d_pools]. set (id := p_next (d_pools s)) in *.
    pose proof (only_query scan id sql args Hq (d_hist s)) as (evs & L & F).
    destruct (QueryRow E pool_name scan id sql args (d_hist s)) as [x h] eqn:Er. cbn in L. subst h.
    eexists _, _. split; [done|]. cbn [d_pools d_hist p_open p_next]. destruct Ho as [Hid _].
    split; [|split_and!; [|apply leibniz_equiv; clear -Hid; set_solver|lia|by exists evs]].
    + intros (Ha & Hb & Hc & Hd). apply Hf. exists id. cbn in Hb, Hd. rewrite Ec. split; [lia|].
      exists (d_hist s). by rewrite Er.
    + intros i. cbn. intros [[->%elem_of_singleton|Hi]%elem_of_union Hn]%elem_of_difference; [set_solver|].
      by apply Nat.lt_lt_succ_r, Hs.
Qed.

Lemma only_ssh host cmd : cmd ∈ doctor_cmds cfg → Only (inspects cfg) (run_remote E runner host cmd).
Proof.
  intros Hc. unfold run_remote, SshConfig_Runner, CombinedOutput.
  destruct (Command runner host cmd) as [args|] eqn:Ec; [|apply _]. eapply only_one; [done|].
  cbn. split_and!; [done..|]. exists cmd. split; [|done]. apply Command_Ok in Ec as (ep & _ & _ & ->).
  change [Destination ep; cmd] with ([Destination ep] ++ [cmd]). by rewrite app_assoc, last_snoc.
Qed.

Lemma tame_ran host cmd : cmd ∈ doctor_cmds cfg → Tame (ran host cmd) (lift_io (run_remote E runner host cmd)).
Proof. intros Hc. apply tame_io; [by apply only_ssh|]. intros h Ha Hb. by exists h. Qed.

Lemma honest_at n (V : gostr → Prop) cat st d : st ∈ statuses → V st → honest (n, V) (mkCheck n cat st d).
Proof. intros Hs HV. by split_and!. Qed.

(** The status is [st], for the reason at its place in [by_status]. *)
Ltac passes := apply honest_at; [closed_decide|]; left; split; [done|].
Ltac fails := apply honest_at; [closed_decide|]; right; left; split; [done|].
Ltac warns := apply honest_at; [closed_decide|]; right; right; split; [done|].

(** A remote command, for each way it may end. *)
Ltac tame_command :=
  eapply tame_bind; [apply tame_ran; first [done | closed_decide]|intros [out [e|]]];
  (apply tame_ret; intros Hran).

Lemma command_tame label cat host cmd w (g : gostr → error → list frag) (b : gostr → list frag) : cmd ∈ doctor_cmds cfg →
  Tame (honest (label, command_says host cmd))
    (let ck := mkCheck label cat in
     if bool_decide (host = []) then mret (ck "WARN" w)
     else '(out, err) ← lift_io (run_remote E runner host cmd);
          mret (match err with Some err => ck "FAIL" (g out err) | None => ck "PASS" (b out) end)).
Proof.
  intros Hc. cbv zeta. case_bool_decide as Hh; [apply tame_ret; by warns|]. tame_command; [fails|passes]; eauto.
Qed.

Lemma sshCheck_tame label host : Tame (honest ("ssh:" ++ label, command_says host "echo ok")) (sshCheck E label host runner).
Proof.
  apply (command_tame ("ssh:" ++ label) _ host _ _
    (λ out err, [FS "ssh "; FS host; FS ": "; FV err; FS ": "; FS (TrimSpace out)]) (λ _, [FS host])). closed_decide.
Qed.

Lemma remoteBinaryCheck_tame label bin host cmd : cmd ∈ doctor_cmds cfg →
  Tame (honest (bin ++ ":" ++ label, command_says host cmd)) (remoteBinaryCheck E label bin host cmd runner).
Proof.
  apply (command_tame (bin ++ ":" ++ label) _ host _ _ (λ _ err, [FS bin; FS " not found: "; FV err])
    (λ out, [FS (before (TrimSpace out) [LF])])).
Qed.

Lemma pgControlCheck_tame label pg :
  Tame (honest ("pg:" ++ label ++ ":control", control_says pg)) (pgControlCheck E connect pool_name label pg).
Proof.
  unfold pgControlCheck. case_bool_decide; [apply tame_ret; fails; by left|].
  apply tame_ask; [closed_decide|intros err Ha; fails; eauto|intros [v|e] Ha; [passes|fails]; eauto].
Qed.

Lemma pgReplicationRoleCheck_tame label : let pg := site_Postgres (cfg_Primary cfg) in
  Tame (honest ("pg:" ++ label ++ ":repl-role", query_says pg scan_bool_row role_sql [pg_ReplicationUser pg] (λ b, b = true)))
    (pgReplicationRoleCheck E connect pool_name label pg).
Proof.
  cbv zeta. unfold pgReplicationRoleCheck.
  apply tame_ask; [by right; left|intros err Ha; fails; eauto|intros [[]|e] Ha; [passes; eauto|fails|fails; eauto]].
  right. by exists false.
Qed.

Lemma pgWalLevelCheck_tame label pg :
  Tame (honest ("pg:" ++ label ++ ":wal_level",
      query_says pg scan_string_row "SHOW wal_level" [] (λ l, l = "replica" ∨ l = "logical")))
    (pgWalLevelCheck E connect pool_name label pg).
Proof.
  unfold pgWalLevelCheck. apply tame_ask; [closed_decide|intros err Ha; fails; eauto|intros [l|e] Ha; [|fails; eauto]].
  repeat case_bool_decide; cbn [negb andb]; [passes; eauto..|fails]. right. exists l. split; [done|]. by intros [?|?].
Qed.

Lemma pgWalSendersCheck_tame label pg :
  Tame (honest ("pg:" ++ label ++ ":max_wal_senders", query_says pg scan_string_row "SHOW max_wal_senders" [] (λ n, n ≠ "0")))
    (pgWalSendersCheck E connect pool_name label pg).
Proof.
  unfold pgWalSendersCheck. apply tame_ask; [closed_decide|intros err Ha; fails; eauto|intros [l|e] Ha; [|fails; eauto]].
  case_bool_decide; [fails|passes; eauto]. right. exists l. split; [done|]. naive_solver.
Qed.

Lemma pgInRecoveryCheck_tame label pg :
  Tame (honest ("pg:" ++ label ++ ":in_recovery", recovery_says pg)) (pgInRecoveryCheck E connect pool_name label pg).
Proof.
  unfold pgInRecoveryCheck. apply tame_ask; [closed_decide|intros err Ha; warns; eauto|].
  intros [[]|e] Ha; [passes|warns|warns]; eauto.
Qed.

Lemma dbKeyPresentCheck_tame label host : Tame (honest ("dbkey:" ++ label, key_says host)) (dbKeyPresentCheck E label host runner).
Proof.
  unfold dbKeyPresentCheck. case_bool_decide; [apply tame_ret; by warns|]. tame_command; [fails; eauto 6|].
  cbv zeta. fold (key_count out). case_bool_decide; [fails|passes]; eauto 6.
Qed.

Lemma pathExistsCheck_tame label host path name : "test -d " ++ Quote path ∈ doctor_cmds cfg →
  Tame (honest ("path:" ++ label ++ ":" ++ name, path_says host path)) (pathExistsCheck E label host path name runner).
Proof.
  intros Hc. unfold pathExistsCheck. case_bool_decide; [apply tame_ret; warns; by left|]. tame_command; [warns|passes]; eauto.
Qed.

Lemma s3BucketCheck_tame label s3 : Tame (honest ("s3:" ++ label, s3_says s3)) (s3BucketCheck label s3).
Proof.
  unfold s3BucketCheck. apply tame_ret. case_bool_decide; [fails; eauto|]. case_bool_decide; [fails; eauto|].
  repeat case_bool_decide; cbn [orb]; [fails; eauto..|by passes].
Qed.

Lemma only_fetchKey host : Only (inspects cfg) (fetchKey E host runner).
Proof.
  assert (∀ sudo, Only (inspects cfg) (tryFetchKey E host runner sudo)) as Hf.
  { intros sudo. unfold tryFetchKey. apply only_bind; [apply only_ssh; destruct sudo; closed_decide|].
    intros [? [?|]]; apply _. }
  unfold fetchKey. destruct (CheckHost host); [apply _|].
  apply only_bind; [apply Hf|intros first]. apply only_bind; [|intros [?|?]; apply _].
  destruct first; [apply _|]. apply only_bind; [apply _|intros [?|]; [apply _|]].
  apply only_bind; [apply Hf|apply _].
Qed.

Lemma dbKeyParityCheck_tame p s name :
  Tame (honest ("dbkey:parity:" ++ name, parity_says p s)) (dbKeyParityCheck E p s name runner).
Proof.
  unfold dbKeyParityCheck. apply tame_bind with (P := compared p s).
  - apply tame_io.
    + unfold CheckWithRunner. apply only_bind; [apply only_fetchKey|intros [?|?]; [|apply _]].
      apply only_bind; [apply only_fetchKey|intros [?|?]; [|apply _]]. case_match; apply _.
    + intros h Ha Hb. by exists h.
  - intros [[]|e]; apply tame_ret; intros Hc; [passes|fails]; eauto.
Qed.

(** *** All the checks *)

Definition covered (x : gostr * (gostr → Prop)) (m : D CheckItem) : Prop := Tame (honest x) m.

Lemma primary_covered :
  Forall2 covered (primary_claims (cfg_Primary cfg)) (primary_checks E connect pool_name (cfg_Primary cfg) runner).
Proof.
  repeat constructor;
    [apply sshCheck_tame|apply (pgControlCheck_tame "primary")|apply (pgReplicationRoleCheck_tame "primary")
    |apply (pgWalLevelCheck_tame "primary")|apply (pgWalSendersCheck_tame "primary")|apply dbKeyPresentCheck_tame
    |apply (remoteBinaryCheck_tame "primary" "rsync"); closed_decide
    |apply (remoteBinaryCheck_tame "primary" "git"); closed_decide].
Qed.

Lemma secondary_covered sc : sc ∈ cfg_Secondaries cfg →
  Forall2 covered (secondary_claims (cfg_Primary cfg) sc) (secondary_checks E connect pool_name (cfg_Primary cfg) sc runner).
Proof.
  intros Hsc. unfold secondary_claims, secondary_checks. set (label := "secondary:" ++ site_Name sc).
  apply Forall2_app; [|apply Forall2_app; [|apply Forall2_app]].
  - repeat apply Forall2_cons_2; [apply (sshCheck_tame label)|apply (pgControlCheck_tame label)
      |apply (pgInRecoveryCheck_tame label)|apply (dbKeyPresentCheck_tame label)|constructor].
  - destruct (_ && _); [|constructor]. apply Forall2_cons_2; [apply dbKeyParityCheck_tame|constructor].
  - repeat apply Forall2_cons_2; [apply (remoteBinaryCheck_tame label "rsync"); closed_decide
      |apply (remoteBinaryCheck_tame label "git"); closed_decide|constructor].
  - case_bool_decide; [|constructor]. apply Forall2_cons_2; [|constructor]. apply (pathExistsCheck_tame label).
    unfold doctor_cmds. apply elem_of_app. right.
    by apply (list_elem_of_fmap_2 (λ sc, "test -d " ++ Quote (git_ReposPath (site_Git sc)))).
Qed.

Lemma storage_covered : Forall2 covered (storage_claims (cfg_Primary cfg)) (storage_checks (cfg_Primary cfg)).
Proof.
  unfold storage_claims, storage_checks. destruct (os_S3 _); [|constructor].
  case_bool_decide; [|constructor]. repeat constructor. apply s3BucketCheck_tame.
Qed.

Lemma checks_covered : Forall2 covered claims (checks E connect pool_name cfg runner).
Proof.
  unfold claims, checks. apply Forall2_app; [apply primary_covered|]. apply Forall2_app; [|apply storage_covered].
  assert (∀ scs, scs ⊆ cfg_Secondaries cfg → Forall2 covered
    (mjoin (secondary_claims (cfg_Primary cfg) <$> scs))
    (mjoin ((λ sc, secondary_checks E connect pool_name (cfg_Primary cfg) sc runner) <$> scs))) as H; [|by apply H].
  intros scs. induction scs as [|sc scs IH]; intros Hs; [constructor|]. rewrite !fmap_cons. cbn [mjoin list_join]. apply Forall2_app.
  - apply secondary_covered, Hs. left.
  - apply IH. intros x Hx. apply Hs. by right.
Qed.

Lemma add_all_tame xs ms l : Forall2 covered xs ms →
  Tame (λ l', ∃ k, l' = l ++ k ∧ Forall2 honest xs k) (add_all ms l).
Proof.
  intros H. revert l. induction H as [|x m xs ms Hm Hms IH]; intros l; cbn [add_all].
  - apply tame_ret. exists []. rewrite app_nil_r. by split; [|constructor].
  - eapply tame_bind; [apply Hm|]. intros c s Hs.
    destruct (IH (l ++ [c]) s Hs) as (l' & s' & E1 & Hk & Hrest).
    exists l', s'. split; [done|]. split; [|done]. intros Hw Hc. destruct (Hk Hw) as (k & -> & Hk').
    exists (c :: k). rewrite <- app_assoc. split; [done|by constructor].
Qed.

Definition count_status (st : gostr) (l : list CheckItem) : Z := Z.of_nat (length (filter (λ c, ck_Status c = st) l)).

Lemma tally_all l l0 p f w :
  foldl tally (mkDoctor l0 p f w) l =
  mkDoctor l0 (p + count_status "PASS" l) (f + count_status "FAIL" l) (w + count_status "WARN" l).
Proof.
  revert p f w. induction l as [|c l IH]; intros p f w; cbn [foldl].
  { unfold count_status. cbn. by rewrite !Z.add_0_r. }
  unfold tally at 2, count_status. rewrite !filter_cons. destruct c as [n ct st d]. cbn [ck_Status].
  repeat (case_bool_decide; [subst; rewrite IH; unfold count_status; cbn [length]; repeat case_decide; try done;
    cbn [length]; f_equal; lia|]).
  rewrite IH. unfold count_status. repeat case_decide; try done.
Qed.

Lemma count_statuses l : Forall (λ c, ck_Status c ∈ statuses) l →
  (count_status "PASS" l + count_status "FAIL" l + count_status "WARN" l)%Z = Z.of_nat (length l).
Proof.
  induction 1 as [|c l Hc Hl IH]; [done|]. unfold count_status in *. rewrite !filter_cons. cbn [length].
  unfold statuses in Hc. rewrite !elem_of_cons, elem_of_nil in Hc.
  destruct Hc as [->|[->|[->|[]]]]; repeat (case_decide; try done); cbn [length]; lia.
Qed.

(** The closing line says that all is well exactly when every item passed. *)
Lemma closing_ready l : Forall (λ c, ck_Status c ∈ statuses) l →
  closing (mkDoctor l (count_status "PASS" l) (count_status "FAIL" l) (count_status "WARN" l)) =
    "All checks passed. Ready to sync!" ↔ Forall (λ c, ck_Status c = "PASS") l.
Proof.
  intros Hl. pose proof (count_statuses l Hl) as Hn.
  assert (count_status "PASS" l = Z.of_nat (length l) ↔ Forall (λ c, ck_Status c = "PASS") l) as <-.
  { unfold count_status. rewrite Nat2Z.inj_iff. apply filter_length_all. }
  unfold closing. cbn [Fail Warn].
  assert (0 <= count_status "FAIL" l)%Z by (unfold count_status; lia).
  assert (0 <= count_status "WARN" l)%Z by (unfold count_status; lia).
  repeat case_match; rewrite ?Z.ltb_lt, ?Z.ltb_ge in *; split; intros; try discriminate; try lia; done.
Qed.

Lemma count_status_0 st l : count_status st l = 0%Z → Forall (λ c, ck_Status c ≠ st) l.
Proof.
  unfold count_status. induction l as [|c l IH]; [constructor|]. rewrite filter_cons.
  case_decide; cbn [length]; [lia|]. intros. constructor; [done|by apply IH].
Qed.

End spec.

Section report.
Context (E : Env) (connect : nat → gostr → option error) (pool_name : nat → gostr) (cfg : Config) (runner : SshConfig).

(** What is claimed of a run from [s] to [s']. *)
Definition run_claims (s s' : dstate) : list (gostr * (gostr → Prop)) :=
  claims E connect pool_name cfg runner s s'.

Lemma RunWith_spec s : pools_ok (d_pools s) → ∃ l s',
  RunWith E connect pool_name cfg runner s =
    (mkDoctor l (count_status "PASS" l) (count_status "FAIL" l) (count_status "WARN" l), s') ∧
  Forall2 honest (run_claims s s') l ∧ p_open (d_pools s') = p_open (d_pools s) ∧
  ∃ evs, d_hist s' = d_hist s ++ evs ∧ Forall (inspects cfg) evs.
Proof.
  intros Hs. set (t := (add_all (checks E connect pool_name cfg runner) [] s).2).
  pose proof (checks_covered E connect pool_name cfg runner s t) as Hc.
  apply (λ H, add_all_tame _ _ _ _ _ [] H s Hs) in Hc. destruct Hc as (l & s' & Er & Hk & _ & Ho & Hn & Hh).
  assert (t = s') as Ht by (subst t; by rewrite Er). rewrite Ht in Hk.
  destruct Hk as (k & -> & Hk'); [split_and!; done|].
  exists k, s'. unfold RunWith, mbind, ST_bind. rewrite Er. cbn [app].
  split_and!; [|done..]. unfold mret, ST_ret. by rewrite tally_all.
Qed.

Lemma honest_status s s' l : Forall2 honest (run_claims s s') l → Forall (λ c, ck_Status c ∈ statuses) l.
Proof.
  intros Hl. apply Forall_lookup_2. intros i c Hi. destruct (Forall2_lookup_r _ _ _ _ _ Hl Hi) as (x & _ & Hx).
  by apply Hx.
Qed.

(** C36: the doctor's report is complete and honest.  Whatever the sites
    answer, the report has one item per expected check, in order, and each
    status is what its check found during the run, in both directions: ssh
    and the tools PASS when the command ran on the configured host and exited
    without an error, FAIL when it failed, WARN without a host; the database
    PASSes when it answered, and so do the replication role, [wal_level] and
    [max_wal_senders] when the answer suffices, and they FAIL on an error or
    another answer; recovery mode PASSes when the standby says so and WARNs
    otherwise; the db_key_base PASSes when it was counted, or when both keys
    were read and match; a path PASSes when [test -d] succeeded; an S3
    storage PASSes when its configuration is complete.  The three tallies are
    the numbers of items with each status and add up to the number of items,
    and the printed report says that all checks passed exactly when every
    item did. *)
Theorem doctor_report s r s' : pools_ok (d_pools s) → RunWith E connect pool_name cfg runner s = (r, s') →
  Forall2 honest (run_claims s s') (Checks r) ∧
  Pass r = count_status "PASS" (Checks r) ∧ Fail r = count_status "FAIL" (Checks r) ∧
  Warn r = count_status "WARN" (Checks r) ∧
  (Pass r + Fail r + Warn r)%Z = Z.of_nat (length (Checks r)) ∧
  (closing r = "All checks passed. Ready to sync!" ↔ Forall (λ c, ck_Status c = "PASS") (Checks r)).
Proof.
  intros Hs Hr. destruct (RunWith_spec s Hs) as (l & s1 & Er & Hl & _). rewrite Er in Hr. injection Hr as <- <-.
  pose proof (honest_status _ _ _ Hl) as Hst.
  cbn [Checks Pass Fail Warn]. do 4 (split; [done|]). split; [by apply count_statuses|by apply closing_ready].
Qed.

(** C37: the doctor only looks.  A run leaves no connection pool open and
    closes none but its own, and everything it does is one of seven remote
    commands over ssh, none of which writes ([echo], [grep], [--version],
    [test -d] of a quoted path), or one of five queries that only read. *)
Theorem doctor_only_looks s : pools_ok (d_pools s) →
  let '(_, s') := RunWith E connect pool_name cfg runner s in
  p_open (d_pools s') = p_open (d_pools s) ∧
  ∃ evs, d_hist s' = d_hist s ++ evs ∧ Forall (inspects cfg) evs.
Proof. intros Hs. by destruct (RunWith_spec s Hs) as (l & s1 & -> & _ & ?). Qed.
End report.

(** ** Runs *)

(** Every command succeeds; the databases answer, but the server was
    started with [max_wal_senders] = 0. *)
Definition ex_doctor_env : Env := {|
  env_exec _ _ _ _ _ := ("1", None);
  env_get _ _ _ := Err (ErrExternal "no network");
  env_hops _ _ := [];
  env_disk _ _ := NFile;
  env_draw _ _ _ := 0;
  env_sql _ _ sql _ := Ok
    (if bool_decide (sql = "SHOW wal_level") then [[Some ("replica" : gostr)]]
     else if bool_decide (sql = "SHOW max_wal_senders") then [[Some ("0" : gostr)]]
     else [[Some ("t" : gostr)]]);
  env_ctx _ := None;
  env_timer _ _ := true |}.

Definition ex_doctor (connect : nat → gostr → option error) : DoctorResult * dstate :=
  RunWith ex_doctor_env connect (λ _, "eu") (ex_config None) Default (mkD [] (mkPools 0 ∅)).

Example doctor_example :
  let '(r, s) := ex_doctor (λ _ _, None) in
  (ck_Name <$> filter (λ c, ck_Status c = "FAIL") (Checks r)) = ["pg:primary:max_wal_senders"] ∧
  p_next (d_pools s) = 6.
Proof. vm_compute. split; reflexivity. Qed.

Lemma doctor_report_witness :
  let '(r, s') := ex_doctor (λ _ _, None) in
  Forall2 honest (run_claims ex_doctor_env (λ _ _, None) (λ _, "eu") (ex_config None) Default (mkD [] (mkPools 0 ∅)) s')
    (Checks r) ∧
  (Pass r + Fail r + Warn r)%Z = Z.of_nat (length (Checks r)).
Proof.
  unfold ex_doctor. destruct (RunWith _ _ _ _ _ _) as [r s'] eqn:Er.
  pose proof (doctor_report ex_doctor_env (λ _ _, None) (λ _, "eu") (ex_config None) Default (mkD [] (mkPools 0 ∅)) r s'
    (no_pools_ok 0) Er) as (H1 & _ & _ & _ & H2 & _).
  exact (conj H1 H2).
Defined.

Lemma doctor_only_looks_witness :
  let '(r, s') := ex_doctor (λ i _, if decide (i = 1) then Some (ErrExternal "refused") else None) in
  p_open (d_pools s') = ∅ ∧ ∃ evs, d_hist s' = [] ++ evs ∧ Forall (inspects (ex_config None)) evs.
Proof.
  pose proof (doctor_only_looks ex_doctor_env (λ i _, if decide (i = 1) then Some (ErrExternal "refused") else None)
    (λ _, "eu") (ex_config None) Default (mkD [] (mkPools 0 ∅)) (no_pools_ok 0)) as H.
  unfold ex_doctor. destruct (RunWith _ _ _ _ _ _) as [r s']. exact H.
Defined.
