(* ===== verification/Sla.v ===== *)
(** * internal/sla: the RPO/RTO summary of a running syncctl

    The text parser of the metrics format is a parameter; the map of metric
    families it returns is traversed in an order Go does not specify, so the
    traversal takes the families as a list in any order. *)
From Stdlib Require Import Ascii ZArith Lia SpecFloat.
From stdpp Require Import prelude strings gmap list fin_maps.
From S2P Require Import Prelude World GoStrings GoFloat.
Open Scope go_scope.

(** ** The code *)

(** The parts of [dto.Metric] and [dto.MetricFamily] that are read: a
    gauge's or a counter's value when there is one, and the labels. *)
Record metric := mkMetric { GetGauge : option spec_float; GetCounter : option spec_float; GetLabel : list (gostr * gostr) }.
Record family := mkFamily { GetName : gostr; GetMetric : list metric }.

Record Report := mkReport {
  PGLagCurrent : Z; PGLagPeak : Z; LastSweepAge : Z;
  DriftCount : Z; ComponentsHealthy : Z; ComponentsTotal : Z }.

(** [d.Seconds()]. *)
Definition Seconds (d : Z) : spec_float :=
  SFadd 53 1024 (float_of_int (Z.quot d Second)) (SFdiv 53 1024 (float_of_int (Z.rem d Second)) (float_of_int Second)).

(** [time.Duration(v * float64(time.Second))]. *)
Definition lag_duration (v : spec_float) : Z := int_of_float (float_mul v (float_of_int Second)).

(** [time.Since(time.Unix(sec, 0))] at the time [now] (nanoseconds since
    1970): the difference saturates; seconds are counted from the year 1
    in 64 bits. *)
Definition Since (now sec : Z) : Z :=
  let u := (wrap64 (sec + 62135596800) - 62135596800)%Z in
  Z.max int64_min (Z.min int64_max (now - u * Second)).

(** The variables of [buildReport], and the number of readings of the clock
    so far. *)
Record sla_acc := mkAcc { a_report : Report; a_set : gset gostr; a_reads : nat }.

Definition lag_step (r : Report) (m : metric) : Report :=
  match GetGauge m with
  | None => r
  | Some v =>
      let cur := if SFltb (Seconds (PGLagCurrent r)) v then lag_duration v else PGLagCurrent r in
      mkReport cur cur (LastSweepAge r) (DriftCount r)
        (if SFleb (S754_zero false) v then ComponentsHealthy r + 1 else ComponentsHealthy r) (ComponentsTotal r)
  end.

Definition lag_family (a : sla_acc) (m : metric) : sla_acc := mkAcc (lag_step (a_report a) m) (a_set a) (a_reads a).

Definition component_labels (m : metric) : gset gostr :=
  list_to_set (snd <$> filter (λ l, l.1 = ("component" : gostr)) (GetLabel m)).

Definition drift_family (a : sla_acc) (m : metric) : sla_acc :=
  match GetCounter m with
  | None => a
  | Some v =>
      let r := a_report a in
      mkAcc (mkReport (PGLagCurrent r) (PGLagPeak r) (LastSweepAge r) (wrap64 (DriftCount r + int_of_float v))
               (ComponentsHealthy r) (ComponentsTotal r))
        (component_labels m ∪ a_set a) (a_reads a)
  end.

Section sla.
(** The successive readings of the clock. *)
Context (clock : nat → Z).

Definition sync_family (a : sla_acc) (m : metric) : sla_acc :=
  match GetGauge m with
  | None => a
  | Some ts =>
      if SFltb (S754_zero false) ts then
        let r := a_report a in
        let age := Since (clock (a_reads a)) (int_of_float ts) in
        mkAcc (mkReport (PGLagCurrent r) (PGLagPeak r) (if (LastSweepAge r <? age)%Z then age else LastSweepAge r)
                 (DriftCount r) (ComponentsHealthy r) (ComponentsTotal r))
          ({["last_sync" : gostr]} ∪ a_set a) (S (a_reads a))
      else a
  end.

Definition report_family (a : sla_acc) (mf : family) : sla_acc :=
  if bool_decide (GetName mf = "syncctl_pg_replay_lag_seconds") then foldl lag_family a (GetMetric mf)
  else if bool_decide (GetName mf = "syncctl_drift_total") then foldl drift_family a (GetMetric mf)
  else if bool_decide (GetName mf = "syncctl_last_sync_timestamp_seconds") then foldl sync_family a (GetMetric mf)
  else a.

Definition zero_report : Report := mkReport 0 0 0 0 0 0.

Definition buildReport (mfs : list family) : Report :=
  let a := foldl report_family (mkAcc zero_report ∅ 0) mfs in
  let r := a_report a in
  let total := Z.of_nat (size (a_set a)) in
  mkReport (PGLagCurrent r) (PGLagPeak r) (LastSweepAge r) (DriftCount r) (ComponentsHealthy r)
    (if bool_decide (total = 0%Z) then 1 else total).
End sla.

(** What [Print] writes. *)
Definition Print (r : Report) : list frag :=
  [FS "=== syncctl SLA Report ==="; FS [LF; LF];
   FS "PostgreSQL Replay Lag:"; FS [LF];
   FS "  Current: "; FD (PGLagCurrent r); FS [LF];
   FS "  Peak:    "; FD (PGLagPeak r); FS [LF];
   FS [LF]; FS "Last Sync Age (oldest component): "; FD (LastSweepAge r); FS [LF];
   FS [LF]; FS "Drift Events (cumulative): "; FZ (DriftCount r); FS [LF];
   FS "Components Healthy: "; FZ (ComponentsHealthy r); FS "/"; FZ (ComponentsTotal r); FS [LF];
   FS [LF]; FS "RPO Estimate: "; FD (PGLagCurrent r); FS " (PG replay lag)"; FS [LF];
   FS "RTO Estimate: ~2-5 min (pg_ctl promote + gitlab-ctl restart)"; FS [LF];
   FS [LF]; FS "Note: RPO for in-flight Sidekiq jobs is ~last dequeue time."; FS [LF]].

Definition DefaultMetricsURL (addr : gostr) : gostr :=
  let addr := if bool_decide (addr = []) then "127.0.0.1:9101" else addr in
  let addr := if bool_decide (head addr = Some ":"%char) then "127.0.0.1" ++ addr else addr in
  "http://" ++ addr ++ "/metrics".

Section generate.
Context (E : Env) (NewRequest : gostr → option error) (TextToMetricFamilies : gostr → res (gmap gostr family))
  (range : gmap gostr family → list family) (clock : nat → Z).

Definition scrape (metricsURL : gostr) : IO (res (gmap gostr family)) :=
  match NewRequest metricsURL with
  | Some err => mret (Err err)
  | None =>
      resp ← io_get E metricsURL [];
      mret (match resp with
            | Err err =>
                Err (Errorf [FS "scrape "; FS metricsURL; FS ": "; FW err;
                  FS " (is `syncctl serve` running, and is metrics.addr reachable from here?)"])
            | Ok resp =>
                if negb (bool_decide (StatusCode resp = 200%Z)) then
                  Err (Errorf [FS "scrape "; FS metricsURL; FS ": status "; FZ (StatusCode resp)])
                else
                  match TextToMetricFamilies (Body resp) with
                  | Err err => Err (Errorf [FS "parse metrics from "; FS metricsURL; FS ": "; FW err])
                  | Ok mfs => Ok mfs
                  end
            end)
  end.

(** The text written, or the error. *)
Definition Generate (metricsURL : gostr) : IO (res (list frag)) :=
  mfs ← scrape metricsURL;
  mret (match mfs with
        | Err err => Err err
        | Ok mfs => Ok (Print (buildReport clock (range mfs)))
        end).
End generate.

(** ** The reference: each figure from its own family *)

(** The values of the gauges of a family that is in the map. *)
Definition gauges (o : option family) : list spec_float := default [] (omap GetGauge ∘ GetMetric <$> o).
Definition counters (o : option family) : list metric :=
  default [] (filter (λ m, is_Some (GetCounter m)) ∘ GetMetric <$> o).

(** The lag: a greater value, compared in seconds, replaces it. *)
Definition raise_lag (cur : Z) (v : spec_float) : Z := if SFltb (Seconds cur) v then lag_duration v else cur.

Definition nonneg (v : spec_float) : bool := SFleb (S754_zero false) v.
Definition positive (v : spec_float) : bool := SFltb (S754_zero false) v.

Definition drift_sum (ms : list metric) : Z :=
  foldr (λ m z, (default 0%Z (int_of_float <$> GetCounter m) + z)%Z) 0%Z ms.

Definition max_age (clock : nat → Z) (ts : list spec_float) : Z :=
  foldr Z.max 0%Z (imap (λ i v, Since (clock i) (int_of_float v)) ts).

Definition components (drift : list metric) (ts : list spec_float) : gset gostr :=
  ⋃ (component_labels <$> drift) ∪ (if bool_decide (ts = []) then ∅ else {["last_sync" : gostr]}).

Definition reference (clock : nat → Z) (mfs : gmap gostr family) : Report :=
  let lags := gauges (mfs !! ("syncctl_pg_replay_lag_seconds" : gostr)) in
  let drift := counters (mfs !! ("syncctl_drift_total" : gostr)) in
  let ts := filter (λ v, positive v = true) (gauges (mfs !! ("syncctl_last_sync_timestamp_seconds" : gostr))) in
  let lag := foldl raise_lag 0%Z lags in
  mkReport lag lag (max_age clock ts) (wrap64 (drift_sum drift))
    (Z.of_nat (length (filter (λ v, nonneg v = true) lags)))
    (Z.max 1 (Z.of_nat (size (components drift ts)))).

(** ** Lemmas *)

(** The parser files every family under its name. *)
Definition keyed (mfs : gmap gostr family) : Prop := ∀ k mf, mfs !! k = Some mf → GetName mf = k.

(** An order in which the map may be traversed. *)
Definition traversal (mfs : gmap gostr family) (order : list family) : Prop := order ≡ₚ (map_to_list mfs).*2.

Definition named (n : gostr) (mfs : list family) : option family := List.find (λ mf, bool_decide (GetName mf = n)) mfs.

Lemma traversal_elem mfs order mf : keyed mfs → traversal mfs order → mf ∈ order ↔ mfs !! GetName mf = Some mf.
Proof.
  intros Hk ->. rewrite list_elem_of_fmap. split.
  - intros ([k x] & -> & Hx%elem_of_map_to_list). cbn. by rewrite (Hk _ _ Hx).
  - intros Hx. exists (GetName mf, mf). split; [done|]. by apply elem_of_map_to_list.
Qed.

Lemma traversal_nodup mfs order : keyed mfs → traversal mfs order → NoDup (GetName <$> order).
Proof.
  intros Hk Ht. unfold traversal in Ht. rewrite Ht.
  assert (GetName <$> (map_to_list mfs).*2 = (map_to_list mfs).*1) as ->; [|apply NoDup_fst_map_to_list].
  rewrite <- list_fmap_compose. apply list_fmap_ext. intros i [k mf] Hi. cbn.
  apply (Hk k mf), elem_of_map_to_list, list_elem_of_lookup. by exists i.
Qed.

Lemma named_traversal mfs order n : keyed mfs → traversal mfs order → named n order = mfs !! n.
Proof.
  intros Hk Ht. unfold named. destruct (List.find _ order) as [mf|] eqn:Ef.
  - apply List.find_some in Ef as [Hin Hn]. apply bool_decide_eq_true_1 in Hn as <-.
    apply list_elem_of_In in Hin. by apply (traversal_elem mfs) in Hin.
  - destruct (mfs !! n) as [mf|] eqn:El; [|done]. pose proof (Hk _ _ El) as Hn. subst n.
    apply (traversal_elem mfs order) in El; [|done..]. apply list_elem_of_In in El.
    apply (List.find_none _ _ Ef) in El. by rewrite bool_decide_eq_true_2 in El.
Qed.

(** A part of the state that only the family [n] changes. *)
Lemma foldl_named {A B} (part : A → B) (step : A → family → A) (f : B → list metric → B) n mfs a :
  (∀ a mf, part (step a mf) = if bool_decide (GetName mf = n) then f (part a) (GetMetric mf) else part a) →
  NoDup (GetName <$> mfs) →
  part (foldl step a mfs) = match named n mfs with Some mf => f (part a) (GetMetric mf) | None => part a end.
Proof.
  intros Hstep. revert a. induction mfs as [|mf mfs IH]; intros a Hnd; [done|].
  cbn [fmap list_fmap] in Hnd. apply NoDup_cons in Hnd as [Hn Hnd]. cbn [foldl]. rewrite IH, Hstep by done.
  unfold named. cbn [List.find]. case_bool_decide as Hd; [|done].
  destruct (List.find _ mfs) as [mf'|] eqn:Ef; [|done]. exfalso. apply Hn.
  apply List.find_some in Ef as [Hin Hn']. apply bool_decide_eq_true_1 in Hn'. apply list_elem_of_fmap.
  exists mf'. split; [congruence|by apply list_elem_of_In].
Qed.

(** *** The replay lag *)

Definition lag_part (a : sla_acc) : Z * Z * Z :=
  (PGLagCurrent (a_report a), PGLagPeak (a_report a), ComponentsHealthy (a_report a)).

Definition lag_part_step (p : Z * Z * Z) (ms : list metric) : Z * Z * Z :=
  lag_part (foldl lag_family (mkAcc (mkReport p.1.1 p.1.2 0 0 p.2 0) ∅ 0) ms).

Lemma lag_part_fold ms a a' : lag_part a = lag_part a' →
  lag_part (foldl lag_family a ms) = lag_part (foldl lag_family a' ms).
Proof.
  revert a a'. induction ms as [|m ms IH]; intros a a' Ha; [done|]. apply IH. unfold lag_part, lag_family, lag_step in *.
  destruct a as [[c p ? ? h ?] ? ?], a' as [[c' p' ? ? h' ?] ? ?]. cbn in *. injection Ha as -> -> ->.
  by destruct (GetGauge m).
Qed.

Lemma lag_part_values ms c h :
  lag_part_step (c, c, h) ms =
  let lags := omap GetGauge ms in
  (foldl raise_lag c lags, foldl raise_lag c lags, (h + Z.of_nat (length (filter (λ v, nonneg v = true) lags)))%Z).
Proof.
  unfold lag_part_step. cbn [fst snd]. revert c h. induction ms as [|m ms IH]; intros c h; cbn zeta in *.
  { cbn. by rewrite Z.add_0_r. }
  cbn [foldl]. unfold lag_family at 2, lag_step. cbn [omap list_omap a_report]. destruct (GetGauge m) as [v|]; [|apply IH].
  cbn [PGLagCurrent LastSweepAge DriftCount ComponentsHealthy ComponentsTotal a_set a_reads foldl].
  fold (raise_lag c v). rewrite IH, filter_cons. f_equal. change (SFleb (S754_zero false) v) with (nonneg v).
  destruct (nonneg v); case_decide; try done; cbn [length]; lia.
Qed.

(** *** The drift counter *)

Definition add_drift (z : Z) (m : metric) : Z :=
  match GetCounter m with Some v => wrap64 (z + int_of_float v) | None => z end.

Lemma drift_fold ms a :
  DriftCount (a_report (foldl drift_family a ms)) = foldl add_drift (DriftCount (a_report a)) ms ∧
  lag_part (foldl drift_family a ms) = lag_part a ∧
  LastSweepAge (a_report (foldl drift_family a ms)) = LastSweepAge (a_report a) ∧
  a_reads (foldl drift_family a ms) = a_reads a.
Proof.
  revert a. induction ms as [|m ms IH]; intros a; [done|]. cbn [foldl].
  destruct (IH (drift_family a m)) as (-> & -> & -> & ->). unfold add_drift at 3, drift_family.
  by destruct (GetCounter m).
Qed.

Lemma add_drift_sum z ms :
  foldl add_drift (wrap64 z) ms = wrap64 (z + drift_sum (filter (λ m, is_Some (GetCounter m)) ms)).
Proof.
  revert z. induction ms as [|m ms IH]; intros z; cbn [foldl]; [by rewrite Z.add_0_r|].
  unfold add_drift at 2. rewrite filter_cons. destruct (GetCounter m) as [v|] eqn:Ec.
  - rewrite wrap64_add, IH. case_decide as Hd; [|by destruct Hd]. unfold drift_sum. cbn [foldr].
    rewrite Ec. cbn. by rewrite Z.add_assoc.
  - rewrite IH. case_decide as Hd; [|done]. by destruct Hd.
Qed.

(** *** The age of the last sync *)

Section clock.
Context (clock : nat → Z).

Definition age_step (p : Z * nat) (v : spec_float) : Z * nat :=
  (Z.max p.1 (Since (clock p.2) (int_of_float v)), S p.2).

Definition positive_gauges (ms : list metric) : list spec_float := filter (λ v, positive v = true) (omap GetGauge ms).

Lemma sync_fold ms a :
  (LastSweepAge (a_report (foldl (sync_family clock) a ms)), a_reads (foldl (sync_family clock) a ms)) =
    foldl age_step (LastSweepAge (a_report a), a_reads a) (positive_gauges ms) ∧
  lag_part (foldl (sync_family clock) a ms) = lag_part a ∧
  DriftCount (a_report (foldl (sync_family clock) a ms)) = DriftCount (a_report a).
Proof.
  revert a. induction ms as [|m ms IH]; intros a; [done|]. cbn [foldl].
  destruct (IH (sync_family clock a m)) as (-> & -> & ->). unfold positive_gauges, sync_family.
  cbn [omap list_omap]. destruct (GetGauge m) as [v|]; [|done]. rewrite filter_cons.
  change (SFltb (S754_zero false) v) with (positive v). destruct (positive v); case_decide; try done.
  cbn [foldl]. split; [|done]. f_equal. unfold age_step. cbn. f_equal.
  case_match eqn:Hl; reflect_bools; lia.
Qed.

Lemma age_fold ts x n : (0 ≤ x)%Z →
  (foldl age_step (x, n) ts).1 = Z.max x (foldr Z.max 0%Z (imap (λ i v, Since (clock (n + i)) (int_of_float v)) ts)).
Proof.
  revert x n. induction ts as [|t ts IH]; intros x n Hx; [cbn; lia|]. cbn [foldl imap foldr].
  unfold age_step at 2. cbn [fst snd]. rewrite IH by lia. rewrite Nat.add_0_r.
  rewrite (imap_ext _ ((λ i v, Since (clock (n + i)) (int_of_float v)) ∘ S) ts).
  - lia.
  - intros i y _. cbn. by rewrite Nat.add_succ_r.
Qed.

Lemma foldr_max_nonneg l : (0 ≤ foldr Z.max 0 l)%Z.
Proof. induction l; cbn; lia. Qed.

(** *** The components *)

Definition contribution (mf : family) : gset gostr :=
  if bool_decide (GetName mf = "syncctl_drift_total") then
    ⋃ (component_labels <$> filter (λ m, is_Some (GetCounter m)) (GetMetric mf))
  else if bool_decide (GetName mf = "syncctl_last_sync_timestamp_seconds") then
    (if bool_decide (positive_gauges (GetMetric mf) = []) then ∅ else {["last_sync" : gostr]})
  else ∅.

Lemma drift_set ms a :
  a_set (foldl drift_family a ms) = ⋃ (component_labels <$> filter (λ m, is_Some (GetCounter m)) ms) ∪ a_set a.
Proof.
  revert a. induction ms as [|m ms IH]; intros a; cbn [foldl].
  - symmetry. apply union_empty_l_L.
  - rewrite IH, filter_cons. unfold drift_family. destruct (GetCounter m) eqn:Ec.
    + case_decide as Hd; [|by destruct Hd]. cbn. by rewrite (assoc_L (∪)), (comm_L (∪) _ (component_labels m)).
    + case_decide as Hd; [by destruct Hd|done].
Qed.

Lemma sync_set ms a :
  a_set (foldl (sync_family clock) a ms) =
  (if bool_decide (positive_gauges ms = []) then ∅ else {["last_sync" : gostr]}) ∪ a_set a.
Proof.
  revert a. induction ms as [|m ms IH]; intros a; cbn [foldl].
  - symmetry. apply union_empty_l_L.
  - rewrite IH. unfold positive_gauges, sync_family. cbn [omap list_omap]. destruct (GetGauge m) as [v|]; [|done].
    rewrite filter_cons. change (SFltb (S754_zero false) v) with (positive v).
    destruct (positive v); case_decide; try done. cbn [a_set]. rewrite (bool_decide_eq_false_2 (_ :: _ = [])) by done.
    clear IH. case_bool_decide; [by rewrite union_empty_l_L|by rewrite (assoc_L (∪)), union_idemp_L].
Qed.

Lemma lag_set ms a : a_set (foldl lag_family a ms) = a_set a ∧ a_reads (foldl lag_family a ms) = a_reads a ∧
  DriftCount (a_report (foldl lag_family a ms)) = DriftCount (a_report a) ∧
  LastSweepAge (a_report (foldl lag_family a ms)) = LastSweepAge (a_report a).
Proof.
  revert a. induction ms as [|m ms IH]; intros a; [done|]. cbn [foldl].
  destruct (IH (lag_family a m)) as (-> & -> & -> & ->). unfold lag_family, lag_step. by destruct (GetGauge m).
Qed.

Lemma report_family_set a mf : a_set (report_family clock a mf) = contribution mf ∪ a_set a.
Proof.
  unfold report_family, contribution. case_bool_decide as H1.
  { rewrite H1, !bool_decide_eq_false_2 by done. symmetry. rewrite (proj1 (lag_set _ _)). apply union_empty_l_L. }
  case_bool_decide; [apply drift_set|]. case_bool_decide; [apply sync_set|]. symmetry. apply union_empty_l_L.
Qed.

Lemma all_sets mfs a : a_set (foldl (report_family clock) a mfs) = ⋃ (contribution <$> mfs) ∪ a_set a.
Proof.
  revert a. induction mfs as [|mf mfs IH]; intros a; cbn [foldl]; [symmetry; apply union_empty_l_L|].
  rewrite IH, report_family_set. cbn. by rewrite (assoc_L (∪)), (comm_L (∪) _ (contribution mf)).
Qed.

Lemma components_set mfs order : keyed mfs → traversal mfs order →
  ⋃ (contribution <$> order) = components (counters (mfs !! ("syncctl_drift_total" : gostr)))
    (filter (λ v, positive v = true) (gauges (mfs !! ("syncctl_last_sync_timestamp_seconds" : gostr)))).
Proof.
  intros Hk Ht. apply set_eq. intros x. unfold components. rewrite elem_of_union, elem_of_union_list.
  split.
  - intros (X & (mf & -> & Hmf)%list_elem_of_fmap & Hx). apply (traversal_elem mfs) in Hmf; [|done..].
    revert Hx. unfold contribution. case_bool_decide as H1; [|case_bool_decide as H2]; intros Hx.
    + left. rewrite <- H1, Hmf. done.
    + right. rewrite <- H2, Hmf. done.
    + by apply elem_of_empty in Hx.
  - intros Hx. destruct Hx as [Hx|Hx].
    + destruct (mfs !! ("syncctl_drift_total" : gostr)) as [mf|] eqn:El; [|by rewrite elem_of_union_list in Hx; destruct Hx as (? & Hx & _); inversion Hx].
      pose proof (Hk _ _ El) as Hn. exists (contribution mf). split.
      * apply list_elem_of_fmap_2, (traversal_elem mfs); [done..|]. by rewrite Hn.
      * unfold contribution. by rewrite Hn.
    + destruct (mfs !! ("syncctl_last_sync_timestamp_seconds" : gostr)) as [mf|] eqn:El; [|by rewrite bool_decide_eq_true_2, elem_of_empty in Hx by done].
      pose proof (Hk _ _ El) as Hn. exists (contribution mf). split.
      * apply list_elem_of_fmap_2, (traversal_elem mfs); [done..|]. by rewrite Hn.
      * unfold contribution. by rewrite Hn.
Qed.

(** *** The three other parts *)

Lemma report_family_lag a mf : lag_part (report_family clock a mf) =
  if bool_decide (GetName mf = "syncctl_pg_replay_lag_seconds") then lag_part_step (lag_part a) (GetMetric mf) else lag_part a.
Proof.
  unfold report_family. case_bool_decide.
  { apply lag_part_fold. by destruct a as [[] ? ?]. }
  case_bool_decide; [apply drift_fold|]. case_bool_decide; [apply sync_fold|done].
Qed.

Lemma report_family_drift a mf : DriftCount (a_report (report_family clock a mf)) =
  if bool_decide (GetName mf = "syncctl_drift_total") then foldl add_drift (DriftCount (a_report a)) (GetMetric mf)
  else DriftCount (a_report a).
Proof.
  unfold report_family. case_bool_decide as H1; [rewrite H1, bool_decide_eq_false_2 by done; apply lag_set|].
  case_bool_decide; [apply drift_fold|]. case_bool_decide; [apply sync_fold|done].
Qed.

Lemma report_family_age a mf :
  (LastSweepAge (a_report (report_family clock a mf)), a_reads (report_family clock a mf)) =
  if bool_decide (GetName mf = "syncctl_last_sync_timestamp_seconds")
  then foldl age_step (LastSweepAge (a_report a), a_reads a) (positive_gauges (GetMetric mf))
  else (LastSweepAge (a_report a), a_reads a).
Proof.
  unfold report_family. case_bool_decide as H1.
  { rewrite H1, bool_decide_eq_false_2 by done. by destruct (lag_set (GetMetric mf) a) as (_ & -> & _ & ->). }
  case_bool_decide as H2.
  { rewrite H2, bool_decide_eq_false_2 by done. by destruct (drift_fold (GetMetric mf) a) as (_ & _ & -> & ->). }
  case_bool_decide; [apply sync_fold|done].
Qed.

Lemma buildReport_ref mfs order : keyed mfs → traversal mfs order → buildReport clock order = reference clock mfs.
Proof.
  intros Hk Ht. pose proof (traversal_nodup mfs order Hk Ht) as Hnd. unfold buildReport, reference.
  set (a0 := mkAcc zero_report ∅ 0).
  pose proof (foldl_named lag_part _ _ _ order a0 report_family_lag Hnd) as Hlag.
  pose proof (foldl_named (λ a, DriftCount (a_report a)) _ (λ z ms, foldl add_drift z ms) _ order a0 report_family_drift Hnd) as Hdrift.
  pose proof (foldl_named (λ a, (LastSweepAge (a_report a), a_reads a)) _ (λ p ms, foldl age_step p (positive_gauges ms))
    _ order a0 report_family_age Hnd) as Hage.
  pose proof (all_sets order a0) as Hset. rewrite (components_set mfs order Hk Ht) in Hset.
  rewrite (named_traversal mfs order _ Hk Ht) in Hlag. rewrite (named_traversal mfs order _ Hk Ht) in Hdrift.
  rewrite (named_traversal mfs order _ Hk Ht) in Hage. change (a_set a0) with (∅ : gset gostr) in Hset. rewrite union_empty_r_L in Hset.
  set (a := foldl (report_family clock) a0 order) in *. cbv zeta. rewrite Hset. cbn beta in Hdrift, Hage.
  set (ts := filter _ (gauges _)) in *. set (n := size _).
  assert ((if bool_decide (Z.of_nat n = 0) then 1 else Z.of_nat n) = Z.max 1 (Z.of_nat n))%Z as -> by (case_bool_decide; lia).
  assert (lag_part a = lag_part_step (0, 0, 0)%Z (default [] (GetMetric <$> mfs !! ("syncctl_pg_replay_lag_seconds" : gostr))))
    as Hl. { rewrite Hlag. by destruct (mfs !! _). }
  rewrite lag_part_values in Hl. cbv zeta in Hl. unfold gauges. injection Hl as Hc Hp Hh. rewrite Hc, Hp, Hh.
  assert (DriftCount (a_report a) = wrap64 (drift_sum (counters (mfs !! ("syncctl_drift_total" : gostr))))) as ->.
  { rewrite Hdrift. destruct (mfs !! ("syncctl_drift_total" : gostr)); [|done]. by rewrite (add_drift_sum 0). }
  assert (LastSweepAge (a_report a) = max_age clock ts) as ->.
  { apply (f_equal fst) in Hage. cbn [fst] in Hage. rewrite Hage. subst ts.
    destruct (mfs !! ("syncctl_last_sync_timestamp_seconds" : gostr)); [|done].
    rewrite age_fold by done. unfold max_age. apply Z.max_r. apply foldr_max_nonneg. }
  rewrite !Z.add_0_l. by destruct (mfs !! ("syncctl_pg_replay_lag_seconds" : gostr)).
Qed.
(** C38: the report does not depend on the order in which Go traverses the
    map of metric families, and is the reference: each figure comes from
    the family that carries it.  The drift count is the sum of the
    counters in 64-bit arithmetic, the age is the largest one of a positive
    timestamp, the healthy components are the secondaries with a lag of
    zero or more, the total is the number of components with drift, plus
    one when there is a timestamp, and at least one; and the peak lag is
    always the current lag. *)
Theorem buildReport_reference mfs order : keyed mfs → traversal mfs order →
  buildReport clock order = reference clock mfs.
Proof. apply buildReport_ref. Qed.
End clock.

(** ** No report without a measurement *)

Section honest.
Context (E : Env) (NewRequest : gostr → option error) (parse : gostr → res (gmap gostr family))
  (range : gmap gostr family → list family) (clock : nat → Z).
Context (Hkeyed : ∀ body mfs, parse body = Ok mfs → keyed mfs) (Hrange : ∀ mfs, traversal mfs (range mfs)).

(** The summary is never made up.  The command does nothing but one GET
    of the metrics URL; it writes a report exactly when the endpoint
    answered 200 with text the parser accepts, and then the reference
    report of these metrics; anything else is an error and nothing is
    written. *)
Lemma Generate_honest url h : let '(r, h') := Generate E NewRequest parse range clock url h in
  h' = h ++ match NewRequest url with Some _ => [] | None => [EvGet url []] end ∧
  ∀ text, r = Ok text ↔ ∃ resp mfs, NewRequest url = None ∧ env_get E h url [] = Ok resp ∧ StatusCode resp = 200%Z ∧
    parse (Body resp) = Ok mfs ∧ text = Print (reference clock mfs).
Proof.
  unfold Generate, scrape, mbind, ST_bind. destruct (NewRequest url) as [e|].
  { cbn. rewrite app_nil_r. split; [done|]. intros text. split; [done|by intros (? & ? & ? & _)]. }
  unfold io_get. destruct (env_get E h url []) as [resp|e] eqn:Eg.
  2: { cbn. split; [done|]. intros text. split; [done|by intros (? & ? & _ & ? & _)]. }
  cbn. case_bool_decide as Hs; cbn.
  2: { split; [done|]. intros text. split; [done|]. intros (? & ? & _ & [= <-] & ? & _). done. }
  destruct (parse (Body resp)) as [mfs|e] eqn:Ep.
  2: { split; [done|]. intros text. split; [done|]. intros (? & ? & _ & [= <-] & _ & Hp & _). congruence. }
  rewrite (buildReport_ref clock mfs (range mfs)) by eauto. split; [done|]. intros text. split.
  - intros [= <-]. by exists resp, mfs.
  - intros (? & ? & _ & [= <-] & _ & Hp & ->). congruence.
Qed.
End honest.

(** ** Runs *)

Definition ex_gauge (v : Z) : metric := mkMetric (Some (float_of_int v)) None [].
Definition ex_lags : family := mkFamily "syncctl_pg_replay_lag_seconds" [ex_gauge 3; ex_gauge (-1); ex_gauge 7; ex_gauge 2].
Definition ex_drift : family := mkFamily "syncctl_drift_total"
  [mkMetric None (Some (float_of_int 4)) [("component" : gostr, "git_fetch" : gostr); ("severity" : gostr, "warning" : gostr)]].
Definition ex_sync : family := mkFamily "syncctl_last_sync_timestamp_seconds" [ex_gauge 1000; ex_gauge 900].
Definition ex_families : gmap gostr family :=
  {[("syncctl_drift_total" : gostr) := ex_drift; ("syncctl_pg_replay_lag_seconds" : gostr) := ex_lags;
    ("syncctl_last_sync_timestamp_seconds" : gostr) := ex_sync]}.
Definition ex_clock (_ : nat) : Z := (1060 * Second)%Z.

(** The peak is the current lag. *)
Example report_example :
  reference ex_clock ex_families = mkReport (7 * Second) (7 * Second) (160 * Second) 4 3 2 ∧
  buildReport ex_clock [ex_lags; ex_drift; ex_sync] = reference ex_clock ex_families.
Proof. vm_compute. split; reflexivity. Qed.

(** Three healthy components out of one: the healthy ones are secondaries
    with a lag, the total are components with drift. *)
Example more_healthy_than_total :
  let r := buildReport ex_clock [ex_lags; ex_drift] in ComponentsHealthy r = 3%Z ∧ ComponentsTotal r = 1%Z.
Proof. vm_compute. split; reflexivity. Qed.

Example metrics_urls :
  DefaultMetricsURL [] = "http://127.0.0.1:9101/metrics" ∧ DefaultMetricsURL ":9101" = "http://127.0.0.1:9101/metrics" ∧
  DefaultMetricsURL "0.0.0.0:9101" = "http://0.0.0.0:9101/metrics".
Proof. repeat split; reflexivity. Qed.

Lemma ex_keyed : keyed ex_families.
Proof.
  intros k mf Hk%elem_of_map_to_list. revert Hk.
  assert (map_to_list ex_families ≡ₚ [("syncctl_drift_total" : gostr, ex_drift);
    ("syncctl_pg_replay_lag_seconds" : gostr, ex_lags); ("syncctl_last_sync_timestamp_seconds" : gostr, ex_sync)]) as ->.
  { unfold ex_families. rewrite !map_to_list_insert by (vm_compute; reflexivity). by rewrite map_to_list_singleton. }
  rewrite !elem_of_cons, elem_of_nil. intros [[= -> ->]|[[= -> ->]|[[= -> ->]|[]]]]; reflexivity.
Qed.

Lemma buildReport_reference_witness :
  buildReport ex_clock (reverse ((map_to_list ex_families).*2)) = reference ex_clock ex_families.
Proof.
  apply (buildReport_reference ex_clock); [exact ex_keyed|]. unfold traversal. rewrite reverse_Permutation. reflexivity.
Defined.

Definition ex_metrics_env : Env := {|
  env_exec _ _ _ _ _ := ([], None);
  env_get _ _ _ := Ok {| StatusCode := 200; Header _ := []; Body := [] |};
  env_hops _ _ := [];
  env_disk _ _ := NFile;
  env_draw _ _ _ := 0;
  env_sql _ _ _ _ := Err (ErrExternal "no database");
  env_ctx _ := None;
  env_timer _ _ := true |}.

Lemma Generate_honest_witness :
  let '(r, h') := Generate ex_metrics_env (λ _, None) (λ _, Ok ex_families) (λ m, (map_to_list m).*2) ex_clock "http://eu" [] in
  h' = [] ++ [EvGet "http://eu" []] ∧
  ∀ text, r = Ok text ↔ ∃ resp mfs, None = @None error ∧ env_get ex_metrics_env [] "http://eu" [] = Ok resp ∧
    StatusCode resp = 200%Z ∧ Ok ex_families = Ok mfs ∧ text = Print (reference ex_clock mfs).
Proof.
  apply (Generate_honest ex_metrics_env (λ _, None) (λ _, Ok ex_families) (λ m, (map_to_list m).*2) ex_clock).
  - intros body mfs [= <-]. exact ex_keyed.
  - intros mfs. unfold traversal. reflexivity.
Defined.
