(* ===== verification/Metrics.v ===== *)
(** * internal/metrics: the collectors, and what a scrape shows

    The collectors are updated by the events of the history; a scrape shows
    their values; internal/sla reads the scrape.  The Prometheus client and
    the text format are outside: what [Gather] returns is a relation
    between the values and the metric families, in any order and beside
    the families of other collectors. *)
From Stdlib Require Import Ascii ZArith Lia SpecFloat.
From stdpp Require Import prelude strings gmap list fin_maps.
From S2P Require Import Prelude World GoStrings GoFloat Sla.
Open Scope go_scope.

(** ** The code *)

Inductive collector := PGReplayLagSeconds | SyncDurationSeconds | DriftTotal | LastSyncTimestamp.

#[export] Instance collector_eq_dec : EqDecision collector.
Proof. solve_decision. Defined.

Definition collectors : list collector := [PGReplayLagSeconds; SyncDurationSeconds; DriftTotal; LastSyncTimestamp].

(** [reg] is the registerer, [already] tells an [AlreadyRegisteredError]. *)
Fixpoint register_all (reg : collector → option error) (already : error → bool) (cs : list collector) : err :=
  match cs with
  | [] => nil_error
  | c :: cs =>
      match reg c with
      | Some e => if already e then register_all reg already cs else Err (Errorf [FS "register collector: "; FW e])
      | None => register_all reg already cs
      end
  end.

Definition Register (reg : collector → option error) (already : error → bool) : err :=
  register_all reg already collectors.

(** The options of each collector: namespace, name and labels. *)
Definition Namespace : gostr := "syncctl".
Definition collector_name (c : collector) : gostr :=
  match c with
  | PGReplayLagSeconds => "pg_replay_lag_seconds"
  | SyncDurationSeconds => "sync_duration_seconds"
  | DriftTotal => "drift_total"
  | LastSyncTimestamp => "last_sync_timestamp_seconds"
  end.
Definition collector_labels (c : collector) : list gostr :=
  match c with
  | PGReplayLagSeconds => ["secondary"]
  | SyncDurationSeconds => ["component"; "result"]
  | DriftTotal => ["component"; "severity"]
  | LastSyncTimestamp => ["component"]
  end.

(** [prometheus.BuildFQName]. *)
Definition FQName (c : collector) : gostr := Namespace ++ "_" ++ collector_name c.

(** The listener's routes; [promhttp] renders the scrape. *)
Definition metrics_ServeHTTP (promhttp : gostr) (path : gostr) : option (Z * gostr) :=
  if bool_decide (path = "/metrics") then Some (200%Z, promhttp)
  else if bool_decide (path = "/healthz") then Some (200%Z, "ok" ++ [LF])
  else None.

(** *** The values *)

(** The children of each vector, by their label values: the last value of a
    gauge ([None] is -1), the counts of a counter and of a histogram, Unix
    seconds. *)
Record store := mkStore {
  st_lag : gmap gostr (option Z);
  st_duration : gmap (gostr * gostr) nat;
  st_drift : gmap (gostr * gostr) nat;
  st_sync : gmap gostr Z;
}.

Definition empty_store : store := mkStore ∅ ∅ ∅ ∅.

Definition inc {K} `{Countable K} (k : K) (m : gmap K nat) : gmap K nat := <[k := S (default 0 (m !! k))]> m.

(** What an event does to the vectors at the time [now] (nanoseconds since
    1970). *)
Definition record_event (now : Z) (e : event) (s : store) : store :=
  match e with
  | EvPGLag secondary v => mkStore (<[secondary := v]> (st_lag s)) (st_duration s) (st_drift s) (st_sync s)
  | EvDuration component result => mkStore (st_lag s) (inc (component, result) (st_duration s)) (st_drift s) (st_sync s)
  | EvDrift component severity => mkStore (st_lag s) (st_duration s) (inc (component, severity) (st_drift s)) (st_sync s)
  | EvLastSync component =>
      mkStore (st_lag s) (st_duration s) (st_drift s) (<[component := (now / Second)%Z]> (st_sync s))
  | _ => s
  end.

(** The values after a history whose [i]-th event happened at [time i]. *)
Definition replay (time : nat → Z) (h : history) : store :=
  foldl (λ s p, record_event (time p.1) p.2 s) empty_store (imap (λ i e, (i, e)) h).

(** The children of a vector as [dto.Metric]s. *)
Definition lag_value (v : option Z) : spec_float := match v with Some d => Seconds d | None => float_of_int (-1) end.

Definition children (s : store) (c : collector) : list metric :=
  match c with
  | PGReplayLagSeconds =>
      (λ p : gostr * option Z, mkMetric (Some (lag_value p.2)) None [("secondary" : gostr, p.1)]) <$> map_to_list (st_lag s)
  | SyncDurationSeconds =>
      (λ p : (gostr * gostr) * nat, mkMetric None None [("component" : gostr, p.1.1); ("result" : gostr, p.1.2)])
        <$> map_to_list (st_duration s)
  | DriftTotal =>
      (λ p : (gostr * gostr) * nat,
         mkMetric None (Some (float_of_int (Z.of_nat p.2))) [("component" : gostr, p.1.1); ("severity" : gostr, p.1.2)])
        <$> map_to_list (st_drift s)
  | LastSyncTimestamp =>
      (λ p : gostr * Z, mkMetric (Some (float_of_int p.2)) None [("component" : gostr, p.1)]) <$> map_to_list (st_sync s)
  end.

(** What a scrape gives: each collector's family has its children in some
    order, and a vector without children has no family; other collectors
    may add theirs. *)
Definition gathered (s : store) (mfs : gmap gostr family) : Prop :=
  keyed mfs ∧ ∀ c,
    match mfs !! FQName c with
    | Some mf => GetMetric mf ≡ₚ children s c ∧ GetMetric mf ≠ []
    | None => children s c = []
    end.

(** ** Lemmas *)

(** ** Counting *)

Section counting.
Context {K : Type} `{Countable K}.

Definition total (m : gmap K nat) : nat := sum_list (map_to_list m).*2.

Lemma sum_list_perm (l k : list nat) : l ≡ₚ k → sum_list l = sum_list k.
Proof. induction 1; cbn; lia. Qed.

Lemma total_insert m k n : m !! k = None → total (<[k := n]> m) = n + total m.
Proof.
  intros Hk. unfold total. rewrite (sum_list_perm _ (n :: (map_to_list m).*2)); [done|].
  by rewrite map_to_list_insert.
Qed.

Lemma total_inc k m : total (inc k m) = S (total m).
Proof.
  unfold inc. destruct (m !! k) as [n|] eqn:Hk.
  - change (default 0 (Some n)) with n. assert (<[k := S n]> m = <[k := S n]> (delete k m)) as -> by by rewrite insert_delete_eq.
    assert (m = <[k := n]> (delete k m)) as Hm by by rewrite insert_delete_eq, insert_id.
    assert (total m = n + total (delete k m)) as ->.
    { rewrite Hm at 1. by rewrite total_insert by by rewrite lookup_delete_eq. }
    by rewrite total_insert by by rewrite lookup_delete_eq.
  - by rewrite total_insert.
Qed.

Lemma total_bound m k n : m !! k = Some n → n ≤ total m.
Proof.
  intros Hk. unfold total. assert (n ∈ (map_to_list m).*2) as Hin.
  { apply list_elem_of_fmap. exists (k, n). split; [done|]. by apply elem_of_map_to_list. }
  revert Hin. generalize (map_to_list m).*2. clear. intros l. induction l as [|x l IH]; [by intros ?%elem_of_nil|].
  intros [->|Hl]%elem_of_cons; cbn; [lia|]. specialize (IH Hl). lia.
Qed.
End counting.

(** ** The values of a history *)

Lemma replay_snoc time h e : replay time (h ++ [e]) = record_event (time (length h)) e (replay time h).
Proof. unfold replay. rewrite imap_app, foldl_app. cbn. by rewrite Nat.add_0_r. Qed.

Definition is_drift (e : event) : Prop := match e with EvDrift _ _ => True | _ => False end.
#[export] Instance is_drift_dec e : Decision (is_drift e).
Proof. destruct e; apply _. Defined.

(** The components with drift. *)
Definition drifted (h : history) : gset gostr :=
  list_to_set (omap (λ e, match e with EvDrift c _ => Some c | _ => None end) h).

(** The times of the syncs of a component, and its lags, oldest first. *)
Definition synced (time : nat → Z) (h : history) (c : gostr) : list Z :=
  omap (λ p : nat * event, match p.2 with EvLastSync c' => if decide (c' = c) then Some (time p.1 / Second)%Z else None | _ => None end)
    (imap (λ i e, (i, e)) h).
Definition lags_of (h : history) (s : gostr) : list (option Z) :=
  omap (λ e, match e with EvPGLag s' v => if decide (s' = s) then Some v else None | _ => None end) h.

Lemma replay_drift time h : total (st_drift (replay time h)) = length (filter is_drift h) ∧
  ∀ c, (∃ v, is_Some (st_drift (replay time h) !! (c, v))) ↔ c ∈ drifted h.
Proof.
  induction h as [|e h [IH1 IH2]] using rev_ind.
  { split; [done|]. intros c. split; [intros (v & x & Hx)|intros Hx]; unfold replay in *; cbn in *.
    - by rewrite lookup_empty in Hx.
    - by apply elem_of_empty in Hx. }
  rewrite replay_snoc, filter_app, length_app.
  assert (∀ c, c ∈ drifted (h ++ [e]) ↔ c ∈ drifted h ∨ ∃ v, e = EvDrift c v) as Hd.
  { intros c. unfold drifted. rewrite omap_app, list_to_set_app_L, elem_of_union. apply or_iff_compat_l.
    rewrite elem_of_list_to_set. destruct e; cbn; rewrite ?elem_of_nil, ?list_elem_of_singleton; split; intros Hx;
      try (by destruct Hx); [by subst; eexists|by destruct Hx as [? [= ->]]]. }
  destruct (decide (is_drift e)) as [He|He].
  - destruct e as [| | | |c0 v0| | |]; try done. cbn [record_event st_drift]. split; [rewrite total_inc, IH1; change (length (filter is_drift [EvDrift c0 v0])) with 1; lia|].
    intros c. rewrite Hd, <- IH2. unfold inc. split.
    + intros (v & [Heq|[_ Hx]]%lookup_insert_is_Some); [right; exists v0; congruence|left; by exists v].
    + intros [(v & Hx)|(v & [= -> ->])]; [exists v|exists v]; rewrite lookup_insert_is_Some; [|by left].
      destruct (decide ((c0, v0) = (c, v))); [by left|by right].
  - assert (st_drift (record_event (time (length h)) e (replay time h)) = st_drift (replay time h)) as -> by by destruct e.
    rewrite filter_cons_False by done. split; [rewrite IH1; change (length (filter is_drift [])) with 0; lia|]. intros c. rewrite Hd, <- IH2. split; [by left|].
    intros [?|(v & ->)]; [done|by destruct He].
Qed.

Lemma replay_sync time h c : st_sync (replay time h) !! c = last (synced time h c).
Proof.
  induction h as [|e h IH] using rev_ind; [done|]. rewrite replay_snoc. unfold synced in *.
  rewrite imap_app, omap_app. cbn. rewrite Nat.add_0_r.
  destruct e as [| | | | | |c0|]; cbn; rewrite ?app_nil_r; try exact IH. rewrite lookup_insert. case_decide.
  - by rewrite last_snoc.
  - by rewrite app_nil_r.
Qed.

Lemma replay_lag time h s : st_lag (replay time h) !! s = last (lags_of h s).
Proof.
  induction h as [|e h IH] using rev_ind; [done|]. rewrite replay_snoc. unfold lags_of in *. rewrite omap_app. cbn.
  destruct e as [| | | | | | |s0 v]; cbn; rewrite ?app_nil_r; try exact IH. rewrite lookup_insert. case_decide.
  - by rewrite last_snoc.
  - by rewrite app_nil_r.
Qed.

(** ** The report of a scrape *)

Lemma filter_everything {A} (P : A → Prop) `{!∀ x, Decision (P x)} (l : list A) : (∀ x, x ∈ l → P x) → filter P l = l.
Proof.
  induction l as [|x l IH]; intros Hl; [done|]. rewrite filter_cons_True by (apply Hl; left).
  f_equal. apply IH. intros y Hy. apply Hl. by right.
Qed.

Section report.
Context (time : nat → Z) (h : history) (mfs : gmap gostr family).
Context (Hlen : (Z.of_nat (length h) < 2 ^ 53)%Z).
Context (Htime : ∀ i, (Second ≤ time i ≤ int64_max)%Z).
Context (Hg : gathered (replay time h) mfs).

Abbreviation vectors := (replay time h).

(** The children of a collector, in the order of the scrape. *)
Lemma gathered_metrics c : default [] (GetMetric <$> mfs !! FQName c) ≡ₚ children vectors c.
Proof using Hg.
  destruct Hg as [_ Hc]. specialize (Hc c). destruct (mfs !! FQName c) as [mf|]; [by destruct Hc|by rewrite Hc].
Qed.

Lemma gauges_gathered c : gauges (mfs !! FQName c) ≡ₚ omap GetGauge (children vectors c).
Proof using Hg.
  rewrite <- gathered_metrics. unfold gauges. by destruct (mfs !! FQName c).
Qed.

Lemma counters_gathered : counters (mfs !! FQName DriftTotal) ≡ₚ children vectors DriftTotal.
Proof using Hg.
  assert (filter (λ m, is_Some (GetCounter m)) (children vectors DriftTotal) = children vectors DriftTotal) as <-.
  { apply filter_everything. intros m (p & -> & _)%list_elem_of_fmap. by eexists. }
  rewrite <- gathered_metrics. unfold counters. by destruct (mfs !! FQName DriftTotal).
Qed.

Lemma drift_sum_perm ms ms' : ms ≡ₚ ms' → drift_sum ms = drift_sum ms'.
Proof. unfold drift_sum. induction 1; cbn [foldr]; lia. Qed.

(** The counters add up to the number of drift events. *)
Lemma drift_sum_history : drift_sum (counters (mfs !! FQName DriftTotal)) = Z.of_nat (length (filter is_drift h)).
Proof using Hg Hlen.
  rewrite (drift_sum_perm _ _ counters_gathered), <- (proj1 (replay_drift time h)).
  assert (∀ p, p ∈ map_to_list (st_drift vectors) → (Z.of_nat p.2 < 2 ^ 53)%Z) as Hb.
  { intros [k n] Hp%elem_of_map_to_list. apply total_bound in Hp. rewrite (proj1 (replay_drift time h)) in Hp.
    pose proof (length_filter is_drift h). cbn [snd]. lia. }
  unfold children, total, drift_sum. revert Hb. generalize (map_to_list (st_drift vectors)) as l.
  induction l as [|p l IH]; intros Hb; [done|]. cbn [fmap list_fmap foldr GetCounter sum_list sum_list_with snd] in *.
  rewrite IH by (intros q Hq; apply Hb; by right). cbn. unfold id.
  rewrite int_of_float_of_int by (specialize (Hb p ltac:(left)); lia). lia.
Qed.

Lemma synced_range c t : last (synced time h c) = Some t → (0 < t < 2 ^ 53)%Z.
Proof using Htime.
  intros Hl. assert (t ∈ synced time h c) as Hin by (rewrite last_lookup in Hl; by eapply list_elem_of_lookup_2).
  unfold synced in Hin. apply list_elem_of_omap in Hin as ([i e] & _ & He). cbn in He.
  destruct e; try done. case_decide; [|done]. injection He as <-. destruct (Htime i) as [H1 H2].
  unfold int64_max in H2. split.
  - apply Z.lt_le_trans with 1%Z; [lia|]. apply Z.div_le_lower_bound; unfold Second in *; lia.
  - apply Z.div_lt_upper_bound; unfold Second in *; lia.
Qed.

(** The times of the last syncs. *)
Lemma sync_values v : v ∈ filter (λ v, positive v = true) (gauges (mfs !! FQName LastSyncTimestamp)) ↔
  ∃ c t, last (synced time h c) = Some t ∧ v = float_of_int t.
Proof using Hg Htime.
  rewrite gauges_gathered, list_elem_of_filter, list_elem_of_omap. unfold children. split.
  - intros (_ & m & ([c t] & -> & Hct%elem_of_map_to_list)%list_elem_of_fmap & [= <-]). rewrite replay_sync in Hct. by exists c, t.
  - intros (c & t & Hl & ->). split.
    + destruct (synced_range c t Hl). unfold positive. rewrite float_of_int_positive by lia.
      by destruct (Z.ltb_spec 0 t); [|lia].
    + exists (mkMetric (Some (float_of_int t)) None [("component" : gostr, c)]). split; [|done].
      apply list_elem_of_fmap. exists (c, t). split; [done|]. apply elem_of_map_to_list. by rewrite replay_sync.
Qed.
Definition sync_happened : Prop := ∃ c, synced time h c ≠ [].

Lemma sync_values_empty :
  bool_decide (filter (λ v, positive v = true) (gauges (mfs !! FQName LastSyncTimestamp)) = []) = false ↔ sync_happened.
Proof using Hg Htime.
  rewrite bool_decide_eq_false. split.
  - intros Hne. destruct (filter _ _) as [|v l] eqn:Ef; [done|].
    assert (v ∈ v :: l) as Hv by left. rewrite <- Ef, sync_values in Hv. destruct Hv as (c & t & Hl & _).
    exists c. intros Hn. by rewrite Hn in Hl.
  - intros (c & Hc) Hn. destruct (last (synced time h c)) as [t|] eqn:El; [|by apply last_None in El].
    assert (float_of_int t ∈ filter (λ v, positive v = true) (gauges (mfs !! FQName LastSyncTimestamp))) as Hin.
    { apply sync_values. by exists c, t. }
    rewrite Hn in Hin. by apply elem_of_nil in Hin.
Qed.

Lemma labels_component g x c v :
  component_labels (mkMetric g x [("component" : gostr, c); ("severity" : gostr, v)]) = {[c]}.
Proof.
  unfold component_labels. cbn [GetLabel]. rewrite filter_cons_True, filter_cons_False by done.
  change (({[c]} ∪ ∅ : gset gostr) = {[c]}). apply union_empty_r_L.
Qed.

Lemma drift_components : ⋃ (component_labels <$> counters (mfs !! FQName DriftTotal)) = drifted h.
Proof using Hg.
  apply set_eq. intros c. rewrite <- (proj2 (replay_drift time h) c), elem_of_union_list. split.
  - intros (X & (m & -> & Hm)%list_elem_of_fmap & Hc). rewrite counters_gathered in Hm. unfold children in Hm.
    apply list_elem_of_fmap in Hm as ([[c' v] n] & -> & Hp%elem_of_map_to_list).
    rewrite labels_component, elem_of_singleton in Hc. cbn in Hc. rewrite Hc. exists v. by eexists.
  - intros (v & n & Hn). exists ({[c]} : gset gostr). split; [|by apply elem_of_singleton].
    apply list_elem_of_fmap. exists (mkMetric None (Some (float_of_int (Z.of_nat n))) [("component" : gostr, c); ("severity" : gostr, v)]).
    split; [by rewrite labels_component|].
    rewrite counters_gathered. unfold children. apply list_elem_of_fmap. exists ((c, v), n). split; [done|].
    by apply elem_of_map_to_list.
Qed.

Lemma foldr_max_spec (l : list Z) : (∀ x, x ∈ l → (x ≤ foldr Z.max 0 l)%Z) ∧ (foldr Z.max 0%Z l = 0%Z ∨ foldr Z.max 0%Z l ∈ l).
Proof.
  induction l as [|x l [IH1 IH2]]; cbn [foldr].
  { split; [by intros ? ?%elem_of_nil|by left]. }
  split.
  - intros y [->|Hy]%elem_of_cons; [lia|]. specialize (IH1 y Hy). lia.
  - rewrite elem_of_cons. destruct (Z.max_spec x (foldr Z.max 0%Z l)) as [[_ ->]|[_ ->]]; [|by right; left].
    destruct IH2 as [?|?]; [by left|by right; right].
Qed.

(** The age is the largest one of the last syncs, by the readings of the clock. *)
Lemma age_history clock :
  let ts := filter (λ v, positive v = true) (gauges (mfs !! FQName LastSyncTimestamp)) in
  (∀ c t, last (synced time h c) = Some t → ∃ i, (Since (clock i) t ≤ max_age clock ts)%Z) ∧
  (max_age clock ts = 0%Z ∨ ∃ c t i, last (synced time h c) = Some t ∧ max_age clock ts = Since (clock i) t).
Proof using Hg Htime.
  intros ts. destruct (foldr_max_spec (imap (λ i v, Since (clock i) (int_of_float v)) ts)) as [H1 H2]. fold (max_age clock ts) in H1, H2.
  split.
  - intros c t Hl. assert (float_of_int t ∈ ts) as Hin by (apply sync_values; by exists c, t).
    apply list_elem_of_lookup in Hin as [i Hi]. exists i. apply H1. apply list_elem_of_lookup. exists i.
    destruct (synced_range c t Hl). by rewrite list_lookup_imap, Hi; cbn; rewrite int_of_float_of_int by lia.
  - destruct H2 as [?|Hin]; [by left|]. right. apply list_elem_of_lookup in Hin as [i Hi].
    rewrite list_lookup_imap in Hi. destruct (ts !! i) as [v|] eqn:Ev; [|done]. injection Hi as Hi.
    apply list_elem_of_lookup_2, sync_values in Ev as (c & t & Hl & ->). destruct (synced_range c t Hl).
    exists c, t, i. split; [done|]. by rewrite <- Hi, int_of_float_of_int by lia.
Qed.

(** The secondaries' lags, in the order of the scrape. *)
Lemma lag_history : gauges (mfs !! FQName PGReplayLagSeconds) ≡ₚ (λ p, lag_value p.2) <$> map_to_list (st_lag vectors).
Proof using Hg.
  rewrite gauges_gathered. unfold children. generalize (map_to_list (st_lag vectors)) as l.
  induction l as [|p l IH]; [done|]. cbn. by rewrite IH.
Qed.
End report.

(** C12: the SLA summary tells the history.  For a server whose events are [h],
    scraped at any time, and any order of the families and of the metrics
    in them, with the families of other collectors beside: the drift count
    is the number of drift events; the total counts the components that
    had one, plus one as soon as something synced, and at least one; the
    age is the largest one of the components' last syncs, each read on its
    own turn of the clock; the healthy ones are the secondaries whose last
    lag is not negative, and the lag is the maximum over the last lags. *)
Theorem sla_tells_history time h mfs clock order :
  (Z.of_nat (length h) < 2 ^ 53)%Z → (∀ i, (Second ≤ time i ≤ int64_max)%Z) →
  gathered (replay time h) mfs → traversal mfs order →
  let r := buildReport clock order in
  DriftCount r = Z.of_nat (length (filter is_drift h)) ∧
  (∃ last_sync : gset gostr, (last_sync = {["last_sync" : gostr]} ∧ sync_happened time h ∨ last_sync = ∅ ∧ ¬ sync_happened time h) ∧
     ComponentsTotal r = Z.max 1 (Z.of_nat (size (drifted h ∪ last_sync)))) ∧
  (∀ c t, last (synced time h c) = Some t → ∃ i, (Since (clock i) t ≤ LastSweepAge r)%Z) ∧
  (LastSweepAge r = 0%Z ∨ ∃ c t i, last (synced time h c) = Some t ∧ LastSweepAge r = Since (clock i) t) ∧
  (∃ lags, lags ≡ₚ (λ p, lag_value p.2) <$> map_to_list (st_lag (replay time h)) ∧
     PGLagCurrent r = foldl raise_lag 0%Z lags ∧
     ComponentsHealthy r = Z.of_nat (length (filter (λ v, nonneg v = true) lags))) ∧
  (∀ s, st_lag (replay time h) !! s = last (lags_of h s)).
Proof.
  intros Hlen Htime Hg Ht r. pose proof (proj1 Hg) as Hk.
  assert (r = reference clock mfs) as -> by by apply buildReport_ref.
  unfold reference. cbn [DriftCount ComponentsTotal LastSweepAge PGLagCurrent ComponentsHealthy].
  change ("syncctl_pg_replay_lag_seconds" : gostr) with (FQName PGReplayLagSeconds).
  change ("syncctl_drift_total" : gostr) with (FQName DriftTotal).
  change ("syncctl_last_sync_timestamp_seconds" : gostr) with (FQName LastSyncTimestamp).
  pose proof (drift_sum_history time h mfs Hlen Hg) as Hd. pose proof (length_filter is_drift h).
  split; [|split; [|split; [|split; [|split]]]].
  - rewrite Hd. apply wrap64_id. unfold in_int64, int64_min, int64_max. lia.
  - pose proof (sync_values_empty time h mfs Htime Hg) as Hs. unfold components. rewrite (drift_components time h mfs Hg).
    destruct (bool_decide _); [exists ∅|exists {["last_sync" : gostr]}]; (split; [|done]).
    + right. split; [done|]. intros Hc. by apply Hs in Hc.
    + left. split; [done|]. by apply Hs.
  - apply (age_history time h mfs Htime Hg clock).
  - apply (age_history time h mfs Htime Hg clock).
  - exists (gauges (mfs !! FQName PGReplayLagSeconds)). split; [by apply lag_history|done].
  - apply replay_lag.
Qed.

(** ** Runs *)

#[export] Instance FQName_inj : Inj (=) (=) FQName.
Proof. by intros [] []. Qed.

(** One scrape: every vector with children, under its name. *)
Definition gather_of (s : store) (cs : list collector) : gmap gostr family :=
  foldr (λ c m, match children s c with
                | [] => m
                | _ => <[FQName c := mkFamily (FQName c) (children s c)]> m
                end) ∅ cs.

Lemma gather_lookup s cs k mf : gather_of s cs !! k = Some mf ↔
  ∃ c, c ∈ cs ∧ k = FQName c ∧ children s c ≠ [] ∧ mf = mkFamily k (children s c).
Proof.
  induction cs as [|c cs IH]; cbn [gather_of foldr].
  { rewrite lookup_empty. split; [done|]. by intros (c & ?%elem_of_nil & _). }
  fold (gather_of s cs). destruct (children s c) as [|m ms] eqn:Ec.
  - rewrite IH. split; intros (d & Hd & H).
    + exists d. split; [by right|done].
    + apply elem_of_cons in Hd as [->|Hd]; [by destruct H as (_ & ? & _)|by exists d].
  - rewrite lookup_insert_Some, IH. split.
    + intros [[<- <-]|(Hne & d & Hd & H)]; [exists c|exists d].
      * rewrite Ec. split; [left|done].
      * split; [by right|done].
    + intros (d & [->|Hd]%elem_of_cons & -> & Hn & ->); [left; by rewrite Ec|].
      destruct (decide (FQName c = FQName d)) as [He|Hne].
      * left. apply (inj FQName) in He as <-. by rewrite Ec.
      * right. split; [done|]. by exists d.
Qed.

(** What [gathered] asks for exists, whatever the values. *)
Lemma gathered_gather s : gathered s (gather_of s collectors).
Proof.
  split.
  - intros k mf (c & _ & _ & _ & ->)%gather_lookup. done.
  - intros c. assert (c ∈ collectors) as Hc by (unfold collectors; rewrite !elem_of_cons; destruct c; auto).
    destruct (gather_of s collectors !! FQName c) as [mf|] eqn:El.
    + apply gather_lookup in El as (d & _ & <-%(inj FQName) & Hn & ->). done.
    + destruct (children s c) as [|m ms] eqn:Ec; [done|]. exfalso.
      assert (gather_of s collectors !! FQName c = Some (mkFamily (FQName c) (children s c))) as Hs.
      { apply gather_lookup. exists c. by rewrite Ec. }
      congruence.
Qed.

(** Two drifts of one component, a sync of another, one secondary. *)
Definition ex_history : history :=
  [EvDrift "git_fetch" "warning"; EvGet "https://eu" []; EvDrift "git_fetch" "critical"; EvLastSync "registry";
   EvPGLag "us" None; EvPGLag "us" (Some (3 * Second)%Z)].
Definition ex_time (i : nat) : Z := if decide (i < 10) then ((1000 + Z.of_nat i) * Second)%Z else (2000 * Second)%Z.
Definition ex_scrape : gmap gostr family := gather_of (replay ex_time ex_history) collectors.

Lemma sla_tells_history_witness :
  let r := buildReport ex_clock ((map_to_list ex_scrape).*2) in
  DriftCount r = 2%Z ∧ (LastSweepAge r = 0%Z ∨ ∃ c t i, last (synced ex_time ex_history c) = Some t ∧
    LastSweepAge r = Since (ex_clock i) t).
Proof.
  destruct (sla_tells_history ex_time ex_history ex_scrape ex_clock ((map_to_list ex_scrape).*2))
    as (H1 & _ & _ & H4 & _).
  - vm_compute. reflexivity.
  - intros i. unfold ex_time, int64_max, Second. destruct (decide (i < 10)); lia.
  - apply gathered_gather.
  - unfold traversal. reflexivity.
  - exact (conj H1 H4).
Defined.

(** The whole report of that history: a lag of three seconds, the sync 57
    seconds ago, two drifts, one secondary healthy, of two components. *)
Example sla_history_example :
  buildReport ex_clock ((map_to_list ex_scrape).*2) = mkReport (3 * Second) (3 * Second) (57 * Second) 2 1 2.
Proof. vm_compute. reflexivity. Qed.
