(* ===== verification/InitCmd.v ===== *)
(** * internal/initcmd: the configuration wizard

    The reader and the writer of the terminal are the text still to be read
    and the text written so far. *)
From Stdlib Require Import Ascii ZArith Lia.
From stdpp Require Import prelude strings gmap list.
From S2P Require Import Prelude GoStrings.
Open Scope go_scope.

(** ** The code *)

Record Answers := mkAnswers {
  an_PrimaryName : gostr;
  an_PrimaryURL : gostr;
  an_PrimarySSHHost : gostr;
  an_PrimaryPGHost : gostr;
  an_PrimaryPGPort : gostr;
  an_PrimaryPGDB : gostr;
  an_PrimaryPGUser : gostr;
  an_PrimaryReplUser : gostr;
  an_PrimarySlot : gostr;
  an_PrimaryGitMode : gostr;
  an_PrimaryReposPath : gostr;
  an_SecondaryName : gostr;
  an_SecondaryURL : gostr;
  an_SecondarySSHHost : gostr;
  an_SecondaryPGHost : gostr;
  an_SecondaryPGPort : gostr;
  an_SecondaryReposPath : gostr;
  an_ObjectStorageBackend : gostr;
  an_S3Region : gostr;
  an_S3PrimaryBucket : gostr;
  an_S3ReplicaBucket : gostr;
  an_S3Endpoint : gostr;
  an_FailoverEnabled : bool;
  an_ReadOnlySecondary : bool
}.
Record terminal := mkTerm { t_in : gostr; t_out : gostr }.
Definition T (A : Type) : Type := ST terminal A.

Definition out (s : gostr) : T unit := modify (λ t, mkTerm (t_in t) (t_out t ++ s)).

(** [r.ReadString('\n')]: up to and including the next line feed; what is
    left when there is none (the error is dropped). *)
Definition ReadString : T gostr := λ t,
  match CutByte (t_in t) LF with
  | Some (line, rest) => (line ++ [LF], mkTerm rest (t_out t))
  | None => (t_in t, mkTerm [] (t_out t))
  end.

Definition prompt (label def : gostr) : T gostr :=
  _ ← out (if bool_decide (def ≠ []) then label ++ " [" ++ def ++ "]: " else label ++ ": ");
  line ← ReadString;
  let line := TrimSpace line in
  mret (if bool_decide (line = []) then def else line).

(** Only the case of ASCII letters matters for the two words. *)
Definition confirm (label : gostr) (def : bool) : T bool :=
  let defStr := if negb def then "n" else "y" in
  _ ← out (label ++ " [y/n, default=" ++ defStr ++ "]: ");
  line ← ReadString;
  let line := TrimSpace (ToLowerASCII line) in
  mret (if bool_decide (line = []) then def else bool_decide (line = "y") || bool_decide (line = "yes")).

(** The four questions about S3; without them the fields stay empty. *)
Definition ask_s3 : T (gostr * gostr * gostr * gostr) :=
  S3Region ← prompt "S3 region" "eu-west-1";
  S3PrimaryBucket ← prompt "S3 primary bucket" "gitlab-primary";
  S3ReplicaBucket ← prompt "S3 replica bucket" "gitlab-replica";
  S3Endpoint ← prompt "S3 endpoint (blank for AWS, http://minio:9000 for MinIO)" [];
  mret (S3Region, S3PrimaryBucket, S3ReplicaBucket, S3Endpoint).

Definition RunWithInput : T Answers :=
  _ ← out ([LF] ++ "=== syncctl configuration wizard ===" ++ [LF] ++ [LF]);
  _ ← out ("This will generate a config.yaml. All secrets will be" ++ [LF]);
  _ ← out ("referenced as ${ENV_VAR} placeholders — export them before running syncctl." ++ [LF]);
  _ ← out ([LF] ++ "--- PRIMARY ---" ++ [LF]);
  PrimaryName ← prompt "Primary site name" "primary";
  PrimaryURL ← prompt "Primary external URL" "https://gitlab.primary.example.com";
  PrimarySSHHost ← prompt "Primary SSH host:port" "primary.example.com:22";
  PrimaryPGHost ← prompt "Primary PostgreSQL host" "10.0.0.10";
  PrimaryPGPort ← prompt "Primary PostgreSQL port" "5432";
  PrimaryPGDB ← prompt "Primary PostgreSQL database" "gitlabhq_production";
  PrimaryPGUser ← prompt "Primary PostgreSQL control user" "gitlab";
  PrimaryReplUser ← prompt "Primary PostgreSQL replication user" "gitlab_repl";
  PrimarySlot ← prompt "Replication slot name (blank for none)" [];
  PrimaryGitMode ← prompt "Git data sync mode (rsync|fetch)" "rsync";
  PrimaryReposPath ← prompt "Primary repos path" "/var/opt/gitlab/git-data/repositories";
  _ ← out ([LF] ++ "--- SECONDARY ---" ++ [LF]);
  SecondaryName ← prompt "Secondary site name" "secondary";
  SecondaryURL ← prompt "Secondary external URL" "https://gitlab.secondary.example.com";
  SecondarySSHHost ← prompt "Secondary SSH host:port" "secondary.example.com:22";
  SecondaryPGHost ← prompt "Secondary PostgreSQL host" "10.1.0.10";
  SecondaryPGPort ← prompt "Secondary PostgreSQL port" "5432";
  SecondaryReposPath ← prompt "Secondary repos path" "/var/opt/gitlab/git-data/repositories";
  _ ← out ([LF] ++ "--- OBJECT STORAGE ---" ++ [LF]);
  ObjectStorageBackend ← prompt "Object storage backend (s3|fs)" "s3";
  '(S3Region, S3PrimaryBucket, S3ReplicaBucket, S3Endpoint) ←
    (if bool_decide (ObjectStorageBackend = "s3") then ask_s3 else mret ([], [], [], []));
  _ ← out ([LF] ++ "--- OPTIONS ---" ++ [LF]);
  ReadOnlySecondary ← confirm "Enforce read-only mode on secondary?" true;
  FailoverEnabled ← confirm "Enable failover controller?" false;
  mret (mkAnswers PrimaryName PrimaryURL PrimarySSHHost PrimaryPGHost PrimaryPGPort PrimaryPGDB PrimaryPGUser PrimaryReplUser PrimarySlot PrimaryGitMode PrimaryReposPath SecondaryName SecondaryURL SecondarySSHHost SecondaryPGHost SecondaryPGPort SecondaryReposPath ObjectStorageBackend S3Region S3PrimaryBucket S3ReplicaBucket S3Endpoint FailoverEnabled ReadOnlySecondary).

(** [%t]. *)
Definition fmt_bool (b : bool) : gostr := if b then "true" else "false".

(** The lines that [GenerateYAML] writes, each with its line feed. *)
Definition primary_lines (a : Answers) : list gostr :=
  ["primary:";
   "  name: " ++ an_PrimaryName a;
   "  external_url: " ++ an_PrimaryURL a;
   "  ssh_host: " ++ an_PrimarySSHHost a;
   "  postgres:";
   "    host: " ++ an_PrimaryPGHost a;
   "    port: " ++ an_PrimaryPGPort a;
   "    db: " ++ an_PrimaryPGDB a;
   "    user: " ++ an_PrimaryPGUser a;
   "    password: ${PG_CTRL_PASSWORD}";
   "    replication_user: " ++ an_PrimaryReplUser a;
   "    replication_password: ${PG_REPL_PASSWORD}";
   "    sslmode: require"] ++
  (if bool_decide (an_PrimarySlot a ≠ []) then ["    slot_name: " ++ an_PrimarySlot a] else []) ++
  ["  git:";
   "    mode: " ++ an_PrimaryGitMode a;
   "    repos_path: " ++ an_PrimaryReposPath a;
   "    hashed_storage: true";
   "  object_storage:";
   "    backend: " ++ an_ObjectStorageBackend a] ++
  (if bool_decide (an_ObjectStorageBackend a = "s3") then
  ["    s3:";
   "      region: " ++ an_S3Region a;
   "      primary_bucket: " ++ an_S3PrimaryBucket a;
   "      replica_bucket: " ++ an_S3ReplicaBucket a;
   "      access_key: ${S3_AK}";
   "      secret_key: ${S3_SK}"] ++
     (if bool_decide (an_S3Endpoint a ≠ []) then ["      endpoint: " ++ an_S3Endpoint a] else [])
   else
  ["    fs_paths:";
   "      - /var/opt/gitlab/uploads";
   "      - /var/opt/gitlab/artifacts";
   "      - /var/opt/gitlab/packages";
   "      - /var/opt/gitlab/lfs-objects"]).

Definition secondary_lines (a : Answers) : list gostr :=
  [[];
   "secondaries:";
   "  - name: " ++ an_SecondaryName a;
   "    external_url: " ++ an_SecondaryURL a;
   "    ssh_host: " ++ an_SecondarySSHHost a;
   "    postgres:";
   "      host: " ++ an_SecondaryPGHost a;
   "      port: " ++ an_SecondaryPGPort a;
   "      db: " ++ an_PrimaryPGDB a;
   "      user: " ++ an_PrimaryPGUser a;
   "      password: ${PG_CTRL_PASSWORD}";
   "      replication_user: " ++ an_PrimaryReplUser a;
   "      replication_password: ${SEC_REPL_PASSWORD}";
   "    git:";
   "      mode: " ++ an_PrimaryGitMode a;
   "      repos_path: " ++ an_SecondaryReposPath a;
   "      hashed_storage: true";
   "    object_storage:";
   "      backend: " ++ an_ObjectStorageBackend a] ++
  (if bool_decide (an_ObjectStorageBackend a = "s3") then
  ["      s3:";
   "        region: " ++ an_S3Region a;
   "        primary_bucket: " ++ an_S3PrimaryBucket a;
   "        replica_bucket: " ++ an_S3ReplicaBucket a;
   "        access_key: ${S3_AK}";
   "        secret_key: ${S3_SK}"]
   else []).

Definition option_lines (a : Answers) : list gostr :=
  [[];
   "sync:";
   "  sweep_interval: 5m";
   "  lag_warning_threshold: 30s";
   "  lag_critical_threshold: 5m";
   "  failover_enabled: " ++ fmt_bool (an_FailoverEnabled a);
   "  read_only_secondary: " ++ fmt_bool (an_ReadOnlySecondary a);
   "  consistency_sample_pct: 0.01";
   [];
   "metrics:";
   "  addr: " ++ [DQ] ++ ":9101" ++ [DQ];
   [];
   "log:";
   "  level: info";
   "  format: json"].

Definition GenerateYAML (a : Answers) : gostr :=
  mjoin ((λ l, l ++ [LF]) <$> primary_lines a ++ secondary_lines a ++ option_lines a).

(** ** The specification *)

Definition answer_texts (a : Answers) : list gostr :=
  [an_PrimaryName a; an_PrimaryURL a; an_PrimarySSHHost a; an_PrimaryPGHost a; an_PrimaryPGPort a; an_PrimaryPGDB a;
   an_PrimaryPGUser a; an_PrimaryReplUser a; an_PrimarySlot a; an_PrimaryGitMode a; an_PrimaryReposPath a;
   an_SecondaryName a; an_SecondaryURL a; an_SecondarySSHHost a; an_SecondaryPGHost a; an_SecondaryPGPort a;
   an_SecondaryReposPath a; an_ObjectStorageBackend a; an_S3Region a; an_S3PrimaryBucket a; an_S3ReplicaBucket a;
   an_S3Endpoint a].

Definition yaml_lines (a : Answers) : list gostr := primary_lines a ++ secondary_lines a ++ option_lines a.

(** The key of a line: after the indentation (and the dash of a list item),
    up to the colon. *)
Definition line_key (l : gostr) : gostr :=
  (span (λ c, negb (bool_decide (c = ":"%char))) (span (in_set [SPC; "-"%char]) l).2).1.

(** The fields of the configuration that hold a secret. *)
Definition secret_keys : list gostr := ["password"; "replication_password"; "access_key"; "secret_key"; "token"; "secret_token"].

Definition placeholders : list gostr := ["${PG_CTRL_PASSWORD}"; "${PG_REPL_PASSWORD}"; "${SEC_REPL_PASSWORD}"; "${S3_AK}"; "${S3_SK}"].

(** The keys of the file, for the three choices its shape depends on. *)
Definition yaml_keys (s3 slot endpoint : bool) : list gostr :=
  ["primary"; "name"; "external_url"; "ssh_host"; "postgres"; "host"; "port"; "db"; "user"; "password";
   "replication_user"; "replication_password"; "sslmode"] ++
  (if slot then ["slot_name"] else []) ++
  ["git"; "mode"; "repos_path"; "hashed_storage"; "object_storage"; "backend"] ++
  (if s3 then ["s3"; "region"; "primary_bucket"; "replica_bucket"; "access_key"; "secret_key"] ++
              (if endpoint then ["endpoint"] else [])
   else ["fs_paths"; "/var/opt/gitlab/uploads"; "/var/opt/gitlab/artifacts"; "/var/opt/gitlab/packages";
         "/var/opt/gitlab/lfs-objects"]) ++
  [[]; "secondaries"; "name"; "external_url"; "ssh_host"; "postgres"; "host"; "port"; "db"; "user"; "password";
   "replication_user"; "replication_password"; "git"; "mode"; "repos_path"; "hashed_storage"; "object_storage"; "backend"] ++
  (if s3 then ["s3"; "region"; "primary_bucket"; "replica_bucket"; "access_key"; "secret_key"] else []) ++
  [[]; "sync"; "sweep_interval"; "lag_warning_threshold"; "lag_critical_threshold"; "failover_enabled";
   "read_only_secondary"; "consistency_sample_pct"; []; "metrics"; "addr"; []; "log"; "level"; "format"].

(** ** Lemmas *)

Definition one_line (s : gostr) : Prop := LF ∉ s.

(** *** Trimming *)

Lemma trim_left_suffix encs s : ∃ p, s = p ++ trim_left encs s.
Proof.
  unfold trim_left. generalize (length s) at 1. intros n. revert s. induction n as [|n IH]; intros s; cbn.
  { by exists []. }
  destruct (List.find _ encs) as [e|]; [|by exists []]. destruct (IH (drop (length e) s)) as [p Hp].
  exists (take (length e) s ++ p). by rewrite <- app_assoc, <- Hp, take_drop.
Qed.

(** A leading line feed is trimmed. *)
Lemma trim_left_LF encs s : [LF] ∈ encs → (∀ e, e ∈ encs → HasPrefix (LF :: s) e = true → e = [LF]) →
  trim_left encs (LF :: s) = trim_left encs s.
Proof.
  intros Hin Hu. unfold trim_left. cbn [length trim_left_fuel].
  destruct (List.find _ encs) as [e|] eqn:Ef.
  - apply List.find_some in Ef as [He Hp]. apply list_elem_of_In in He. by rewrite (Hu e He Hp).
  - apply list_elem_of_In in Hin. by apply (List.find_none _ _ Ef) in Hin.
Qed.

Lemma reversed_spaces_LF s e : e ∈ reverse <$> space_encodings → HasPrefix (LF :: s) e = true → e = [LF].
Proof.
  intros He. enough (Forall (λ e, e = [LF] ∨ head e ≠ Some LF ∧ e ≠ []) (reverse <$> space_encodings)) as H.
  { rewrite Forall_forall in H. destruct (H e He) as [?|[Hh Hn]]; [done|]. intros [t Ht]%HasPrefix_true.
    destruct e as [|c e]; [done|]. injection Ht as <- _. done. }
  closed_decide.
Qed.

Lemma TrimSpace_sub s c : c ∈ TrimSpace s → c ∈ s.
Proof.
  unfold TrimSpace, trim_right. rewrite elem_of_reverse. intros Hc.
  destruct (trim_left_suffix space_encodings s) as [p Hp]. rewrite Hp. apply elem_of_app. right.
  set (u := trim_left space_encodings s) in *. apply elem_of_reverse.
  destruct (trim_left_suffix (reverse <$> space_encodings) (reverse u)) as [q Hq]. rewrite Hq. apply elem_of_app. by right.
Qed.

Lemma TrimSpace_line s : one_line s → one_line (TrimSpace (s ++ [LF])).
Proof.
  intros Hs. unfold one_line, TrimSpace, trim_right.
  destruct (trim_left_suffix space_encodings (s ++ [LF])) as [p Hp]. set (u := trim_left space_encodings (s ++ [LF])) in *.
  rewrite elem_of_reverse. destruct u as [|c v _] using rev_ind; [by intros ?%elem_of_nil|].
  rewrite app_assoc in Hp. apply app_inj_tail in Hp as [Hpv <-]. rewrite reverse_snoc.
  rewrite trim_left_LF; [|closed_decide|by intros e; apply reversed_spaces_LF].
  destruct (trim_left_suffix (reverse <$> space_encodings) (reverse v)) as [q Hq]. intros Hc.
  apply Hs. rewrite Hpv. apply elem_of_app. right. apply elem_of_reverse. rewrite Hq. apply elem_of_app. by right.
Qed.

(** *** The answers *)

(** Whatever is read, the result is a [P]. *)
Definition yields {A} (P : A → Prop) (m : T A) : Prop := ∀ t, P (m t).1.

Lemma yields_bind {A B} (P : A → Prop) (Q : B → Prop) (m : T A) (f : A → T B) :
  yields P m → (∀ a, P a → yields Q (f a)) → yields Q (m ≫= f).
Proof. intros Hm Hf t. unfold mbind, ST_bind. specialize (Hm t). destruct (m t) as [a t']. by apply Hf. Qed.

Lemma yields_ret {A} (P : A → Prop) (a : A) : P a → yields P (mret a : T A).
Proof. by intros Ha t. Qed.

Lemma yields_any {A} (m : T A) : yields (λ _, True) m.
Proof. done. Qed.

Lemma ReadString_line : yields (λ l, one_line (TrimSpace l)) ReadString.
Proof.
  intros t. unfold ReadString. destruct (CutByte (t_in t) LF) as [[line rest]|] eqn:Ec; cbn [fst].
  - apply TrimSpace_line. clear -Ec. revert line rest Ec. generalize (t_in t). intros s.
    induction s as [|c s IH]; intros line rest; cbn; [done|]. case_bool_decide as Hc; [by intros [= <- _]; apply not_elem_of_nil|].
    destruct (CutByte s LF) as [[x y]|]; [|done]. intros [= <- _]. apply not_elem_of_cons. split; [done|by eapply IH].
  - intros Hin%TrimSpace_sub. by apply CutByte_None in Ec.
Qed.

Lemma prompt_line label def : one_line def → yields one_line (prompt label def).
Proof.
  intros Hd. unfold prompt. eapply yields_bind; [apply yields_any|intros _ _].
  eapply yields_bind; [apply ReadString_line|]. intros l Hl. apply yields_ret. by case_bool_decide.
Qed.

Ltac ask := eapply yields_bind; [first [apply prompt_line; closed_decide | apply yields_any]|intros ? ?].

Lemma RunWithInput_lines : yields (λ a, Forall one_line (answer_texts a)) RunWithInput.
Proof.
  unfold RunWithInput. do 24 ask.
  eapply yields_bind with (P := λ '(a, b, c, d), one_line a ∧ one_line b ∧ one_line c ∧ one_line d).
  - case_bool_decide; [|apply yields_ret; repeat split; apply not_elem_of_nil].
    unfold ask_s3. do 4 ask. by apply yields_ret.
  - intros [[[? ?] ?] ?] (? & ? & ? & ?). do 3 ask. apply yields_ret. repeat constructor; done.
Qed.

(** *** The file *)

Lemma lines_split ls : Forall one_line ls → SplitByte (mjoin ((λ l, l ++ [LF]) <$> ls)) LF = ls ++ [[]].
Proof.
  induction 1 as [|l ls Hl Hls IH]; [done|].
  change (SplitByte ((l ++ [LF]) ++ mjoin ((λ l, l ++ [LF]) <$> ls)) LF = l :: ls ++ [[]]).
  rewrite <- app_assoc. cbn [app]. by rewrite SplitByte_app, IH.
Qed.

(** A line of the template: a text without line feeds, then an answer. *)
Lemma one_line_app s t : forallb (λ c, negb (bool_decide (c = LF))) s = true → one_line t → one_line (s ++ t).
Proof.
  intros Hs Ht. unfold one_line. rewrite not_elem_of_app. split; [|done]. intros Hin.
  apply forallb_Forall in Hs. rewrite Forall_forall in Hs. specialize (Hs LF Hin). cbn in Hs.
  by rewrite bool_decide_eq_true_2 in Hs.
Qed.

Lemma one_line_const s : forallb (λ c, negb (bool_decide (c = LF))) s = true → one_line s.
Proof. intros Hs. rewrite <- (app_nil_r s). apply one_line_app; [done|apply not_elem_of_nil]. Qed.

(** Splits a claim on the lines of the template into one on each line. *)
Ltac each_line tac :=
  repeat match goal with
  | |- Forall _ (_ ++ _) => apply Forall_app; split
  | |- Forall _ (if ?b then _ else _) => destruct b
  | |- Forall _ [] => apply Forall_nil_2
  | |- Forall _ (_ :: _) => apply Forall_cons_2; [tac|]
  end.

Ltac line_of_answer :=
  first [apply one_line_const; reflexivity | apply one_line_app; [reflexivity|done]].

Lemma yaml_one_line a : Forall one_line (answer_texts a) → Forall one_line (yaml_lines a).
Proof.
  intros H. unfold answer_texts in H. rewrite !Forall_cons in H. destruct_and!.
  unfold yaml_lines, primary_lines, secondary_lines, option_lines.
  each_line ltac:(first [line_of_answer
    | destruct (an_FailoverEnabled a); line_of_answer | destruct (an_ReadOnlySecondary a); line_of_answer]).
Qed.

Lemma yaml_lines_keys a : line_key <$> yaml_lines a =
  yaml_keys (bool_decide (an_ObjectStorageBackend a = "s3")) (bool_decide (an_PrimarySlot a ≠ []))
    (bool_decide (an_S3Endpoint a ≠ [])).
Proof.
  unfold yaml_lines, primary_lines, secondary_lines, option_lines, yaml_keys.
  destruct (bool_decide (an_ObjectStorageBackend a = "s3")), (bool_decide (an_PrimarySlot a ≠ [])),
    (bool_decide (an_S3Endpoint a ≠ [])); reflexivity.
Qed.

(** The value of a line: what follows the key and a colon and a space. *)
Definition line_value (l : gostr) : gostr :=
  drop 2 (span (λ c, negb (bool_decide (c = ":"%char))) (span (in_set [SPC; "-"%char]) l).2).2.

Lemma yaml_secrets a : Forall (λ l, line_key l ∈ secret_keys → line_value l ∈ placeholders) (yaml_lines a).
Proof.
  unfold yaml_lines, primary_lines, secondary_lines, option_lines.
  assert (∀ l, bool_decide (line_key l ∈ secret_keys) = false → line_key l ∈ secret_keys → line_value l ∈ placeholders) as Hn.
  { intros l Hl Hi. by apply bool_decide_eq_false_1 in Hl. }
  assert (∀ l, bool_decide (line_value l ∈ placeholders) = true → line_key l ∈ secret_keys → line_value l ∈ placeholders) as Hp.
  { intros l Hl _. by apply bool_decide_eq_true_1 in Hl. }
  each_line ltac:(first [apply Hn; reflexivity|apply Hp; reflexivity]).
Qed.

(** The wizard's file is the template.  Whatever is typed (or not, at
    the end of the input), no answer contains a line feed, so that an answer
    fills its own line only: the file has exactly the lines of the template,
    whose keys depend only on the backend being S3 and on the slot and the
    endpoint being given; and every line for a secret holds a reference to
    an environment variable, never an answer. *)
Lemma wizard_file t : let a := (RunWithInput t).1 in
  SplitByte (GenerateYAML a) LF = yaml_lines a ++ [[]] ∧
  (line_key <$> yaml_lines a) =
    yaml_keys (bool_decide (an_ObjectStorageBackend a = "s3")) (bool_decide (an_PrimarySlot a ≠ []))
      (bool_decide (an_S3Endpoint a ≠ [])) ∧
  Forall (λ l, line_key l ∈ secret_keys → line_value l ∈ placeholders) (yaml_lines a).
Proof.
  intros a. split; [|split; [apply yaml_lines_keys|apply yaml_secrets]].
  apply lines_split, yaml_one_line, RunWithInput_lines.
Qed.

(** ** Runs *)

Definition wizard (input : gostr) : Answers := (RunWithInput (mkTerm input [])).1.

(** At the end of the input, every answer is its default. *)
Example wizard_defaults :
  let a := wizard [] in
  an_PrimaryName a = "primary" ∧ an_S3ReplicaBucket a = "gitlab-replica" ∧ an_ReadOnlySecondary a = true ∧
  an_FailoverEnabled a = false ∧ an_PrimarySlot a = [].
Proof. vm_compute. repeat split; reflexivity. Qed.

(** An answer per line, blank for the default. *)
Definition ex_typed : gostr :=
  mjoin ((λ l, l ++ [LF]) <$> ["eu "; []; []; []; []; []; []; []; "slot1"; "fetch"; []; "us"; []; []; []; []; [];
    "s3"; []; []; []; "http://minio:9000"; "N"; "YES"]).

(** The endpoint of an S3-compatible store and the slot are written for the
    primary only, so the replica's bucket is looked for at the default
    endpoint, and [pg setup], which reads the secondary's slot, uses none. *)
Example wizard_primary_only :
  let a := wizard ex_typed in
  an_S3Endpoint a = "http://minio:9000" ∧ an_ReadOnlySecondary a = false ∧ an_FailoverEnabled a = true ∧
  ("endpoint" : gostr) ∈ line_key <$> primary_lines a ∧ ("endpoint" : gostr) ∉ line_key <$> secondary_lines a ∧
  ("slot_name" : gostr) ∈ line_key <$> primary_lines a ∧ ("slot_name" : gostr) ∉ line_key <$> secondary_lines a.
Proof.
  split_and!; [vm_compute; reflexivity..| | | |]; apply (bool_decide_eq_true_1 _); vm_compute; reflexivity.
Qed.
