(* ===== verification/Build.v ===== *)
(** * cmd/syncctl: building the reconcilers and the webhook receiver

    [buildReconcilers] opens the connection pools, builds one reconciler set
    per secondary, and hands back a cleanup that closes the pools.  The SDK's
    [LoadDefaultConfig], the pool factory [connect], [strings.ToLower] and
    [url.Parse] are parameters, as in the files of the reconcilers. *)
From Stdlib Require Import Ascii ZArith Lia SpecFloat.
From stdpp Require Import prelude strings gmap list.
From S2P Require Import Prelude World GoStrings SshExec ConfigData Config Dsn Reconciler LocalCmd.
From S2P Require Import Webhook Rsync GitFetch Registry Consistency ApiValidator PostgresRec ObjectStorage.
Open Scope go_scope.

(** ** The code *)

Definition findSecondary (cfg : Config) (name : gostr) : res SiteConfig :=
  match List.find (λ s, bool_decide (site_Name s = name)) (cfg_Secondaries cfg) with
  | Some s => Ok s
  | None => Err (Errorf [FS "secondary "; FQ name; FS " not found in config"])
  end.

Definition metricSite (cfg : Config) (s : SiteConfig) : gostr :=
  if (length (cfg_Secondaries cfg) <? 2)%nat then [] else site_Name s.

(** The types that implement the interface [reconciler.Reconciler]; the
    registry's holds its site and the two endpoints. *)
Inductive site_rec :=
| RecPG (r : pg_reconciler)
| RecRsync (r : git_rsync)
| RecFetch (r : gf_reconciler)
| RecS3 (r : os_reconciler)
| RecFs (r : fs_storage)
| RecRegistry (site : gostr) (ends : endpoint * endpoint) (dryRun : bool)
| RecConsistency (r : con_reconciler)
| RecApi (r : api_reconciler).

(** The method [Name]. *)
Definition rec_Name (r : site_rec) : gostr :=
  match r with
  | RecPG _ => pg_name
  | RecRsync r => gr_name r
  | RecFetch r => gf_name r
  | RecS3 r => os_name r
  | RecFs r => fs_name r
  | RecRegistry site _ _ => Registry.Name site
  | RecConsistency r => con_name r
  | RecApi r => api_name r
  end.

Section build.
Context (ToLower : gostr → gostr) (url_Parse : gostr → res URL) (LoadDefaultConfig : gostr → option error).
Context (connect : nat → gostr → option error) (pool_name : nat → gostr).

(** [pgRec.SecondaryPool(s.Name)] by its name; no name when it is nil. *)
Definition secondary_pool (pgRec : pg_reconciler) (s : SiteConfig) : gostr :=
  default [] (pool_name <$> SecondaryQuerier pgRec (site_Name s)).

Definition git_recs (cfg : Config) (s : SiteConfig) (pgRec : pg_reconciler) (dryRun : bool) : list site_rec :=
  let site := metricSite cfg s in
  let p := cfg_Primary cfg in
  if bool_decide (git_Mode (site_Git p) = "rsync") then
    [RecRsync (gr_New p s site dryRun (SSHExecConfig cfg))]
  else if bool_decide (git_Mode (site_Git p) = "fetch") then
    [RecFetch (GitFetch.New (site_SSHHost p) (git_ReposPath (site_Git s)) site
       (Some (pool_name (pg_primary pgRec))) dryRun (SSHExecConfig cfg))]
  else [].

Definition storage_recs (cfg : Config) (s : SiteConfig) (dryRun : bool) : res (list site_rec) :=
  let site := metricSite cfg s in
  let p := cfg_Primary cfg in
  if bool_decide (os_Backend (site_ObjectStore p) = "s3") then
    match os_New LoadDefaultConfig site (os_S3 (site_ObjectStore p)) (os_S3 (site_ObjectStore s)) with
    | Err err => Err (Errorf [FS "object storage reconciler for "; FS (site_Name s); FS ": "; FW err])
    | Ok osRec => Ok [RecS3 osRec]
    end
  else if bool_decide (os_Backend (site_ObjectStore p) = "fs") then
    Ok [RecFs (fs_New p s site dryRun (SSHExecConfig cfg))]
  else Ok [].

Definition registry_recs (cfg : Config) (s : SiteConfig) (dryRun : bool) : list site_rec :=
  match site_Registry (cfg_Primary cfg) with
  | Some _ =>
      match Registry.New ToLower url_Parse (cfg_Primary cfg) s with
      | Some ends => [RecRegistry (metricSite cfg s) ends dryRun]
      | None => []
      end
  | None => []
  end.

Definition api_recs (cfg : Config) (s : SiteConfig) : list site_rec :=
  match cfg_APIValidator cfg with
  | Some v =>
      if api_Enabled v then option_list (RecApi <$> api_New cfg s (metricSite cfg s)) else []
  | None => []
  end.

Definition buildSiteReconcilers (cfg : Config) (s : SiteConfig) (pgRec : pg_reconciler) (dryRun : bool)
    : res (list site_rec) :=
  match storage_recs cfg s dryRun with
  | Err err => Err err
  | Ok storage =>
      Ok (git_recs cfg s pgRec dryRun ++ storage ++ registry_recs cfg s dryRun ++
          [RecConsistency (con_New (pool_name (pg_primary pgRec)) (secondary_pool pgRec s) (metricSite cfg s)
             (git_ReposPath (site_Git s)) (sync_ConsistencySamplePct (cfg_Sync cfg)))] ++
          api_recs cfg s)
  end.

(** The loop of [buildReconcilers]; [cleanup] closes the pools. *)
Fixpoint build_sites (cfg : Config) (pgRec : pg_reconciler) (dryRun : bool) (sites : list SiteConfig)
    (recs : list site_rec) : ST pools (res (list site_rec)) :=
  match sites with
  | [] => mret (Ok recs)
  | s :: sites =>
      match buildSiteReconcilers cfg s pgRec dryRun with
      | Err err => _ ← pg_Close pgRec; mret (Err err)
      | Ok siteRecs => build_sites cfg pgRec dryRun sites (recs ++ siteRecs)
      end
  end.

(** With the reconcilers, the one whose [Close] is the cleanup. *)
Definition buildReconcilers (cfg : Config) (dryRun : bool) : ST pools (res (list site_rec * pg_reconciler)) :=
  pgRec ← NewWithFactory connect cfg;
  match pgRec with
  | Err err => mret (Err (Errorf [FS "postgres reconciler: "; FW err]))
  | Ok pgRec =>
      recs ← build_sites cfg pgRec dryRun (cfg_Secondaries cfg) [RecPG pgRec];
      mret (match recs with
            | Err err => Err err
            | Ok recs => Ok (recs, pgRec)
            end)
  end.
End build.

(** *** The webhook receiver *)

Record webhook_server := mkWebhook {
  ws_addr : gostr;
  ws_server : server;
  ws_fetcher : option gf_reconciler;
  ws_tlsCert : gostr;
  ws_tlsKey : gostr;
}.

Definition WithTLS (certFile keyFile : gostr) (s : webhook_server) : webhook_server :=
  mkWebhook (ws_addr s) (ws_server s) (ws_fetcher s) certFile keyFile.

(** Whether [Start] serves HTTPS. *)
Definition serves_tls (s : webhook_server) : bool := bool_decide (ws_tlsCert s ≠ []).

(** The first git-fetch reconciler. *)
Fixpoint find_fetcher (recs : list site_rec) : option gf_reconciler :=
  match recs with
  | [] => None
  | RecFetch gf :: _ => Some gf
  | _ :: recs => find_fetcher recs
  end.

Definition trigger (E : Env) (runner : option LocalRunner) (fetcher : option gf_reconciler) (projectPath : gostr) : IO err :=
  match fetcher with
  | Some gf => FetchProject E runner gf projectPath
  | None => mret nil_error
  end.

Definition buildWebhookServer (w : WebhookConfig) (recs : list site_rec) : res webhook_server :=
  match NewServer (wh_SecretToken w) with
  | Err err => Err err
  | Ok srv =>
      let srv := mkWebhook (wh_Addr w) srv (find_fetcher recs) [] [] in
      Ok (if bool_decide (wh_TLSCert w ≠ []) then WithTLS (wh_TLSCert w) (wh_TLSKey w) srv else srv)
  end.

(** ** The specification *)

Definition has_registry (s : SiteConfig) : bool :=
  match site_Registry s with Some r => bool_decide (reg_URL r ≠ []) | None => false end.

(** The reconcilers of one secondary, by the configuration. *)
Definition base_names (cfg : Config) (s : SiteConfig) : list gostr :=
  let p := cfg_Primary cfg in
  (if bool_decide (git_Mode (site_Git p) = "rsync") then ["git_rsync" : gostr]
   else if bool_decide (git_Mode (site_Git p) = "fetch") then ["git_fetch" : gostr] else []) ++
  (if bool_decide (os_Backend (site_ObjectStore p) = "s3") then ["object_storage" : gostr]
   else if bool_decide (os_Backend (site_ObjectStore p) = "fs") then ["fs_storage" : gostr] else []) ++
  (if has_registry p && has_registry s then ["registry" : gostr] else []) ++
  ["consistency_sweep" : gostr] ++
  (match cfg_APIValidator cfg with Some v => if api_Enabled v then ["api_validator" : gostr] else [] | None => [] end).

Definition site_names (cfg : Config) (s : SiteConfig) : list gostr :=
  (λ b, QualifyName b (metricSite cfg s)) <$> base_names cfg s.

(** What the reconcilers of the secondary [sc] work on: [pri] and [own] name
    the primary's pool and [sc]'s. *)
Section serves.
Context (ToLower : gostr → gostr) (url_Parse : gostr → res URL).
Context (cfg : Config) (sc : SiteConfig) (dry : bool) (pri own : gostr).

(** The registry of the site [s]: its address and token, the hosts of the
    site that may issue tokens, and plain http only when it is the
    registry's own. *)
Record asks (sd : side) (s : SiteConfig) (e : endpoint) : Prop := {
  ask_side : en_side e = sd;
  ask_site : ∃ reg, site_Registry s = Some reg ∧ reg_URL reg ≠ [] ∧
    en_url e = TrimSuffix (reg_URL reg) "/" ++ "/v2" ∧ au_static (en_auth e) = reg_Token reg ∧
    (∀ h, h ∈ au_allowedHosts (en_auth e) ↔ ∃ raw u, raw ∈ [site_ExternalURL s; reg_URL reg; reg_AuthRealm reg] ∧
       raw ≠ [] ∧ url_Parse raw = Ok u ∧ Hostname u ≠ [] ∧ h = ToLower (Hostname u)) ∧
    (au_allowInsecure (en_auth e) = true ↔ ∃ u, url_Parse (reg_URL reg) = Ok u ∧ Scheme u = "http");
}.

(** A listing of [bucket] with the credentials and the service of [c]. *)
Definition lists (c : S3Config) (bucket : gostr) (l : lister) : Prop :=
  li_bucket l = bucket ∧ cl_region (li_client l) = s3_Region c ∧ cl_accessKey (li_client l) = s3_AccessKey c ∧
  cl_secretKey (li_client l) = s3_SecretKey c ∧
  cl_endpoint (li_client l) = (if bool_decide (s3_Endpoint c = []) then None else Some (s3_Endpoint c)).

(** The directories of the primary and where they go: the configured ones
    under their own names, and the registry's to [sc]'s, when it has one. *)
Definition copied (pr : PathPair) : Prop :=
  Src pr ∈ os_FSPaths (site_ObjectStore (cfg_Primary cfg)) ∧ Dst pr = Src pr ∨
  ∃ reg, site_Registry (cfg_Primary cfg) = Some reg ∧ reg_Mode reg = "fs" ∧ Src pr = reg_FSPath reg ∧ Src pr ≠ [] ∧
    ((∃ sreg, site_Registry sc = Some sreg ∧ reg_FSPath sreg ≠ [] ∧ Dst pr = reg_FSPath sreg) ∨
     ((∀ sreg, site_Registry sc = Some sreg → reg_FSPath sreg = []) ∧ Dst pr = Src pr)).

Definition serves (r : site_rec) : Prop :=
  let p := cfg_Primary cfg in
  match r with
  | RecPG _ => False
  | RecRsync r => gr_site r = metricSite cfg sc ∧ gr_sshHost r = site_SSHHost p ∧ gr_sshCfg r = SSHExecConfig cfg ∧
      gr_srcPath r = git_ReposPath (site_Git p) ∧ gr_dstPath r = git_ReposPath (site_Git sc) ∧
      gr_dryRun r = dry ∧ gr_runner r = None
  | RecFetch r => gf_secondaryName r = metricSite cfg sc ∧ gf_primarySSHHost r = site_SSHHost p ∧
      gf_sshCfg r = SSHExecConfig cfg ∧ gf_reposPath r = git_ReposPath (site_Git sc) ∧ gf_pool r = Some pri ∧
      gf_dryRun r = dry ∧ gf_maxParallel r = 8%Z
  | RecS3 r => os_site r = metricSite cfg sc ∧ ∃ s3, os_S3 (site_ObjectStore p) = Some s3 ∧
      let rep := default s3 (os_S3 (site_ObjectStore sc)) in
      lists s3 (s3_PrimaryBucket s3) (os_primary r) ∧ lists rep (s3_ReplicaBucket rep) (os_replica r) ∧
      os_lagThreshold r = s3_ReplicationLag s3
  | RecFs r => fs_site r = metricSite cfg sc ∧ fs_sshHost r = site_SSHHost p ∧ fs_sshCfg r = SSHExecConfig cfg ∧
      (∀ pr, pr ∈ pathPairs r ↔ copied pr) ∧ fs_dryRun r = dry ∧ fs_runner r = None
  | RecRegistry site ends d => site = metricSite cfg sc ∧ asks Primary p ends.1 ∧ asks Secondary sc ends.2 ∧ d = dry
  | RecConsistency r => con_secondaryName r = metricSite cfg sc ∧ con_primary r = pri ∧ con_secondary r = own ∧
      con_reposPath r = git_ReposPath (site_Git sc) ∧ con_samplePct r = sync_ConsistencySamplePct (cfg_Sync cfg)
  | RecApi r => av_site r = metricSite cfg sc ∧ ∃ v, cfg_APIValidator cfg = Some v ∧
      av_primaryURL r = TrimSuffix (site_ExternalURL p) "/" ++ "/api/v4" ∧
      av_secondaryURL r = TrimSuffix (site_ExternalURL sc) "/" ++ "/api/v4" ∧
      av_primaryToken r = api_PrimaryToken v ∧ av_secondaryToken r = api_SecondaryToken v
  end.
End serves.

(** ** Lemmas *)

(** *** What the reconcilers work on *)

Lemma registry_hosts (url_Parse : gostr → res URL) s reg h : site_Registry s = Some reg →
  h ∈ realmHosts url_Parse s ↔ ∃ raw u, raw ∈ [site_ExternalURL s; reg_URL reg; reg_AuthRealm reg] ∧ raw ≠ [] ∧
    url_Parse raw = Ok u ∧ Hostname u ≠ [] ∧ h = Hostname u.
Proof.
  assert (∀ raw, h ∈ realm_host url_Parse raw ↔ ∃ u, raw ≠ [] ∧ url_Parse raw = Ok u ∧ Hostname u ≠ [] ∧ h = Hostname u) as Hone.
  { intros raw. unfold realm_host. case_bool_decide; [rewrite elem_of_nil; naive_solver|].
    destruct (url_Parse raw) as [u|e]; [|rewrite elem_of_nil; naive_solver].
    case_bool_decide; [rewrite elem_of_nil; naive_solver|]. rewrite list_elem_of_singleton. naive_solver. }
  intros Hr. assert (realmHosts url_Parse s =
    [site_ExternalURL s; reg_URL reg; reg_AuthRealm reg] ≫= realm_host url_Parse) as ->.
  { unfold realmHosts. rewrite Hr. cbn. by rewrite app_nil_r. }
  rewrite list_elem_of_bind. split.
  - intros (raw & (u & Hu)%Hone & Hraw). by exists raw, u.
  - intros (raw & u & Hraw & Hu). exists raw. split; [apply Hone; by exists u|done].
Qed.

Lemma registry_asks ToLower (url_Parse : gostr → res URL) p s a b : Registry.New ToLower url_Parse p s = Some (a, b) →
  asks ToLower url_Parse Primary p a ∧ asks ToLower url_Parse Secondary s b.
Proof.
  assert (∀ sd s, registryBaseURL s ≠ [] → asks ToLower url_Parse sd s (mkEnd sd
    (newAuthenticator ToLower (registryToken s) (realmHosts url_Parse s) (insecureRegistry url_Parse s)) (registryBaseURL s))) as Hone.
  { clear p s a b. intros sd s Hne. unfold registryBaseURL, registryToken, insecureRegistry in *.
    destruct (site_Registry s) as [reg|] eqn:Hr; [|done]. case_bool_decide as Hu; [done|].
    split; [done|]. exists reg. cbn. split_and!; try done.
    - intros h. rewrite elem_of_list_to_set, list_elem_of_fmap. setoid_rewrite list_elem_of_filter.
      setoid_rewrite (registry_hosts url_Parse s reg _ Hr). naive_solver.
    - destruct (url_Parse (reg_URL reg)) as [u|e]; [|naive_solver]. rewrite bool_decide_eq_true. naive_solver. }
  unfold Registry.New. destruct (bool_decide_reflect (registryBaseURL p = [])) as [|Hp]; [done|].
  destruct (bool_decide_reflect (registryBaseURL s = [])) as [|Hs]; [done|]. intros [= <- <-]. split; by apply Hone.
Qed.

Lemma newS3Client_lists LoadDefaultConfig c bucket l : newS3Client LoadDefaultConfig c bucket = Ok l → lists c bucket l.
Proof.
  unfold newS3Client. destruct (LoadDefaultConfig _); [done|]. intros [= <-]. unfold lists. cbn. split_and!; try done.
  by destruct (s3_Endpoint c).
Qed.

Lemma fs_copied cfg sc site dry ssh pr : pr ∈ pathPairs (fs_New (cfg_Primary cfg) sc site dry ssh) ↔ copied cfg sc pr.
Proof.
  unfold fs_New, copied. cbn [pathPairs]. rewrite elem_of_app, list_elem_of_fmap. apply Morphisms_Prop.or_iff_morphism.
  - destruct pr as [a b]. cbn. naive_solver.
  - unfold registry_pair. destruct (site_Registry (cfg_Primary cfg)) as [reg|]; [|rewrite elem_of_nil; naive_solver].
    destruct (bool_decide_reflect (reg_Mode reg = "fs")) as [Hm|Hm]; cbn [andb]; [|rewrite elem_of_nil; naive_solver].
    case_bool_decide as Hp; cycle 1.
    { rewrite elem_of_nil. split; [done|]. by intros (reg' & [= <-] & _ & -> & ? & _). }
    rewrite list_elem_of_singleton. destruct pr as [a b]. cbn.
    destruct (site_Registry sc) as [sreg|]; [case_bool_decide as Hs|]; (split;
      [intros [= -> ->]; exists reg; do 4 (split; [done|])
      |intros (reg' & [= <-] & _ & -> & _ & [(sreg' & [= <-] & ? & ->)|[Hno ->]])]); try done.
    + left. by exists sreg.
    + by destruct Hs; apply Hno.
    + right. split; [|done]. intros x [= <-]. destruct (reg_FSPath sreg); [done|by destruct Hs].
    + right. by split.
Qed.

Section lemmas.
Context (ToLower : gostr → gostr) (url_Parse : gostr → res URL) (LoadDefaultConfig : gostr → option error).
Context (connect : nat → gostr → option error) (pool_name : nat → gostr).

Lemma os_New_site site p s r : os_New LoadDefaultConfig site p s = Ok r → os_site r = site.
Proof. unfold os_New. intros H. repeat (case_next_in H; try done). by injection H as <-. Qed.

Lemma registryBaseURL_empty s : bool_decide (registryBaseURL s = []) = negb (has_registry s).
Proof.
  unfold registryBaseURL, has_registry. destruct (site_Registry s) as [r|]; [|done].
  destruct (bool_decide_reflect (reg_URL r = [])) as [->|Hne]; [done|].
  rewrite (bool_decide_eq_true_2 (reg_URL r ≠ [])) by done. apply bool_decide_eq_false_2. by destruct (TrimSuffix _ _).
Qed.

Lemma buildSite_names cfg s pgRec dry recs :
  buildSiteReconcilers ToLower url_Parse LoadDefaultConfig pool_name cfg s pgRec dry = Ok recs →
  rec_Name <$> recs = site_names cfg s.
Proof.
  unfold buildSiteReconcilers. destruct (storage_recs LoadDefaultConfig cfg s dry) as [storage|e] eqn:Es; [|done].
  intros [= <-]. unfold site_names, base_names. rewrite !fmap_app. f_equal; [|f_equal; [|f_equal; [|f_equal]]].
  - unfold git_recs. by repeat case_bool_decide.
  - unfold storage_recs in Es. case_bool_decide.
    + destruct (os_New _ _ _ _) as [r|] eqn:Eo; [|done]. injection Es as <-. cbn [fmap list_fmap rec_Name]. unfold os_name. by rewrite (os_New_site _ _ _ _ Eo).
    + by case_bool_decide; injection Es as <-.
  - unfold registry_recs, Registry.New. rewrite !registryBaseURL_empty.
    destruct (site_Registry (cfg_Primary cfg)) eqn:Er.
    + destruct (has_registry (cfg_Primary cfg)), (has_registry s); done.
    + unfold has_registry at 1. by rewrite Er.
  - unfold api_recs, api_New. destruct (cfg_APIValidator cfg) as [v|]; [|done]. by destruct (api_Enabled v).
Qed.

Abbreviation built cfg pgRec dry := (λ sc group,
  buildSiteReconcilers ToLower url_Parse LoadDefaultConfig pool_name cfg sc pgRec dry = Ok group).

Lemma build_sites_spec cfg pgRec dry sites recs0 s r s' :
  build_sites ToLower url_Parse LoadDefaultConfig pool_name cfg pgRec dry sites recs0 s = (r, s') →
  match r with
  | Ok recs => s' = s ∧ ∃ groups, recs = recs0 ++ concat groups ∧ Forall2 (built cfg pgRec dry) sites groups
  | Err _ => s' = (pg_Close pgRec s).2
  end.
Proof.
  revert recs0. induction sites as [|sc sites IH]; intros recs0; cbn [build_sites].
  { intros [= <- <-]. split; [done|]. exists []. by rewrite app_nil_r. }
  destruct (buildSiteReconcilers _ _ _ _ cfg sc pgRec dry) as [siteRecs|e] eqn:Eb.
  - intros Hr%IH. destruct r as [recs|]; [|done]. destruct Hr as (-> & groups & -> & Hg). split; [done|].
    exists (siteRecs :: groups). rewrite <- app_assoc. split; [done|by constructor].
  - unfold mbind, ST_bind. destruct (pg_Close pgRec s) as [u s1]. by intros [= <- <-].
Qed.

Lemma built_names cfg pgRec dry sites groups : Forall2 (built cfg pgRec dry) sites groups →
  rec_Name <$> concat groups = sites ≫= site_names cfg.
Proof.
  induction 1 as [|sc group sites groups Hb _ IH]; [done|]. cbn. by rewrite fmap_app, IH, (buildSite_names _ _ _ _ _ Hb).
Qed.

Lemma buildSite_serves cfg sc pgRec dry recs :
  buildSiteReconcilers ToLower url_Parse LoadDefaultConfig pool_name cfg sc pgRec dry = Ok recs →
  Forall (serves ToLower url_Parse cfg sc dry (pool_name (pg_primary pgRec)) (secondary_pool pool_name pgRec sc)) recs.
Proof.
  unfold buildSiteReconcilers. destruct (storage_recs LoadDefaultConfig cfg sc dry) as [storage|e] eqn:Es; [|done].
  intros [= <-]. rewrite !Forall_app. split_and!.
  - unfold git_recs. repeat case_bool_decide; repeat constructor.
  - unfold storage_recs in Es. case_bool_decide.
    + destruct (os_New _ _ _ _) as [o|] eqn:Eo; [|done]. injection Es as <-. constructor; [|done]. unfold os_New in Eo.
      destruct (os_S3 (site_ObjectStore (cfg_Primary cfg))) as [s3|] eqn:E3; [|done].
      destruct (newS3Client _ _ _) as [l1|] eqn:E1; [|done]. cbn [serves].
      destruct (newS3Client _ (default _ _) _) as [l2|] eqn:E2; [|done]. injection Eo as <-. cbn. split; [done|].
      exists s3. split; [done|]. split; [by eapply newS3Client_lists|]. split; [by eapply newS3Client_lists|done].
    + case_bool_decide; injection Es as <-; [|done]. constructor; [|done]. cbn. split_and!; try done.
      intros pr. eapply (fs_copied cfg sc [] dry (SSHExecConfig cfg)).
  - unfold registry_recs. destruct (site_Registry _); [|done]. destruct (Registry.New _ _ _ _) as [[a b]|] eqn:En; [|done].
    apply registry_asks in En as [Ha Hb]. constructor; [|done]. cbn. by split_and!.
  - constructor; [cbn; by split_and!|].
    unfold api_recs, api_New. destruct (cfg_APIValidator cfg) as [v|] eqn:Ev; [|done]. destruct (api_Enabled v); [|done].
    constructor; [|done]. cbn. split; [done|]. exists v. by split_and!.
Qed.

(** *** Names *)

(** A closed fact about the names, for each shape of the configuration. *)
Ltac each_shape :=
  unfold base_names;
  repeat match goal with |- context [if ?b then _ else _] => destruct b end;
  repeat match goal with |- context [match ?o with Some v => if api_Enabled v then _ else _ | None => _ end] =>
    destruct o as [v|]; [destruct (api_Enabled v)|] end;
  closed_decide.

Lemma base_names_at cfg s b : b ∈ base_names cfg s → "@"%char ∉ b ∧ b ≠ "postgres".
Proof.
  revert b. apply (proj1 (Forall_forall (λ b : gostr, "@"%char ∉ b ∧ b ≠ "postgres") _)). each_shape.
Qed.

Lemma base_names_NoDup cfg s : NoDup (base_names cfg s).
Proof. each_shape. Qed.

Lemma QualifyName_inj b1 b2 s1 s2 : "@"%char ∉ b1 → "@"%char ∉ b2 → s1 ≠ [] → s2 ≠ [] →
  QualifyName b1 s1 = QualifyName b2 s2 → b1 = b2 ∧ s1 = s2.
Proof.
  intros H1 H2 N1 N2. unfold QualifyName. rewrite !bool_decide_eq_false_2 by done. intros He.
  change (b1 ++ "@"%char :: s1 = b2 ++ "@"%char :: s2) in He.
  apply (f_equal (λ x, CutByte x "@"%char)) in He. rewrite !CutByte_app in He by done. by injection He.
Qed.

Lemma NoDup_fmap_in {A B} (f : A → B) l x y : NoDup (f <$> l) → x ∈ l → y ∈ l → f x = f y → x = y.
Proof.
  intros Hnd [i Hi]%list_elem_of_lookup [j Hj]%list_elem_of_lookup He.
  assert (i = j) as ->; [|congruence].
  eapply NoDup_lookup; [done|by rewrite list_lookup_fmap, Hi|by rewrite list_lookup_fmap, Hj; cbn; rewrite He].
Qed.

(** The secondaries of a valid configuration are told apart by their names. *)
Lemma all_names_NoDup cfg :
  NoDup (site_Name <$> cfg_Secondaries cfg) → (∀ s, s ∈ cfg_Secondaries cfg → site_Name s ≠ []) →
  NoDup (("postgres" : gostr) :: (cfg_Secondaries cfg ≫= site_names cfg)).
Proof.
  intros Hnd Hne. destruct (Nat.ltb_spec (length (cfg_Secondaries cfg)) 2) as [Hl|Hl].
  - assert (∀ s, site_names cfg s = base_names cfg s) as Heq.
    { intros s. unfold site_names, metricSite. destruct (Nat.ltb_spec (length (cfg_Secondaries cfg)) 2); [|lia].
      unfold QualifyName. by rewrite bool_decide_eq_true_2, list_fmap_id. }
    destruct (cfg_Secondaries cfg) as [|s [|? ?]]; cbn in Hl; [repeat constructor; by intros ?%elem_of_nil| |lia].
    cbn. rewrite app_nil_r, Heq. constructor; [|apply base_names_NoDup].
    intros Hb%base_names_at. by destruct Hb.
  - assert (∀ s, site_names cfg s = (λ b, QualifyName b (site_Name s)) <$> base_names cfg s) as Heq.
    { intros s. unfold site_names, metricSite. by destruct (Nat.ltb_spec (length (cfg_Secondaries cfg)) 2); [lia|]. }
    constructor.
    + rewrite list_elem_of_bind. intros (s & Hs & Hin). rewrite Heq in Hs.
      apply list_elem_of_fmap in Hs as (b & Hb & [Hat Hpg]%base_names_at).
      unfold QualifyName in Hb. rewrite bool_decide_eq_false_2 in Hb by auto.
      assert ("@"%char ∈ ("postgres" : gostr)) as Hin' by (rewrite Hb; apply elem_of_app; right; left).
      revert Hin'. closed_decide.
    + apply NoDup_bind.
      * intros s1 s2 y H1 H2. rewrite !Heq. intros (b1 & -> & [? _]%base_names_at)%list_elem_of_fmap
          (b2 & Hb & [? _]%base_names_at)%list_elem_of_fmap.
        apply QualifyName_inj in Hb as [_ Hs]; auto. by apply (NoDup_fmap_in site_Name (cfg_Secondaries cfg)).
      * intros s Hs. rewrite Heq. apply NoDup_fmap_2_strong; [|apply base_names_NoDup].
        intros b1 b2 [? _]%base_names_at [? _]%base_names_at Hb. apply QualifyName_inj in Hb as [? _]; auto.
      * by apply NoDup_fmap_1 in Hnd.
Qed.

Lemma SecondaryQuerier_Some r name : name ∈ sc_name <$> pg_secondaries r → is_Some (SecondaryQuerier r name).
Proof.
  intros (sc & -> & Hsc)%list_elem_of_fmap. unfold SecondaryQuerier.
  destruct (List.find _ (pg_secondaries r)) as [sc'|] eqn:Ef; [by eexists|].
  apply list_elem_of_In in Hsc. apply (List.find_none _ _ Ef) in Hsc. by rewrite bool_decide_eq_true_2 in Hsc.
Qed.

Lemma buildReconcilers_parts cfg dry s recs pgRec s' :
  buildReconcilers ToLower url_Parse LoadDefaultConfig connect pool_name cfg dry s = (Ok (recs, pgRec), s') →
  NewWithFactory connect cfg s = (Ok pgRec, s') ∧
  ∃ groups, recs = RecPG pgRec :: concat groups ∧ Forall2 (built cfg pgRec dry) (cfg_Secondaries cfg) groups.
Proof.
  unfold buildReconcilers, mbind, ST_bind. destruct (NewWithFactory connect cfg s) as [[pg|e] s1]; [|done].
  destruct (build_sites _ _ _ _ cfg pg dry (cfg_Secondaries cfg) [RecPG pg] s1) as [[l|e] s2] eqn:Eb; [|done].
  apply build_sites_spec in Eb as (-> & groups & -> & Hg). intros [= <- <- <-]. split; [done|by exists groups].
Qed.

Lemma buildReconcilers_open cfg dry s r s' : pools_ok s →
  buildReconcilers ToLower url_Parse LoadDefaultConfig connect pool_name cfg dry s = (r, s') →
  match r with
  | Err _ => p_open s' = p_open s
  | Ok (recs, pgRec) =>
      rec_Name <$> recs = ("postgres" : gostr) :: (cfg_Secondaries cfg ≫= site_names cfg) ∧
      sc_name <$> pg_secondaries pgRec = site_Name <$> cfg_Secondaries cfg ∧
      p_open s' = held pgRec ∪ p_open s ∧ p_open (pg_Close pgRec s').2 = p_open s
  end.
Proof.
  intros Hok Hb. destruct r as [[recs pgRec]|e].
  - apply buildReconcilers_parts in Hb as (Hn & groups & -> & Hg). rewrite fmap_cons, (built_names _ _ _ _ _ Hg).
    apply NewWithFactory_open in Hn as (Hnames & _ & Ho & Hc); [|done]. by split_and!.
  - revert Hb. unfold buildReconcilers, mbind, ST_bind.
    destruct (NewWithFactory connect cfg s) as [[pg|e0] s1] eqn:En; apply NewWithFactory_open in En; [|done| |done].
    2: { by intros [= <- <-]. }
    destruct En as (_ & _ & _ & Hclose).
    destruct (build_sites _ _ _ _ cfg pg dry (cfg_Secondaries cfg) [RecPG pg] s1) as [[l|e1] s2] eqn:Eb; [done|].
    apply build_sites_spec in Eb. intros [= <- <-]. by rewrite Eb.
Qed.

(** Where a reconciler of the set comes from. *)
Inductive site_built (cfg : Config) (sc : SiteConfig) (dry : bool) : site_rec → Prop :=
| built_rsync site : git_Mode (site_Git (cfg_Primary cfg)) = "rsync" →
    site_built cfg sc dry (RecRsync (gr_New (cfg_Primary cfg) sc site dry (SSHExecConfig cfg)))
| built_fetch site pool : site_built cfg sc dry
    (RecFetch (GitFetch.New (site_SSHHost (cfg_Primary cfg)) (git_ReposPath (site_Git sc)) site (Some pool) dry
                 (SSHExecConfig cfg)))
| built_s3 r : site_built cfg sc dry (RecS3 r)
| built_fs site : site_built cfg sc dry (RecFs (fs_New (cfg_Primary cfg) sc site dry (SSHExecConfig cfg)))
| built_registry site ends : site_built cfg sc dry (RecRegistry site ends dry)
| built_consistency p1 p2 site pct :
    site_built cfg sc dry (RecConsistency (mkCon p1 p2 site (git_ReposPath (site_Git sc)) pct))
| built_api r : site_built cfg sc dry (RecApi r).

Lemma buildSite_built cfg sc pgRec dry recs :
  buildSiteReconcilers ToLower url_Parse LoadDefaultConfig pool_name cfg sc pgRec dry = Ok recs →
  Forall (site_built cfg sc dry) recs.
Proof.
  unfold buildSiteReconcilers. destruct (storage_recs LoadDefaultConfig cfg sc dry) as [storage|e] eqn:Es; [|done].
  intros [= <-]. apply Forall_app; split; [|apply Forall_app; split; [|apply Forall_app; split; [|apply Forall_cons; split]]].
  - unfold git_recs. repeat case_bool_decide; repeat constructor. done.
  - unfold storage_recs in Es. case_bool_decide.
    + destruct (os_New _ _ _ _); [|done]. injection Es as <-. repeat constructor.
    + case_bool_decide; injection Es as <-; repeat constructor.
  - unfold registry_recs. repeat case_match; repeat constructor.
  - constructor.
  - unfold api_recs. destruct (cfg_APIValidator cfg) as [v|]; [|constructor]. destruct (api_Enabled v); [|constructor].
    destruct (api_New _ _ _); repeat constructor.
Qed.

Lemma buildReconcilers_built cfg dry s recs pgRec s' :
  buildReconcilers ToLower url_Parse LoadDefaultConfig connect pool_name cfg dry s = (Ok (recs, pgRec), s') →
  Forall (λ r, r = RecPG pgRec ∨ ∃ sc, sc ∈ cfg_Secondaries cfg ∧ site_built cfg sc dry r) recs.
Proof.
  intros (_ & groups & -> & Hg)%buildReconcilers_parts. constructor; [by left|]. apply Forall_concat.
  apply Forall_forall. intros group [i Hi]%list_elem_of_lookup.
  destruct (Forall2_lookup_r _ _ _ _ _ Hg Hi) as (sc & Hsc%list_elem_of_lookup_2 & Hb).
  eapply Forall_impl; [by eapply buildSite_built|]. intros r Hr. right. by exists sc.
Qed.

(** A secondary's pool is found under its name. *)
Lemma find_conn n sites i sc : NoDup (site_Name <$> sites) → sites !! i = Some sc →
  List.find (λ c, bool_decide (sc_name c = site_Name sc)) (imap (λ i sc, mkConn (site_Name sc) (n + i)) sites) =
  Some (mkConn (site_Name sc) (n + i)).
Proof.
  revert n i. induction sites as [|x sites IH]; intros n i; [done|]. rewrite fmap_cons, NoDup_cons. intros [Hx Hnd].
  cbn [imap List.find sc_name]. destruct i as [|i]; cbn; [intros [= ->]; by rewrite bool_decide_eq_true_2|].
  intros Hi. rewrite bool_decide_eq_false_2.
  - rewrite Nat.add_succ_r. etrans; [|apply (IH (S n) i Hnd Hi)]. f_equal. apply imap_ext. intros j y _. cbn.
    by rewrite Nat.add_succ_r.
  - intros He. apply Hx. rewrite He. by apply list_elem_of_fmap_2, list_elem_of_lookup_2 with i.
Qed.

(** C16: every secondary is served, and nothing leaks.  For a configuration
    that [validate] accepted, [buildReconcilers] returns the PostgreSQL
    reconciler and then one group for every secondary, in the configured
    order: exactly the reconcilers the configuration calls for, each working
    from the primary to that secondary ([serves]: hosts, directories,
    buckets, registries, tokens, dry run), on the primary's pool and on that
    secondary's own, which dialled its database.  The names, which are the
    labels of the metrics, are pairwise distinct, and the cleanup closes
    exactly the pools it opened.  When it fails, it has closed them itself. *)
Theorem buildReconcilers_complete cfg0 cfg dry s r s' :
  validate url_Parse cfg0 = Ok cfg → pools_ok s →
  buildReconcilers ToLower url_Parse LoadDefaultConfig connect pool_name cfg dry s = (r, s') →
  match r with
  | Err _ => p_open s' = p_open s
  | Ok (recs, pgRec) =>
      (∃ groups, recs = RecPG pgRec :: concat groups ∧ length groups = length (cfg_Secondaries cfg) ∧
        ∀ i sc, cfg_Secondaries cfg !! i = Some sc → ∃ group own, groups !! i = Some group ∧
          rec_Name <$> group = site_names cfg sc ∧
          SecondaryQuerier pgRec (site_Name sc) = Some own ∧ own ≠ pg_primary pgRec ∧
          connect own (DSN (site_Postgres sc)) = None ∧
          Forall (serves ToLower url_Parse cfg sc dry (pool_name (pg_primary pgRec)) (pool_name own)) group) ∧
      connect (pg_primary pgRec) (DSN (site_Postgres (cfg_Primary cfg))) = None ∧
      NoDup (rec_Name <$> recs) ∧
      p_open s' = held pgRec ∪ p_open s ∧ p_open (pg_Close pgRec s').2 = p_open s
  end.
Proof.
  intros [Hv ->]%validate_Ok Hok Hb. pose proof (buildReconcilers_open _ _ _ _ _ Hok Hb) as Hopen.
  destruct r as [[recs pgRec]|]; [|done]. destruct Hopen as (Hnames & _ & Ho & Hc).
  apply buildReconcilers_parts in Hb as ((Hp & Hpri & Hsecs & Hd)%NewWithFactory_dials & groups & -> & Hg).
  pose proof (v_unique _ _ Hv) as Hnd. split; [|split; [by rewrite Hp|split; [|done]]].
  - exists groups. split; [done|]. split; [by rewrite <- (Forall2_length _ _ _ Hg)|]. intros i sc Hsc.
    destruct (Forall2_lookup_l _ _ _ _ _ Hg Hsc) as (group & Hgi & Hbuilt).
    assert (SecondaryQuerier pgRec (site_Name sc) = Some (S (p_next s) + i)) as Hq.
    { unfold SecondaryQuerier. rewrite Hsecs, (find_conn _ _ i sc); done. }
    exists group, (S (p_next s) + i). split; [done|]. split; [by eapply buildSite_names|]. split; [done|].
    split; [rewrite Hp; lia|]. split; [by apply Hd|]. apply buildSite_serves in Hbuilt. unfold secondary_pool in Hbuilt.
    by rewrite Hq in Hbuilt.
  - rewrite Hnames. apply all_names_NoDup; [done|]. intros sc Hsc. by apply (v_each _ _ Hv).
Qed.

(** The receiver only ever fetches through one secondary's reconciler: the
    first secondary's. *)
Lemma find_fetcher_first recs gf : find_fetcher recs = Some gf ↔
  ∃ l1 l2, recs = l1 ++ RecFetch gf :: l2 ∧ Forall (λ r, ∀ g, r ≠ RecFetch g) l1.
Proof.
  split.
  - induction recs as [|r recs IH]; [done|]. intros Hf. destruct r; cbn [find_fetcher] in Hf;
      try (destruct (IH Hf) as (l1 & l2 & -> & Hl); eexists (_ :: l1), l2; split; [done|by constructor]).
    injection Hf as ->. by exists [], recs.
  - intros (l1 & l2 & -> & Hl). induction Hl as [|r l1 Hr Hl IH]; [done|].
    destruct r; try apply IH. by destruct (Hr r).
Qed.
End lemmas.

(** ** Runs *)

(** Two secondaries, in fetch mode. *)
Definition ex_two : Config :=
  Build_Config (ex_site "eu" "https://gitlab.eu" "root@eu")
    [ex_site "us" "https://gitlab.us" "root@us"; ex_site "ap" "https://gitlab.ap" "root@ap"]
    (Build_SyncConfig 0 0 0 false false (S754_zero false)) (Build_MetricsConfig [])
    (Build_LogConfig [] [] false) [] None None None (Build_SSHConfig [] []).

Definition ex_two_fs : Config :=
  let fs s := Build_SiteConfig (site_Name s) (site_ExternalURL s) (site_Postgres s) (site_Git s)
    (Build_ObjectStoreConfig "fs" None []) None (site_SSHHost s) in
  Build_Config (fs (cfg_Primary ex_two)) (fs <$> cfg_Secondaries ex_two) (cfg_Sync ex_two) (cfg_Metrics ex_two)
    (cfg_Log ex_two) [] None None None (cfg_SSH ex_two).

Definition ex_build (cfg : Config) : res (list site_rec * pg_reconciler) * pools :=
  buildReconcilers ToLowerASCII ex_parse (λ _, None) (λ _ _, None) (λ i, Itoa (Z.of_nat i)) (apply_defaults cfg) false
    (mkPools 0 ∅).

Example build_example :
  (match (ex_build ex_two_fs).1 with Ok (recs, _) => rec_Name <$> recs | Err _ => [] end) =
    ["postgres"; "git_fetch@us"; "fs_storage@us"; "consistency_sweep@us"; "git_fetch@ap"; "fs_storage@ap";
     "consistency_sweep@ap"] ∧
  (match (ex_build ex_two_fs).1 with Ok (recs, _) => gf_secondaryName <$> find_fetcher recs | Err _ => None end) = Some ("us" : gostr) ∧
  (* the S3 backend without its section: the pools are closed again *)
  is_Ok (ex_build ex_two).1 = false ∧ p_next (ex_build ex_two).2 = 3 ∧ p_open (ex_build ex_two).2 = ∅.
Proof. vm_compute. split_and!; reflexivity. Qed.

Lemma buildReconcilers_complete_witness :
  match ex_build ex_two_fs with
  | (Ok (recs, pgRec), s') => length recs = 7 ∧ NoDup (rec_Name <$> recs) ∧ p_open (pg_Close pgRec s').2 = ∅ ∧
      ∃ groups group own, recs = RecPG pgRec :: concat groups ∧ groups !! 1 = Some group ∧
        SecondaryQuerier pgRec "ap" = Some own ∧ own ≠ pg_primary pgRec ∧ length group = 3
  | (Err _, _) => False
  end.
Proof.
  assert (validate ex_parse ex_two_fs = Ok (apply_defaults ex_two_fs)) as Hv by (vm_compute; reflexivity).
  pose proof (no_pools_ok 0) as Hok.
  assert (match (ex_build ex_two_fs).1 with Ok (recs, _) => length recs = 7 | Err _ => False end) as Hlen
    by (vm_compute; reflexivity).
  unfold ex_build in *. destruct (buildReconcilers _ _ _ _ _ _ _ _) as [[[recs pgRec]|e] s'] eqn:Eb; [|exact Hlen].
  pose proof (buildReconcilers_complete _ _ _ _ _ _ _ _ _ _ _ Hv Hok Eb) as ((groups & Hr & _ & Hg) & _ & H1 & _ & H2).
  split; [exact Hlen|]. split; [exact H1|]. split; [exact H2|].
  assert (∃ sc, cfg_Secondaries (apply_defaults ex_two_fs) !! 1 = Some sc ∧ site_Name sc = "ap" ∧
    length (site_names (apply_defaults ex_two_fs) sc) = 3) as (sc & Hsc & Hn & Hl)
    by (eexists; split; [reflexivity|vm_compute; split; reflexivity]).
  destruct (Hg 1 sc Hsc) as (group & own & Hgi & Hnames & Hq & Hne & _). rewrite Hn in Hq.
  exists groups, group, own. rewrite <- Hl, <- Hnames, length_fmap. split_and!; [exact Hr|exact Hgi|exact Hq|exact Hne|reflexivity].
Defined.
