(* ===== verification/Receiver.v ===== *)
(** * The receiver: from a webhook to a fetch

    internal/webhook's server, its trigger manager and the trigger built by
    cmd/syncctl run together: a request that the handler accepts becomes a
    goroutine, the goroutine is a call of the manager's [Trigger], and the
    call ends in [FetchProject].  The machine here composes the
    definitions of Webhook.v, Build.v and GitFetch.v; its runs are shown
    to be runs of the server and of the manager, whose invariants it
    inherits. *)
From Stdlib Require Import Ascii ZArith Lia.
From stdpp Require Import prelude strings gmap list fin_maps.
From S2P Require Import Prelude World GoStrings Sha256 ProjectPath SshExec ConfigData Config Reconciler Webhook.
From S2P Require Import LocalCmd GitFetch Build.
Open Scope go_scope.

(** ** The machine *)

(** Where the goroutine of an accepted request is. *)
Inductive goroutine :=
| Spawned                        (** before the first critical section of [Trigger] *)
| Calling (id : nat)             (** in the [select] or in [m.trigger] *)
| Leaving (id : nat) (r : err).  (** the result is known, the deferred functions run *)

Definition call_of (g : goroutine) : option nat :=
  match g with Spawned => None | Calling id | Leaving id _ => Some id end.

Record receiver := mkReceiver {
  rx_server : server;
  rx_manager : manager;
  rx_gos : list goroutine;       (** beside [sv_jobs] of the server *)
  rx_hist : history;
  rx_seen : list request;        (** the requests handled so far *)
  rx_runs : list nat;            (** the calls that reached [m.trigger] *)
}.

Definition debounce_delay : Z := 2 * Second.

(** The metrics that the goroutine records. *)
Definition job_metrics (r : err) : list event :=
  match r with
  | Ok _ => [EvDuration "webhook_trigger" "ok"; EvLastSync "webhook_trigger"]
  | Err _ => [EvDuration "webhook_trigger" "error"]
  end.

Section receiver.
Context (json_path : gostr → res gostr) (E : Env) (runner : option LocalRunner).
Context (fetcher : option gf_reconciler).

Definition set_server (sv : server) (s : receiver) : receiver :=
  mkReceiver sv (rx_manager s) (rx_gos s) (rx_hist s) (rx_seen s) (rx_runs s).
Definition set_manager (m : manager) (s : receiver) : receiver :=
  mkReceiver (rx_server s) m (rx_gos s) (rx_hist s) (rx_seen s) (rx_runs s).
Definition set_go (i : nat) (g : goroutine) (s : receiver) : receiver :=
  mkReceiver (rx_server s) (rx_manager s) (<[i := g]> (rx_gos s)) (rx_hist s) (rx_seen s) (rx_runs s).
Definition add_events (evs : list event) (s : receiver) : receiver :=
  mkReceiver (rx_server s) (rx_manager s) (rx_gos s) (rx_hist s ++ evs) (rx_seen s) (rx_runs s).

(** The drifts that a request adds to those that the server has counted. *)
Definition drift_events (before after : server) : list event :=
  EvDrift "webhook" <$> drop (length (sv_drift before)) (sv_drift after).

(** A request: its route, a goroutine for each job the handler adds, and the
    drifts it counts. *)
Definition receive (path : gostr) (req : request) (s : receiver) : option Z * receiver :=
  let '(code, sv) := ServeHTTP json_path path req (rx_server s) in
  (code, mkReceiver sv (rx_manager s)
           (rx_gos s ++ replicate (length (sv_jobs sv) - length (sv_jobs (rx_server s))) Spawned)
           (rx_hist s ++ drift_events (rx_server s) sv) (rx_seen s ++ [req]) (rx_runs s)).

(** The call [id], whose timer has fired, runs the trigger. *)
Definition run_trigger (i id : nat) (c : call) (s : receiver) : receiver :=
  let '(r, h) := trigger E runner fetcher (c_project c) (rx_hist s) in
  mkReceiver (rx_server s) (update id (set_phase Returned c) (rx_manager s))
    (<[i := Leaving id r]> (rx_gos s)) h (rx_seen s) (rx_runs s ++ [id]).

(** The goroutine is over: its metrics, then its place in the semaphore. *)
Definition finish_go (i : nat) (r : err) (s : receiver) : receiver :=
  mkReceiver (finish_job i (is_Ok r) (rx_server s)) (rx_manager s) (delete i (rx_gos s))
    (rx_hist s ++ job_metrics r) (rx_seen s) (rx_runs s).

(** The steps of the goroutines. *)
Inductive internal_step : receiver → receiver → Prop :=
| go_enter i j s : rx_gos s !! i = Some Spawned → sv_jobs (rx_server s) !! i = Some j →
    internal_step s (set_go i (Calling (Webhook.next (rx_manager s)))
                       (set_manager (trigger_enter (job_project j) (rx_manager s)) s))
| go_preempted i id c e s : rx_gos s !! i = Some (Calling id) → calls (rx_manager s) !! id = Some c →
    c_phase c = Waiting → c_cancelled c = true →
    internal_step s (set_go i (Leaving id (Err e))
      (add_events [EvSleep debounce_delay] (set_manager (update id (set_phase Returned c) (rx_manager s)) s)))
| go_timer i id c s : rx_gos s !! i = Some (Calling id) → calls (rx_manager s) !! id = Some c →
    c_phase c = Waiting →
    internal_step s (add_events [EvSleep debounce_delay]
      (set_manager (update id (set_phase Running c) (rx_manager s)) s))
| go_trigger i id c s : rx_gos s !! i = Some (Calling id) → calls (rx_manager s) !! id = Some c →
    c_phase c = Running → internal_step s (run_trigger i id c s)
| go_cleanup i id r c s : rx_gos s !! i = Some (Leaving id r) → calls (rx_manager s) !! id = Some c →
    c_phase c = Returned → internal_step s (set_manager (trigger_cleanup id c (rx_manager s)) s)
| go_release i id r c s : rx_gos s !! i = Some (Leaving id r) → calls (rx_manager s) !! id = Some c →
    c_phase c = Unlinked →
    internal_step s (set_manager (update id (set_phase Done (cancel_call c)) (rx_manager s)) s)
| go_finish i id r c s : rx_gos s !! i = Some (Leaving id r) → calls (rx_manager s) !! id = Some c →
    c_phase c = Done → internal_step s (finish_go i r s).

(** A job's context ends: its five minutes are over, or the server stops. *)
Inductive context_ends : receiver → receiver → Prop :=
| ctx_end id c s : calls (rx_manager s) !! id = Some c →
    context_ends s (set_manager (update id (cancel_call c) (rx_manager s)) s).

(** The steps while no context ends, and all steps. *)
Inductive quiet_step (s : receiver) : receiver → Prop :=
| quiet_request path req : quiet_step s (receive path req s).2
| quiet_internal s' : internal_step s s' → quiet_step s s'.

Inductive receiver_step (s : receiver) : receiver → Prop :=
| rx_quiet s' : quiet_step s s' → receiver_step s s'
| rx_ctx s' : context_ends s s' → receiver_step s s'.
End receiver.

(** The receiver that [buildWebhookServer] returns. *)
Definition receiver_init (w : webhook_server) : receiver :=
  mkReceiver (ws_server w) NewTriggerManager [] [] [] [].

(** ** The parts of the machine *)

(** What a goroutine's stage says of its call. *)
Definition fits (g : goroutine) (ph : phase) : Prop :=
  match g with
  | Spawned => False
  | Calling _ => ph = Waiting ∨ ph = Running
  | Leaving _ _ => ph = Returned ∨ ph = Unlinked ∨ ph = Done
  end.

(** Goroutines, jobs and calls correspond. *)
Record linked (s : receiver) : Prop := {
  lk_len : length (rx_gos s) = length (sv_jobs (rx_server s));
  lk_call : ∀ i g id, rx_gos s !! i = Some g → call_of g = Some id →
    ∃ c j, calls (rx_manager s) !! id = Some c ∧ sv_jobs (rx_server s) !! i = Some j ∧
      c_project c = job_project j ∧ fits g (c_phase c);
  lk_inj : ∀ i k g g' id, rx_gos s !! i = Some g → rx_gos s !! k = Some g' →
    call_of g = Some id → call_of g' = Some id → i = k;
  lk_back : ∀ id c, calls (rx_manager s) !! id = Some c → c_phase c ≠ Done →
    ∃ i g, rx_gos s !! i = Some g ∧ call_of g = Some id;
}.

(** [delete i] moves what is behind [i] one place forward. *)
Definition shift (i k : nat) : nat := if decide (k < i) then k else S k.

Lemma lookup_delete_shift {A} (l : list A) i k : delete i l !! k = l !! shift i k.
Proof. unfold shift. case_decide; [by apply list_lookup_delete_lt|apply list_lookup_delete_ge; lia]. Qed.

Lemma shift_inj i k k' : shift i k = shift i k' → k = k'.
Proof. unfold shift. repeat case_decide; lia. Qed.

Lemma shift_onto i k : k ≠ i → ∃ k', shift i k' = k.
Proof.
  intros Hk. exists (if decide (k < i) then k else pred k). unfold shift. repeat case_decide; lia.
Qed.

(** One goroutine and its call move on. *)
Lemma linked_move s s' i g g' id c c' :
  linked s → rx_gos s !! i = Some g → call_of g = Some id → call_of g' = Some id →
  calls (rx_manager s) !! id = Some c → c_project c' = c_project c → fits g' (c_phase c') →
  sv_jobs (rx_server s') = sv_jobs (rx_server s) → rx_gos s' = <[i := g']> (rx_gos s) →
  calls (rx_manager s') = <[id := c']> (calls (rx_manager s)) → linked s'.
Proof.
  intros [L1 L2 L3 L4] Hi Hg Hg' Hc Hp Hf Hj Hgos Hcalls.
  pose proof (lookup_lt_Some _ _ _ Hi) as Hlt.
  assert (∀ k x, rx_gos s' !! k = Some x → ∃ y, rx_gos s !! k = Some y ∧ call_of y = call_of x ∧ (k = i ∧ x = g' ∨ k ≠ i ∧ x = y)) as Hback.
  { intros k x. rewrite Hgos, list_lookup_insert_Some. intros [(<- & <- & _)|[Hne Hx]].
    - exists g. rewrite Hg, Hg'. auto.
    - exists x. auto. }
  split.
  - by rewrite Hgos, length_insert, Hj.
  - intros k x n Hx Hn. destruct (Hback k x Hx) as (y & Hy & Hyx & Hcase). rewrite Hj, Hcalls.
    rewrite Hn in Hyx. destruct (L2 k y n Hy Hyx) as (d & j & Hd & Hjk & Hdp & Hdf).
    destruct Hcase as [[-> ->]|[Hne ->]].
    + simplify_eq. exists c', j. rewrite lookup_insert_eq. by rewrite Hp.
    + exists d, j. rewrite lookup_insert_ne; [done|]. intros ->. apply Hne. by eapply L3.
  - intros k k' x x' n Hx Hx' Hn Hn'.
    destruct (Hback k x Hx) as (y & Hy & Hyx & _), (Hback k' x' Hx') as (y' & Hy' & Hyx' & _).
    rewrite Hn in Hyx. rewrite Hn' in Hyx'. by eapply L3.
  - intros n d. rewrite Hcalls, lookup_insert_Some. intros [[<- <-]|[Hne Hd]] Hph.
    + exists i, g'. by rewrite Hgos, list_lookup_insert_eq.
    + destruct (L4 n d Hd Hph) as (k & x & Hx & Hxn). exists k, x. split; [|done].
      rewrite Hgos, list_lookup_insert_ne; [done|]. intros ->. rewrite Hi in Hx. simplify_eq.
Qed.

(** A call changes in place. *)
Lemma linked_touch s s' id c c' :
  linked s → calls (rx_manager s) !! id = Some c → c_project c' = c_project c → c_phase c' = c_phase c →
  sv_jobs (rx_server s') = sv_jobs (rx_server s) → rx_gos s' = rx_gos s →
  calls (rx_manager s') = <[id := c']> (calls (rx_manager s)) → linked s'.
Proof.
  intros [L1 L2 L3 L4] Hc Hp Hph Hj Hgos Hcalls. split; rewrite ?Hgos, ?Hj, ?Hcalls; try done.
  - intros k x n Hx Hn. destruct (L2 k x n Hx Hn) as (d & j & Hd & Hjk & Hdp & Hdf).
    destruct (decide (id = n)) as [<-|Hne].
    + simplify_eq. exists c', j. by rewrite lookup_insert_eq, Hp, Hph.
    + exists d, j. by rewrite lookup_insert_ne.
  - intros n d Hn Hd. revert Hn. rewrite lookup_insert_Some.
    intros [[<- <-]|[_ Hn]]; [apply (L4 id c Hc); congruence|by apply (L4 n d)].
Qed.

(** The calls after a new one has entered. *)
Lemma enter_calls p m id : id ≠ Webhook.next m →
  calls (trigger_enter p m) !! id =
  (if bool_decide (pending m !! p = Some id) then cancel_call else λ c, c) <$> calls m !! id.
Proof.
  intros Hne. unfold trigger_enter. cbn [calls]. rewrite lookup_insert_ne by done.
  destruct (pending m !! p) as [prev|] eqn:Ep.
  - destruct (decide (prev = id)) as [->|Hn].
    + by rewrite lookup_alter_eq, bool_decide_eq_true_2.
    + rewrite lookup_alter_ne, bool_decide_eq_false_2 by congruence. by destruct (calls m !! id).
  - rewrite bool_decide_eq_false_2 by done. by destruct (calls m !! id).
Qed.

Lemma enter_new p m : calls (trigger_enter p m) !! Webhook.next m = Some (mkCall p Waiting false).
Proof. unfold trigger_enter. cbn [calls]. by rewrite lookup_insert_eq. Qed.

(** A call of the new manager is the new one or an old one, in its phase. *)
Lemma enter_inv p m id c : calls (trigger_enter p m) !! id = Some c →
  (id = Webhook.next m ∧ c = mkCall p Waiting false) ∨
  (id ≠ Webhook.next m ∧ ∃ d, calls m !! id = Some d ∧ c_project c = c_project d ∧ c_phase c = c_phase d ∧
     (c = d ∨ pending m !! p = Some id)).
Proof.
  destruct (decide (id = Webhook.next m)) as [->|Hne].
  { rewrite enter_new. intros [= <-]. by left. }
  rewrite enter_calls by done. intros (d & Hd & ->)%fmap_Some. right. split; [done|]. exists d.
  case_bool_decide; auto.
Qed.

Lemma enter_old p m id d : id ≠ Webhook.next m → calls m !! id = Some d →
  ∃ c, calls (trigger_enter p m) !! id = Some c ∧ c_project c = c_project d ∧ c_phase c = c_phase d.
Proof.
  intros Hne Hd. rewrite enter_calls, Hd by done. cbn. eexists. split; [done|]. by case_bool_decide.
Qed.

Lemma linked_enter s i j : linked s → manager_ok (rx_manager s) →
  rx_gos s !! i = Some Spawned → sv_jobs (rx_server s) !! i = Some j →
  linked (set_go i (Calling (Webhook.next (rx_manager s)))
            (set_manager (trigger_enter (job_project j) (rx_manager s)) s)).
Proof.
  intros [L1 L2 L3 L4] [Hfresh _ _] Hi Hj.
  set (nx := Webhook.next (rx_manager s)) in *. pose proof (lookup_lt_Some _ _ _ Hi) as Hlt.
  assert (∀ id c, calls (rx_manager s) !! id = Some c → id ≠ nx) as Hold.
  { intros id c Hc ->. specialize (Hfresh nx ltac:(by exists c)). unfold nx in Hfresh. lia. }
  assert (∀ k g n, <[i := Calling nx]> (rx_gos s) !! k = Some g → call_of g = Some n →
    (k = i ∧ g = Calling nx ∧ n = nx) ∨ (k ≠ i ∧ rx_gos s !! k = Some g ∧ n ≠ nx)) as Hback.
  { intros k g n. rewrite list_lookup_insert_Some. intros [(<- & <- & _)|[Hne Hg]] Hn.
    - injection Hn as <-. by left.
    - right. split; [done|]. split; [done|]. destruct (L2 k g n Hg Hn) as (c & _ & Hc & _). by eapply Hold. }
  split; cbn [set_go set_manager rx_gos rx_server rx_manager].
  - by rewrite length_insert.
  - intros k g n Hg Hn. destruct (Hback k g n Hg Hn) as [(-> & -> & ->)|(Hne & Hg' & Hnx)].
    + exists (mkCall (job_project j) Waiting false), j. unfold nx. rewrite enter_new. cbn. auto.
    + destruct (L2 k g n Hg' Hn) as (c & j' & Hc & Hj' & Hp & Hf).
      destruct (enter_old (job_project j) _ n c Hnx Hc) as (c' & Hc' & Hp' & Hph').
      exists c', j'. by rewrite Hp', Hph'.
  - intros k k' g g' n Hk Hk' Hn Hn'.
    destruct (Hback _ _ _ Hk Hn) as [(-> & -> & Hnx)|(Hne & Hg' & Hnx)],
      (Hback _ _ _ Hk' Hn') as [(-> & -> & Hnx')|(Hne' & Hg'' & Hnx')]; try done. by eapply L3.
  - intros n c [(-> & ->)|(Hne & d & Hd & _ & Hph & _)]%enter_inv Hp.
    + exists i, (Calling nx). by rewrite list_lookup_insert_eq.
    + rewrite Hph in Hp. destruct (L4 n d Hd Hp) as (k & g & Hk & Hn). exists k, g. split; [|done].
      rewrite list_lookup_insert_ne; [done|]. intros ->. rewrite Hi in Hk. by injection Hk as <-.
Qed.

Lemma linked_finish s i id r c : linked s → rx_gos s !! i = Some (Leaving id r) →
  calls (rx_manager s) !! id = Some c → c_phase c = Done → linked (finish_go i r s).
Proof.
  intros [L1 L2 L3 L4] Hi Hc Hd.
  split; cbn [finish_go finish_job rx_gos rx_server rx_manager sv_jobs].
  - destruct (lookup_lt_is_Some_2 (sv_jobs (rx_server s)) i) as [j Hj].
    { rewrite <- L1. by eapply lookup_lt_Some. }
    rewrite !length_delete by by eexists. by rewrite L1.
  - intros k g n. rewrite !lookup_delete_shift. apply L2.
  - intros k k' g g' n. rewrite !lookup_delete_shift. intros H1 H2 H3 H4.
    eapply shift_inj, L3; [exact H1|exact H2|exact H3|exact H4].
  - intros n d Hn Hp. destruct (L4 n d Hn Hp) as (k & g & Hk & Hg).
    destruct (shift_onto i k) as [k' <-].
    + intros ->. rewrite Hi in Hk. injection Hk as <-. injection Hg as <-. congruence.
    + exists k', g. by rewrite lookup_delete_shift.
Qed.

Section composed.
Context (json_path : gostr → res gostr) (E : Env) (fetcher : option gf_reconciler).

(** A request adds one spawned goroutine, or none. *)
Lemma receive_gos url req s :
  let s' := (receive json_path url req s).2 in
  rtc (server_step json_path) (rx_server s) (rx_server s') ∧ rx_manager s' = rx_manager s ∧
  rx_hist s' = rx_hist s ++ drift_events (rx_server s) (rx_server s') ∧ rx_runs s' = rx_runs s ∧ rx_seen s' = rx_seen s ++ [req] ∧
  ((sv_jobs (rx_server s') = sv_jobs (rx_server s) ∧ rx_gos s' = rx_gos s) ∨
   (∃ body path, url = "/webhook" ∧ authentic (rx_server s) req ∧ req_Body req = Ok body ∧
      json_path (take body_limit body) = Ok path ∧ Validate path = None ∧
      sv_jobs (rx_server s') = sv_jobs (rx_server s) ++ [mkJob path (req_Event req)] ∧
      rx_gos s' = rx_gos s ++ [Spawned])).
Proof.
  cbv zeta. unfold receive. destruct (ServeHTTP json_path url req (rx_server s)) as [code sv] eqn:Eh.
  cbn [snd rx_server rx_manager rx_hist rx_runs rx_gos rx_seen].
  apply ServeHTTP_runs in Eh as [Hrun Hcase]. split; [done|]. split_and!; try done.
  destruct Hcase as [->|(-> & c & _ & Eh)]; [left; by rewrite Nat.sub_diag, app_nil_r|].
  apply handleWebhook_jobs in Eh as (_ & [[Hj _]|(body & path & Ha & _ & Hb & Hp & _ & Hv & _ & _ & Hj)]).
  - left. by rewrite Hj, Nat.sub_diag, app_nil_r.
  - right. exists body, path. rewrite Hj, length_app. cbn [length].
    by replace (length (sv_jobs (rx_server s)) + 1 - length (sv_jobs (rx_server s))) with 1 by lia.
Qed.

Lemma linked_receive url req s : linked s → linked (receive json_path url req s).2.
Proof.
  intros [L1 L2 L3 L4]. destruct (receive_gos url req s) as (_ & Hm & _ & _ & _ & Hcase).
  destruct Hcase as [[Hj Hg]|(body & path & _ & _ & _ & _ & _ & Hj & Hg)].
  - split; rewrite ?Hm, ?Hj, ?Hg; done.
  - assert (∀ k g n, (rx_gos s ++ [Spawned]) !! k = Some g → call_of g = Some n → rx_gos s !! k = Some g) as Hold.
    { intros k g n [Hk|[_ Hk]]%lookup_app_Some Hn; [done|].
      apply list_lookup_singleton_Some in Hk as [_ <-]. done. }
    split; rewrite ?Hm, ?Hj, ?Hg.
    + by rewrite !length_app, L1.
    + intros k g n Hk Hn. destruct (L2 k g n (Hold k g n Hk Hn) Hn) as (c & j & Hc & Hjk & ?).
      exists c, j. split; [done|]. split; [by apply lookup_app_l_Some|done].
    + intros k k' g g' n Hk Hk' Hn Hn'. eapply L3; eauto.
    + intros n c Hn Hp. destruct (L4 n c Hn Hp) as (k & g & Hk & ?). exists k, g.
      split; [by apply lookup_app_l_Some|done].
Qed.

(** What the components guarantee, together. *)
Record receiver_ok (dg : digest) (s : receiver) : Prop := {
  ro_server : server_ok dg (rx_server s);
  ro_manager : manager_ok (rx_manager s);
  ro_linked : linked s;
}.

Lemma run_trigger_parts runner i id c s :
  rx_server (run_trigger E runner fetcher i id c s) = rx_server s ∧
  rx_manager (run_trigger E runner fetcher i id c s) = update id (set_phase Returned c) (rx_manager s) ∧
  (∃ r, rx_gos (run_trigger E runner fetcher i id c s) = <[i := Leaving id r]> (rx_gos s)) ∧
  rx_seen (run_trigger E runner fetcher i id c s) = rx_seen s ∧
  rx_runs (run_trigger E runner fetcher i id c s) = rx_runs s ++ [id].
Proof. unfold run_trigger. destruct (trigger _ _ _ _ _) as [r h]. cbn. split_and!; try done. by exists r. Qed.

(** Simulation: a step of the receiver is at most one step of the server
    and at most one of the manager. *)
Lemma receiver_simulates runner s s' : linked s → receiver_step json_path E runner fetcher s s' →
  rtc (server_step json_path) (rx_server s) (rx_server s') ∧ rtc manager_step (rx_manager s) (rx_manager s').
Proof.
  intros Hl [s1 Hq|s1 Hc].
  - destruct Hq as [url req|s1 Hi].
    + destruct (receive_gos url req s) as (Hs & Hm & _). split; [done|]. rewrite Hm. apply rtc_refl.
    + destruct Hi as [i j s Hi Hj|i id c e s Hi Hc Hp Hx|i id c s Hi Hc Hp|i id c s Hi Hc Hp
                     |i id r c s Hi Hc Hp|i id r c s Hi Hc Hp|i id r c s Hi Hc Hp];
        try (split; [apply rtc_refl|]; apply rtc_once; by constructor).
      * destruct (run_trigger_parts runner i id c s) as (-> & -> & _). split; [apply rtc_refl|].
        apply rtc_once. by apply m_return.
      * split; [|apply rtc_refl]. apply rtc_once. apply step_finish. rewrite <- (lk_len _ Hl).
        by eapply lookup_lt_Some.
  - destruct Hc as [id c s Hc]. split; [apply rtc_refl|]. apply rtc_once. by apply m_parent_done.
Qed.

Lemma linked_step runner s s' : manager_ok (rx_manager s) → linked s →
  receiver_step json_path E runner fetcher s s' → linked s'.
Proof.
  intros Hm Hl [s1 Hq|s1 Hc].
  - destruct Hq as [url req|s1 Hi]; [by apply linked_receive|].
    destruct Hi as [i j s Hi Hj|i id c e s Hi Hc Hp Hx|i id c s Hi Hc Hp|i id c s Hi Hc Hp
                   |i id r c s Hi Hc Hp|i id r c s Hi Hc Hp|i id r c s Hi Hc Hp].
    + by apply linked_enter.
    + eapply (linked_move _ _ i _ (Leaving id (Err e)) id c (set_phase Returned c)); try done. by left.
    + eapply (linked_move _ _ i _ (Calling id) id c (set_phase Running c)); try done; [by right|].
      by rewrite list_insert_id.
    + destruct (run_trigger_parts runner i id c s) as (H1 & H2 & (r & H3) & _).
      eapply (linked_move _ _ i _ (Leaving id r) id c (set_phase Returned c)); try done.
      * by left.
      * by rewrite H1.
      * by rewrite H2.
    + eapply (linked_move _ _ i _ (Leaving id r) id c (set_phase Unlinked c)); try done; [by right; left|].
      by rewrite list_insert_id.
    + eapply (linked_move _ _ i _ (Leaving id r) id c (set_phase Done (cancel_call c))); try done; [by right; right|].
      by rewrite list_insert_id.
    + by eapply linked_finish.
  - destruct Hc as [id c s Hc]. by eapply (linked_touch _ _ id c (cancel_call c)).
Qed.

Lemma receiver_step_ok runner dg s s' :
  receiver_step json_path E runner fetcher s s' → receiver_ok dg s → receiver_ok dg s'.
Proof.
  intros Hs [H1 H2 H3]. destruct (receiver_simulates _ _ _ H3 Hs) as [Hsv Hmg]. split.
  - by eapply rtc_server_ok.
  - by eapply rtc_manager_ok.
  - by eapply linked_step.
Qed.

(** ** What a webhook may do *)

(** A request among [seen] that carries the secret, reads, and names [path]. *)
Definition served (secret : gostr) (seen : list request) (path : gostr) : Prop :=
  ∃ req body, req ∈ seen ∧ req_Method req = "POST" ∧ Sum256 (req_Token req) = Sum256 secret ∧
    req_Body req = Ok body ∧ json_path (take body_limit body) = Ok path ∧ valid_path path.

Lemma served_mono secret seen req path : served secret seen path → served secret (seen ++ [req]) path.
Proof. intros (r & body & Hr & H). exists r, body. split; [|done]. rewrite elem_of_app. by left. Qed.

(** The receiver's own events, and those of a served project. *)
Definition own_metric (e : event) : Prop := (∃ r, e ∈ job_metrics r) ∨ ∃ severity, e = EvDrift "webhook" severity.

Definition rx_event (secret : gostr) (seen : list request) (e : event) : Prop :=
  e = EvSleep debounce_delay ∨ own_metric e ∨
  ∃ gf path, fetcher = Some gf ∧ served secret seen path ∧ project_event gf path e.

Record origin (secret : gostr) (s : receiver) : Prop := {
  or_jobs : ∀ i j, sv_jobs (rx_server s) !! i = Some j → served secret (rx_seen s) (job_project j);
  or_calls : ∀ id c, calls (rx_manager s) !! id = Some c → served secret (rx_seen s) (c_project c);
  or_hist : Forall (rx_event secret (rx_seen s)) (rx_hist s);
}.

Lemma rx_event_mono secret seen req e : rx_event secret seen e → rx_event secret (seen ++ [req]) e.
Proof.
  intros [H|[H|(gf & path & Hf & Hs & He)]]; [by left|by right; left|].
  right. right. exists gf, path. split; [done|]. split; [by apply served_mono|done].
Qed.

(** Events that reach other hosts or processes. *)
Definition acts (e : event) : Prop :=
  match e with EvExec _ _ _ _ | EvGet _ _ | EvSQL _ _ _ => True | _ => False end.

Lemma own_metric_quiet e : own_metric e → observes [] e ∧ ¬ acts e.
Proof.
  intros [([a|err] & Hr)|(sev & ->)]; [..|by split; [|intros []]]; cbn in Hr;
    rewrite ?elem_of_cons, elem_of_nil in Hr; destruct_or!; subst; (split; [done|by intros []]).
Qed.

Lemma rx_event_acts secret seen e : rx_event secret seen e → acts e →
  ∃ gf path, fetcher = Some gf ∧ served secret seen path ∧ project_event gf path e.
Proof.
  by intros [->|[[_ Hq]%own_metric_quiet|H]].
Qed.

(** The trigger acts for its project only. *)
Lemma trigger_adds path h r h' : trigger E None fetcher path h = (r, h') →
  adds (λ e, ∃ gf, fetcher = Some gf ∧ project_event gf path e) h h'.
Proof.
  unfold trigger. destruct fetcher as [gf|] eqn:Ef; [|by intros [= _ <-]].
  intros [[_ ->]|Ha]%FetchProject_adds; [done|]. eapply adds_weaken; [|exact Ha]. intros e He. by exists gf.
Qed.

(** The calls keep their projects. *)
Lemma calls_projects (P : gostr → Prop) id c c' (cs : gmap nat call) :
  (∀ n d, cs !! n = Some d → P (c_project d)) → cs !! id = Some c → c_project c' = c_project c →
  ∀ n d, <[id := c']> cs !! n = Some d → P (c_project d).
Proof. intros Hall Hc Hp n d [[<- <-]|[_ Hd]]%lookup_insert_Some; [rewrite Hp|]; by eapply Hall. Qed.

Lemma origin_internal secret s s' : origin secret s → internal_step E None fetcher s s' → origin secret s'.
Proof.
  intros [O1 O2 O3] Hi. assert (rx_event secret (rx_seen s) (EvSleep debounce_delay)) as Hsl by by left.
  destruct Hi as [i j s Hi Hj|i id c e s Hi Hc Hp Hx|i id c s Hi Hc Hp|i id c s Hi Hc Hp
                 |i id r c s Hi Hc Hp|i id r c s Hi Hc Hp|i id r c s Hi Hc Hp].
  - split; [done| |done]. cbn [set_go set_manager rx_manager rx_seen].
    intros n d [(_ & ->)|(_ & d' & Hd & Hp & _)]%enter_inv; [by eapply O1|]. rewrite Hp. by eapply O2.
  - split; [done| |apply Forall_app; split; [done|by constructor]]. by apply (calls_projects _ id c).
  - split; [done| |apply Forall_app; split; [done|by constructor]]. by apply (calls_projects _ id c).
  - unfold run_trigger. destruct (trigger _ _ _ _ _) as [r h] eqn:Et.
    split; [done|by apply (calls_projects _ id c)|]. cbn [rx_hist rx_seen].
    destruct (trigger_adds _ _ _ _ Et) as (evs & -> & Hevs). apply Forall_app. split; [done|].
    eapply Forall_impl; [exact Hevs|]. intros e (gf & Hf & He). right. right.
    exists gf, (c_project c). split; [done|]. split; [by eapply O2|done].
  - split; [done|by apply (calls_projects _ id c)|done].
  - split; [done|by apply (calls_projects _ id c)|done].
  - split; [|done|].
    + cbn [finish_go finish_job rx_server sv_jobs rx_seen]. intros k j. rewrite lookup_delete_shift. apply O1.
    + apply Forall_app. split; [done|]. apply Forall_forall. intros e He. right. left. left. by exists r.
Qed.

Lemma origin_receive secret url req s : server_ok (Sum256 secret) (rx_server s) → origin secret s →
  origin secret (receive json_path url req s).2.
Proof.
  intros (Hdg & _) [O1 O2 O3]. destruct (receive_gos url req s) as (_ & Hm & Hh & _ & Hseen & Hcase).
  split; rewrite ?Hm, ?Hh, ?Hseen.
  - intros i j Hj. destruct Hcase as [[Heq _]|(body & path & _ & (Hpost & Htok) & Hb & Hp & Hv & Heq & _)];
      rewrite Heq in Hj; [by apply served_mono, (O1 i)|].
    apply lookup_app_Some in Hj as [Hj|[_ Hj]]; [by apply served_mono, (O1 i)|].
    apply list_lookup_singleton_Some in Hj as [_ <-]. exists req, body. rewrite <- Hdg.
    split; [rewrite elem_of_app; right; left|]. split_and!; try done. by apply Validate_None.
  - intros id c Hc. by apply served_mono, (O2 id).
  - apply Forall_app. split; [eapply Forall_impl; [exact O3|]; intros e; apply rx_event_mono|].
    apply Forall_forall. intros e (sev & -> & _)%list_elem_of_fmap. right. left. right. by exists sev.
Qed.

Lemma receiver_run_ok secret s s' :
  rtc (receiver_step json_path E None fetcher) s s' → receiver_ok (Sum256 secret) s → origin secret s →
  receiver_ok (Sum256 secret) s' ∧ origin secret s'.
Proof.
  induction 1 as [s|s s1 s2 H12 _ IH]; intros Hok Ho; [done|].
  apply IH; [by eapply receiver_step_ok|]. destruct Hok as [H1 H2 H3].
  destruct H12 as [s1 [url req|s1' Hi]|s1 Hcx].
  - by apply origin_receive.
  - by eapply origin_internal.
  - destruct Ho as [O1 O2 O3], Hcx as [id c s Hc]. split; [done|by apply (calls_projects _ id c)|done].
Qed.
End composed.

(** ** The goroutines end *)

Section ends.
Context (E : Env) (runner : option LocalRunner) (fetcher : option gf_reconciler).

(** The steps a goroutine still has to make. *)
Definition left_of (cs : gmap nat call) (g : goroutine) : nat :=
  match call_of g with
  | None => 6
  | Some id =>
      match c_phase <$> cs !! id with
      | Some Waiting => 5 | Some Running => 4 | Some Returned => 3 | Some Unlinked => 2 | _ => 1
      end
  end.

Definition work_left (s : receiver) : nat := sum_list_with (left_of (calls (rx_manager s))) (rx_gos s).

Lemma sum_list_at {A} (f f' : A → nat) l i x y : l !! i = Some x →
  (∀ k z, k ≠ i → l !! k = Some z → f' z = f z) →
  sum_list_with f' (<[i := y]> l) + f x = sum_list_with f l + f' y ∧
  sum_list_with f' (delete i l) + f x = sum_list_with f l.
Proof.
  revert i. induction l as [|a l IH]; intros [|i] Hi Hf; try done.
  - injection Hi as ->. cbn. assert (sum_list_with f' l = sum_list_with f l) as ->; [|lia].
    clear -Hf. assert (∀ z, z ∈ l → f' z = f z) as Hall.
    { intros z [k Hk]%list_elem_of_lookup. by apply (Hf (S k)). }
    clear Hf. induction l as [|b l IH]; [done|]. cbn. rewrite IH by (intros; apply Hall; by right).
    by rewrite (Hall b) by left.
  - destruct (IH i Hi) as [H1 H2]; [intros k z Hk Hz; apply (Hf (S k)); [lia|done]|].
    change (delete (S i) (a :: l)) with (a :: delete i l).
    change (<[S i:=y]> (a :: l)) with (a :: <[i:=y]> l). cbn [sum_list_with]. rewrite !(Hf 0 a) by done. lia.
Qed.

(** A goroutine whose call moves to a phase nearer to the end. *)
Lemma work_left_move s s' i g g' id c c' : linked s → rx_gos s !! i = Some g → call_of g = Some id →
  call_of g' = Some id → calls (rx_manager s) !! id = Some c → rx_gos s' = <[i := g']> (rx_gos s) →
  calls (rx_manager s') = <[id := c']> (calls (rx_manager s)) →
  left_of {[id := c']} g' < left_of {[id := c]} g → work_left s' < work_left s.
Proof.
  intros Hl Hi Hg Hg' Hc Hgos Hcalls Hlt. unfold work_left. rewrite Hgos, Hcalls.
  destruct (sum_list_at (left_of (calls (rx_manager s))) (left_of (<[id:=c']> (calls (rx_manager s)))) _ i g g' Hi) as [Hsum _].
  - intros k z Hk Hz. unfold left_of. destruct (call_of z) as [n|] eqn:En; [|done].
    rewrite lookup_insert_ne; [done|]. intros <-. apply Hk. by eapply (lk_inj _ Hl).
  - revert Hlt Hsum. unfold left_of. rewrite Hg, Hg', !lookup_singleton_eq, lookup_insert_eq, Hc. cbn. lia.
Qed.

(** Where a call's goroutine stands, from the phase of the call. *)
Ltac weigh Hp := unfold left_of; cbn [call_of]; rewrite !lookup_singleton_eq; cbn; rewrite Hp; lia.

Lemma internal_work s s' : linked s → manager_ok (rx_manager s) →
  internal_step E runner fetcher s s' → work_left s' < work_left s.
Proof.
  intros Hl Hm Hi.
  destruct Hi as [i j s Hi Hj|i id c e s Hi Hc Hp Hx|i id c s Hi Hc Hp|i id c s Hi Hc Hp
                 |i id r c s Hi Hc Hp|i id r c s Hi Hc Hp|i id r c s Hi Hc Hp].
  - unfold work_left. cbn [set_go set_manager rx_gos rx_manager].
    destruct (sum_list_at (left_of (calls (rx_manager s)))
      (left_of (calls (trigger_enter (job_project j) (rx_manager s)))) _ i Spawned
      (Calling (Webhook.next (rx_manager s))) Hi) as [Hsum _].
    + intros k z Hk Hz. unfold left_of. destruct (call_of z) as [n|] eqn:En; [|done].
      destruct (lk_call _ Hl k z n Hz En) as (c & _ & Hc & _).
      assert (n ≠ Webhook.next (rx_manager s)) as Hne.
      { pose proof (mo_fresh _ Hm n ltac:(by exists c)). lia. }
      destruct (enter_old (job_project j) _ n c Hne Hc) as (c' & Hc' & _ & Hph). rewrite Hc, Hc'. cbn. by rewrite Hph.
    + revert Hsum. unfold left_of. cbn [call_of]. rewrite enter_new. cbn. lia.
  - apply (work_left_move _ _ i (Calling id) (Leaving id (Err e)) id c (set_phase Returned c)); try done.
    weigh Hp.
  - apply (work_left_move _ _ i (Calling id) (Calling id) id c (set_phase Running c)); try done; [by rewrite list_insert_id|].
    weigh Hp.
  - destruct (run_trigger_parts E fetcher runner i id c s) as (_ & H2 & (r & H3) & _).
    apply (work_left_move _ _ i (Calling id) (Leaving id r) id c (set_phase Returned c)); try done; [by rewrite H2|].
    weigh Hp.
  - apply (work_left_move _ _ i (Leaving id r) (Leaving id r) id c (set_phase Unlinked c)); try done; [by rewrite list_insert_id|].
    weigh Hp.
  - apply (work_left_move _ _ i (Leaving id r) (Leaving id r) id c (set_phase Done (cancel_call c))); try done; [by rewrite list_insert_id|].
    weigh Hp.
  - unfold work_left. cbn [finish_go rx_gos rx_manager].
    destruct (sum_list_at (left_of (calls (rx_manager s))) (left_of (calls (rx_manager s))) _ i _ (Leaving id r) Hi ltac:(done)) as [_ Hsum].
    revert Hsum. unfold left_of at 2. cbn [call_of]. rewrite Hc. cbn. rewrite Hp. lia.
Qed.
End ends.

(** ** Debouncing loses nothing *)

Section coalescing.
Context (json_path : gostr → res gostr) (E : Env) (runner : option LocalRunner).
Context (fetcher : option gf_reconciler).

(** A later call for the project [p]. *)
Definition newer (m : manager) (id : nat) (p : gostr) : Prop :=
  ∃ id' c', id < id' ∧ calls m !! id' = Some c' ∧ c_project c' = p.

(** While no context ends, a call is cancelled only for a newer one, and
    it leaves without the trigger only if it is cancelled. *)
Record coalesced (s : receiver) : Prop := {
  co_cancelled : ∀ id c, calls (rx_manager s) !! id = Some c → c_cancelled c = true → c_phase c ≠ Done →
    newer (rx_manager s) id (c_project c);
  co_ran : ∀ id c, calls (rx_manager s) !! id = Some c → c_phase c ≠ Waiting → c_phase c ≠ Running →
    id ∈ rx_runs s ∨ newer (rx_manager s) id (c_project c);
}.

(** The calls are kept, with their projects. *)
Definition keeps (m m' : manager) : Prop :=
  (∀ id c, calls m !! id = Some c → ∃ c', calls m' !! id = Some c' ∧ c_project c' = c_project c) ∧
  Webhook.next m ≤ Webhook.next m'.

Lemma newer_keeps m m' id p : keeps m m' → newer m id p → newer m' id p.
Proof.
  intros [Hk _] (n & c & Hlt & Hc & <-). destruct (Hk n c Hc) as (c' & Hc' & Hp). by exists n, c'.
Qed.

Lemma keeps_insert m m' id c c' : calls m !! id = Some c → c_project c' = c_project c →
  calls m' = <[id := c']> (calls m) → Webhook.next m' = Webhook.next m → keeps m m'.
Proof.
  intros Hc Hp Hcs Hn. split; [|lia]. intros n d Hd. rewrite Hcs. destruct (decide (id = n)) as [<-|Hne].
  - simplify_eq. exists c'. by rewrite lookup_insert_eq.
  - exists d. by rewrite lookup_insert_ne.
Qed.

(** A call moves on: it was cancelled before if it is now, unless it is
    done, and if it leaves now then it ran or was cancelled. *)
Lemma coalesced_move s s' id c c' : coalesced s → calls (rx_manager s) !! id = Some c →
  c_project c' = c_project c → calls (rx_manager s') = <[id := c']> (calls (rx_manager s)) →
  Webhook.next (rx_manager s') = Webhook.next (rx_manager s) →
  (c_cancelled c' = true → c_phase c' ≠ Done → c_cancelled c = true ∧ c_phase c ≠ Done) →
  (c_phase c' ≠ Waiting → c_phase c' ≠ Running →
     (c_phase c ≠ Waiting ∧ c_phase c ≠ Running) ∨ (c_cancelled c = true ∧ c_phase c ≠ Done) ∨ id ∈ rx_runs s') →
  (∀ n, n ∈ rx_runs s → n ∈ rx_runs s') → coalesced s'.
Proof.
  intros [C1 C2] Hc Hp Hcs Hn Hx Hr Hruns. pose proof (keeps_insert _ _ _ _ _ Hc Hp Hcs Hn) as Hk.
  split; intros n d; rewrite Hcs, lookup_insert_Some.
  - intros [[<- <-]|[Hne Hd]] Hxd Hph; eapply newer_keeps; try exact Hk; [|by eapply C1].
    rewrite Hp. destruct (Hx Hxd Hph). by apply (C1 id c).
  - intros [[<- <-]|[Hne Hd]] H1 H2.
    + rewrite Hp. destruct (Hr H1 H2) as [[H3 H4]|[[H3 H4]|H3]]; [|right; eapply newer_keeps; [done|by apply C1]|by left].
      destruct (C2 id c Hc H3 H4) as [?|?]; [left; by apply Hruns|right; by eapply newer_keeps].
    + destruct (C2 n d Hd H1 H2) as [?|?]; [left; by apply Hruns|right; by eapply newer_keeps].
Qed.

Lemma keeps_enter p m : manager_ok m → keeps m (trigger_enter p m).
Proof.
  intros Hm. split; [|cbn; lia]. intros id c Hc.
  assert (id ≠ Webhook.next m) as Hne by (pose proof (mo_fresh _ Hm id ltac:(by exists c)); lia).
  destruct (enter_old p m id c Hne Hc) as (c' & Hc' & Hp & _). by exists c'.
Qed.

Lemma coalesced_enter s i g p : manager_ok (rx_manager s) → coalesced s →
  coalesced (set_go i g (set_manager (trigger_enter p (rx_manager s)) s)).
Proof.
  intros Hm [C1 C2]. pose proof (keeps_enter p _ Hm) as Hk.
  split; cbn [set_go set_manager rx_manager rx_runs]; intros id c [(-> & ->)|(Hne & d & Hd & Hp & Hph & Hcase)]%enter_inv.
  - done.
  - intros Hx Hph'. destruct Hcase as [->|Hown].
    + eapply newer_keeps; [done|]. by apply C1.
    + destruct (mo_pending _ Hm _ _ Hown) as (d' & Hd' & Hpd & _). simplify_eq.
      exists (Webhook.next (rx_manager s)), (mkCall (c_project c) Waiting false).
      pose proof (mo_fresh _ Hm id ltac:(by eexists)). rewrite <- Hp. by rewrite enter_new.
  - done.
  - rewrite Hph, Hp. intros H1 H2. destruct (C2 id d Hd H1 H2) as [?|?]; [by left|right; by eapply newer_keeps].
Qed.

Lemma quiet_keeps s s' : manager_ok (rx_manager s) → quiet_step json_path E runner fetcher s s' →
  keeps (rx_manager s) (rx_manager s').
Proof.
  intros Hm [url req|s1 Hi].
  - destruct (receive_gos json_path url req s) as (_ & -> & _). split; [eauto|done].
  - destruct Hi as [i j s Hi Hj|i id c e s Hi Hc Hp Hx|i id c s Hi Hc Hp|i id c s Hi Hc Hp
                   |i id r c s Hi Hc Hp|i id r c s Hi Hc Hp|i id r c s Hi Hc Hp].
    + by apply keeps_enter.
    + by apply (keeps_insert _ _ id c (set_phase Returned c)).
    + by apply (keeps_insert _ _ id c (set_phase Running c)).
    + destruct (run_trigger_parts E fetcher runner i id c s) as (_ & -> & _).
      by apply (keeps_insert _ _ id c (set_phase Returned c)).
    + by apply (keeps_insert _ _ id c (set_phase Unlinked c)).
    + by apply (keeps_insert _ _ id c (set_phase Done (cancel_call c))).
    + split; [eauto|done].
Qed.

Lemma quiet_coalesced s s' : manager_ok (rx_manager s) → coalesced s →
  quiet_step json_path E runner fetcher s s' → coalesced s'.
Proof.
  intros Hm Hco [url req|s1 Hi].
  - destruct (receive_gos json_path url req s) as (_ & Hmg & _ & Hr & _), Hco as [C1 C2].
    split; rewrite ?Hmg, ?Hr; done.
  - destruct Hi as [i j s Hi Hj|i id c e s Hi Hc Hp Hx|i id c s Hi Hc Hp|i id c s Hi Hc Hp
                   |i id r c s Hi Hc Hp|i id r c s Hi Hc Hp|i id r c s Hi Hc Hp].
    + by apply coalesced_enter.
    + apply (coalesced_move s _ id c (set_phase Returned c)); try done; cbn; rewrite ?Hp; auto.
    + apply (coalesced_move s _ id c (set_phase Running c)); try done; cbn; rewrite ?Hp; auto.
    + destruct (run_trigger_parts E fetcher runner i id c s) as (_ & H2 & _ & _ & H5).
      apply (coalesced_move s _ id c (set_phase Returned c)); rewrite ?H2, ?H5; try done.
      * cbn. rewrite Hp. auto.
      * intros _ _. right. right. rewrite elem_of_app. right. left.
      * intros n Hn. rewrite elem_of_app. by left.
    + apply (coalesced_move s _ id c (set_phase Unlinked c)); try done; cbn; rewrite ?Hp; auto.
    + apply (coalesced_move s _ id c (set_phase Done (cancel_call c))); try done; cbn; rewrite ?Hp; auto.
    + by destruct Hco.
Qed.

(** With no goroutine left, every call, or a later one of its project, ran
    the trigger. *)
Lemma settled s id c : linked s → manager_ok (rx_manager s) → coalesced s → rx_gos s = [] →
  calls (rx_manager s) !! id = Some c →
  ∃ id' c', id ≤ id' ∧ id' ∈ rx_runs s ∧ calls (rx_manager s) !! id' = Some c' ∧ c_project c' = c_project c.
Proof.
  intros Hl Hm Hco Hnil. remember (Webhook.next (rx_manager s) - id) as n eqn:Hn.
  revert id c Hn. induction (lt_wf n) as [n _ IH]. intros id c -> Hc.
  assert (c_phase c = Done) as Hd.
  { destruct (decide (c_phase c = Done)) as [?|Hne]; [done|].
    destruct (lk_back _ Hl id c Hc Hne) as (i & g & Hi & _). by rewrite Hnil in Hi. }
  destruct (co_ran _ Hco id c Hc) as [Hr|(n & d & Hlt & Hdn & Hp)]; rewrite ?Hd; try done.
  - by exists id, c.
  - pose proof (mo_fresh _ Hm n ltac:(by exists d)). pose proof (mo_fresh _ Hm id ltac:(by exists c)).
    destruct (IH (Webhook.next (rx_manager s) - n) ltac:(lia) n d eq_refl Hdn) as (id' & c' & Hle & Hrun & Hc' & Hp').
    exists id', c'. split; [lia|]. by rewrite Hp', Hp.
Qed.
(** The accepted job is a spawned goroutine, or a call not older than [n]. *)
Definition tracked (n : nat) (path : gostr) (s : receiver) : Prop :=
  n ≤ Webhook.next (rx_manager s) ∧
  ((∃ i j, rx_gos s !! i = Some Spawned ∧ sv_jobs (rx_server s) !! i = Some j ∧ job_project j = path) ∨
   (∃ id c, n ≤ id ∧ calls (rx_manager s) !! id = Some c ∧ c_project c = path)).

Lemma tracked_keeps n path s s' : keeps (rx_manager s) (rx_manager s') → tracked n path s →
  (∀ i j, rx_gos s !! i = Some Spawned → sv_jobs (rx_server s) !! i = Some j → tracked n (job_project j) s') →
  tracked n path s'.
Proof.
  intros [Hk Hnx] [Hn [(i & j & Hi & Hj & <-)|(id & c & Hle & Hc & <-)]] Hsp; [by eapply Hsp|].
  split; [lia|]. right. destruct (Hk id c Hc) as (c' & Hc' & Hp). by exists id, c'.
Qed.

(** A goroutine that has not entered yet is untouched by the steps of others. *)
Lemma tracked_spawned n k j s i g : n ≤ Webhook.next (rx_manager s) →
  rx_gos s !! k = Some Spawned → sv_jobs (rx_server s) !! k = Some j → k ≠ i →
  tracked n (job_project j) (set_go i g s).
Proof.
  intros Hn Hk Hj Hne. split; [done|]. left. exists k, j. split; [|done].
  cbn [set_go rx_gos]. by rewrite list_lookup_insert_ne.
Qed.

Lemma tracked_step n path s s' : manager_ok (rx_manager s) → tracked n path s →
  quiet_step json_path E runner fetcher s s' → tracked n path s'.
Proof.
  intros Hm Ht Hq. pose proof (quiet_keeps _ _ Hm Hq) as Hk. eapply tracked_keeps; [exact Hk|exact Ht|].
  intros k j Hks Hj. destruct Ht as [Hn _], Hk as [_ Hnx].
  assert (n ≤ Webhook.next (rx_manager s')) as Hn' by lia. clear Hnx.
  destruct Hq as [url req|s1 Hi].
  - split; [done|]. left. exists k, j.
    destruct (receive_gos json_path url req s) as (_ & _ & _ & _ & _ & [[-> ->]|(body & path' & _ & _ & _ & _ & _ & -> & ->)]);
      split_and!; try done; by apply lookup_app_l_Some.
  - destruct Hi as [i j' s Hi Hj'|i id c e s Hi Hc Hp Hx|i id c s Hi Hc Hp|i id c s Hi Hc Hp
                   |i id r c s Hi Hc Hp|i id r c s Hi Hc Hp|i id r c s Hi Hc Hp].
    + destruct (decide (k = i)) as [->|Hne].
      * assert (j' = j) as -> by congruence. split; [done|]. right.
        exists (Webhook.next (rx_manager s)), (mkCall (job_project j) Waiting false).
        split; [done|]. split; [apply enter_new|done].
      * by apply (tracked_spawned _ k).
    + apply (tracked_spawned _ k); [done..|]. intros ->. by simplify_eq.
    + split; [done|]. left. by exists k, j.
    + split; [done|]. left. destruct (run_trigger_parts E fetcher runner i id c s) as (H1 & _ & (r & H3) & _).
      exists k, j. rewrite H1, H3, list_lookup_insert_ne; [done|]. intros ->. by simplify_eq.
    + split; [done|]. left. by exists k, j.
    + split; [done|]. left. by exists k, j.
    + split; [done|]. left. destruct (shift_onto i k) as [k' <-]; [intros ->; by simplify_eq|].
      exists k', j. cbn [finish_go finish_job rx_gos rx_server sv_jobs]. by rewrite !lookup_delete_shift.
Qed.

(** All of it, along a quiet run. *)
Lemma quiet_run s s' : rtc (quiet_step json_path E runner fetcher) s s' →
  linked s → manager_ok (rx_manager s) → coalesced s →
  (linked s' ∧ manager_ok (rx_manager s') ∧ coalesced s') ∧
  (∀ n path, tracked n path s → tracked n path s').
Proof.
  induction 1 as [s|s s1 s2 H12 _ IH]; intros Hl Hm Hco; [done|].
  pose proof (rx_quiet json_path E runner fetcher _ _ H12) as Hstep.
  assert (manager_ok (rx_manager s1)) as Hm1.
  { destruct (receiver_simulates json_path E fetcher runner _ _ Hl Hstep) as [_ Hmg]. by eapply rtc_manager_ok. }
  destruct IH as [Hrest Htr]; [by apply (linked_step json_path E fetcher runner s)|done|by apply (quiet_coalesced s)|].
  split; [done|]. intros n path Ht. apply Htr. by apply (tracked_step n path s).
Qed.

(** A goroutine that is not finished has a step to make. *)
Lemma internal_progress s : linked s → rx_gos s ≠ [] → ∃ s', internal_step E runner fetcher s s'.
Proof.
  intros Hl Hne. destruct (rx_gos s) as [|g gs] eqn:Eg; [done|].
  assert (rx_gos s !! 0 = Some g) as Hg by by rewrite Eg.
  destruct g as [|id|id r].
  - destruct (lookup_lt_is_Some_2 (sv_jobs (rx_server s)) 0) as [j Hj].
    { rewrite <- (lk_len _ Hl), Eg. cbn. lia. }
    eexists. by eapply go_enter.
  - destruct (lk_call _ Hl 0 _ id Hg eq_refl) as (c & j & Hc & _ & _ & [Hp|Hp]); eexists.
    + by eapply go_timer.
    + by eapply go_trigger.
  - destruct (lk_call _ Hl 0 _ id Hg eq_refl) as (c & j & Hc & _ & _ & [Hp|[Hp|Hp]]); eexists.
    + by eapply go_cleanup.
    + by eapply go_release.
    + by eapply go_finish.
Qed.

Lemma work_left_bound s : work_left s ≤ 6 * length (rx_gos s).
Proof.
  unfold work_left. induction (rx_gos s) as [|g gs IH]; [done|]. cbn [sum_list_with length].
  assert (left_of (calls (rx_manager s)) g ≤ 6); [|lia].
  unfold left_of. destruct (call_of g); [|lia]. destruct (c_phase <$> _) as [[]|]; lia.
Qed.

Lemma internal_runs n s s' : nsteps (internal_step E runner fetcher) n s s' →
  linked s → manager_ok (rx_manager s) → n + work_left s' ≤ work_left s ∧ linked s'.
Proof.
  induction 1 as [s|n s s1 s2 H12 _ IH]; intros Hl Hm; [split; [lia|done]|].
  pose proof (internal_work _ _ _ _ _ Hl Hm H12) as Hw.
  pose proof (rx_quiet json_path E runner fetcher _ _ (quiet_internal _ _ _ _ _ _ H12)) as Hstep.
  destruct (receiver_simulates json_path E fetcher runner _ _ Hl Hstep) as [_ Hmg].
  destruct IH as [Hle Hl2]; [by apply (linked_step json_path E fetcher runner s)|by eapply rtc_manager_ok|]. split; [lia|done].
Qed.
End coalescing.

(** ** The receiver that [serve] starts *)

Lemma buildWebhookServer_parts w recs wh : buildWebhookServer w recs = Ok wh →
  ws_addr wh = wh_Addr w ∧ ws_server wh = mkServer (Sum256 (wh_SecretToken w)) 0 [] [] [] ∧
  ws_fetcher wh = find_fetcher recs ∧ serves_tls wh = bool_decide (wh_TLSCert w ≠ []).
Proof.
  unfold buildWebhookServer, NewServer, serves_tls. case_bool_decide; [done|].
  destruct (bool_decide_reflect (wh_TLSCert w ≠ [])); intros [= <-]; split_and!; try done.
  by apply bool_decide_eq_true_2.
Qed.

Lemma init_receiver_ok json_path fetcher w recs wh : buildWebhookServer w recs = Ok wh →
  receiver_ok (Sum256 (wh_SecretToken w)) (receiver_init wh) ∧
  origin json_path fetcher (wh_SecretToken w) (receiver_init wh) ∧ coalesced (receiver_init wh).
Proof.
  intros (_ & Hsv & _)%buildWebhookServer_parts. unfold receiver_init. rewrite Hsv. clear Hsv.
  assert (∀ (P : nat → call → Prop) id c, calls NewTriggerManager !! id = Some c → P id c) as Hnone.
  { intros P id c. cbn. by rewrite lookup_empty. }
  split; [split|split; split]; try done; try apply Hnone.
  - repeat split; cbn; [unfold sem_capacity; lia|constructor].
  - apply manager_ok_new.
Qed.

(** C5: what webhooks may cause.  However requests, goroutines, timers and
    ends of contexts interleave, at most eight goroutines exist; every
    process the receiver has run is a [git fetch] of the first git-fetch
    reconciler, in a path below its root, for the repository of a project
    that a request with the configured secret named by a valid path; and
    so is every query: nobody without the secret makes the receiver act. *)
Theorem webhook_effects json_path E w recs wh s :
  buildWebhookServer w recs = Ok wh →
  rtc (receiver_step json_path E None (ws_fetcher wh)) (receiver_init wh) s →
  length (rx_gos s) ≤ 8 ∧
  (∀ name args env stdin, EvExec name args env stdin ∈ rx_hist s →
     ∃ gf path hashed id rel, find_fetcher recs = Some gf ∧
       served json_path (wh_SecretToken w) (rx_seen s) path ∧ repoDiskPath hashed path id = Ok rel ∧
       fetch_at gf rel (EvExec name args env stdin)) ∧
  (∀ pool sql args, EvSQL pool sql args ∈ rx_hist s →
     ∃ path, served json_path (wh_SecretToken w) (rx_seen s) path ∧ sql = lookup_sql ∧ args = [path]) ∧
  (∀ url header, EvGet url header ∉ rx_hist s).
Proof.
  intros Hb Hrun. destruct (init_receiver_ok json_path (ws_fetcher wh) _ _ _ Hb) as (Hok & Ho & _).
  destruct (receiver_run_ok _ _ _ _ _ _ Hrun Hok Ho) as [[(_ & Hn & Hc & _) _ Hl] [_ _ Hh]].
  assert (ws_fetcher wh = find_fetcher recs) as Hf.
  { by apply buildWebhookServer_parts in Hb as (_ & _ & ? & _). }
  rewrite Hf, Forall_forall in Hh. split; [by rewrite (lk_len _ Hl), <- Hn|]. split; [|split].
  - intros name args env stdin He.
    destruct (rx_event_acts _ _ _ _ _ (Hh _ He) I) as (gf & path & Hgf & Hs & [(pool & _ & ?)|(hashed & id & rel & Hd & Hfa)]); [done|].
    by exists gf, path, hashed, id, rel.
  - intros pool sql args He.
    destruct (rx_event_acts _ _ _ _ _ (Hh _ He) I) as (gf & path & Hgf & Hs & [(p & _ & [= _ -> ->])|(? & ? & ? & _ & _ & ? & ? & ? & _ & _ & _ & ?)]); [|done].
    by exists path.
  - intros url header He.
    by destruct (rx_event_acts _ _ _ _ _ (Hh _ He) I) as (gf & path & _ & _ & [(p & _ & ?)|(? & ? & ? & _ & _ & ? & ? & ? & _ & _ & _ & ?)]).
Qed.

(** C6: debouncing loses no webhook.  Take a request that the handler
    accepts, and any later state, while no context ends.  The goroutines
    can always move until all are gone, which takes at most six steps of
    each; and when all are gone, the trigger has run for the project of
    the request, in a call that entered after the request was accepted. *)
Theorem accepted_is_triggered json_path E runner w recs wh s0 url req s1 s2 :
  let fetcher := ws_fetcher wh in
  buildWebhookServer w recs = Ok wh →
  rtc (quiet_step json_path E runner fetcher) (receiver_init wh) s0 →
  receive json_path url req s0 = (Some 200%Z, s1) → rx_gos s1 ≠ rx_gos s0 →
  rtc (quiet_step json_path E runner fetcher) s1 s2 →
  (rx_gos s2 ≠ [] → ∃ s3, internal_step E runner fetcher s2 s3) ∧
  (∀ n s3, nsteps (internal_step E runner fetcher) n s2 s3 → n ≤ 6 * length (rx_gos s2)) ∧
  (rx_gos s2 = [] →
     ∃ body path id c, req_Body req = Ok body ∧ json_path (take body_limit body) = Ok path ∧
       Webhook.next (rx_manager s0) ≤ id ∧ id ∈ rx_runs s2 ∧
       calls (rx_manager s2) !! id = Some c ∧ c_project c = path).
Proof.
  intros fetcher Hb H0 Hreq Hne H2.
  destruct (init_receiver_ok json_path fetcher _ _ _ Hb) as ([_ Hm Hl] & _ & Hco).
  destruct (quiet_run _ _ _ _ _ _ H0 Hl Hm Hco) as [(Hl0 & Hm0 & Hco0) _].
  assert (s1 = (receive json_path url req s0).2) as Hs1 by by rewrite Hreq.
  assert (quiet_step json_path E runner fetcher s0 s1) as Hq by (rewrite Hs1; constructor).
  destruct (quiet_run _ _ _ _ _ _ (rtc_l _ _ _ _ Hq H2) Hl0 Hm0 Hco0) as [(Hl2 & Hm2 & Hco2) _].
  destruct (quiet_run _ _ _ _ _ _ (rtc_once _ _ Hq) Hl0 Hm0 Hco0) as [(Hl1 & Hm1 & Hco1) _].
  destruct (quiet_run _ _ _ _ _ _ H2 Hl1 Hm1 Hco1) as [_ Htr].
  split; [by apply internal_progress|]. split.
  - intros n s3 Hn. destruct (internal_runs json_path _ _ _ _ _ _ Hn Hl2 Hm2). pose proof (work_left_bound s2). lia.
  - intros Hnil. destruct (receive_gos json_path url req s0) as (_ & Hmg & _ & _ & _ & Hcase). rewrite <- Hs1 in *.
    destruct Hcase as [[_ ?]|(body & path & _ & _ & Hbody & Hpath & _ & Hj & Hg)]; [done|].
    assert (tracked (Webhook.next (rx_manager s0)) path s1) as Ht.
    { split; [by rewrite Hmg|]. left. exists (length (rx_gos s0)), (mkJob path (req_Event req)).
      rewrite Hg, Hj. split; [by apply list_lookup_middle|]. rewrite (lk_len _ Hl0).
      split; [by apply list_lookup_middle|done]. }
    destruct (Htr _ _ Ht) as [_ [(i & j & Hi & _)|(id & c & Hle & Hc & Hp)]]; [by rewrite Hnil in Hi|].
    destruct (settled s2 id c Hl2 Hm2 Hco2 Hnil Hc) as (id' & c' & Hle' & Hr & Hc' & Hp').
    exists body, path, id', c'. split_and!; try done; [lia|congruence].
Qed.

(** ** Examples *)

Definition ex_fetcher : gf_reconciler := New "git@eu" "/srv/git" "us" None false Default.
Definition ex_webhook_cfg : WebhookConfig := Build_WebhookConfig ":9102" "s3cret" [] [].
Definition ex_recs : list site_rec := [RecFetch ex_fetcher].
Definition ex_wh : webhook_server := mkWebhook ":9102" ex_server (Some ex_fetcher) [] [].
Definition ex_steps : receiver → receiver → Prop :=
  quiet_step ex_json (GitFetch.ex_env false) None (ws_fetcher ex_wh).

(** One delivery, from the request to the end of its goroutine. *)
Definition ex_call (ph : phase) : call := mkCall "group/project" ph false.
Definition ex_rx0 : receiver := receiver_init ex_wh.
Definition ex_rx1 : receiver := (receive ex_json "/webhook" (ex_request "s3cret") ex_rx0).2.
Definition ex_rx2 : receiver := set_go 0 (Calling 0) (set_manager (trigger_enter "group/project" (rx_manager ex_rx1)) ex_rx1).
Definition ex_rx3 : receiver :=
  add_events [EvSleep debounce_delay] (set_manager (update 0 (ex_call Running) (rx_manager ex_rx2)) ex_rx2).
Definition ex_rx4 : receiver := run_trigger (GitFetch.ex_env false) None (ws_fetcher ex_wh) 0 0 (ex_call Running) ex_rx3.
Definition ex_rx5 : receiver := set_manager (trigger_cleanup 0 (ex_call Returned) (rx_manager ex_rx4)) ex_rx4.
Definition ex_rx6 : receiver :=
  set_manager (update 0 (set_phase Done (cancel_call (ex_call Unlinked))) (rx_manager ex_rx5)) ex_rx5.
Definition ex_rx7 : receiver := finish_go 0 nil_error ex_rx6.

Lemma ex_rx1_step : ex_steps ex_rx0 ex_rx1.
Proof. constructor. Defined.

Lemma ex_rx7_run : rtc ex_steps ex_rx1 ex_rx7.
Proof.
  eapply rtc_l; [apply quiet_internal, (go_enter _ _ _ 0 (mkJob "group/project" "Push Hook")); vm_compute; reflexivity|].
  eapply rtc_l; [apply quiet_internal, (go_timer _ _ _ 0 0 (ex_call Waiting)); vm_compute; reflexivity|].
  eapply rtc_l; [apply quiet_internal, (go_trigger _ _ _ 0 0 (ex_call Running)); vm_compute; reflexivity|].
  eapply rtc_l; [apply quiet_internal, (go_cleanup _ _ _ 0 0 nil_error (ex_call Returned)); vm_compute; reflexivity|].
  eapply rtc_l; [apply quiet_internal, (go_release _ _ _ 0 0 nil_error (ex_call Unlinked)); vm_compute; reflexivity|].
  apply rtc_once, quiet_internal.
  apply (go_finish _ _ _ 0 0 nil_error (set_phase Done (cancel_call (ex_call Unlinked)))); vm_compute; reflexivity.
Defined.

(** The delivery ran [git] once and was recorded as a success. *)
Example delivery_example :
  rx_gos ex_rx7 = [] ∧ sv_sem (rx_server ex_rx7) = 0 ∧ rx_hist ex_rx7 =
    [EvSleep debounce_delay;
     EvExec "git" ["-C"; "/srv/git/group/project.git"; "fetch"; "--prune"; "--no-tags";
        "ssh://git@eu/var/opt/gitlab/git-data/repositories/group/project.git"; "+refs/*:refs/*"; "+refs/tags/*:refs/tags/*"]
       ["GIT_SSH_COMMAND=ssh -o StrictHostKeyChecking=accept-new"] None;
     EvDuration "webhook_trigger" "ok"; EvLastSync "webhook_trigger"].
Proof. split; [|split]; vm_compute; reflexivity. Qed.

Lemma webhook_effects_witness :
  length (rx_gos ex_rx7) ≤ 8 ∧
  (∀ name args env stdin, EvExec name args env stdin ∈ rx_hist ex_rx7 →
     ∃ gf path hashed id rel, find_fetcher ex_recs = Some gf ∧
       served ex_json "s3cret" (rx_seen ex_rx7) path ∧ repoDiskPath hashed path id = Ok rel ∧
       fetch_at gf rel (EvExec name args env stdin)).
Proof.
  destruct (webhook_effects ex_json (GitFetch.ex_env false) ex_webhook_cfg ex_recs ex_wh ex_rx7) as (H1 & H2 & _).
  - vm_compute. reflexivity.
  - eapply rtc_subrel; [|eapply rtc_l; [exact ex_rx1_step|exact ex_rx7_run]]. intros x y. apply rx_quiet.
  - exact (conj H1 H2).
Defined.

Lemma accepted_is_triggered_witness :
  ∃ id c, id ∈ rx_runs ex_rx7 ∧ calls (rx_manager ex_rx7) !! id = Some c ∧ c_project c = "group/project".
Proof.
  destruct (accepted_is_triggered ex_json (GitFetch.ex_env false) None ex_webhook_cfg ex_recs ex_wh
    ex_rx0 "/webhook" (ex_request "s3cret") ex_rx1 ex_rx7) as (_ & _ & H).
  - vm_compute. reflexivity.
  - apply rtc_refl.
  - vm_compute. reflexivity.
  - vm_compute. discriminate.
  - exact ex_rx7_run.
  - destruct H as (body & path & id & c & _ & Hp & _ & Hr & Hc & Hcp); [vm_compute; reflexivity|].
    exists id, c. split; [exact Hr|]. split; [exact Hc|]. rewrite Hcp. injection Hp as <-. reflexivity.
Defined.

(** Without a git-fetch reconciler nothing is synced, and a sync is recorded. *)
Example no_fetcher_records_a_sync E runner path h :
  let '(r, h') := trigger E runner None path h in
  h' = h ∧ EvLastSync "webhook_trigger" ∈ job_metrics r.
Proof. split; [reflexivity|]. right. left. Qed.

(** A webhook that a newer one replaces is recorded as a failed sync. *)
Example replaced_is_recorded_as_failed E runner fetcher i id c e s :
  rx_gos s !! i = Some (Calling id) → calls (rx_manager s) !! id = Some c →
  c_phase c = Waiting → c_cancelled c = true →
  ∃ s', internal_step E runner fetcher s s' ∧ rx_gos s' !! i = Some (Leaving id (Err e)) ∧
    job_metrics (Err e) = [EvDuration "webhook_trigger" "error"].
Proof.
  intros Hi Hc Hp Hx. eexists. split; [by eapply (go_preempted _ _ _ i id c e)|]. split; [|done].
  cbn. rewrite list_lookup_insert_eq; [done|by eapply lookup_lt_Some].
Qed.
