(* ===== verification/Template.v ===== *)
(** * text/template: the part the runbook uses

    Parsing and execution of templates made of text, field chains, calls
    of functions, [range] and [if]/[else].  Values are the generic values
    of ConfigData.v with their Go types; a type checker is shown sound: a
    template that is well typed at a type cannot fail on a value of it. *)
From Stdlib Require Import Ascii ZArith Lia SpecFloat.
From stdpp Require Import prelude strings gmap list.
From S2P Require Import Prelude GoStrings ConfigData.
Open Scope go_scope.

(** ** Types and values *)

(** Go types, as far as [reflect] is asked for them; a named integer type
    with a [String] method is [TDuration]. *)
#[warnings="-register-all"]
Inductive gty :=
| TString | TInt | TDuration | TBool | TFloat
| TPtr (t : gty)
| TSlice (t : gty)
| TMap (t : gty)
| TStruct (fields : list (gostr * gty)).

(** The fields of a struct, in order, by name and type. *)
Fixpoint fields_ok (f : gty → gval → bool) (fs : list (gostr * gty))
    (l : list (gostr * gostr * gostr * gval)) : bool :=
  match fs, l with
  | [], [] => true
  | (n, t) :: fs, (n', _, _, v) :: l => bool_decide (n = n') && f t v && fields_ok f fs l
  | _, _ => false
  end.

Fixpoint has_type (t : gty) (v : gval) {struct t} : bool :=
  match t, v with
  | TString, VString _ | TInt, VInt _ | TDuration, VInt _ | TBool, VBool _ | TFloat, VFloat _ => true
  | TPtr t, VPtr o => match o with None => true | Some v => has_type t v end
  | TSlice t, VSlice l => forallb (has_type t) l
  | TMap t, VMap l => forallb (λ kv, has_type t kv.2) l
  | TStruct fs, VStruct l => fields_ok has_type fs l
  | _, _ => false
  end.

Fixpoint fields_eqb (f : gty → gty → bool) (l k : list (gostr * gty)) : bool :=
  match l, k with
  | [], [] => true
  | (n, a) :: l, (m, b) :: k => bool_decide (n = m) && f a b && fields_eqb f l k
  | _, _ => false
  end.

(** Equality of types, which decides whether an argument is assignable. *)
Fixpoint gty_eqb (a b : gty) {struct a} : bool :=
  match a, b with
  | TString, TString | TInt, TInt | TDuration, TDuration | TBool, TBool | TFloat, TFloat => true
  | TPtr a, TPtr b | TSlice a, TSlice b | TMap a, TMap b => gty_eqb a b
  | TStruct l, TStruct k => fields_eqb gty_eqb l k
  | _, _ => false
  end.

(** A [reflect.Value]. *)
Abbreviation rval := (gty * gval)%type.

(** ** Templates *)

#[warnings="-register-all"]
Inductive pipe :=
| PField (path : list gostr)           (** [.A.B]; [.] is the empty path *)
| PNum (z : Z)
| PCall (f : gostr) (args : list pipe).

#[warnings="-register-all"]
Inductive node :=
| NText (s : gostr)
| NAction (p : pipe)
| NIf (p : pipe) (body els : list node)
| NRange (p : pipe) (body els : list node).

(** A function of the [FuncMap]. *)
Record func := mkFunc { fn_args : list gty; fn_ret : gty; fn_impl : list gval → gval }.

(** ** Execution *)

Fixpoint concatM {A} (f : A → res gostr) (l : list A) : res gostr :=
  match l with
  | [] => Ok []
  | a :: l => s ← f a; t ← concatM f l; Ok (s ++ t)
  end.

Fixpoint mapR {A B} (f : A → res B) (l : list A) : res (list B) :=
  match l with
  | [] => Ok []
  | a :: l => b ← f a; bs ← mapR f l; Ok (b :: bs)
  end.

Fixpoint field_of (n : gostr) (fs : list (gostr * gty)) (l : list (gostr * gostr * gostr * gval)) : option rval :=
  match fs, l with
  | (n', t) :: fs, (_, _, _, v) :: l => if bool_decide (n = n') then Some (t, v) else field_of n fs l
  | _, _ => None
  end.

Section exec.
(** The functions, how [fmt] prints the kinds that are not written out
    below, and what [range] gives for other kinds than slices. *)
Context (funcs : gostr → option func) (print_other : rval → gostr) (range_other : rval → res (list rval)).
Context (Duration_String : Z → gostr).

(** [evalField]: a pointer to a struct is followed, unless it is nil. *)
Definition eval_field (n : gostr) (x : rval) : res rval :=
  let find fs l :=
    match field_of n fs l with
    | Some y => Ok y
    | None => Err (Errorf [FS "can't evaluate field "; FS n])
    end in
  match x with
  | (TStruct fs, VStruct l) => find fs l
  | (TPtr (TStruct fs), VPtr (Some (VStruct l))) => find fs l
  | (TPtr _, VPtr None) => Err (Errorf [FS "nil pointer evaluating "; FS n])
  | _ => Err (Errorf [FS "can't evaluate field "; FS n])
  end.

Fixpoint eval_path (path : list gostr) (x : rval) : res rval :=
  match path with
  | [] => Ok x
  | n :: path => y ← eval_field n x; eval_path path y
  end.

(** The predefined [len] and [gt], the latter on integers only. *)
Definition call_builtin (f : gostr) (args : list rval) : res rval :=
  if bool_decide (f = "len") then
    match args with
    | [(_, VSlice l)] => Ok (TInt, VInt (Z.of_nat (length l)))
    | [(_, VMap l)] => Ok (TInt, VInt (Z.of_nat (length l)))
    | [(_, VString s)] => Ok (TInt, VInt (Z.of_nat (length s)))
    | _ => Err (Errorf [FS "error calling len"])
    end
  else if bool_decide (f = "gt") then
    match args with
    | [(TInt, VInt a); (TInt, VInt b)] => Ok (TBool, VBool (b <? a)%Z)
    | _ => Err (Errorf [FS "error calling gt"])
    end
  else Err (Errorf [FS f; FS " is not a defined function"]).

Fixpoint all_assignable (ts : list gty) (args : list rval) : bool :=
  match ts, args with
  | [], [] => true
  | t :: ts, (t', _) :: args => gty_eqb t t' && all_assignable ts args
  | _, _ => false
  end.

Definition call_fn (f : gostr) (args : list rval) : res rval :=
  match funcs f with
  | Some fn =>
      if all_assignable (fn_args fn) args then Ok (fn_ret fn, fn_impl fn (snd <$> args))
      else Err (Errorf [FS "wrong arguments for "; FS f])
  | None => call_builtin f args
  end.

Fixpoint eval_pipe (dot : rval) (p : pipe) {struct p} : res rval :=
  match p with
  | PField path => eval_path path dot
  | PNum z => Ok (TInt, VInt z)
  | PCall f args => args ← mapR (eval_pipe dot) args; call_fn f args
  end.

(** [isTrue]. *)
Definition truth (x : rval) : bool :=
  match x.2 with
  | VString s => bool_decide (s ≠ [])
  | VInt z => bool_decide (z ≠ 0%Z)
  | VBool b => b
  | VFloat (S754_zero _) => false
  | VFloat _ => true
  | VPtr o => match o with Some _ => true | None => false end
  | VSlice l => match l with [] => false | _ => true end
  | VMap l => match l with [] => false | _ => true end
  | VStruct _ => true
  end.

(** [printValue]. *)
Definition print_value (x : rval) : gostr :=
  match x with
  | (TString, VString s) => s
  | (TInt, VInt z) => Itoa z
  | (TDuration, VInt z) => Duration_String z
  | (TBool, VBool b) => if b then "true" else "false"
  | _ => print_other x
  end.

Definition range_items (x : rval) : res (list rval) :=
  match x with
  | (TSlice t, VSlice l) => Ok ((t,.) <$> l)
  | _ => range_other x
  end.

(** What is written, or the error that ends the execution. *)
Fixpoint exec (n : node) (dot : rval) {struct n} : res gostr :=
  match n with
  | NText s => Ok s
  | NAction p => x ← eval_pipe dot p; Ok (print_value x)
  | NIf p body els =>
      x ← eval_pipe dot p;
      if truth x then concatM (λ n, exec n dot) body else concatM (λ n, exec n dot) els
  | NRange p body els =>
      x ← eval_pipe dot p;
      items ← range_items x;
      match items with
      | [] => concatM (λ n, exec n dot) els
      | _ => concatM (λ item, concatM (λ n, exec n item) body) items
      end
  end.

Definition Execute (ns : list node) (dot : rval) : res gostr := concatM (λ n, exec n dot) ns.
End exec.

(** ** Parsing *)

Inductive item := IText (s : gostr) | IAction (s : gostr).

(** Text and actions, in order; an action ends at the first [}}]. *)
Fixpoint lex_items (fuel : nat) (s : gostr) : res (list item) :=
  let text (t : gostr) (rest : list item) := match t with [] => rest | _ => IText t :: rest end in
  match fuel with
  | O => Err (Errorf [FS "out of fuel"])
  | S fuel =>
      match Index s "{{" with
      | None => Ok (text s [])
      | Some i =>
          let after := drop (i + 2) s in
          match Index after "}}" with
          | None => Err (Errorf [FS "unclosed action"])
          | Some j =>
              rest ← lex_items fuel (drop (j + 2) after);
              Ok (text (take i s) (IAction (take j after) :: rest))
          end
      end
  end.

(** The tokens of an action: parentheses and words. *)
Fixpoint tokens (acc s : gostr) : list gostr :=
  let flush := match acc with [] => [] | _ => [acc] end in
  match s with
  | [] => flush
  | c :: s =>
      if bool_decide (c = " "%char) then flush ++ tokens [] s
      else if bool_decide (c = "("%char) || bool_decide (c = ")"%char) then flush ++ [[c]] ++ tokens [] s
      else tokens (acc ++ [c]) s
  end.

Definition is_ident (w : gostr) : bool :=
  match w with [] => false | c :: _ => forallb (λ c, is_alnum c) w && negb (is_digit c) end.

Definition parse_operand (w : gostr) : res pipe :=
  match w with
  | "."%char :: [] => Ok (PField [])
  | "."%char :: path =>
      let names := SplitByte path "."%char in
      if forallb is_ident names then Ok (PField names) else Err (Errorf [FS "unexpected "; FS w])
  | _ => match Atoi w with Some z => Ok (PNum z) | None => Err (Errorf [FS "unexpected "; FS w]) end
  end.

Section parse.
Context (defined : gostr → bool).

Fixpoint parse_cmd (fuel : nat) (toks : list gostr) : res (pipe * list gostr) :=
  match fuel with
  | O => Err (Errorf [FS "out of fuel"])
  | S fuel =>
      match toks with
      | [] => Err (Errorf [FS "missing value"])
      | w :: rest =>
          if is_ident w then
            if defined w then '(args, rest) ← parse_args fuel rest; Ok (PCall w args, rest)
            else Err (Errorf [FS "function "; FS w; FS " not defined"])
          else
            '(args, rest) ← parse_args fuel toks;
            match args with
            | [p] => Ok (p, rest)
            | _ => Err (Errorf [FS "can't give argument to non-function"])
            end
      end
  end
with parse_args (fuel : nat) (toks : list gostr) : res (list pipe * list gostr) :=
  match fuel with
  | O => Err (Errorf [FS "out of fuel"])
  | S fuel =>
      match toks with
      | [] => Ok ([], [])
      | w :: rest =>
          if bool_decide (w = ")") then Ok ([], toks)
          else if bool_decide (w = "(") then
            '(p, rest) ← parse_cmd fuel rest;
            match rest with
            | w :: rest =>
                if bool_decide (w = ")") then '(ps, rest) ← parse_args fuel rest; Ok (p :: ps, rest)
                else Err (Errorf [FS "unclosed left paren"])
            | [] => Err (Errorf [FS "unclosed left paren"])
            end
          else p ← parse_operand w; '(ps, rest) ← parse_args fuel rest; Ok (p :: ps, rest)
      end
  end.

Definition parse_action (toks : list gostr) : res pipe :=
  '(p, rest) ← parse_cmd (S (2 * length toks)) toks;
  match rest with [] => Ok p | _ => Err (Errorf [FS "unexpected right paren"]) end.

(** What ends a list of nodes. *)
Inductive stop := SEnd | SElse | SEOF.

Fixpoint parse_nodes (fuel : nat) (items : list item) : res (list node * stop * list item) :=
  match fuel with
  | O => Err (Errorf [FS "out of fuel"])
  | S fuel =>
      let block (mk : list node → list node → node) (items : list item) :=
        '(body, st, items) ← parse_nodes fuel items;
        match st with
        | SEOF => Err (Errorf [FS "unexpected EOF"])
        | SEnd => '(ns, st, items) ← parse_nodes fuel items; Ok (mk body [] :: ns, st, items)
        | SElse =>
            '(els, st, items) ← parse_nodes fuel items;
            match st with
            | SEnd => '(ns, st, items) ← parse_nodes fuel items; Ok (mk body els :: ns, st, items)
            | _ => Err (Errorf [FS "expected end"])
            end
        end in
      match items with
      | [] => Ok ([], SEOF, [])
      | IText s :: items => '(ns, st, items) ← parse_nodes fuel items; Ok (NText s :: ns, st, items)
      | IAction a :: items =>
          match tokens [] a with
          | [] => Err (Errorf [FS "missing value for command"])
          | w :: toks =>
              if bool_decide (w = "end") then Ok ([], SEnd, items)
              else if bool_decide (w = "else") then Ok ([], SElse, items)
              else if bool_decide (w = "if") then p ← parse_action toks; block (NIf p) items
              else if bool_decide (w = "range") then p ← parse_action toks; block (NRange p) items
              else p ← parse_action (w :: toks);
                   '(ns, st, items) ← parse_nodes fuel items; Ok (NAction p :: ns, st, items)
          end
      end
  end.

Definition Parse (text : gostr) : res (list node) :=
  items ← lex_items (S (length text)) text;
  '(ns, st, _) ← parse_nodes (S (length items)) items;
  match st with SEOF => Ok ns | _ => Err (Errorf [FS "unexpected end"]) end.
End parse.

(** ** Types of templates *)

Section typing.
Context (funcs : gostr → option func).

Fixpoint assoc_ty (n : gostr) (fs : list (gostr * gty)) : option gty :=
  match fs with
  | [] => None
  | (n', t) :: fs => if bool_decide (n = n') then Some t else assoc_ty n fs
  end.

(** The type of a path; [G] lists the pointers known not to be nil, as
    paths from the dot, and [pre] is the path so far. *)
Fixpoint ty_path (G : list (list gostr)) (pre path : list gostr) (t : gty) : option gty :=
  match path with
  | [] => Some t
  | n :: path =>
      match t with
      | TStruct fs => t' ← assoc_ty n fs; ty_path G (pre ++ [n]) path t'
      | TPtr (TStruct fs) =>
          if bool_decide (pre ∈ G) then t' ← assoc_ty n fs; ty_path G (pre ++ [n]) path t' else None
      | _ => None
      end
  end.

Fixpoint all_types (ts us : list gty) : bool :=
  match ts, us with
  | [], [] => true
  | t :: ts, u :: us => gty_eqb t u && all_types ts us
  | _, _ => false
  end.

Definition ty_call (f : gostr) (args : list gty) : option gty :=
  match funcs f with
  | Some fn => if all_types (fn_args fn) args then Some (fn_ret fn) else None
  | None =>
      if bool_decide (f = "len") then
        match args with [TSlice _] | [TMap _] | [TString] => Some TInt | _ => None end
      else if bool_decide (f = "gt") then
        match args with [TInt; TInt] => Some TBool | _ => None end
      else None
  end.

Fixpoint ty_pipe (G : list (list gostr)) (t : gty) (p : pipe) {struct p} : option gty :=
  match p with
  | PField path => ty_path G [] path t
  | PNum _ => Some TInt
  | PCall f args => ts ← mapM (ty_pipe G t) args; ty_call f ts
  end.

(** A condition that is a pointer makes it not nil in the first branch. *)
Definition refine (G : list (list gostr)) (p : pipe) (t : gty) : list (list gostr) :=
  match p, t with PField path, TPtr _ => path :: G | _, _ => G end.

Fixpoint check (n : node) (G : list (list gostr)) (t : gty) {struct n} : bool :=
  match n with
  | NText _ => true
  | NAction p => bool_decide (is_Some (ty_pipe G t p))
  | NIf p body els =>
      match ty_pipe G t p with
      | Some u => forallb (λ n, check n (refine G p u) t) body && forallb (λ n, check n G t) els
      | None => false
      end
  | NRange p body els =>
      match ty_pipe G t p with
      | Some (TSlice u) => forallb (λ n, check n [] u) body && forallb (λ n, check n G t) els
      | _ => false
      end
  end.

Definition well_typed (G : list (list gostr)) (t : gty) (ns : list node) : bool := forallb (λ n, check n G t) ns.
End typing.

(** ** Soundness *)

(** Induction over nodes and pipes, with the lists inside them. *)
Section induction.
Context (P : node → Prop).
Context (Htext : ∀ s, P (NText s)) (Haction : ∀ p, P (NAction p)).
Context (Hif : ∀ p body els, Forall P body → Forall P els → P (NIf p body els)).
Context (Hrange : ∀ p body els, Forall P body → Forall P els → P (NRange p body els)).

Fixpoint node_rect' (n : node) : P n :=
  let all := fix all (l : list node) : Forall P l :=
    match l with [] => Forall_nil_2 _ | n :: l => Forall_cons_2 _ n l (node_rect' n) (all l) end in
  match n with
  | NText s => Htext s
  | NAction p => Haction p
  | NIf p body els => Hif p body els (all body) (all els)
  | NRange p body els => Hrange p body els (all body) (all els)
  end.
End induction.

Section pipe_induction.
Context (P : pipe → Prop) (Hfield : ∀ path, P (PField path)) (Hnum : ∀ z, P (PNum z)).
Context (Hcall : ∀ f args, Forall P args → P (PCall f args)).

Fixpoint pipe_rect' (p : pipe) : P p :=
  match p with
  | PField path => Hfield path
  | PNum z => Hnum z
  | PCall f args =>
      Hcall f args ((fix all (l : list pipe) : Forall P l :=
        match l with [] => Forall_nil_2 _ | p :: l => Forall_cons_2 _ p l (pipe_rect' p) (all l) end) args)
  end.
End pipe_induction.

Section soundness.
Context (funcs : gostr → option func) (print_other : rval → gostr) (range_other : rval → res (list rval)).
Context (Duration_String : Z → gostr).

(** The functions return values of their types. *)
Definition funcs_typed : Prop := ∀ f fn args, funcs f = Some fn →
  all_assignable (fn_args fn) args = true → Forall (λ x, has_type x.1 x.2 = true) args →
  has_type (fn_ret fn) (fn_impl fn (snd <$> args)) = true.
Context (Hfuncs : funcs_typed).

(** The pointers of [G] are not nil in [x]. *)
Definition nonnil (G : list (list gostr)) (x : rval) : Prop :=
  ∀ q, q ∈ G → ∃ t v, eval_path q x = Ok (TPtr t, VPtr (Some v)).

Lemma eval_path_app q path x : eval_path (q ++ path) x = (y ← eval_path q x; eval_path path y).
Proof.
  revert x. induction q as [|n q IH]; intros x; [done|]. cbn [app eval_path].
  unfold mbind, res_bind. destruct (eval_field n x) as [y|e]; [|done]. apply IH.
Qed.

Lemma field_of_typed n fs l t : fields_ok has_type fs l = true → assoc_ty n fs = Some t →
  ∃ v, field_of n fs l = Some (t, v) ∧ has_type t v = true.
Proof.
  revert l. induction fs as [|[n' t'] fs IH]; intros [|[[[m y] env] v] l]; cbn; try done.
  rewrite !andb_true_iff. intros [[_ Hv] Hl]. case_bool_decide; [|by apply IH].
  intros [= ->]. by exists v.
Qed.

Lemma eval_field_typed n fs l t : fields_ok has_type fs l = true → assoc_ty n fs = Some t →
  (∃ v, eval_field n (TStruct fs, VStruct l) = Ok (t, v) ∧ has_type t v = true ∧
        eval_field n (TPtr (TStruct fs), VPtr (Some (VStruct l))) = Ok (t, v)).
Proof.
  intros Hl Ht. destruct (field_of_typed _ _ _ _ Hl Ht) as (v & Hf & Hv).
  exists v. cbn. by rewrite Hf.
Qed.

Lemma has_struct fs v : has_type (TStruct fs) v = true → ∃ l, v = VStruct l ∧ fields_ok has_type fs l = true.
Proof. destruct v as [s|z|b|f|o|l|l|l]; try done. intros Hv. by exists l. Qed.

Lemma ty_path_sound G root path : nonnil G root → ∀ q t v u,
  eval_path q root = Ok (t, v) → has_type t v = true → ty_path G q path t = Some u →
  ∃ w, eval_path path (t, v) = Ok (u, w) ∧ has_type u w = true.
Proof.
  intros HG. induction path as [|n path IH]; intros q t v u Hq Hv.
  { intros [= <-]. by exists v. }
  cbn [ty_path eval_path]. intros Hu.
  assert (∃ t' w, eval_field n (t, v) = Ok (t', w) ∧ has_type t' w = true ∧
            ty_path G (q ++ [n]) path t' = Some u) as (t' & w & Hf & Hw & Hu').
  { destruct t as [| | | | |t|t|t|fs]; try done.
    - destruct t as [| | | | |t|t|t|fs]; try done. case_bool_decide as Hin; [|done].
      apply bind_Some in Hu as (t' & Ht' & Hu). destruct (HG q Hin) as (t0 & v0 & Hq0).
      rewrite Hq in Hq0. injection Hq0 as _ ->. cbn in Hv.
      destruct (has_struct _ _ Hv) as (l & -> & Hl).
      destruct (eval_field_typed n fs l t' Hl Ht') as (w & _ & Hw & Hf). by exists t', w.
    - apply bind_Some in Hu as (t' & Ht' & Hu). destruct (has_struct _ _ Hv) as (l & -> & Hl).
      destruct (eval_field_typed n fs l t' Hl Ht') as (w & Hf & Hw & _). by exists t', w. }
  change (∃ x, (y ← eval_field n (t, v); eval_path path y) = Ok (u, x) ∧ has_type u x = true).
  rewrite Hf. apply (IH (q ++ [n])); [|done|done].
  rewrite eval_path_app, Hq. unfold mbind, res_bind. cbn [eval_path]. unfold mbind, res_bind. by rewrite Hf.
Qed.

Lemma all_assignable_types ts (xs : list rval) : all_assignable ts xs = all_types ts (fst <$> xs).
Proof.
  revert xs. induction ts as [|t ts IH]; intros [|[u v] xs]; try done. cbn. by rewrite IH.
Qed.

Lemma ty_call_sound f (xs : list rval) u : Forall (λ x, has_type x.1 x.2 = true) xs →
  ty_call funcs f (fst <$> xs) = Some u → ∃ w, call_fn funcs f xs = Ok (u, w) ∧ has_type u w = true.
Proof using Hfuncs.
  intros Hxs. unfold ty_call, call_fn. destruct (funcs f) as [fn|] eqn:Ef.
  - rewrite <- all_assignable_types. destruct (all_assignable (fn_args fn) xs) eqn:Ea; [|done].
    intros [= <-]. eexists. split; [done|]. by eapply Hfuncs.
  - unfold call_builtin. case_bool_decide.
    + destruct xs as [|[t v] [|]]; try done; [|by destruct t]. apply Forall_cons in Hxs as [Hv _].
      cbn in Hv |- *. destruct t, v; try done; intros [= <-]; by eexists.
    + case_bool_decide; [|done]. destruct xs as [|[t v] [|[t' v'] [|]]]; try done; [by destruct t|..|by destruct t, t'].
      apply Forall_cons in Hxs as [Hv [Hv' _]%Forall_cons]. cbn in Hv, Hv' |- *.
      destruct t, t'; try done. destruct v, v'; try done. intros [= <-]; by eexists.
Qed.

Lemma ty_pipe_sound G t v p u : nonnil G (t, v) → has_type t v = true → ty_pipe funcs G t p = Some u →
  ∃ w, eval_pipe funcs (t, v) p = Ok (u, w) ∧ has_type u w = true.
Proof using Hfuncs.
  intros HG Hv. revert u. induction p as [path|z|f args IH] using pipe_rect'; intros u; cbn [ty_pipe eval_pipe].
  - intros Hu. by apply (ty_path_sound G (t, v) path HG []).
  - intros [= <-]. by eexists.
  - intros (ts & Hts & Hu)%bind_Some.
    assert (∃ xs, mapR (eval_pipe funcs (t, v)) args = Ok xs ∧ fst <$> xs = ts ∧
              Forall (λ x, has_type x.1 x.2 = true) xs) as (xs & Hxs & <- & Hty).
    { clear Hu u. revert ts Hts. induction IH as [|p args Hp _ IHargs]; intros ts.
      - intros [= <-]. by exists [].
      - cbn. intros (t1 & H1 & (ts1 & H2 & [= <-])%bind_Some)%bind_Some.
        destruct (Hp t1 H1) as (w & Hw & Hwt), (IHargs ts1 H2) as (xs & Hxs & <- & Hty).
        exists ((t1, w) :: xs). unfold mbind, res_bind. rewrite Hw, Hxs. split; [done|]. split; [done|].
        by constructor. }
    unfold mbind, res_bind. rewrite Hxs. by apply ty_call_sound.
Qed.

(** A condition that holds refines what is known. *)
Lemma refine_sound G x p u w : nonnil G x → eval_pipe funcs x p = Ok (u, w) → has_type u w = true →
  truth (u, w) = true → nonnil (refine G p u) x.
Proof.
  intros HG Hp Hw Ht. unfold refine. destruct p as [path| |]; [|done..]. destruct u; try done.
  intros q [->|Hq]%elem_of_cons; [|by apply HG].
  destruct w as [| | | |[w|]| | |]; try done. by exists u, w.
Qed.

Lemma concatM_ok {A} (f : A → res gostr) l : Forall (λ a, ∃ s, f a = Ok s) l → ∃ s, concatM f l = Ok s.
Proof.
  induction 1 as [|a l [s Hs] _ [t Ht]]; [by eexists|]. cbn. unfold mbind, res_bind. rewrite Hs, Ht. by eexists.
Qed.

(** A well-typed node is executed without an error. *)
Lemma check_sound n : ∀ G t v, nonnil G (t, v) → has_type t v = true → check funcs n G t = true →
  ∃ s, exec funcs print_other range_other Duration_String n (t, v) = Ok s.
Proof using Hfuncs.
  assert (∀ (ns : list node) G t v,
    Forall (λ n, ∀ G t v, nonnil G (t, v) → has_type t v = true → check funcs n G t = true →
      ∃ s, exec funcs print_other range_other Duration_String n (t, v) = Ok s) ns →
    nonnil G (t, v) → has_type t v = true → forallb (λ n, check funcs n G t) ns = true →
    ∃ s, concatM (λ n, exec funcs print_other range_other Duration_String n (t, v)) ns = Ok s) as Hlist.
  { intros ns G t v Hns HG Hv Hc. apply concatM_ok. rewrite Forall_forall in Hns |- *.
    rewrite forallb_forall in Hc. intros x Hx. apply (Hns x Hx G); [done..|]. by apply Hc, list_elem_of_In. }
  induction n as [s|p|p body els IHb IHe|p body els IHb IHe] using node_rect'; intros G t v HG Hv; cbn [check exec].
  - by eexists.
  - intros [u Hu]%bool_decide_eq_true. destruct (ty_pipe_sound _ _ _ _ _ HG Hv Hu) as (w & Hw & _).
    unfold mbind, res_bind. rewrite Hw. by eexists.
  - destruct (ty_pipe funcs G t p) as [u|] eqn:Hu; [|done]. intros [Hb He]%andb_true_iff.
    destruct (ty_pipe_sound _ _ _ _ _ HG Hv Hu) as (w & Hw & Hwt). unfold mbind, res_bind. rewrite Hw.
    destruct (truth (u, w)) eqn:Et; [|by apply (Hlist els G)].
    apply (Hlist body (refine G p u)); [done| |done|done]. by eapply refine_sound.
  - destruct (ty_pipe funcs G t p) as [[| | | | | |t0| |]|] eqn:Hu; try done. intros [Hb He]%andb_true_iff.
    destruct (ty_pipe_sound _ _ _ _ _ HG Hv Hu) as (w & Hw & Hwt). unfold mbind, res_bind. rewrite Hw.
    destruct w as [| | | | |l| |]; try done. cbn [range_items].
    destruct l as [|x l]; [by apply (Hlist els G)|]. cbn [fmap list_fmap].
    apply concatM_ok. change ((t0, x) :: ((t0,.) <$> l)) with ((t0,.) <$> (x :: l)).
    apply Forall_fmap, Forall_forall. intros y Hy. cbn in Hwt.
    apply (Hlist body []); [done|by intros q ?%elem_of_nil| |done].
    assert (forallb (has_type t0) (x :: l) = true) as Hall by done.
    rewrite forallb_forall in Hall. by apply Hall, list_elem_of_In.
Qed.

(** Type safety: a template that is well typed at a type can be executed on
    every value of the type. *)
Lemma Execute_safe ns G t v : nonnil G (t, v) → has_type t v = true → well_typed funcs G t ns = true →
  ∃ s, Execute funcs print_other range_other Duration_String ns (t, v) = Ok s.
Proof using Hfuncs.
  intros HG Hv Hc. apply concatM_ok, Forall_forall. intros n Hn. eapply check_sound; [done..|].
  unfold well_typed in Hc. rewrite forallb_forall in Hc. by apply Hc, list_elem_of_In.
Qed.
End soundness.
