(* ===== verification/Runbook.v ===== *)
(** * internal/runbook: the runbook generated from the configuration

    The template is the program's constant; it is parsed and executed by
    Template.v on the configuration as a Go value. *)
From Stdlib Require Import Ascii ZArith Lia SpecFloat.
From stdpp Require Import prelude strings gmap list.
From S2P Require Import Prelude GoStrings ConfigData Config GoFloat Failover Template Build.
Open Scope go_scope.

(** ** Printing of durations and percentages *)

(** [fmtFrac]: the last [prec] decimal digits of [v] without the trailing
    zeros, in front of [acc]. *)
Fixpoint frac_digits (prec : nat) (v : Z) (acc : gostr) : gostr :=
  match prec with
  | O => acc
  | S prec =>
      let d := (v mod 10)%Z in
      frac_digits prec (v / 10) (if bool_decide (acc = []) && (d =? 0)%Z then [] else Itoa d ++ acc)
  end.

Definition fmt_frac (prec : nat) (v : Z) : gostr :=
  match frac_digits prec v [] with [] => [] | digits => "." ++ digits end.

(** [time.Duration.String]. *)
Definition Duration_String (d : Z) : gostr :=
  let u := Z.abs d in
  let sign := if (d <? 0)%Z then "-" else [] in
  if (d =? 0)%Z then "0s"
  else if (u <? 1000)%Z then sign ++ Itoa u ++ "ns"
  else if (u <? 1000000)%Z then sign ++ Itoa (u / 1000) ++ fmt_frac 3 u ++ "µs"
  else if (u <? Second)%Z then sign ++ Itoa (u / 1000000) ++ fmt_frac 6 u ++ "ms"
  else
    let s := (u / Second)%Z in
    let m := (s / 60)%Z in
    let h := (m / 60)%Z in
    sign ++ (if (0 <? h)%Z then Itoa h ++ "h" else []) ++ (if (0 <? m)%Z then Itoa (m mod 60) ++ "m" else []) ++
    Itoa (s mod 60) ++ fmt_frac 9 u ++ "s".

Example durations :
  Duration_String (5 * Minute) = "5m0s" ∧ Duration_String (90 * Minute) = "1h30m0s" ∧
  Duration_String (10 * Second) = "10s" ∧ Duration_String 1500000000 = "1.5s" ∧
  Duration_String 1050000 = "1.05ms" ∧ Duration_String (-2000) = "-2µs" ∧ Duration_String 0 = "0s".
Proof. split_and!; vm_compute; reflexivity. Qed.

(** [fmt.Sprintf("%.1f", f)]: the exact value, rounded to the nearest tenth,
    halves to even. *)
Definition tenths (m : positive) (e : Z) : Z :=
  let n := (Z.pos m * 10)%Z in
  if (0 <=? e)%Z then (n * 2 ^ e)%Z
  else
    let p := (2 ^ (- e))%Z in
    let q := (n / p)%Z in
    match Z.compare (2 * (n mod p)) p with
    | Lt => q
    | Gt => q + 1
    | Eq => if Z.even q then q else q + 1
    end%Z.

Definition fmt_fixed1 (f : spec_float) : gostr :=
  match f with
  | S754_zero s => (if s then "-" else []) ++ "0.0"
  | S754_infinity s => if s then "-Inf" else "+Inf"
  | S754_nan => "NaN"
  | S754_finite s m e =>
      let t := tenths m e in (if s then "-" else []) ++ Itoa (t / 10) ++ "." ++ Itoa (t mod 10)
  end.

(** [v*100], printed. *)
Definition pct (v : spec_float) : gostr := fmt_fixed1 (float_mul v (float_of_int 100)) ++ "%".

(** ** The code *)

Definition runbookTmpl : gostr := "# syncctl Operational Runbook

Generated from your configuration.

## Environment

- **Primary:** {{.Primary.Name}} ({{.Primary.ExternalURL}})
- **Secondaries:** {{len .Secondaries}}
{{range .Secondaries}}  - {{.Name}} ({{.ExternalURL}})
{{end}}

## 1. Failover: Primary → Secondary

When the primary is down and a secondary must be promoted:

### Automated (if auto_failover is enabled)

The failover controller will automatically promote the first secondary
after 3 consecutive health check failures ({{.Primary.ExternalURL}}).

### Manual

    syncctl failover --secondary {{firstSecondaryName .}} --yes

Rehearse it first with --dry-run in place of --yes. If the primary is
still answering health checks and you are promoting deliberately, add
--force — that is the split-brain case, so be sure.

### Post-failover checklist

1. Update DNS to point the primary hostname to the new primary's IP.
2. Re-point CI runners: update `config.toml` `url` to the new primary.
3. Update any external integrations (Slack, JIRA, etc.) with the new URL.
4. Verify webhook delivery by checking a sample project's webhook logs.
5. Verify access tokens work by making an authenticated API call.

## 2. Role-Swap: Re-attach Old Primary as Secondary

When the old primary comes back online:

    syncctl adopt-as-secondary --old-primary-ssh {{.Primary.SSHHost}}{{if gt (len .Secondaries) 1}} --new-primary <promoted-secondary>{{end}}

This runs pg_basebackup from the new primary and reconfigures the old
primary as a read-only secondary.
{{if gt (len .Secondaries) 1}}
With more than one secondary configured, `--new-primary` is required:
re-basing from the wrong site would replicate a stale replica over this
host. Pass the name of the secondary you promoted.
{{end}}

The old primary's PGDATA still holds its own cluster, and pg_basebackup
will not write into a populated directory. Back that cluster up, then
re-run with `--wipe-pgdata` to replace it.

## 3. Split-Brain Recovery

If both sites were writable simultaneously (rare; requires fencing
failure):

1. **Decide which site has the canonical data.** This is a human decision.
2. On the non-canonical site: stop GitLab, wipe PGDATA, re-basebackup.
3. On the non-canonical site: wipe object storage, re-sync from canonical.
4. On the non-canonical site: start GitLab as secondary.

## 4. db_key_base Rotation

If you need to rotate the db_key_base (e.g. after a suspected compromise):

1. On the primary: update `gitlab_rails['db_key_base']` in /etc/gitlab/gitlab.rb.
2. Run `gitlab-ctl reconfigure` on the primary.
3. Run the GitLab Rake task to re-encrypt affected columns (consult
   GitLab's public docs for the current task name).
4. Copy the new db_key_base to all secondaries.
5. Run `gitlab-ctl reconfigure` on each secondary.
6. Verify with: `syncctl dbkey`

## 5. Monitoring

- Metrics endpoint: {{.Metrics.Addr}}/metrics
- Health endpoint: {{.Metrics.Addr}}/healthz
- Key alerts:
  - syncctl_pg_replay_lag_seconds > 30s → warning
  - syncctl_drift_total increasing → investigate component
  - syncctl_last_sync_timestamp_seconds stale → reconciler stuck

## 6. CI Runner Re-Pointing

After failover, runners registered against the old primary need updating:

1. SSH to each runner host.
2. Edit /etc/gitlab-runner/config.toml — change the `url` field.
3. Run `gitlab-runner restart`.
4. Verify: `gitlab-runner verify`.

## 7. Sync Interval & Lag Targets

- Sweep interval: {{.Sync.SweepInterval}}
- Lag warning threshold: {{.Sync.LagWarningThreshold}}
- Lag critical threshold: {{.Sync.LagCriticalThreshold}}
- Consistency sample: {{pct .Sync.ConsistencySamplePct}} of repos per sweep

## 8. Failover Configuration

- Failover enabled: {{.Sync.FailoverEnabled}}
- Auto-failover: {{if .Failover}}{{.Failover.AutoFailover}}{{else}}false{{end}}
- Health check interval: {{if .Failover}}{{.Failover.HealthCheckInterval}}{{else}}10s{{end}}
- Quorum required: {{if .Failover}}{{.Failover.QuorumRequired}}{{else}}1{{end}}
- DNS plugin: {{if .Failover}}{{.Failover.DNSPlugin}}{{else}}none{{end}}
".

(** The types of the configuration, as declared in config.go. *)
Definition ty_PostgresConfig : gty := TStruct
  [("Host", TString); ("Port", TInt); ("DB", TString); ("User", TString); ("Password", TString);
   ("ReplicationUser", TString); ("ReplicationPassword", TString); ("SlotName", TString); ("SSLMode", TString);
   ("SSLRootCert", TString); ("SSLCert", TString); ("SSLKey", TString)].
Definition ty_GitStorage : gty := TStruct [("Mode", TString); ("ReposPath", TString); ("HashedStorage", TBool)].
Definition ty_S3Config : gty := TStruct
  [("Region", TString); ("PrimaryBucket", TString); ("ReplicaBucket", TString); ("AccessKey", TString);
   ("SecretKey", TString); ("Endpoint", TString); ("ReplicationLag", TDuration)].
Definition ty_ObjectStoreConfig : gty := TStruct
  [("Backend", TString); ("S3", TPtr ty_S3Config); ("FSPaths", TSlice TString)].
Definition ty_RegistryConfig : gty := TStruct
  [("Mode", TString); ("URL", TString); ("Token", TString); ("AuthRealm", TString); ("FSPath", TString);
   ("S3", TPtr ty_S3Config)].
Definition ty_SiteConfig : gty := TStruct
  [("Name", TString); ("ExternalURL", TString); ("Postgres", ty_PostgresConfig); ("Git", ty_GitStorage);
   ("ObjectStore", ty_ObjectStoreConfig); ("Registry", TPtr ty_RegistryConfig); ("SSHHost", TString)].
Definition ty_SyncConfig : gty := TStruct
  [("SweepInterval", TDuration); ("LagWarningThreshold", TDuration); ("LagCriticalThreshold", TDuration);
   ("FailoverEnabled", TBool); ("ReadOnlySecondary", TBool); ("ConsistencySamplePct", TFloat)].
Definition ty_MetricsConfig : gty := TStruct [("Addr", TString)].
Definition ty_LogConfig : gty := TStruct [("Level", TString); ("Format", TString); ("RedactProjectPaths", TBool)].
Definition ty_WebhookConfig : gty := TStruct
  [("Addr", TString); ("SecretToken", TString); ("TLSCert", TString); ("TLSKey", TString)].
Definition ty_APIValidatorConfig : gty := TStruct
  [("Enabled", TBool); ("PrimaryToken", TString); ("SecondaryToken", TString)].
Definition ty_FailoverConfig : gty := TStruct
  [("HealthCheckURLs", TSlice TString); ("HealthCheckInterval", TDuration); ("QuorumRequired", TInt);
   ("DNSPlugin", TString); ("DNSConfig", TMap TString); ("AutoFailover", TBool); ("PromoteSecondary", TString)].
Definition ty_SSHConfig : gty := TStruct [("KnownHostsFile", TString); ("StrictHostKeyChecking", TString)].
Definition ty_Config : gty := TStruct
  [("Primary", ty_SiteConfig); ("Secondaries", TSlice ty_SiteConfig); ("Sync", ty_SyncConfig);
   ("Metrics", ty_MetricsConfig); ("Log", ty_LogConfig); ("ControlDB", TString);
   ("Webhook", TPtr ty_WebhookConfig); ("APIValidator", TPtr ty_APIValidatorConfig);
   ("Failover", TPtr ty_FailoverConfig); ("SSH", ty_SSHConfig)].

(** The [FuncMap]. *)
Definition firstSecondaryName (c : Config) : gostr :=
  match cfg_Secondaries c with s :: _ => site_Name s | [] => [] end.

Definition FuncMap (f : gostr) : option func :=
  if bool_decide (f = "pct") then
    Some (mkFunc [TFloat] TString (λ args,
      match args with [VFloat v] => VString (pct v) | _ => VString [] end))
  else if bool_decide (f = "firstSecondaryName") then
    Some (mkFunc [TPtr ty_Config] TString (λ args,
      match args with
      | [VPtr (Some v)] =>
          match to_Config v with Some c => VString (firstSecondaryName c) | None => VString [] end
      | _ => VString []
      end))
  else None.

(** Names that [Parse] accepts: the map and the predefined functions in use. *)
Definition defined (f : gostr) : bool :=
  match FuncMap f with Some _ => true | None => bool_decide (f = "len") || bool_decide (f = "gt") end.

Section generate.
Context (print_other : rval → gostr) (range_other : rval → res (list rval)).

(** [Generate]: what is written to [w]. *)
Definition Generate (cfg : Config) : res gostr :=
  match Parse defined runbookTmpl with
  | Err err => Err err
  | Ok tmpl => Execute FuncMap print_other range_other Duration_String tmpl
                 (TPtr ty_Config, VPtr (Some (of_Config cfg)))
  end.
End generate.

(** ** The parsed template *)

(** The texts of the template, in order. *)
Fixpoint texts_of (n : node) : list gostr :=
  match n with
  | NText s => [s]
  | NAction _ => []
  | NIf _ a b | NRange _ a b => (a ≫= texts_of) ++ (b ≫= texts_of)
  end.

Definition texts : list gostr :=
  Eval vm_compute in match Parse defined runbookTmpl with Ok ns => ns ≫= texts_of | Err _ => [] end.

Definition txt (i : nat) : gostr := nth i texts [].

Definition act (path : list gostr) : node := NAction (PField path).
Definition several : pipe := PCall "gt" [PCall "len" [PField ["Secondaries"]]; PNum 1].
Definition if_failover (field : gostr) (els : gostr) : node :=
  NIf (PField ["Failover"]) [act ["Failover"; field]] [NText els].

Definition runbook_nodes : list node :=
  [ NText (txt 0); act ["Primary"; "Name"]; NText (txt 1); act ["Primary"; "ExternalURL"]; NText (txt 2);
    NAction (PCall "len" [PField ["Secondaries"]]); NText (txt 3);
    NRange (PField ["Secondaries"]) [NText (txt 4); act ["Name"]; NText (txt 5); act ["ExternalURL"]; NText (txt 6)] [];
    NText (txt 7); act ["Primary"; "ExternalURL"]; NText (txt 8); NAction (PCall "firstSecondaryName" [PField []]);
    NText (txt 9); act ["Primary"; "SSHHost"]; NIf several [NText (txt 10)] []; NText (txt 11);
    NIf several [NText (txt 12)] []; NText (txt 13); act ["Metrics"; "Addr"]; NText (txt 14);
    act ["Metrics"; "Addr"]; NText (txt 15); act ["Sync"; "SweepInterval"]; NText (txt 16);
    act ["Sync"; "LagWarningThreshold"]; NText (txt 17); act ["Sync"; "LagCriticalThreshold"]; NText (txt 18);
    NAction (PCall "pct" [PField ["Sync"; "ConsistencySamplePct"]]); NText (txt 19);
    act ["Sync"; "FailoverEnabled"]; NText (txt 20); if_failover "AutoFailover" (txt 21); NText (txt 22);
    if_failover "HealthCheckInterval" (txt 23); NText (txt 24); if_failover "QuorumRequired" (txt 25); NText (txt 26);
    if_failover "DNSPlugin" (txt 27); NText (txt 28) ].

Lemma parse_runbook : Parse defined runbookTmpl = Ok runbook_nodes.
Proof. vm_compute. reflexivity. Qed.

(** ** The configuration is a value of its type *)

Class Typed {A} (f : A → gval) (t : gty) : Prop := typed a : has_type t (f a) = true.

Lemma typed_cons n y e v t fs l : has_type t v = true → has_type (TStruct fs) (VStruct l) = true →
  has_type (TStruct ((n, t) :: fs)) (VStruct ((n, y, e, v) :: l)) = true.
Proof. intros Hv Hl. cbn. rewrite bool_decide_eq_true_2, Hv by done. exact Hl. Qed.

Lemma typed_ptr {A} (f : A → gval) t `{!Typed f t} o : has_type (TPtr t) (VPtr (f <$> o)) = true.
Proof. destruct o as [a|]; [change (has_type t (f a) = true); apply typed|done]. Qed.

Lemma typed_slice {A} (f : A → gval) t `{!Typed f t} l : has_type (TSlice t) (VSlice (f <$> l)) = true.
Proof. cbn. induction l as [|a l IH]; [done|]. cbn. by rewrite IH, (typed a). Qed.

Lemma typed_map l : has_type (TMap TString) (VMap (prod_map id VString <$> l)) = true.
Proof. induction l as [|[k v] l IH]; [done|]. apply IH. Qed.

#[export] Instance typed_string : Typed VString TString.
Proof. done. Qed.

(** A struct, field by field. *)
Ltac solve_typed :=
  intros ?; repeat (apply typed_cons;
    [first [done | apply typed | apply typed_ptr; apply _ | apply typed_slice; apply _ | apply typed_map]|]); done.

#[export] Instance typed_Postgres : Typed of_PostgresConfig ty_PostgresConfig.
Proof. solve_typed. Qed.
#[export] Instance typed_Git : Typed of_GitStorage ty_GitStorage.
Proof. solve_typed. Qed.
#[export] Instance typed_S3 : Typed of_S3Config ty_S3Config.
Proof. solve_typed. Qed.
#[export] Instance typed_ObjectStore : Typed of_ObjectStoreConfig ty_ObjectStoreConfig.
Proof. solve_typed. Qed.
#[export] Instance typed_Registry : Typed of_RegistryConfig ty_RegistryConfig.
Proof. solve_typed. Qed.
#[export] Instance typed_Site : Typed of_SiteConfig ty_SiteConfig.
Proof. solve_typed. Qed.
#[export] Instance typed_Sync : Typed of_SyncConfig ty_SyncConfig.
Proof. solve_typed. Qed.
#[export] Instance typed_Metrics : Typed of_MetricsConfig ty_MetricsConfig.
Proof. solve_typed. Qed.
#[export] Instance typed_Log : Typed of_LogConfig ty_LogConfig.
Proof. solve_typed. Qed.
#[export] Instance typed_Webhook : Typed of_WebhookConfig ty_WebhookConfig.
Proof. solve_typed. Qed.
#[export] Instance typed_API : Typed of_APIValidatorConfig ty_APIValidatorConfig.
Proof. solve_typed. Qed.
#[export] Instance typed_Failover : Typed of_FailoverConfig ty_FailoverConfig.
Proof. solve_typed. Qed.
#[export] Instance typed_SSH : Typed of_SSHConfig ty_SSHConfig.
Proof. solve_typed. Qed.
#[export] Instance typed_Config : Typed of_Config ty_Config.
Proof. solve_typed. Qed.

Lemma FuncMap_typed : funcs_typed FuncMap.
Proof.
  intros f fn args. unfold FuncMap. repeat case_bool_decide; try done; intros [= <-] _ _.
  - by destruct (snd <$> args) as [|[] [|]].
  - destruct (snd <$> args) as [|[| | | |[v|]| | |] [|]]; try done. cbn. by destruct (to_Config v).
Qed.

(** ** The document *)

Definition site_line (s : SiteConfig) : gostr :=
  mjoin [txt 4; site_Name s; txt 5; site_ExternalURL s; txt 6].

(** More than one secondary: the choice must be made. *)
Definition several_secondaries (cfg : Config) : bool := (1 <? length (cfg_Secondaries cfg))%nat.

Definition fo_text {A} (cfg : Config) (field : FailoverConfig → A) (show : A → gostr) (none : gostr) : gostr :=
  match cfg_Failover cfg with Some f => show (field f) | None => none end.

Definition show_bool (b : bool) : gostr := if b then "true" else "false".

(** The runbook, written directly. *)
Definition pieces (cfg : Config) : list gostr :=
  [ txt 0; site_Name (cfg_Primary cfg); txt 1; site_ExternalURL (cfg_Primary cfg); txt 2;
    Itoa (Z.of_nat (length (cfg_Secondaries cfg))); txt 3; mjoin (site_line <$> cfg_Secondaries cfg);
    txt 7; site_ExternalURL (cfg_Primary cfg); txt 8; firstSecondaryName cfg;
    txt 9; site_SSHHost (cfg_Primary cfg); if several_secondaries cfg then txt 10 else []; txt 11;
    if several_secondaries cfg then txt 12 else []; txt 13; met_Addr (cfg_Metrics cfg); txt 14;
    met_Addr (cfg_Metrics cfg); txt 15; Duration_String (sync_SweepInterval (cfg_Sync cfg)); txt 16;
    Duration_String (sync_LagWarningThreshold (cfg_Sync cfg)); txt 17;
    Duration_String (sync_LagCriticalThreshold (cfg_Sync cfg)); txt 18;
    pct (sync_ConsistencySamplePct (cfg_Sync cfg)); txt 19;
    show_bool (sync_FailoverEnabled (cfg_Sync cfg)); txt 20; fo_text cfg fo_AutoFailover show_bool (txt 21); txt 22;
    fo_text cfg fo_HealthCheckInterval Duration_String (txt 23); txt 24; fo_text cfg fo_QuorumRequired Itoa (txt 25);
    txt 26; fo_text cfg fo_DNSPlugin id (txt 27); txt 28 ].

Definition render (cfg : Config) : gostr := mjoin (pieces cfg).

Lemma concatM_cons {A} (f : A → res gostr) a l s t :
  f a = Ok s → concatM f l = Ok t → concatM f (a :: l) = Ok (s ++ t).
Proof. intros Hs Ht. cbn. unfold mbind, res_bind. by rewrite Hs, Ht. Qed.

Section document.
Context (print_other : rval → gostr) (range_other : rval → res (list rval)).
Context (cfg : Config).

Abbreviation dot := ((TPtr ty_Config, VPtr (Some (of_Config cfg))) : rval).
Abbreviation run := (exec FuncMap print_other range_other Duration_String).

Lemma run_several (i : nat) : run (NIf several [NText (txt i)] []) dot = Ok (if several_secondaries cfg then txt i else []).
Proof.
  assert (eval_pipe FuncMap dot several = Ok (TBool, VBool (1 <? Z.of_nat (length (of_SiteConfig <$> cfg_Secondaries cfg)))%Z)) as He
    by reflexivity.
  cbn [exec]. rewrite He. unfold mbind, res_bind, truth, several_secondaries. cbn [snd]. rewrite length_fmap.
  destruct (Z.ltb_spec 1 (Z.of_nat (length (cfg_Secondaries cfg)))), (Nat.ltb_spec 1 (length (cfg_Secondaries cfg))); try lia.
  - cbn [concatM exec]. unfold mbind, res_bind. by rewrite app_nil_r.
  - done.
Qed.

Lemma run_failover {A} field (proj : FailoverConfig → A) show none t (f : A → gval) :
  (∀ fo, eval_path [field] (TPtr ty_FailoverConfig, VPtr (Some (of_FailoverConfig fo))) = Ok (t, f (proj fo))) →
  (∀ a, print_value print_other Duration_String (t, f a) = show a) →
  run (if_failover field none) dot = Ok (fo_text cfg proj show none).
Proof.
  intros Hf Hp. unfold fo_text.
  assert (eval_pipe FuncMap dot (PField ["Failover"]) = Ok (TPtr ty_FailoverConfig, VPtr (of_FailoverConfig <$> cfg_Failover cfg))) as He
    by reflexivity.
  assert (eval_pipe FuncMap dot (PField ["Failover"; field]) =
    eval_path [field] (TPtr ty_FailoverConfig, VPtr (of_FailoverConfig <$> cfg_Failover cfg))) as He2 by reflexivity.
  unfold if_failover, act. cbn [exec concatM]. rewrite He, He2. unfold mbind, res_bind, truth. cbn [snd].
  destruct (cfg_Failover cfg) as [fo|]; [|by rewrite app_nil_r].
  change (of_FailoverConfig <$> Some fo) with (Some (of_FailoverConfig fo)). by rewrite Hf, Hp, app_nil_r.
Qed.

Lemma run_sites : run (NRange (PField ["Secondaries"])
    [NText (txt 4); act ["Name"]; NText (txt 5); act ["ExternalURL"]; NText (txt 6)] []) dot =
  Ok (mjoin (site_line <$> cfg_Secondaries cfg)).
Proof.
  assert (eval_pipe FuncMap dot (PField ["Secondaries"]) =
    Ok (TSlice ty_SiteConfig, VSlice (of_SiteConfig <$> cfg_Secondaries cfg))) as He by reflexivity.
  cbn [exec]. rewrite He. unfold mbind, res_bind. cbn [range_items].
  set (body := λ item, concatM (λ n, run n item) _).
  assert (∀ s, body (ty_SiteConfig, of_SiteConfig s) = Ok (site_line s)) as Hbody.
  { intros s. subst body. unfold site_line.
    by repeat (apply concatM_cons; [reflexivity|]). }
  clearbody body.
  assert (∀ l, concatM body ((ty_SiteConfig,.) <$> (of_SiteConfig <$> l)) = Ok (mjoin (site_line <$> l))) as Hl.
  { induction l as [|s l IH]; [done|]. by apply concatM_cons. }
  specialize (Hl (cfg_Secondaries cfg)). by destruct (cfg_Secondaries cfg).
Qed.

Lemma run_first : run (NAction (PCall "firstSecondaryName" [PField []])) dot = Ok (firstSecondaryName cfg).
Proof.
  transitivity (Ok (print_value print_other Duration_String
    (TString, match to_Config (of_Config cfg) with Some c => VString (firstSecondaryName c) | None => VString [] end))).
  - reflexivity.
  - by rewrite to_of.
Qed.

Lemma run_len : run (NAction (PCall "len" [PField ["Secondaries"]])) dot =
  Ok (Itoa (Z.of_nat (length (cfg_Secondaries cfg)))).
Proof.
  transitivity (Ok (Itoa (Z.of_nat (length (of_SiteConfig <$> cfg_Secondaries cfg))))); [reflexivity|].
  by rewrite length_fmap.
Qed.

Lemma runbook_renders : Execute FuncMap print_other range_other Duration_String runbook_nodes dot = Ok (render cfg).
Proof.
  unfold Execute, runbook_nodes, render, pieces.
  repeat (apply concatM_cons;
    [first [reflexivity | apply run_len | apply run_sites | apply run_first | apply run_several
      | by apply (run_failover _ _ _ _ TBool VBool) | by apply (run_failover _ _ _ _ TDuration VInt)
      | by apply (run_failover _ _ _ _ TInt VInt) | by apply (run_failover _ _ _ _ TString VString)]|]).
  reflexivity.
Qed.
End document.

(** ** Reading the document *)

Definition occurs (x doc : gostr) : Prop := ∃ a b, doc = a ++ x ++ b.

Lemma join_app_gostr (l k : list gostr) : mjoin (l ++ k) = mjoin l ++ mjoin k.
Proof. induction l as [|x l IH]; [done|]. change (x ++ mjoin (l ++ k) = (x ++ mjoin l) ++ mjoin k). by rewrite IH, app_assoc. Qed.

(** Some consecutive pieces, with the end of the text before them and the
    beginning of the text after them. *)
Lemma occurs_mid (l : list gostr) i n a b x :
  mjoin (take n (drop i l)) = a ++ x ++ b → occurs x (mjoin l).
Proof.
  intros Hx. exists (mjoin (take i l) ++ a), (b ++ mjoin (drop n (drop i l))).
  rewrite <- (take_drop i l) at 1. rewrite <- (take_drop n (drop i l)) at 1.
  rewrite !join_app_gostr, Hx. by rewrite <- !app_assoc.
Qed.

(** A text split after [n] bytes from its end, or before. *)
Definition front (i n : nat) : gostr := take (length (txt i) - n) (txt i).
Definition back (i n : nat) : gostr := drop n (txt i).

Lemma txt_ends i x : (bool_decide (txt i = front i (length x) ++ x) = true) → txt i = front i (length x) ++ x.
Proof. apply bool_decide_eq_true_1. Qed.
Lemma txt_begins i x : (bool_decide (txt i = x ++ back i (length x)) = true) → txt i = x ++ back i (length x).
Proof. apply bool_decide_eq_true_1. Qed.

(** The commands of the document, for a configuration with a secondary. *)
Definition failover_line (name : gostr) : gostr := "    syncctl failover --secondary " ++ name ++ " --yes" ++ [LF].
Definition adopt_line (host : gostr) (several : bool) : gostr :=
  "    syncctl adopt-as-secondary --old-primary-ssh " ++ host ++
  (if several then " --new-primary <promoted-secondary>" else []) ++ [LF].
Definition settings_lines (auto : bool) (interval : Z) (quorum : gostr) : gostr :=
  [LF] ++ "- Auto-failover: " ++ show_bool auto ++ [LF] ++ "- Health check interval: " ++ Duration_String interval ++
  [LF] ++ "- Quorum required: " ++ quorum ++ [LF].

(** What the document says of automatic failover. *)
Definition automatic_lines (url : gostr) : gostr :=
  "The failover controller will automatically promote the first secondary" ++ [LF] ++
  "after 3 consecutive health check failures (" ++ url ++ ").".

Lemma render_automatic cfg : occurs (automatic_lines (site_ExternalURL (cfg_Primary cfg))) (render cfg).
Proof.
  set (text := "The failover controller will automatically promote the first secondary" ++ [LF] ++
    "after 3 consecutive health check failures (" : gostr).
  apply (occurs_mid (pieces cfg) 8 3 (front 7 (length text)) (back 8 2)).
  change (txt 7 ++ site_ExternalURL (cfg_Primary cfg) ++ txt 8 ++ [] =
    front 7 (length text) ++ automatic_lines (site_ExternalURL (cfg_Primary cfg)) ++ back 8 2).
  rewrite (txt_ends 7 text) by (vm_compute; reflexivity). rewrite (txt_begins 8 ").") by (vm_compute; reflexivity).
  unfold automatic_lines, text. by rewrite app_nil_r, <- !app_assoc.
Qed.

Lemma render_failover cfg : occurs (failover_line (firstSecondaryName cfg)) (render cfg).
Proof.
  apply (occurs_mid (pieces cfg) 10 3 (front 8 33) (back 9 7)).
  change (txt 8 ++ firstSecondaryName cfg ++ txt 9 ++ [] = front 8 33 ++ failover_line (firstSecondaryName cfg) ++ back 9 7).
  rewrite (txt_ends 8 "    syncctl failover --secondary ") by (vm_compute; reflexivity).
  rewrite (txt_begins 9 (" --yes" ++ [LF])) by (vm_compute; reflexivity).
  unfold failover_line. by rewrite app_nil_r, <- !app_assoc.
Qed.

Lemma render_adopt cfg : occurs (adopt_line (site_SSHHost (cfg_Primary cfg)) (several_secondaries cfg)) (render cfg).
Proof.
  apply (occurs_mid (pieces cfg) 12 4 (front 9 49) (back 11 1)).
  change (txt 9 ++ site_SSHHost (cfg_Primary cfg) ++ (if several_secondaries cfg then txt 10 else []) ++ txt 11 ++ [] =
    front 9 49 ++ adopt_line (site_SSHHost (cfg_Primary cfg)) (several_secondaries cfg) ++ back 11 1).
  rewrite (txt_ends 9 "    syncctl adopt-as-secondary --old-primary-ssh ") by (vm_compute; reflexivity).
  rewrite (txt_begins 11 [LF]) by (vm_compute; reflexivity).
  change (txt 10) with (" --new-primary <promoted-secondary>" : gostr).
  unfold adopt_line. by rewrite app_nil_r, <- !app_assoc.
Qed.

(** The quorum that is shown. *)
Definition shown_quorum (cfg : Config) : Z :=
  match cfg_Failover cfg with Some f => fo_QuorumRequired f | None => 1%Z end.

Lemma render_settings cfg dry : let c := Failover.New cfg dry in
  occurs (settings_lines (fc_autoFailover c) (fc_checkInterval c) (Itoa (shown_quorum cfg))) (render cfg).
Proof.
  apply (occurs_mid (pieces cfg) 31 7 [] (back 26 1)).
  change (txt 20 ++ fo_text cfg fo_AutoFailover show_bool (txt 21) ++ txt 22 ++
    fo_text cfg fo_HealthCheckInterval Duration_String (txt 23) ++ txt 24 ++
    fo_text cfg fo_QuorumRequired Itoa (txt 25) ++ txt 26 ++ [] =
    settings_lines (fc_autoFailover (Failover.New cfg dry)) (fc_checkInterval (Failover.New cfg dry))
      (Itoa (shown_quorum cfg)) ++ back 26 1).
  rewrite (txt_begins 26 [LF]) by (vm_compute; reflexivity).
  change (txt 20) with ([LF] ++ "- Auto-failover: " : gostr).
  change (txt 22) with ([LF] ++ "- Health check interval: " : gostr).
  change (txt 24) with ([LF] ++ "- Quorum required: " : gostr).
  unfold settings_lines, fo_text, Failover.New, shown_quorum.
  destruct (cfg_Failover cfg) as [f|]; cbn [fc_autoFailover fc_checkInterval]; rewrite app_nil_r, <- ?app_assoc; reflexivity.
Qed.

(** ** The theorems *)

(** The configuration, as the template sees it. *)
Definition dot_of (cfg : Config) : rval := (TPtr ty_Config, VPtr (Some (of_Config cfg))).

(** C14: the runbook is type safe.  The template parses and is well typed at
    [*config.Config] (with the branches that read [Failover] guarded by the
    test of the pointer), and no template that is well typed there fails on
    any configuration: not without secondaries, not without a failover
    section.  Whatever [fmt] prints for other kinds, [Generate] succeeds. *)
Theorem Generate_type_safe print_other range_other :
  (∃ ns, Parse defined runbookTmpl = Ok ns ∧ well_typed FuncMap [[]] (TPtr ty_Config) ns = true) ∧
  (∀ ns cfg, well_typed FuncMap [[]] (TPtr ty_Config) ns = true →
     ∃ out, Execute FuncMap print_other range_other Duration_String ns (dot_of cfg) = Ok out) ∧
  (∀ cfg, ∃ out, Generate print_other range_other cfg = Ok out).
Proof.
  assert (well_typed FuncMap [[]] (TPtr ty_Config) runbook_nodes = true) as Hwt by (vm_compute; reflexivity).
  assert (∀ ns cfg, well_typed FuncMap [[]] (TPtr ty_Config) ns = true →
    ∃ out, Execute FuncMap print_other range_other Duration_String ns (dot_of cfg) = Ok out) as Hsafe.
  { intros ns cfg. apply Execute_safe; [exact FuncMap_typed| |change (has_type ty_Config (of_Config cfg) = true); apply typed].
    intros q ->%list_elem_of_singleton. by eexists _, _. }
  split; [exists runbook_nodes; split; [exact parse_runbook|exact Hwt]|]. split; [exact Hsafe|].
  intros cfg. unfold Generate. rewrite parse_runbook. by apply Hsafe.
Qed.

(** C21: how far the runbook agrees with the program.  For every
    configuration with a secondary, what [Generate] writes is the document
    written directly; its failover command names the first secondary, as the
    controller would find it; its adopt-as-secondary command asks for
    [--new-primary] exactly when the controller refuses to choose; and the
    health-check interval and automatic failover it shows are those the
    controller is built with, and so is the quorum, unless it is below one.
    Its sentence that automatic failover promotes the first secondary is what
    the controller does exactly when [failover.promote_secondary] names that
    one, or names none and there is no other. *)
Theorem Generate_agrees print_other range_other cfg s rest dry :
  cfg_Secondaries cfg = s :: rest →
  let c := Failover.New cfg dry in
  let named := promote_secondary c in
  Generate print_other range_other cfg = Ok (render cfg) ∧
  occurs (failover_line (site_Name s)) (render cfg) ∧ Failover.findSecondary c (site_Name s) = Ok s ∧
  occurs (adopt_line (site_SSHHost (cfg_Primary cfg)) (several_secondaries cfg)) (render cfg) ∧
  (several_secondaries cfg = true ↔ is_Ok (ResolveNewPrimary c []) = false) ∧
  occurs (settings_lines (fc_autoFailover c) (fc_checkInterval c) (Itoa (shown_quorum cfg))) (render cfg) ∧
  ((1 ≤ shown_quorum cfg)%Z → shown_quorum cfg = fc_quorum c) ∧
  occurs (automatic_lines (site_ExternalURL (cfg_Primary cfg))) (render cfg) ∧
  (autoFailoverTarget c = Ok (site_Name s) ↔
     if bool_decide (named = []) then several_secondaries cfg = false else named = site_Name s).
Proof.
  intros Hs c named. split; [unfold Generate; rewrite parse_runbook; apply runbook_renders|].
  pose proof (render_failover cfg) as Hf. unfold firstSecondaryName in Hf. rewrite Hs in Hf.
  assert (fc_cfg c = cfg) as Hc by (unfold c, Failover.New; by destruct (cfg_Failover cfg)).
  split; [done|]. split; [|split; [apply render_adopt|split; [|split; [apply render_settings|split; [|split; [apply render_automatic|]]]]]].
  - unfold Failover.findSecondary. rewrite Hc, Hs. cbn [List.find]. by rewrite bool_decide_eq_true_2.
  - unfold ResolveNewPrimary, several_secondaries. rewrite Hc, Hs. cbn. by destruct rest.
  - unfold shown_quorum, c, Failover.New. destruct (cfg_Failover cfg) as [f|]; [|done]. cbn [fc_quorum].
    intros Hq. destruct (Z.ltb_spec (fo_QuorumRequired f) 1); [lia|done].
  - unfold autoFailoverTarget, several_secondaries. fold named. rewrite Hc, Hs.
    destruct (bool_decide_reflect (named = [])) as [He|He].
    + rewrite (bool_decide_eq_false_2 (named ≠ [])) by (by intros []). by destruct rest.
    + rewrite (bool_decide_eq_true_2 (named ≠ [])) by done. split.
      * by destruct (Failover.findSecondary c named); [intros [= ?]|].
      * intros ->. unfold Failover.findSecondary. rewrite Hc, Hs. cbn [List.find]. by rewrite bool_decide_eq_true_2.
Qed.

(** ** Examples *)

Definition ex_print : rval → gostr := λ _, [].
Definition ex_range : rval → res (list rval) := λ _, Err (Errorf [FS "range can't iterate"]).

(** The beginning of a runbook. *)
Example runbook_example :
  match Generate ex_print ex_range ex_two_fs with Ok doc => take 98 doc | Err _ => [] end =
  "# syncctl Operational Runbook

Generated from your configuration.

## Environment

- **Primary:** ".
Proof. vm_compute. reflexivity. Qed.

(** Without the test of the pointer a template is not well typed, and fails. *)
Example unguarded_template :
  let ns := [NAction (PField ["Failover"; "AutoFailover"])] in
  well_typed FuncMap [[]] (TPtr ty_Config) ns = false ∧
  is_Ok (Execute FuncMap ex_print ex_range Duration_String ns (dot_of ex_two_fs)) = false.
Proof. split; vm_compute; reflexivity. Qed.

Lemma Generate_type_safe_witness :
  ∃ out, Execute FuncMap ex_print ex_range Duration_String runbook_nodes (dot_of ex_two_fs) = Ok out.
Proof.
  destruct (Generate_type_safe ex_print ex_range) as (_ & H & _). apply H. vm_compute. reflexivity.
Defined.

Lemma Generate_agrees_witness :
  ∃ s rest, cfg_Secondaries ex_two_fs = s :: rest ∧
    Generate ex_print ex_range ex_two_fs = Ok (render ex_two_fs).
Proof.
  destruct (cfg_Secondaries ex_two_fs) as [|s rest] eqn:Hs; [discriminate|]. exists s, rest. split; [reflexivity|].
  exact (proj1 (Generate_agrees ex_print ex_range ex_two_fs s rest false Hs)).
Defined.

(** With no SSH host of the primary, which is allowed, the printed command
    gives the next flag as the host. *)
Example adopt_line_without_host :
  adopt_line [] true = "    syncctl adopt-as-secondary --old-primary-ssh  --new-primary <promoted-secondary>" ++ [LF].
Proof. reflexivity. Qed.
