(* ===== verification/Sweep.v ===== *)
(** * One sweep over the reconcilers that [buildReconcilers] returns

    [sync] and the runner of [serve] call [Reconcile] through the interface
    [reconciler.Reconciler]; this file says what each implementation does
    there, and what a whole sweep may do to the outside.  The token caches of
    each registry reconciler live as long as it does, so they are part of
    the state of a sweep. *)
From Stdlib Require Import Ascii ZArith Lia SpecFloat.
From stdpp Require Import prelude strings gmap list.
From S2P Require Import Prelude World GoStrings GoPath SshExec ConfigData Config Reconciler Rsync GitFetch Registry.
From S2P Require Import Consistency ApiValidator PostgresRec ObjectStorage Build.
Open Scope go_scope.

(** ** The code *)

(** The token caches of the registry reconcilers, by their site, and the
    history. *)
Record sweep_state := mkSweep {
  sw_auth : gmap gostr (gmap gostr gostr * gmap gostr gostr);
  sw_hist : history;
}.

Section dispatch.
Context (E : Env) (ToLower : gostr → gostr) (url_Parse : gostr → res URL) (url_String : gostr → res gostr).
Context (with_query : gostr → gostr → gostr → gostr).
Context (json_token : gostr → res token_body) (json_catalog json_tags : gostr → res (list gostr)).
Context (range_set : gset gostr → list gostr) (pool_name : nat → gostr) (scan_float64 : sql_row → res spec_float).
Context {P : Type} (NewPaginator : lister → P) (HasMorePages : P → bool)
  (NextPage : P → IO (res (list (option Z)) * P)).

(** [listerAdapter.stats]: [fn] is what its listing loop computes. *)
Definition stats (li : lister) (fn : IO (res (Z * Z))) : Prop :=
  ∀ h, ∃ fuel, bucketStats HasMorePages NextPage fuel (NewPaginator li) 0 0 h = (Some (fn h).1, (fn h).2).

(** The method [Reconcile] of the reconcilers that keep no state. *)
Inductive rec_IO : site_rec → IO Result → Prop :=
| io_pg r : rec_IO (RecPG r) (pg_Reconcile E pool_name scan_float64 r)
| io_rsync r : rec_IO (RecRsync r) (gr_Reconcile E r)
| io_fs r : rec_IO (RecFs r) (fs_Reconcile E r)
| io_s3 r primary replica : stats (os_primary r) primary → stats (os_replica r) replica →
    rec_IO (RecS3 r) (os_Reconcile E (os_name r) primary replica)
| io_api r : rec_IO (RecApi r) (api_Reconcile E url_String r).

(** The method [Reconcile]. *)
Inductive rec_runs : site_rec → sweep_state → Result → sweep_state → Prop :=
| runs_io r m a h result h' : rec_IO r m → m h = (result, h') →
    rec_runs r (mkSweep a h) result (mkSweep a h')
| runs_fetch r pool a h result h' : gf_pool r = Some pool → reconciles E None r pool h result h' →
    rec_runs (RecFetch r) (mkSweep a h) result (mkSweep a h')
| runs_registry site p s dry a h result c1 c2 h' :
    let c := default (∅, ∅) (a !! site) in
    Registry.Reconcile E ToLower url_Parse with_query json_token json_catalog json_tags range_set
      (Registry.Name site) p s (mkRS c.1 c.2 h) = (result, mkRS c1 c2 h') →
    rec_runs (RecRegistry site (p, s) dry) (mkSweep a h) result (mkSweep (<[site := (c1, c2)]> a) h')
| runs_consistency r a h result h' : con_Reconcile E r h = (Some result, h') →
    rec_runs (RecConsistency r) (mkSweep a h) result (mkSweep a h').

(** A run-time panic in [Reconcile]: the audit indexes the list of its
    sample. *)
Definition rec_panics (r : site_rec) (h : history) : Prop :=
  match r with RecConsistency r => (con_Reconcile E r h).1 = None | _ => False end.

(** The loop of [sync]: the results, in order. *)
Inductive sweeps : list site_rec → sweep_state → list (site_rec * Result) → sweep_state → Prop :=
| sweeps_nil s : sweeps [] s [] s
| sweeps_cons r recs s result s1 out s2 : rec_runs r s result s1 → sweeps recs s1 out s2 →
    sweeps (r :: recs) s ((r, result) :: out) s2.
End dispatch.

(** ** The specification *)

Definition reading_sql : list gostr := [recovery_sql; lag_sql; list_sql; count_sql].

(** What a sweep may do: query, GET, wait, set metrics; mirror with rsync
    from the primary to a local directory of a secondary (in a dry run, only
    ask what would change); fetch into a repository below the secondary's
    root (never in a dry run); and check a repository below that root. *)
Inductive replicates (cfg : Config) (dry : bool) (e : event) : Prop :=
| rep_observe : observes reading_sql e → replicates cfg dry e
| rep_rsync sc : sc ∈ cfg_Secondaries cfg →
    mirror_run (SSHExecConfig cfg) (site_SSHHost (cfg_Primary cfg)) dry
      (git_ReposPath (site_Git (cfg_Primary cfg))) (git_ReposPath (site_Git sc)) e → replicates cfg dry e
| rep_fs sc pr : sc ∈ cfg_Secondaries cfg →
    Src pr ∈ os_FSPaths (site_ObjectStore (cfg_Primary cfg)) ∧ Dst pr = Src pr ∨
      pr ∈ registry_pair (cfg_Primary cfg) sc →
    mirror_run (SSHExecConfig cfg) (site_SSHHost (cfg_Primary cfg)) dry (Src pr) (Dst pr) e → replicates cfg dry e
| rep_fetch sc ep sshCmd rel localPath : sc ∈ cfg_Secondaries cfg → dry = false →
    ParseEndpoint (site_SSHHost (cfg_Primary cfg)) = Ok ep →
    SSHString (SSHExecConfig cfg) (site_SSHHost (cfg_Primary cfg)) = Ok sshCmd →
    path_elems (git_ReposPath (site_Git sc)) `prefix_of` path_elems localPath →
    e = EvExec "git" (fetch_args localPath (GitURL ep ("/var/opt/gitlab/git-data/repositories/" ++ rel)))
          ["GIT_SSH_COMMAND=" ++ sshCmd] None → replicates cfg dry e
| rep_fsck sc repo : sc ∈ cfg_Secondaries cfg →
    path_elems (git_ReposPath (site_Git sc)) `prefix_of` path_elems repo →
    e = fsck_event repo → replicates cfg dry e.

(** The configured directories: no warning about a path, every secondary
    has one for its repositories, and no blob path is blank. *)
Record paths_ok (cfg : Config) : Prop := {
  pa_valid : validatePaths cfg = [];
  pa_secondaries : ∀ sc, sc ∈ cfg_Secondaries cfg → git_ReposPath (site_Git sc) ≠ [];
  pa_fs : [] ∉ os_FSPaths (site_ObjectStore (cfg_Primary cfg));
}.

(** ** Lemmas *)

Lemma check_path_absolute label p : check_path label p = [] → p ≠ [] → absolute p.
Proof.
  unfold check_path. intros Hc Hne. rewrite bool_decide_eq_false_2 in Hc by done.
  destruct (ContainsAny _ _); [done|]. unfold absolute. by destruct (HasPrefix p "/").
Qed.

Lemma imap_nil {A B} (f : nat → A → list B) l x : mjoin (imap f l) = [] → x ∈ l → ∃ i, f i x = [].
Proof.
  revert f. induction l as [|y l IH]; intros f Hm; [by intros ?%elem_of_nil|]. cbn in Hm.
  apply app_nil in Hm as [Hy Hl]. intros [->|Hx]%elem_of_cons; [by exists 0|].
  destruct (IH _ Hl Hx) as [i Hi]. by exists (S i).
Qed.

Section paths.
Context (cfg : Config) (Hpaths : paths_ok cfg).

Lemma site_paths_absolute label sc : check_site_paths label sc = [] →
  (git_ReposPath (site_Git sc) ≠ [] → absolute (git_ReposPath (site_Git sc))) ∧
  (∀ p, p ∈ os_FSPaths (site_ObjectStore sc) → p ≠ [] → absolute p) ∧
  (∀ r, site_Registry sc = Some r → reg_FSPath r ≠ [] → absolute (reg_FSPath r)).
Proof.
  unfold check_site_paths. intros [Hg [Hf Hr]%app_nil]%app_nil. split_and!.
  - intros Hne. by eapply check_path_absolute.
  - intros p Hp. intros Hne. destruct (imap_nil _ _ _ Hf Hp) as [i Hi]. by eapply check_path_absolute.
  - intros r Hr' Hne. rewrite Hr' in Hr. by eapply check_path_absolute.
Qed.

Lemma primary_paths : check_site_paths "primary" (cfg_Primary cfg) = [].
Proof using Hpaths. destruct Hpaths as [Hv _ _]. by apply app_nil in Hv as [? _]. Qed.

Lemma secondary_paths sc : sc ∈ cfg_Secondaries cfg → ∃ label, check_site_paths label sc = [].
Proof using Hpaths.
  intros Hsc. destruct Hpaths as [Hv _ _]. apply app_nil in Hv as [_ Hv].
  destruct (imap_nil _ _ _ Hv Hsc) as [i Hi]. by exists (sec_label i).
Qed.

Lemma secondary_root sc : sc ∈ cfg_Secondaries cfg → absolute (git_ReposPath (site_Git sc)).
Proof using Hpaths.
  intros Hsc. destruct (secondary_paths sc Hsc) as [label Hl]. destruct (site_paths_absolute label sc Hl) as [Hg _].
  by apply Hg, (pa_secondaries cfg Hpaths).
Qed.

Lemma secondary_root_cons sc : sc ∈ cfg_Secondaries cfg → ∃ t, git_ReposPath (site_Git sc) = SEP :: t.
Proof using Hpaths. intros Hsc%secondary_root. apply HasPrefix_true in Hsc as [t ->]. by exists t. Qed.

Lemma registry_pair_absolute sc pr : sc ∈ cfg_Secondaries cfg → pr ∈ registry_pair (cfg_Primary cfg) sc →
  absolute (Src pr) ∧ absolute (Dst pr).
Proof using Hpaths.
  intros Hsc. destruct (secondary_paths sc Hsc) as [label Hl].
  destruct (site_paths_absolute _ _ primary_paths) as (_ & _ & Hp), (site_paths_absolute _ _ Hl) as (_ & _ & Hs).
  unfold registry_pair. destruct (site_Registry (cfg_Primary cfg)) as [r|]; [|by intros ?%elem_of_nil].
  destruct (_ && _) eqn:Ec; [|by intros ?%elem_of_nil]. apply andb_true_iff in Ec as [_ Hne%bool_decide_eq_true].
  intros ->%list_elem_of_singleton. cbn [Src Dst]. specialize (Hp r eq_refl Hne). split; [done|].
  destruct (site_Registry sc) as [sr|]; [|done]. case_bool_decide; [by apply Hs|done].
Qed.

(** *** What each reconciler does *)

Context (E : Env) (dry : bool) (Hhost : plain_host (site_SSHHost (cfg_Primary cfg))).

Lemma observes_replicates sqls e : sqls ⊆ reading_sql → observes sqls e → replicates cfg dry e.
Proof. intros Hs He. apply rep_observe. destruct e; try done. by apply Hs. Qed.

Lemma is_metric_replicates e : is_metric e → replicates cfg dry e.
Proof. intros He. apply rep_observe. by destruct e. Qed.

Lemma rsync_replicates sc site : sc ∈ cfg_Secondaries cfg → git_ReposPath (site_Git (cfg_Primary cfg)) ≠ [] →
  Only (replicates cfg dry) (gr_Reconcile E (gr_New (cfg_Primary cfg) sc site dry (SSHExecConfig cfg))).
Proof using Hpaths Hhost.
  intros Hsc Hm. eapply only_weaken; [|apply gr_Reconcile_only; [done..| |by apply secondary_root]].
  - intros e [He|He]; [by apply is_metric_replicates|]. by apply (rep_rsync _ _ _ sc).
  - destruct (site_paths_absolute _ _ primary_paths) as [Hg _]. by apply Hg.
Qed.

Lemma fs_replicates sc site : sc ∈ cfg_Secondaries cfg →
  Only (replicates cfg dry) (fs_Reconcile E (fs_New (cfg_Primary cfg) sc site dry (SSHExecConfig cfg))).
Proof using Hpaths Hhost.
  intros Hsc.
  assert (∀ pr, pr ∈ pathPairs (fs_New (cfg_Primary cfg) sc site dry (SSHExecConfig cfg)) →
    (Src pr ∈ os_FSPaths (site_ObjectStore (cfg_Primary cfg)) ∧ Dst pr = Src pr ∨ pr ∈ registry_pair (cfg_Primary cfg) sc))
    as Hpr.
  { intros pr [Hin|Hin]%elem_of_app; [left|by right]. apply list_elem_of_fmap in Hin as (p & -> & Hp). done. }
  eapply only_weaken; [|apply fs_Reconcile_only; [done..|]].
  - intros e [He|(pr & Hin & He)]; [by apply is_metric_replicates|]. apply (rep_fs _ _ _ sc pr); auto.
  - apply Forall_forall. intros pr [[Hp ->]|Hp]%Hpr; [|by apply (registry_pair_absolute sc)].
    assert (absolute (Src pr)); [|done]. destruct (site_paths_absolute _ _ primary_paths) as (_ & Hf & _). apply Hf; [done|].
    intros Hnil. rewrite Hnil in Hp. by apply (pa_fs cfg Hpaths).
Qed.

Lemma fetch_at_replicates sc site pool rel e : sc ∈ cfg_Secondaries cfg →
  fetch_at (GitFetch.New (site_SSHHost (cfg_Primary cfg)) (git_ReposPath (site_Git sc)) site pool dry (SSHExecConfig cfg)) rel e →
  replicates cfg dry e.
Proof using Hpaths.
  intros Hsc (Hdry & ep & sshCmd & localPath & Hep & Hs & Hj & ->).
  destruct (secondary_root_cons sc Hsc) as [t Ht]. cbn [GitFetch.New gf_reposPath] in Hj. rewrite Ht in Hj.
  destruct (containedJoin_contained t rel) as [Hc _]. destruct (Hc _ Hj) as [Hpre _]. rewrite <- Ht in Hpre.
  by apply (rep_fetch _ _ _ sc ep sshCmd rel localPath).
Qed.

Lemma fetch_replicates sc site pool h result h' : sc ∈ cfg_Secondaries cfg →
  let r := GitFetch.New (site_SSHHost (cfg_Primary cfg)) (git_ReposPath (site_Git sc)) site (Some pool) dry
             (SSHExecConfig cfg) in
  reconciles E None r pool h result h' → adds (replicates cfg dry) h h'.
Proof using Hpaths.
  intros Hsc r Hr. eapply adds_weaken; [|by eapply reconciles_adds].
  intros e [He|(rel & He)]; [|by eapply fetch_at_replicates].
  eapply observes_replicates; [|exact He]. intros q ->%list_elem_of_singleton. closed_decide.
Qed.

Lemma audit_replicates sc root e : sc ∈ cfg_Secondaries cfg → root = git_ReposPath (site_Git sc) →
  audit_event root e → replicates cfg dry e.
Proof.
  intros Hsc -> [He|(repo & -> & Hpre)]; [|by apply (rep_fsck _ _ _ sc repo)].
  eapply observes_replicates; [|exact He]. intros q ->%list_elem_of_singleton. closed_decide.
Qed.
End paths.

(** ** Whole sweeps *)

Section sweep.
Context (E : Env) (ToLower : gostr → gostr) (url_Parse : gostr → res URL) (url_String : gostr → res gostr).
Context (with_query : gostr → gostr → gostr → gostr).
Context (json_token : gostr → res token_body) (json_catalog json_tags : gostr → res (list gostr)).
Context (range_set : gset gostr → list gostr) (pool_name : nat → gostr) (scan_float64 : sql_row → res spec_float).
Context {P : Type} (NewPaginator : lister → P) (HasMorePages : P → bool)
  (NextPage : P → IO (res (list (option Z)) * P)).
Context (LoadDefaultConfig : gostr → option error) (connect : nat → gostr → option error).

(** Listing a bucket is a sequence of GETs. *)
Context (NextPage_reads : ∀ p, Only (observes []) (NextPage p)).

(** The file system and the random generator keep their promises. *)
Context {HM : Machine E}.

Abbreviation rec_IO' := (rec_IO E url_String pool_name scan_float64 NewPaginator HasMorePages NextPage).
Abbreviation rec_runs' := (rec_runs E ToLower url_Parse url_String with_query json_token json_catalog json_tags
  range_set pool_name scan_float64 NewPaginator HasMorePages NextPage).
Abbreviation sweeps' := (sweeps E ToLower url_Parse url_String with_query json_token json_catalog json_tags
  range_set pool_name scan_float64 NewPaginator HasMorePages NextPage).
Abbreviation stats' := (stats NewPaginator HasMorePages NextPage).

Lemma stats_only Q li fn : (∀ p, Only Q (NextPage p)) → stats' li fn → Only Q fn.
Proof.
  intros HQ Hfn h. destruct (Hfn h) as [fuel Hb].
  assert (∀ p c s, Only Q (bucketStats HasMorePages NextPage fuel p c s)) as Honly.
  { clear -HQ. induction fuel as [|fuel IH]; intros p c s; cbn [bucketStats]; [apply _|].
    destruct (HasMorePages p); [|apply _]. apply only_bind; [done|intros [[contents|e] p']; [|apply _]].
    destruct (add_page contents c s). apply IH. }
  destruct (Honly (NewPaginator li) 0%Z 0%Z h) as (evs & He & Hf). rewrite Hb in He. by exists evs.
Qed.

Section built.
Context (cfg : Config) (dry : bool) (Hpaths : paths_ok cfg) (Hhost : plain_host (site_SSHHost (cfg_Primary cfg))).
Context (Hroot : git_Mode (site_Git (cfg_Primary cfg)) = "rsync" → git_ReposPath (site_Git (cfg_Primary cfg)) ≠ []).
Context (pgRec : pg_reconciler).

Definition from_build (r : site_rec) : Prop :=
  r = RecPG pgRec ∨ ∃ sc, sc ∈ cfg_Secondaries cfg ∧ site_built cfg sc dry r.

Lemma observe_only sqls {A} (m : IO A) : sqls ⊆ reading_sql → Only (observes sqls) m → Only (replicates cfg dry) m.
Proof. intros Hs. apply only_weaken. intros e. by apply observes_replicates. Qed.

Lemma rec_IO_replicates r m : from_build r → rec_IO' r m → Only (replicates cfg dry) m.
Proof using Hpaths Hhost Hroot NextPage_reads HM.
  intros Hb Hm. destruct Hm as [r|r|r|r p q Hp Hq|r].
  - apply (observe_only [recovery_sql; lag_sql]); [|apply _].
    intros x [->|[->|[]%elem_of_nil]%elem_of_cons]%elem_of_cons; closed_decide.
  - destruct Hb as [|(sc & Hsc & Hb)]; [done|]. inversion Hb; subst. apply rsync_replicates; auto.
  - destruct Hb as [|(sc & Hsc & Hb)]; [done|]. inversion Hb; subst. by apply fs_replicates.
  - apply (observe_only []); [by intros x ?%elem_of_nil|]. apply only_os_Reconcile; by eapply stats_only.
  - apply (observe_only []); [by intros x ?%elem_of_nil|apply _].
Qed.

Lemma rec_runs_replicates r s result s' : from_build r → rec_runs' r s result s' →
  adds (replicates cfg dry) (sw_hist s) (sw_hist s').
Proof using Hpaths Hhost Hroot NextPage_reads HM.
  intros Hb Hr. destruct Hr as [r m a h result h' Hm Hrun|r pool a h result h' Hp Hrun
    |site p s dr a h result c1 c2 h' c Hrun|r a h result h' Hrun]; cbn [sw_hist].
  - pose proof (rec_IO_replicates r m Hb Hm) as Ho. exact (only_adds _ m h result h' Ho Hrun).
  - destruct Hb as [|(sc & Hsc & Hb)]; [done|]. inversion Hb; subst. injection Hp as ->.
    by apply (fetch_replicates cfg Hpaths E dry sc) in Hrun.
  - apply (only_adds (observes [])) in Hrun; [|apply _]. eapply adds_weaken; [|exact Hrun].
    intros e. apply observes_replicates. by intros x ?%elem_of_nil.
  - destruct Hb as [|(sc & Hsc & Hb)]; [done|]. inversion Hb as [| | | | |p1 p2 site pct Heq|]; subst.
    destruct (secondary_root_cons cfg Hpaths sc Hsc) as [t Ht].
    destruct (con_Reconcile_audits E (mkCon p1 p2 site (git_ReposPath (site_Git sc)) pct) t h Ht) as (res & h2 & Hres & Hadds).
    rewrite Hrun in Hres. injection Hres as _ <-. eapply adds_weaken; [|exact Hadds].
    intros e. by eapply audit_replicates.
Qed.

Lemma sweeps_replicate recs s out s' : Forall from_build recs → sweeps' recs s out s' →
  out.*1 = recs ∧ adds (replicates cfg dry) (sw_hist s) (sw_hist s').
Proof using Hpaths Hhost Hroot NextPage_reads HM.
  intros Hb Hs. induction Hs as [s|r recs s result s1 out s2 Hr _ IH]; [done|].
  apply Forall_cons in Hb as [Hb Hbs]. destruct (IH Hbs) as [<- Hadds]. split; [done|].
  etrans; [by eapply rec_runs_replicates|done].
Qed.

Lemma rec_no_panic r h : ¬ rec_panics E r h.
Proof using HM.
  destruct r as [| | | | | |r|]; cbn [rec_panics]; [by intros ?..| |by intros ?]. pose proof (con_Reconcile_runs E r h) as Hcon.
  destruct (verdicts _ _ _ _) as [vs h1]. by destruct Hcon as (res & _ & _ & h2 & -> & _).
Qed.

(** Every reconciler returns. *)
Lemma rec_runs_total r s : (∀ li, ∃ fn, stats' li fn) → from_build r → ∃ result s', rec_runs' r s result s'.
Proof using HM.
  intros Hl Hb. destruct s as [a h].
  assert (∀ m, rec_IO' r m → ∃ result s', rec_runs' r (mkSweep a h) result s') as Hio.
  { intros m Hm. destruct (m h) as [result h'] eqn:Hrun. eexists _, _. by eapply runs_io. }
  destruct Hb as [->|(sc & Hsc & Hb)]; [by eapply Hio, io_pg|]. destruct Hb as [site Hm|site pool|r|site|site [p q]|p1 p2 site pct|r].
  - eapply Hio, io_rsync.
  - edestruct (reconciles_total E None) as (result & h' & Hrun). eexists _, _. by eapply runs_fetch.
  - destruct (Hl (os_primary r)) as [p Hp], (Hl (os_replica r)) as [q Hq]. by eapply Hio, io_s3.
  - eapply Hio, io_fs.
  - destruct (Registry.Reconcile E ToLower url_Parse with_query json_token json_catalog json_tags range_set
      (Registry.Name site) p q (mkRS (default (∅, ∅) (a !! site)).1 (default (∅, ∅) (a !! site)).2 h))
      as [result [c1 c2 h']] eqn:Hrun. eexists _, _. by eapply runs_registry.
  - pose proof (con_Reconcile_runs E (mkCon p1 p2 site (git_ReposPath (site_Git sc)) pct) h) as Hcon.
    destruct (verdicts _ _ _ _) as [vs h1]. destruct Hcon as (res & _ & _ & h2 & Hres & _).
    eexists _, _. eapply runs_consistency, Hres.
  - eapply Hio, io_api.
Qed.

Lemma sweeps_total recs s : (∀ li, ∃ fn, stats' li fn) → Forall from_build recs → ∃ out s', sweeps' recs s out s'.
Proof using HM.
  intros Hl Hb. revert s. induction Hb as [|r recs Hr _ IH]; intros s; [eexists _, _; constructor|].
  destruct (rec_runs_total r s Hl Hr) as (result & s1 & Hrun). destruct (IH s1) as (out & s2 & Hs).
  eexists _, _. by econstructor.
Qed.
End built.

(** C4: a sweep replicates one way, and a dry one changes nothing.  Take a
    configuration that [validate] accepted, without a warning about a path,
    with a directory for the repositories of each secondary and no blank blob
    path, and with a primary's host that is not an IPv6 address; and the
    reconcilers that [buildReconcilers] makes of it.  However the hosts,
    databases, registries, buckets and file systems answer, whatever is
    drawn ([Machine] says what a walk and a draw are), and however the fetches interleave, a sweep runs every reconciler,
    none of which panics, and does nothing but read queries, GETs, waits and
    metrics; [rsync] from the primary's configured directories to local
    directories of a secondary; [git fetch] from the primary into a
    repository below a secondary's root; and [git fsck] there.  With
    [--dry-run], every [rsync] has [--dry-run] and nothing is fetched.  And
    in each of these environments a sweep has a run to its end, when the
    listings of the buckets end. *)
Theorem sweep_one_way cfg0 cfg dry s recs pgRec s' :
  validate url_Parse cfg0 = Ok cfg → paths_ok cfg → plain_host (site_SSHHost (cfg_Primary cfg)) →
  buildReconcilers ToLower url_Parse LoadDefaultConfig connect pool_name cfg dry s = (Ok (recs, pgRec), s') →
  ∀ st,
    (∀ out st', sweeps' recs st out st' →
       out.*1 = recs ∧ ∃ evs, sw_hist st' = sw_hist st ++ evs ∧ Forall (replicates cfg dry) evs) ∧
    (∀ r h, r ∈ recs → ¬ rec_panics E r h) ∧
    ((∀ li, ∃ fn, stats' li fn) → ∃ out st', sweeps' recs st out st').
Proof using NextPage_reads HM.
  intros [Hv ->]%validate_Ok Hpaths Hhost Hbuilt%buildReconcilers_built st. split; [|split].
  - assert (git_Mode (site_Git (cfg_Primary cfg0)) = "rsync" → git_ReposPath (site_Git (cfg_Primary cfg0)) ≠ []) as Hroot.
    { intros Hm. destruct (v_mode _ _ Hv) as [Hf|[_ Hne]]; [by rewrite Hm in Hf|done]. }
    intros out st' Hs. exact (sweeps_replicate (apply_defaults cfg0) dry Hpaths Hhost Hroot pgRec recs st out st' Hbuilt Hs).
  - intros r h _. apply rec_no_panic.
  - intros Hl. exact (sweeps_total (apply_defaults cfg0) dry pgRec recs st Hl Hbuilt).
Qed.
End sweep.

(** ** Runs *)

(** A mirror by rsync with the file storage backend; the secondary's
    directory of repositories is given. *)
Definition ex_mirror (secondary_root : gostr) : Config :=
  let site s root := Build_SiteConfig (site_Name s) (site_ExternalURL s) (site_Postgres s)
    (Build_GitStorage "rsync" root true) (Build_ObjectStoreConfig "fs" None ["/srv/uploads"]) None (site_SSHHost s) in
  Build_Config (site (cfg_Primary ex_two_fs) "/srv/git")
    ((λ s, site s secondary_root) <$> take 1 (cfg_Secondaries ex_two_fs))
    (cfg_Sync ex_two_fs) (cfg_Metrics ex_two_fs) (cfg_Log ex_two_fs) [] None None None (cfg_SSH ex_two_fs).

Definition ex_mirror_build (root : gostr) (dry : bool) : res (list site_rec * pg_reconciler) * pools :=
  buildReconcilers ToLowerASCII ex_parse (λ _, None) (λ _ _, None) (λ i, Itoa (Z.of_nat i))
    (apply_defaults (ex_mirror root)) dry (mkPools 0 ∅).

(** The first run of [rsync] of a history: its last two arguments. *)
Definition rsync_ends (h : history) : option (list gostr) :=
  head (omap (λ e, match e with EvExec _ args _ _ => Some (drop (length args - 2) args) | _ => None end) h).

(** A secondary without a [repos_path] is accepted, without even a warning;
    the reconciler then mirrors the primary's repositories into the root of
    the file system, deleting what is not among them. *)
Example blank_destination_is_root :
  validate ex_parse (ex_mirror []) = Ok (apply_defaults (ex_mirror [])) ∧
  validatePaths (ex_mirror []) = [] ∧
  match (ex_mirror_build [] false).1 with
  | Ok (_ :: RecRsync r :: _, _) => rsync_ends (gr_Reconcile ex_rsync_env r []).2 = Some ["root@eu:/srv/git/"; "/" : gostr]
  | _ => False
  end.
Proof. vm_compute. split_and!; reflexivity. Qed.

Lemma ex_mirror_paths : paths_ok (apply_defaults (ex_mirror "/srv/git")).
Proof.
  split; [vm_compute; reflexivity| |closed_decide].
  intros sc ->%list_elem_of_singleton. discriminate.
Qed.

#[export] Instance ex_rsync_machine : Machine ex_rsync_env.
Proof. split; cbn; [intros; constructor|lia]. Qed.

Lemma sweep_one_way_witness :
  match ex_mirror_build "/srv/git" true with
  | (Ok (recs, _), _) => ∀ out st',
      sweeps ex_rsync_env ToLowerASCII ex_parse Ok (λ r _ _, r) (λ _, Err errNoRows) (λ _, Err errNoRows) (λ _, Err errNoRows)
        elements (λ i, Itoa (Z.of_nat i)) (λ _, Err errNoRows) (λ _ : lister, [[Some 5%Z]]) ex_more ex_page recs (mkSweep ∅ []) out st' →
      out.*1 = recs ∧ ∃ evs, sw_hist st' = [] ++ evs ∧ Forall (replicates (apply_defaults (ex_mirror "/srv/git")) true) evs
  | _ => False
  end.
Proof.
  assert (validate ex_parse (ex_mirror "/srv/git") = Ok (apply_defaults (ex_mirror "/srv/git"))) as Hv
    by (vm_compute; reflexivity).
  assert (∀ p, Only (observes []) (ex_page p)) as Hpage.
  { intros [|? p] h; exists []; rewrite app_nil_r; split; done. }
  assert (plain_host (site_SSHHost (cfg_Primary (apply_defaults (ex_mirror "/srv/git"))))) as Hh.
  { intros ep Hep. vm_compute in Hep. injection Hep as <-. closed_decide. }
  assert (is_Ok (ex_mirror_build "/srv/git" true).1 = true) as Hok by (vm_compute; reflexivity).
  unfold ex_mirror_build in *. destruct (buildReconcilers _ _ _ _ _ _ _ _) as [[[recs pgRec]|e] s'] eqn:Eb; [|discriminate Hok].
  intros out st' Hs.
  pose proof (sweep_one_way ex_rsync_env ToLowerASCII ex_parse Ok (λ r _ _, r) (λ _, Err errNoRows) (λ _, Err errNoRows)
    (λ _, Err errNoRows) elements (λ i, Itoa (Z.of_nat i)) (λ _, Err errNoRows) (λ _ : lister, [[Some 5%Z]]) ex_more ex_page
    (λ _, None) (λ _ _, None) Hpage (ex_mirror "/srv/git") (apply_defaults (ex_mirror "/srv/git")) true _ recs pgRec s'
    Hv ex_mirror_paths Hh Eb (mkSweep ∅ [])) as [H _].
  exact (H out st' Hs).
Defined.
