(* ===== verification/Reports.v ===== *)
(** * Reports: the contract between the reconcilers and monitoring

    Every reconciler reports twice: through its [Result], which the runner
    logs, and through the metrics, which the SLA report and the alerts
    read.  This file states once what the two must have in common, proves
    it for each reconciler, and follows it through whole sweeps. *)
From Stdlib Require Import Ascii ZArith Lia SpecFloat.
From stdpp Require Import prelude strings gmap list.
From S2P Require Import Prelude World GoStrings GoPath SshExec ConfigData Config Reconciler LocalCmd Signals Rsync GitFetch.
From S2P Require Import Registry Consistency ApiValidator PostgresRec ObjectStorage Metrics Build Sweep.
Open Scope go_scope.

(** ** The contract *)

Section contract.
Context (alarm : event → Prop).

(** What a result and the signals [u] of its run have in common: a last-sync
    time is only set for the reconciler itself, and only with an OK; a
    failure raised an alarm, or says that the run was cancelled; a critical
    drift comes with a failure. *)
Record report_ok (name : gostr) (res : Result) (u : list event) : Prop := {
  rp_synced c : EvLastSync c ∈ u → c = name ∧ OK res = true;
  rp_failed : OK res = false → Exists alarm u ∨ Detail res = [FS "cancelled"];
  rp_critical c : EvDrift c "critical" ∈ u → OK res = false;
}.

Class Honest `{HasHistory St} (name : gostr) (m : ST St Result) : Prop := honest : Tells (report_ok name) m.

(** A report that says OK exactly when nothing went wrong. *)
Lemma counted_report name n u res : counted alarm 0 n u → OK res = bool_decide (n = 0%Z) → report_ok name res u.
Proof.
  intros [Hle Hs Ha Hc] Hok. split; rewrite ?Hok.
  - intros c He. by destruct (Hs c).
  - intros Hn%bool_decide_eq_false. left. apply Ha. lia.
  - intros c He%Hc. apply bool_decide_eq_false. lia.
Qed.
End contract.

(** The alarm of a failed replication check is the lag -1, that of every
    other failure is a drift. *)
Definition no_lag (e : event) : Prop := match e with EvPGLag _ None => True | _ => False end.

Definition alarm_of (r : site_rec) : event → Prop := match r with RecPG _ => no_lag | _ => is_drift end.

(** Goals [report_ok] about a known result and known signals. *)
Ltac solve_report :=
  cbn; split; cbn [OK Detail];
  [ intros ?c; rewrite ?elem_of_cons, elem_of_nil; intros ?He; destruct_or?; simplify_eq; done
  | first [ discriminate | intros _; left; repeat constructor; fail | intros _; by right ]
  | intros ?c; rewrite ?elem_of_cons, elem_of_nil; intros ?He; destruct_or?; simplify_eq; done ].

Lemma counted_drift n c severity : counted is_drift n (n + 1) [EvDrift c severity].
Proof. by apply counted_alarm. Qed.

Create HintDb signals.
#[export] Hint Resolve counted_nil counted_drift : signals.

(** ** The reconcilers *)

Section reconcilers.
Context (E : Env).

#[export] Instance honest_rsync r : gr_runner r = None → Honest is_drift (gr_name r) (gr_Reconcile E r).
Proof. intros Hr. unfold Honest, gr_Reconcile. rewrite Hr. solve_tells; solve_report. Qed.

Lemma fs_loop_tells r pairs n : fs_runner r = None →
  Tells (λ o u, ∃ k, counted is_drift (n_failed n) k u ∧ ∀ n', o = Some n' → k = n_failed n') (fs_loop E r pairs n).
Proof.
  intros Hr. revert n. induction pairs as [|pr pairs IH]; intros n; cbn [fs_loop].
  { apply tells_ret. exists (n_failed n). split; [auto with signals|by intros n' [= <-]]. }
  apply tells_silent; [apply _|intros [e|]].
  { apply tells_ret. exists (n_failed n). split; [auto with signals|done]. }
  apply tells_silent.
  { unfold rsyncPath. rewrite Hr. solve_only. }
  intros [u|e]; [exact (IH (mkCounts _ _ _))|]. destruct (errors_Is e _); (eapply tells_step; [reflexivity|intros _]).
  - eapply tells_weaken; [|apply IH]. intros o u (k & Hc & Hk). exists k. split; [|done].
    eapply counted_app; [|exact Hc]. by apply counted_notice.
  - eapply tells_weaken; [|apply IH]. intros o u (k & Hc & Hk). exists k. split; [|done].
    eapply counted_app; [|exact Hc]. apply counted_drift.
Qed.

#[export] Instance honest_fs r : fs_runner r = None → Honest is_drift (fs_name r) (fs_Reconcile E r).
Proof.
  intros Hr. unfold Honest, fs_Reconcile. case_bool_decide; [apply tells_ret; solve_report|].
  eapply tells_bind; [by apply fs_loop_tells|]. intros [n|] t (k & Hc & Hk).
  - rewrite (Hk n eq_refl) in Hc. eapply tells_step; [reflexivity|intros _].
    destruct (Z.ltb_spec 0 (n_failed n)); cbn [n_failed] in *.
    + apply tells_ret. rewrite app_nil_r. eapply counted_report; [exact Hc|]. cbn. symmetry. apply bool_decide_eq_false. lia.
    + eapply tells_step; [reflexivity|intros _]. apply tells_ret. destruct Hc as [_ Hs _ Hcr]. split.
      * intros c [He|He]%elem_of_app; [by destruct (Hs c)|]. apply list_elem_of_singleton in He. by injection He as ->.
      * done.
      * intros c [He|He]%elem_of_app; [apply Hcr in He; cbn in He; lia|]. by apply list_elem_of_singleton in He.
  - apply tells_ret. rewrite app_nil_r. destruct Hc as [_ Hs _ _]. split; [|by right|done].
    intros c He. by destruct (Hs c).
Qed.

Lemma honest_s3 name primary replica : Only silent primary → Only silent replica →
  Honest is_drift name (os_Reconcile E name primary replica).
Proof.
  intros Hp Hq. unfold Honest, os_Reconcile. apply tells_silent; [by apply silent_Retry|intros [[? ?]|?]].
  - apply tells_silent; [by apply silent_Retry|intros [[? ?]|?]]; solve_tells; solve_report.
  - solve_tells; solve_report.
Qed.

(** *** Loops over tables, endpoints and secondaries *)

Lemma compare_endpoints_tells url_String r eps a :
  Tells (λ a' u, counted is_drift (av_drifts a) (av_drifts a') u) (compare_endpoints E url_String r eps a).
Proof.
  revert a. induction eps as [|[path label] eps IH]; intros a; cbn [compare_endpoints]; [apply tells_ret; auto with signals|].
  eapply tells_bind.
  - instantiate (1 := λ a' u, counted is_drift (av_drifts a) (av_drifts a') u).
    unfold compare_endpoint, fetchCount. solve_tells; cbn; auto with signals.
  - intros a' t Ht. eapply tells_weaken; [|apply IH]. intros a2 u Hu. exact (counted_app _ _ _ _ _ _ Ht Hu).
Qed.

#[export] Instance honest_api url_String r name : Honest is_drift name (api_Reconcile E url_String r).
Proof.
  unfold Honest, api_Reconcile. eapply tells_bind; [apply compare_endpoints_tells|]. intros a t Ht.
  apply tells_ret. rewrite app_nil_r. by eapply counted_report; [exact Ht|].
Qed.

(** The check of the replication counts from whether it is still OK. *)
Definition flag (ok : bool) : Z := if ok then 0 else 1.

Lemma check_one_tells pool_name scan_float64 r sc acc :
  Tells (λ acc' u, counted no_lag (flag acc.2) (flag acc'.2) u) (check_one E pool_name scan_float64 r sc acc).
Proof.
  destruct acc as [res ok]. unfold check_one, checkSecondary, QueryRow. cbn [snd].
  assert (counted no_lag (flag ok) (flag false) [EvPGLag (sc_name sc) None]) as Hf.
  { destruct ok; [exact (counted_alarm no_lag 0 (EvPGLag _ None) I (λ c, ltac:(done)))|by apply counted_notice]. }
  assert (∀ lag, counted no_lag (flag ok) (flag ok) [EvPGLag (sc_name sc) (Some lag)]) as Ho by (intros; by apply counted_notice).
  solve_tells; first [exact Hf | apply Ho].
Qed.

Lemma check_all_tells pool_name scan_float64 r scs acc :
  Tells (λ acc' u, counted no_lag (flag acc.2) (flag acc'.2) u) (check_all E pool_name scan_float64 r scs acc).
Proof.
  revert acc. induction scs as [|sc scs IH]; intros acc; cbn [check_all]; [apply tells_ret; auto with signals|].
  eapply tells_bind; [apply check_one_tells|].
  intros acc' t Ht. eapply tells_weaken; [|apply IH]. intros acc2 u Hu. exact (counted_app _ _ _ _ _ _ Ht Hu).
Qed.

#[export] Instance honest_pg pool_name scan_float64 r name : Honest no_lag name (pg_Reconcile E pool_name scan_float64 r).
Proof.
  unfold Honest, pg_Reconcile. eapply tells_bind; [apply check_all_tells|]. intros acc t Ht.
  apply tells_ret. rewrite app_nil_r. eapply counted_report; [exact Ht|]. cbn. by destruct acc.2.
Qed.
(** *** The consistency sweep *)

Lemma audit_tables_tells r tables a :
  Tells (λ a' u, counted is_drift (a_drifts a) (a_drifts a') u) (audit_tables E r tables a).
Proof.
  revert a. induction tables as [|table tables IH]; intros a; cbn [audit_tables]; [apply tells_ret; auto with signals|].
  eapply tells_bind.
  - instantiate (1 := λ a' u, counted is_drift (a_drifts a) (a_drifts a') u).
    unfold audit_table, rowCount. solve_tells; cbn; auto with signals.
  - intros a' t Ht. eapply tells_weaken; [|apply IH]. intros a2 u Hu. exact (counted_app _ _ _ _ _ _ Ht Hu).
Qed.

Lemma fsck_all_tells r repos n : Tells (λ n' u, counted is_drift n n' u) (fsck_all E r repos n).
Proof.
  revert n. induction repos as [|repo repos IH]; intros n; cbn [fsck_all]; [apply tells_ret; auto with signals|].
  apply tells_silent; [unfold gitFsck, execGitFsck, execCommand; solve_only|intros [|]; [apply IH|]].
  eapply tells_step; [reflexivity|intros _]. eapply tells_weaken; [|apply IH]. intros n' u Hu.
  exact (counted_app _ _ _ _ _ _ (counted_drift n _ _) Hu).
Qed.

Lemma sampleGitFsck_tells r :
  Tells (λ o u, ∀ n, o = Some n → counted is_drift 0 n u) (sampleGitFsck E r).
Proof.
  assert (∀ n, Some 0%Z = Some n → counted is_drift 0 n []) as H0 by (intros n [= <-]; apply counted_nil).
  unfold sampleGitFsck. destruct (_ || _); [by apply tells_ret|].
  apply tells_silent; [apply _|intros fs]. cbv zeta. case_bool_decide; [by apply tells_ret|].
  apply tells_silent; [apply _|intros Intn]. destruct (shuffle _ _ _ _) as [l|]; [|by apply tells_ret].
  eapply tells_bind; [apply fsck_all_tells|]. intros n t Ht. apply tells_ret. rewrite app_nil_r. by intros n' [= <-].
Qed.

Lemma con_Reconcile_tells r name :
  Tells (λ o u, ∀ res, o = Some res → report_ok is_drift name res u) (con_Reconcile E r).
Proof.
  unfold con_Reconcile. eapply tells_bind; [apply audit_tables_tells|]. intros a t Ht. cbv zeta.
  eapply tells_bind.
  - instantiate (1 := λ o u, ∀ n, o = Some n → counted is_drift 0 n u).
    case_bool_decide; [|apply sampleGitFsck_tells]. apply tells_ret. intros n [= <-]. apply counted_nil.
  - intros o u Hu. apply tells_ret. rewrite app_nil_r. destruct o as [n|]; [|done]. specialize (Hu n eq_refl).
    intros res [= <-]. apply (counted_report _ _ (a_drifts a + n)); [|done].
    eapply counted_app; [exact Ht|]. destruct Hu as [Hl Hs Ha Hc]. split; [lia|done|intros ?; apply Ha; lia|].
    intros c He%Hc. lia.
Qed.
End reconcilers.

(** *** The registry *)

#[export] Instance honest_registry E ToLower url_Parse with_query json_token json_catalog json_tags range_set name p s :
  Honest is_drift name
    (Registry.Reconcile E ToLower url_Parse with_query json_token json_catalog json_tags range_set name p s).
Proof. unfold Honest, Registry.Reconcile. solve_tells; solve_report. Qed.

(** *** The fetches *)

Lemma reconciles_tells E r pool h res h' : reconciles E None r pool h res h' →
  ∃ evs, h' = h ++ evs ∧ report_ok is_drift (gf_name r) res (signals evs).
Proof.
  assert (∀ x h1, listProjects E pool h = (x, h1) → h1 = h ++ [EvSQL pool list_sql []]) as Hl.
  { intros x h1. unfold listProjects, mbind, ST_bind, io_sql. by intros [= _ <-]. }
  intros Hr. destruct Hr as [err h1 ->%Hl|h1 ->%Hl|projects h1 s result h2 ->%Hl _ Hs _ Hf].
  - eexists. rewrite <- app_assoc. split; [done|]. solve_report.
  - eexists. split; [done|]. solve_report.
  - apply pool_run_adds in Hs as (evs & Hh & Hev). cbn [pool_start gp_hist] in Hh.
    assert (signals evs = []) as Hq.
    { apply signals_silent. eapply Forall_impl; [exact Hev|]. intros e (rel & _ & ep & cmd & p & _ & _ & _ & ->). done. }
    unfold finish in Hf. rewrite Hh in Hf. rewrite <- !app_assoc in Hf.
    destruct (0 <? gp_failed s)%Z; injection Hf as <- <-; (eexists; split; [done|]);
      rewrite signals_cons, !signals_app, Hq; solve_report.
Qed.

(** ** Sweeps *)

Definition is_get (e : event) : Prop := match e with EvGet _ _ => True | _ => False end.

(** The report of one reconciler of the set. *)
Definition reported (r : site_rec) (res : Result) (u : list event) : Prop := report_ok (alarm_of r) (rec_Name r) res u.

(** The signals of a run of the loop that gave the results [out]: those of
    each reconciler, in order. *)
Definition sent (out : list (site_rec * Result)) (u : list event) : Prop :=
  ∃ parts, u = mjoin parts ∧ Forall2 (λ p t, reported p.1 p.2 t) out parts.

Lemma sent_nil : sent [] [].
Proof. by exists []. Qed.

Lemma sent_app out1 out2 t u : sent out1 t → sent out2 u → sent (out1 ++ out2) (t ++ u).
Proof. intros (p1 & -> & F1) (p2 & -> & F2). exists (p1 ++ p2). split; [by rewrite join_app|by apply Forall2_app]. Qed.

Lemma sent_cons r res out t u : reported r res t → sent out u → sent ((r, res) :: out) (t ++ u).
Proof. intros Hr (p & -> & F). exists (t :: p). split; [done|by constructor]. Qed.

(** The text of the only result that fails without an alarm. *)
Definition was_cancelled (res : Result) : bool :=
  match Detail res with [FS s] => bool_decide (s = "cancelled") | _ => false end.

(** The failures that are told by a drift counter. *)
Definition drift_failure (p : site_rec * Result) : bool :=
  match p.1 with RecPG _ => false | _ => negb (OK p.2) && negb (was_cancelled p.2) end.

Lemma reported_alarm r res u : reported r res u → OK res = false → was_cancelled res = false → Exists (alarm_of r) u.
Proof. intros [_ Hf _] Hok Hc. destruct (Hf Hok) as [?|Hd]; [done|]. unfold was_cancelled in Hc. by rewrite Hd in Hc. Qed.

Lemma drift_failure_true r res : drift_failure (r, res) = true →
  alarm_of r = is_drift ∧ OK res = false ∧ was_cancelled res = false.
Proof.
  unfold drift_failure. cbn [fst snd]. destruct r; [done|..]; cbn [alarm_of];
    (destruct (OK res), (was_cancelled res)); done.
Qed.

Lemma drifts_of_failures out u : sent out u → length (List.filter drift_failure out) ≤ length (filter is_drift u).
Proof.
  intros (parts & -> & HF). induction HF as [|[r res] t out parts Hr _ IH]; [done|].
  change (mjoin (t :: parts)) with (t ++ mjoin parts). cbn [List.filter]. rewrite filter_app, length_app.
  destruct (drift_failure (r, res)) eqn:Ed; [|lia]. apply drift_failure_true in Ed as (Ha & Hok & Hc).
  pose proof (reported_alarm r res t Hr Hok Hc) as Hx. rewrite Ha in Hx. apply Exists_exists in Hx as (e & He & Hde).
  assert (e ∈ filter is_drift t) as Hin by by apply list_elem_of_filter.
  destruct (filter is_drift t); [by apply elem_of_nil in Hin|]. cbn [length]. lia.
Qed.

(** A last-sync time comes from an OK. *)
Lemma sync_of_ok out u c : sent out u → EvLastSync c ∈ u → ∃ r res, (r, res) ∈ out ∧ rec_Name r = c ∧ OK res = true.
Proof.
  intros (parts & -> & HF) (t & Ht & Hin)%list_elem_of_join. apply list_elem_of_lookup in Hin as [i Hi].
  destruct (Forall2_lookup_r _ _ _ _ _ HF Hi) as ([r res] & Hp & [Hs _ _]).
  destruct (Hs c Ht) as [-> Hok]. exists r, res. split; [by eapply list_elem_of_lookup_2|done].
Qed.

(** A failed replication check leaves a lag of -1. *)
Lemma lag_of_failure out u pg res : sent out u → (RecPG pg, res) ∈ out → OK res = false → was_cancelled res = false →
  ∃ s, EvPGLag s None ∈ u.
Proof.
  intros (parts & -> & HF) [i Hi]%list_elem_of_lookup Hok Hc.
  destruct (Forall2_lookup_l _ _ _ _ _ HF Hi) as (t & Ht & Hr).
  apply (reported_alarm _ _ _) in Hr; [|done..]. apply Exists_exists in Hr as (e & He & Hn).
  destruct e as [| | | | | | |s [v|]]; try done. exists s. apply list_elem_of_join. exists t. split; [done|].
  by eapply list_elem_of_lookup_2.
Qed.

Section sweep.
Context (E : Env) (ToLower : gostr → gostr) (url_Parse : gostr → res URL) (url_String : gostr → res gostr).
Context (with_query : gostr → gostr → gostr → gostr).
Context (json_token : gostr → res token_body) (json_catalog json_tags : gostr → res (list gostr)).
Context (range_set : gset gostr → list gostr) (pool_name : nat → gostr) (scan_float64 : sql_row → res spec_float).
Context {P : Type} (NewPaginator : lister → P) (HasMorePages : P → bool)
  (NextPage : P → IO (res (list (option Z)) * P)).

(** Listing a bucket is a sequence of GETs. *)
Context (NextPage_gets : ∀ p, Only is_get (NextPage p)).
Context (cfg : Config) (dry : bool) (pgRec : pg_reconciler).

Abbreviation rec_runs' := (rec_runs E ToLower url_Parse url_String with_query json_token json_catalog json_tags
  range_set pool_name scan_float64 NewPaginator HasMorePages NextPage).
Abbreviation sweeps' := (sweeps E ToLower url_Parse url_String with_query json_token json_catalog json_tags
  range_set pool_name scan_float64 NewPaginator HasMorePages NextPage).

Lemma stats_silent li fn : stats NewPaginator HasMorePages NextPage li fn → Only silent fn.
Proof using NextPage_gets.
  apply stats_only. intros p. eapply only_weaken; [|apply NextPage_gets]. by intros [].
Qed.

Lemma rec_runs_reported r s res s' : from_build cfg dry pgRec r → rec_runs' r s res s' →
  ∃ evs, sw_hist s' = sw_hist s ++ evs ∧ reported r res (signals evs).
Proof using NextPage_gets.
  intros Hb Hr. destruct Hr as [r m a h res h' Hm Hrun|r pool a h res h' Hp Hrun
    |site p s dr a h res c1 c2 h' c Hrun|r a h res h' Hrun]; cbn [sw_hist].
  - assert (Honest (alarm_of r) (rec_Name r) m) as Hm'; [|by apply (tells_run _ _ _ _ _ Hm')].
    destruct Hm as [r|r|r|r p q Hp Hq|r]; [apply _| | |apply honest_s3; by eapply stats_silent|apply _].
    + destruct Hb as [|(sc & _ & Hb)]; [done|]. apply honest_rsync. by inversion Hb.
    + destruct Hb as [|(sc & _ & Hb)]; [done|]. apply honest_fs. by inversion Hb.
  - by apply reconciles_tells in Hrun.
  - apply (tells_run _ _ _ _ _ (honest_registry _ _ _ _ _ _ _ _ _ _ _) Hrun).
  - destruct (tells_run _ _ _ _ _ (con_Reconcile_tells E r (con_name r)) Hrun) as (evs & He & Hrep).
    exists evs. split; [done|]. by apply Hrep.
Qed.

Lemma sweeps_sent recs s out s' : Forall (from_build cfg dry pgRec) recs → sweeps' recs s out s' →
  ∃ evs, sw_hist s' = sw_hist s ++ evs ∧ sent out (signals evs).
Proof using NextPage_gets.
  intros Hb Hs. induction Hs as [s|r recs s result s1 out s2 Hr _ IH].
  { exists []. rewrite app_nil_r. split; [done|apply sent_nil]. }
  apply Forall_cons in Hb as [Hb Hbs]. destruct (IH Hbs) as (e2 & -> & H2).
  destruct (rec_runs_reported _ _ _ _ Hb Hr) as (e1 & -> & H1).
  exists (e1 ++ e2). rewrite signals_app. split; [by rewrite app_assoc|by apply sent_cons].
Qed.
End sweep.
