(* ===== verification/Cli.v ===== *)
(** * cmd/syncctl: the commands

    Each command loads the configuration and composes the components.
    Signals and deadlines are part of the environment; what a command prints
    is part of its result.  A command takes its flags as arguments; the table
    of flags is in Commands.v. *)
From Stdlib Require Import Ascii ZArith Lia SpecFloat.
From stdpp Require Import prelude strings gmap list.
From S2P Require Import Prelude World GoStrings SshExec ConfigData Config Dsn DbKey ReadOnly Registry Reconciler Logging.
From S2P Require Import Failover PostgresRec ObjectStorage Webhook PgSetup Doctor Sla Metrics InitCmd Build Sweep.
Open Scope go_scope.

(** ** The code *)

Record globalFlags := mkFlags {
  configPath : gostr;
  logLevel : gostr;
  logFormat : gostr;
  dryRun : bool;
  allowLiteralSecrets : bool;
}.

Section cli.
Context (getenv : gostr → option gostr) (url_Parse : gostr → res URL).
Context (readFile : gostr → res gostr) (decode : gostr → res Config) (ToLower : gostr → gostr).

Definition loadConfig (g : globalFlags) : outcome (Config * log_state) :=
  o_bind (Load getenv url_Parse readFile decode (allowLiteralSecrets g) (configPath g)) (λ cfg,
    let lvl := if bool_decide (logLevel g = []) then log_Level (cfg_Log cfg) else logLevel g in
    let fmt := if bool_decide (logFormat g = []) then log_Format (cfg_Log cfg) else logFormat g in
    Returns (Ok (cfg, ConfigureWith ToLower lvl fmt (log_RedactProjectPaths (cfg_Log cfg))))).

(** [cfg, err := loadConfig(g)] and the return on error. *)
Definition with_config {S A} (g : globalFlags) (k : Config → ST S (res A)) : ST S (outcome A) :=
  match loadConfig g with
  | Panics msg => mret (Panics msg)
  | Returns (Err err) => mret (Returns (Err err))
  | Returns (Ok (cfg, _)) => r ← k cfg; mret (Returns r)
  end.

(** *** config-validate *)

Definition line (l : list frag) : list frag := l ++ [FS [LF]].

Definition validate_summary (cfg : Config) : list frag :=
  line [FS "primary: "; FS (site_Name (cfg_Primary cfg)); FS " ("; FS (site_ExternalURL (cfg_Primary cfg)); FS ")"] ++
  line [FS "secondaries: "; FZ (Z.of_nat (length (cfg_Secondaries cfg)))] ++
  mjoin ((λ s, line [FS "  - "; FS (site_Name s); FS " ("; FS (site_ExternalURL s); FS ")"]) <$> cfg_Secondaries cfg) ++
  line [FS "git mode: "; FS (git_Mode (site_Git (cfg_Primary cfg)))] ++
  line [FS "object storage backend: "; FS (os_Backend (site_ObjectStore (cfg_Primary cfg)))] ++
  line [FS "sweep interval: "; FD (sync_SweepInterval (cfg_Sync cfg))] ++
  line [FS "failover enabled: "; FS (fmt_bool (sync_FailoverEnabled (cfg_Sync cfg)))] ++
  line [FS "read-only secondary: "; FS (fmt_bool (sync_ReadOnlySecondary (cfg_Sync cfg)))] ++
  match cfg_APIValidator cfg with
  | Some v => line [FS "api validator: enabled="; FS (fmt_bool (api_Enabled v))]
  | None => []
  end ++
  match cfg_Webhook cfg with Some w => line [FS "webhook receiver: "; FS (wh_Addr w)] | None => [] end ++
  match cfg_Failover cfg with
  | Some f => line [FS "failover: auto="; FS (fmt_bool (fo_AutoFailover f)); FS " quorum="; FZ (fo_QuorumRequired f);
                    FS " dns="; FS (fo_DNSPlugin f)]
  | None => []
  end ++
  line [FS "metrics addr: "; FS (met_Addr (cfg_Metrics cfg))].

Definition config_validate_cmd (g : globalFlags) : IO (outcome (list frag)) :=
  with_config g (λ cfg, mret (Ok (validate_summary cfg))).

Section world.
Context (E : Env).

(** *** failover and adopt-as-secondary *)

Definition failover_run (cfg : Config) (dry : bool) (secondaryName : gostr) (confirm force : bool) : ST fstate err :=
  let secondaryName :=
    if bool_decide (secondaryName = []) then
      match cfg_Secondaries cfg with s :: _ => site_Name s | [] => secondaryName end
    else secondaryName in
  if bool_decide (secondaryName = []) then
    mret (Err (Errorf [FS "--secondary is required (no secondaries in config)"]))
  else if negb confirm && negb dry then mret (Err (Errorf [FS "failover requires --yes or --dry-run"]))
  else Promote E (SetForce (Failover.New cfg dry) force) secondaryName.

Definition failover_cmd (g : globalFlags) (secondaryName : gostr) (confirm force : bool) : ST fstate (outcome unit) :=
  with_config g (λ cfg, failover_run cfg (dryRun g) secondaryName confirm force).

Definition adopt_run (cfg : Config) (dry : bool) (oldPrimarySSH newPrimaryName : gostr) (wipe : bool) : IO err :=
  let oldPrimarySSH := if bool_decide (oldPrimarySSH = []) then site_SSHHost (cfg_Primary cfg) else oldPrimarySSH in
  if bool_decide (oldPrimarySSH = []) then
    mret (Err (Errorf [FS "--old-primary-ssh is required (or set primary.ssh_host in config)"]))
  else AdoptAsSecondary E (SetWipePGData (Failover.New cfg dry) wipe) oldPrimarySSH newPrimaryName.

Definition adopt_cmd (g : globalFlags) (oldPrimarySSH newPrimaryName : gostr) (wipe : bool) : IO (outcome unit) :=
  with_config g (λ cfg, adopt_run cfg (dryRun g) oldPrimarySSH newPrimaryName wipe).

(** *** pg setup *)

Section setup.
Context (ReadDir : gostr → res (list gostr)) (ReadFile : history → gostr → res gostr).
Context (WriteFile : history → gostr → gostr → option error).

Definition setup_options (cfg : Config) (dry : bool) (dataDir : gostr) (sc : SiteConfig) : Options :=
  let '(dsn, password) := ReplicationConnInfo (site_Postgres (cfg_Primary cfg)) in
  mkOptions dsn password dataDir (pg_SlotName (site_Postgres sc)) dry.

(** The error and what was printed. *)
Definition pg_setup_run (cfg : Config) (dry : bool) (dataDir secondaryName : gostr) : ST setup (err * list gostr) :=
  match findSecondary cfg secondaryName with
  | Err err => mret (Err err, [])
  | Ok sc =>
      if bool_decide (dataDir = []) then mret (Err (Errorf [FS "--data-dir is required"]), [])
      else setup_Run E ReadDir ReadFile WriteFile (setup_options cfg dry dataDir sc)
  end.

Definition pg_setup_cmd (g : globalFlags) (dataDir secondaryName : gostr) : ST setup (outcome (err * list gostr)) :=
  with_config g (λ cfg, r ← pg_setup_run cfg (dryRun g) dataDir secondaryName; mret (Ok r)).
End setup.

(** *** dbkey *)

Fixpoint dbkey_loop (primarySSH : gostr) (sites : list SiteConfig) : IO (list frag) :=
  match sites with
  | [] => mret []
  | s :: sites =>
      r ← DbKey.Check E primarySSH (site_SSHHost s);
      rest ← dbkey_loop primarySSH sites;
      mret ([FS "checking "; FS (site_Name s); FS " ... "] ++
            line (match r with Err err => [FS "MISMATCH: "; FV err] | Ok _ => [FS "OK"] end) ++ rest)
  end.

Definition dbkey_run (cfg : Config) : IO (res (list frag)) :=
  if bool_decide (cfg_Secondaries cfg = []) then mret (Err (Errorf [FS "no secondaries configured"]))
  else out ← dbkey_loop (site_SSHHost (cfg_Primary cfg)) (cfg_Secondaries cfg); mret (Ok out).

Definition dbkey_cmd (g : globalFlags) : IO (outcome (list frag)) := with_config g dbkey_run.

(** *** sla *)

Definition sla_cmd (NewRequest : gostr → option error) (parse : gostr → res (gmap gostr family))
    (range : gmap gostr family → list family) (clock : nat → Z) (g : globalFlags) (metricsURL : gostr)
    : IO (outcome (list frag)) :=
  if bool_decide (metricsURL = []) then
    with_config g (λ cfg, Generate E NewRequest parse range clock (DefaultMetricsURL (met_Addr (cfg_Metrics cfg))))
  else r ← Generate E NewRequest parse range clock metricsURL; mret (Returns r).

(** *** Commands that open connection pools *)

Section pooled.
Context (connect : nat → gostr → option error) (pool_name : nat → gostr) (scan_float64 : sql_row → res spec_float).
Context (LoadDefaultConfig : gostr → option error).
Context (reg : collector → option error) (already : error → bool).

Definition pg_status_run (cfg : Config) : D (res (list frag)) :=
  pgRec ← lift_pools (NewWithFactory connect cfg);
  match pgRec with
  | Err err => mret (Err err)
  | Ok pgRec =>
      result ← lift_io (pg_Reconcile E pool_name scan_float64 pgRec);
      _ ← lift_pools (pg_Close pgRec);
      mret (Ok (line [FS "postgres sync: ok="; FS (fmt_bool (OK result)); FS " lag="; FD (Lag result);
                      FS " remaining="; FZ (Remaining result)] ++
                line (FS "detail: " :: Detail result)))
  end.

Definition pg_status_cmd (g : globalFlags) : D (outcome (list frag)) := with_config g pg_status_run.

Definition doctor_run (cfg : Config) : D (DoctorResult * err) :=
  result ← RunWith E connect pool_name cfg Default;
  mret (result, if (0 <? Fail result)%Z
                then Err (Errorf [FS "doctor: "; FZ (Fail result); FS " checks failed"]) else nil_error).

Definition doctor_cmd (g : globalFlags) : D (outcome (DoctorResult * err)) :=
  with_config g (λ cfg, r ← doctor_run cfg; mret (Ok r)).

(** *** serve *)

(** What [serve] starts before it waits. *)
Record serving := mkServing {
  sv_metrics : gostr;
  sv_interval : Z;
  sv_recs : list site_rec;
  sv_webhook : option webhook_server;
  sv_failover : option Controller;
}.

Fixpoint enable_readonly (dry : bool) (sites : list SiteConfig) : IO err :=
  match sites with
  | [] => mret nil_error
  | s :: sites =>
      r ← Enable E (site_SSHHost s) dry;
      match r with
      | Err err => mret (Err (Errorf [FS "enable readonly on "; FS (site_Name s); FS ": "; FW err]))
      | Ok _ => enable_readonly dry sites
      end
  end.

(** After [buildReconcilers], up to the wait; on an error the deferred
    cleanup runs. *)
Definition serve_with (cfg : Config) (dry : bool) (recs : list site_rec) : IO (res serving) :=
  ro ← (if sync_ReadOnlySecondary (cfg_Sync cfg) then enable_readonly dry (cfg_Secondaries cfg) else mret nil_error);
  mret (match ro with
        | Err err => Err err
        | Ok _ =>
            let fo := match cfg_Failover cfg with
                      | Some _ => if sync_FailoverEnabled (cfg_Sync cfg) then Some (Failover.New cfg dry) else None
                      | None => None
                      end in
            let serving wh := mkServing (met_Addr (cfg_Metrics cfg)) (sync_SweepInterval (cfg_Sync cfg)) recs wh fo in
            match cfg_Webhook cfg with
            | None => Ok (serving None)
            | Some w =>
                match buildWebhookServer w recs with
                | Err err => Err (Errorf [FS "webhook server: "; FW err])
                | Ok srv => Ok (serving (Some srv))
                end
            end
        end).

Definition serve_start (cfg : Config) (dry : bool) : D (res (serving * pg_reconciler)) :=
  match Register reg already with
  | Err err => mret (Err err)
  | Ok _ =>
      built ← lift_pools (buildReconcilers ToLower url_Parse LoadDefaultConfig connect pool_name cfg dry);
      match built with
      | Err err => mret (Err (Errorf [FS "build reconcilers: "; FW err]))
      | Ok (recs, pgRec) =>
          s ← lift_io (serve_with cfg dry recs);
          match s with
          | Err err => _ ← lift_pools (pg_Close pgRec); mret (Err err)
          | Ok s => mret (Ok (s, pgRec))
          end
      end
  end.

Definition serve_cmd (g : globalFlags) : D (outcome (serving * pg_reconciler)) :=
  with_config g (λ cfg, serve_start cfg (dryRun g)).

(** *** sync *)

Definition sync_line (r : site_rec) (result : Result) : list frag :=
  line ([FS "["; FS (if OK result then "OK" else "DRIFT"); FS "] "; FS (rec_Name r); FS ": "] ++ Detail result ++
        [FS " (lag="; FD (Lag result); FS ", repaired="; FZ (Repaired result);
         FS ", remaining="; FZ (Remaining result); FS ")"]).

Section sync.
Context (url_String : gostr → res gostr) (with_query : gostr → gostr → gostr → gostr).
Context (json_token : gostr → res token_body) (json_catalog json_tags : gostr → res (list gostr)).
Context (range_set : gset gostr → list gostr).
Context {P : Type} (NewPaginator : lister → P) (HasMorePages : P → bool)
  (NextPage : P → IO (res (list (option Z)) * P)).

(** The runs of [sync]: a sweep is a relation, so the command is one. *)
Definition sync_run (cfg : Config) (dry : bool) (s : dstate) (r : res (list (list frag))) (s' : dstate) : Prop :=
  match Register reg already with
  | Err err => r = Err err ∧ s' = s
  | Ok _ =>
      match buildReconcilers ToLower url_Parse LoadDefaultConfig connect pool_name cfg dry (d_pools s) with
      | (Err err, p) => r = Err err ∧ s' = mkD (d_hist s) p
      | (Ok (recs, pgRec), p) => ∃ out st,
          sweeps E ToLower url_Parse url_String with_query json_token json_catalog json_tags range_set pool_name
            scan_float64 NewPaginator HasMorePages NextPage recs (mkSweep ∅ (d_hist s)) out st ∧
          r = Ok ((λ x, sync_line x.1 x.2) <$> out) ∧ s' = mkD (sw_hist st) (pg_Close pgRec p).2
      end
  end.

Definition sync_cmd (g : globalFlags) (s : dstate) (r : outcome (list (list frag))) (s' : dstate) : Prop :=
  match loadConfig g with
  | Panics msg => r = Panics msg ∧ s' = s
  | Returns (Err err) => r = Returns (Err err) ∧ s' = s
  | Returns (Ok (cfg, _)) => ∃ x, sync_run cfg (dryRun g) s x s' ∧ r = Returns x
  end.
End sync.
End pooled.
End world.
End cli.

(** *** init *)

(** The files written so far, with the terminal; [create] and [write] are
    the outcome of creating the file and of writing to it. *)
Definition exported_vars : list gostr := ["PG_CTRL_PASSWORD"; "PG_REPL_PASSWORD"; "SEC_REPL_PASSWORD"; "S3_AK"; "S3_SK"].

Definition export_line (v : gostr) : gostr := "     export " ++ v ++ "=..." ++ [LF].

(** What is printed when the file has been written. *)
Definition next_steps (outputPath : gostr) : gostr :=
  [LF] ++ "Config written to " ++ outputPath ++ [LF] ++
  [LF] ++ "Next steps:" ++ [LF] ++
  "  1. Export the required environment variables:" ++ [LF] ++
  mjoin (export_line <$> exported_vars) ++
  "  2. Run: syncctl doctor -c " ++ outputPath ++ [LF] ++
  "  3. Run: syncctl pg setup --secondary <name> --data-dir /var/opt/gitlab/postgresql/data" ++ [LF] ++
  "  4. Run: syncctl serve -c " ++ outputPath ++ [LF].

Definition init_cmd (create write : gostr → option error) (outputPath : gostr) : ST (terminal * list (gostr * gostr)) err :=
  λ '(t, files),
  let '(answers, t) := RunWithInput t in
  let outputPath := if bool_decide (outputPath = []) then "config.yaml" else outputPath in
  match create outputPath with
  | Some err => (Err (Errorf [FS "create "; FS outputPath; FS ": "; FW err]), (t, files))
  | None =>
      match write outputPath with
      | Some err => (Err err, (t, files ++ [(outputPath, [])]))
      | None =>
          (nil_error, (mkTerm (t_in t) (t_out t ++ next_steps outputPath),
                       files ++ [(outputPath, GenerateYAML answers)]))
      end
  end.

(** ** Lemmas *)

Lemma with_config_inv {S A} getenv url_Parse readFile decode ToLower g (k : Config → ST S (res A)) s r s' :
  with_config getenv url_Parse readFile decode ToLower g k s = (r, s') →
  (s' = s ∧ ∀ a, r ≠ Returns (Ok a)) ∨
  ∃ raw c0 c1 x, readFile (configPath g) = Ok raw ∧ decode raw = Ok c0 ∧ validate url_Parse c1 = Ok (apply_defaults c1) ∧
    k (apply_defaults c1) s = (x, s') ∧ r = Returns x.
Proof.
  unfold with_config, loadConfig, Load.
  destruct (readFile (configPath g)) as [raw|e] eqn:Er; [|by intros [= <- <-]; left].
  destruct (decode raw) as [c0|e] eqn:Ed; [|by intros [= <- <-]; left].
  destruct (enforceSecretsAreEnvRefs _ _ _) as [e|]; [by intros [= <- <-]; left|].
  destruct (resolveEnvInStruct getenv c0) as [[c1|e]|msg]; cbn [o_bind]; [|by intros [= <- <-]; left..].
  destruct (validate url_Parse c1) as [cfg|e] eqn:Ev; cbn [o_bind]; [|by intros [= <- <-]; left].
  pose proof Ev as [_ ->]%validate_Ok. unfold mbind, ST_bind. destruct (k _ s) as [x s1] eqn:Ek.
  intros [= <- <-]. right. by exists raw, c0, c1, x.
Qed.

Lemma Promote_dry E c name s : fc_dryRun c = true → (Promote E c name s).2 = s.
Proof.
  intros Hdry. unfold Promote. destruct (Failover.findSecondary c name); [|done].
  rewrite Hdry. cbn [negb andb]. by rewrite run_steps_skip.
Qed.

Lemma Adopt_dry E c old new h : fc_dryRun c = true → (AdoptAsSecondary E c old new h).2 = h.
Proof.
  intros Hdry. unfold AdoptAsSecondary. rewrite Hdry. cbn [negb andb]. destruct (ResolveNewPrimary c new); [|done].
  unfold mbind, ST_bind. rewrite run_steps_skip. unfold removeRemotePassfile. by rewrite Hdry.
Qed.

Lemma New_dry cfg dry : fc_dryRun (Failover.New cfg dry) = dry.
Proof. unfold Failover.New. by destruct (cfg_Failover cfg). Qed.

Lemma setup_dry E ReadDir ReadFile WriteFile opts s : DryRun opts = true →
  (setup_Run E ReadDir ReadFile WriteFile opts s).2 = s.
Proof.
  intros Hdry. unfold setup_Run. case_bool_decide; [done|]. case_bool_decide; [done|].
  destruct (checkDataDir _ _); [|done]. by rewrite Hdry.
Qed.

(** ** The destructive commands are gated *)

Section gates.
Context (getenv : gostr → option gostr) (url_Parse : gostr → res URL).
Context (readFile : gostr → res gostr) (decode : gostr → res Config) (ToLower : gostr → gostr).
Context (E : Env) (ReadDir : gostr → res (list gostr)) (ReadFile : history → gostr → res gostr).
Context (WriteFile : history → gostr → gostr → option error).

Lemma failover_run_quiet cfg dry name confirm force s : confirm = false ∨ dry = true →
  (failover_run E cfg dry name confirm force s).2 = s.
Proof.
  intros Hg. unfold failover_run. set (n := if bool_decide (name = []) then _ else name).
  case_bool_decide; [done|]. destruct (negb confirm && negb dry) eqn:Ec; [done|].
  apply Promote_dry. cbn. rewrite New_dry. destruct Hg as [->| ->]; [|done]. cbn in Ec. by apply negb_false_iff in Ec.
Qed.

(** C13: nothing destructive happens unasked.  Whatever the configuration
    file and the environment, [failover] without [--yes] or with
    [--dry-run] changes nothing and runs nothing, and without both it
    fails; [adopt-as-secondary] and [pg setup] with [--dry-run] run nothing
    and write nothing; and a command whose configuration does not load does
    nothing at all. *)
Theorem commands_gated g :
  (∀ name confirm force s, confirm = false ∨ dryRun g = true →
     (failover_cmd getenv url_Parse readFile decode ToLower E g name confirm force s).2 = s) ∧
  (∀ name force s, dryRun g = false → ∀ a,
     (failover_cmd getenv url_Parse readFile decode ToLower E g name false force s).1 ≠ Returns (Ok a)) ∧
  (dryRun g = true → ∀ old new wipe h,
     (adopt_cmd getenv url_Parse readFile decode ToLower E g old new wipe h).2 = h) ∧
  (dryRun g = true → ∀ dataDir name s,
     (pg_setup_cmd getenv url_Parse readFile decode ToLower E ReadDir ReadFile WriteFile g dataDir name s).2 = s) ∧
  ((∀ c, loadConfig getenv url_Parse readFile decode ToLower g ≠ Returns (Ok c)) → ∀ S A (k : Config → ST S (res A)) s,
     (with_config getenv url_Parse readFile decode ToLower g k s).2 = s).
Proof.
  split; [|split; [|split; [|split]]].
  - intros name confirm force s Hg. unfold failover_cmd.
    destruct (with_config _ _ _ _ _ g _ s) as [r s'] eqn:Ew. apply with_config_inv in Ew as [[-> _]|(_ & _ & c1 & x & _ & _ & _ & Hk & _)]; [done|].
    cbn. pose proof (failover_run_quiet (apply_defaults c1) (dryRun g) name confirm force s Hg) as Hq. by rewrite Hk in Hq.
  - intros name force s Hdry a. unfold failover_cmd.
    destruct (with_config _ _ _ _ _ g _ s) as [r s'] eqn:Ew. apply with_config_inv in Ew as [[_ Hr]|(_ & _ & c1 & x & _ & _ & _ & Hk & ->)]; [apply Hr|].
    cbn. revert Hk. unfold failover_run. case_bool_decide; [by intros [= <- <-]|]. rewrite Hdry. cbn. by intros [= <- <-].
  - intros Hdry old new wipe h. unfold adopt_cmd.
    destruct (with_config _ _ _ _ _ g _ h) as [r h'] eqn:Ew. apply with_config_inv in Ew as [[-> _]|(_ & _ & c1 & x & _ & _ & _ & Hk & _)]; [done|].
    cbn. revert Hk. unfold adopt_run. set (o := if bool_decide (old = []) then _ else old).
    case_bool_decide; [by intros [= _ <-]|]. intros Hk.
    pose proof (Adopt_dry E (SetWipePGData (Failover.New (apply_defaults c1) (dryRun g)) wipe) o new h) as Hq.
    rewrite Hk in Hq. apply Hq. cbn. by rewrite New_dry.
  - intros Hdry dataDir name s. unfold pg_setup_cmd.
    destruct (with_config _ _ _ _ _ g _ s) as [r s'] eqn:Ew. apply with_config_inv in Ew as [[-> _]|(_ & _ & c1 & x & _ & _ & _ & Hk & _)]; [done|].
    cbn. revert Hk. unfold mbind, ST_bind, pg_setup_run. destruct (findSecondary _ name) as [sc|e]; [|by intros [= _ <-]].
    case_bool_decide; [by intros [= _ <-]|]. destruct (setup_Run _ _ _ _ _ s) as [y s1] eqn:Es. intros [= _ <-].
    pose proof (setup_dry E ReadDir ReadFile WriteFile (setup_options (apply_defaults c1) (dryRun g) dataDir sc) s) as Hq.
    rewrite Es in Hq. by apply Hq.
  - intros Hl S A k s. unfold with_config. destruct (loadConfig _ _ _ _ _ g) as [[[cfg l]|e]|m]; [|done..].
    by destruct (Hl (cfg, l)).
Qed.
End gates.

(** ** The commands close what they open *)

Section close.
Context (getenv : gostr → option gostr) (url_Parse : gostr → res URL).
Context (readFile : gostr → res gostr) (decode : gostr → res Config) (ToLower : gostr → gostr).
Context (E : Env) (connect : nat → gostr → option error) (pool_name : nat → gostr).
Context (scan_float64 : sql_row → res spec_float) (LoadDefaultConfig : gostr → option error).
Context (reg : collector → option error) (already : error → bool).
Context (url_String : gostr → res gostr) (with_query : gostr → gostr → gostr → gostr).
Context (json_token : gostr → res token_body) (json_catalog json_tags : gostr → res (list gostr)).
Context (range_set : gset gostr → list gostr).
Context {P : Type} (NewPaginator : lister → P) (HasMorePages : P → bool)
  (NextPage : P → IO (res (list (option Z)) * P)).

Abbreviation sync_cmd' := (sync_cmd getenv url_Parse readFile decode ToLower E connect pool_name scan_float64
  LoadDefaultConfig reg already url_String with_query json_token json_catalog json_tags range_set
  NewPaginator HasMorePages NextPage).
Abbreviation opened s := (p_open (d_pools s)).

Lemma pg_status_closes cfg s : pools_ok (d_pools s) →
  opened (pg_status_run E connect pool_name scan_float64 cfg s).2 = opened s.
Proof.
  intros Hok. unfold pg_status_run, lift_pools, lift_io, mbind, ST_bind.
  destruct (NewWithFactory connect cfg (d_pools s)) as [r p1] eqn:En. apply NewWithFactory_open in En; [|done].
  destruct r as [pgRec|e]; [|done]. destruct En as (_ & _ & _ & Hc). cbn [d_hist d_pools].
  destruct (pg_Reconcile _ _ _ pgRec (d_hist s)) as [result h1]. cbn [d_pools].
  by destruct (pg_Close pgRec p1) as [u p2].
Qed.

Lemma sync_closes g s r s' : pools_ok (d_pools s) → sync_cmd' g s r s' → opened s' = opened s.
Proof.
  intros Hok. unfold sync_cmd.
  destruct (loadConfig _ _ _ _ _ g) as [[[cfg l]|e]|msg]; [|by intros [_ ->]..].
  intros (x & Hr & _). revert Hr. unfold sync_run. destruct (Register reg already); [|by intros [_ ->]].
  destruct (buildReconcilers _ _ _ _ _ cfg (dryRun g) (d_pools s)) as [b p1] eqn:Eb.
  apply buildReconcilers_open in Eb; [|done].
  destruct b as [[recs pgRec]|e]; [|by intros [_ ->]]. destruct Eb as (_ & _ & _ & Hc).
  by intros (out & st & _ & _ & ->).
Qed.

Lemma serve_closes cfg dry s r s' : pools_ok (d_pools s) →
  serve_start url_Parse ToLower E connect pool_name LoadDefaultConfig reg already cfg dry s = (r, s') →
  match r with
  | Err _ => opened s' = opened s
  | Ok (_, pgRec) => p_open (pg_Close pgRec (d_pools s')).2 = opened s
  end.
Proof.
  intros Hok. unfold serve_start. destruct (Register reg already); [|by intros [= <- <-]].
  unfold lift_pools, lift_io, mbind, ST_bind.
  destruct (buildReconcilers _ _ _ _ _ cfg dry (d_pools s)) as [b p1] eqn:Eb. apply buildReconcilers_open in Eb; [|done].
  destruct b as [[recs pgRec]|e]; [|by intros [= <- <-]]. destruct Eb as (_ & _ & _ & Hc). cbn [d_hist d_pools].
  destruct (serve_with E cfg dry recs (d_hist s)) as [[sv|e] h1]; [by intros [= <- <-]|]. cbn [d_pools].
  destruct (pg_Close pgRec p1) as [u p2]. by intros [= <- <-].
Qed.

(** C17: the commands close what they open.  However the databases, the
    hosts and the reconcilers behave, and whether or not they fail, [pg
    status], [sync] and [doctor] leave exactly the connection pools open
    that were open before; [serve] does so when it fails to start, and once
    started its cleanup closes exactly its own pools; and [doctor] fails
    exactly when a check failed. *)
Theorem commands_close_pools g s : pools_ok (d_pools s) →
  opened (pg_status_cmd getenv url_Parse readFile decode ToLower E connect pool_name scan_float64 g s).2 = opened s ∧
  (∀ r s', sync_cmd' g s r s' → opened s' = opened s) ∧
  opened (doctor_cmd getenv url_Parse readFile decode ToLower E connect pool_name g s).2 = opened s ∧
  (∀ r e, (doctor_cmd getenv url_Parse readFile decode ToLower E connect pool_name g s).1 = Returns (Ok (r, e)) →
     (e = nil_error ↔ Fail r = 0%Z)) ∧
  match serve_cmd getenv url_Parse readFile decode ToLower E connect pool_name LoadDefaultConfig reg already g s with
  | (Returns (Ok (_, pgRec)), s') => p_open (pg_Close pgRec (d_pools s')).2 = opened s
  | (_, s') => opened s' = opened s
  end.
Proof.
  intros Hok. split; [|split; [|split; [|split]]].
  - destruct (pg_status_cmd _ _ _ _ _ _ _ _ _ g s) as [r s'] eqn:Ew.
    apply with_config_inv in Ew as [[-> _]|(_ & _ & c1 & x & _ & _ & _ & Hk & _)]; [done|].
    pose proof (pg_status_closes (apply_defaults c1) s Hok) as Hc. by rewrite Hk in Hc.
  - intros r s'. by apply sync_closes.
  - destruct (doctor_cmd _ _ _ _ _ _ _ _ g s) as [r s'] eqn:Ew.
    apply with_config_inv in Ew as [[-> _]|(_ & _ & c1 & x & _ & _ & _ & Hk & _)]; [done|].
    revert Hk. unfold doctor_run, mbind, ST_bind.
    destruct (RunWith_spec E connect pool_name (apply_defaults c1) Default s Hok) as (l & s1 & -> & _ & Ho & _).
    by intros [= _ <-].
  - intros r e. destruct (doctor_cmd _ _ _ _ _ _ _ _ g s) as [r0 s'] eqn:Ew.
    apply with_config_inv in Ew as [[-> Hr]|(_ & _ & c1 & x & _ & _ & _ & Hk & ->)]; [intros Hx; by destruct (Hr (r, e))|].
    revert Hk. unfold doctor_run, mbind, ST_bind.
    destruct (RunWith_spec E connect pool_name (apply_defaults c1) Default s Hok) as (l & s1 & -> & _).
    cbn [Fail fst]. intros [= <- _] [= <- <-]. cbn [Fail]. pose proof (Zle_0_nat (length (filter (λ c, ck_Status c = "FAIL") l))) as Hpos.
    fold (count_status "FAIL" l) in Hpos. destruct (Z.ltb_spec 0 (count_status "FAIL" l)); split; try done; lia.
  - destruct (serve_cmd _ _ _ _ _ _ _ _ _ _ _ g s) as [r s'] eqn:Ew.
    apply with_config_inv in Ew as [[-> Hr]|(_ & _ & c1 & x & _ & _ & _ & Hk & ->)].
    + destruct r as [[[sv pgRec]|e]|m]; [by destruct (Hr (sv, pgRec))|done..].
    + apply serve_closes in Hk; [|done]. by destruct x as [[sv pgRec]|e].
Qed.
End close.

(** ** What the composition shows *)

(** The host-key settings of the configuration do not reach [dbkey],
    [doctor] and the read-only switch of [serve]: they use the default
    policy. *)
Definition with_ssh (cfg : Config) (ssh : SSHConfig) : Config :=
  Build_Config (cfg_Primary cfg) (cfg_Secondaries cfg) (cfg_Sync cfg) (cfg_Metrics cfg) (cfg_Log cfg) (cfg_ControlDB cfg)
    (cfg_Webhook cfg) (cfg_APIValidator cfg) (cfg_Failover cfg) ssh.

Lemma ssh_settings_ignored E connect pool_name cfg ssh :
  dbkey_run E (with_ssh cfg ssh) = dbkey_run E cfg ∧
  doctor_run E connect pool_name (with_ssh cfg ssh) = doctor_run E connect pool_name cfg ∧
  (∀ dry, enable_readonly E dry (cfg_Secondaries (with_ssh cfg ssh)) = enable_readonly E dry (cfg_Secondaries cfg)).
Proof. done. Qed.

Example strict_policy_not_used :
  let cfg := with_ssh ex_two (Build_SSHConfig "/etc/syncctl/known_hosts" "yes") in
  EffectiveStrictHostKeyChecking (SSHExecConfig cfg) = "yes" ∧
  head (dbkey_run (DbKey.ex_env ex_line) cfg []).2 = Some (EvExec "ssh"
    ["-o"; "StrictHostKeyChecking=accept-new"; "root@eu";
     "sudo grep 'db_key_base' /var/opt/gitlab/gitlab-rails/etc/secrets.yml 2>/dev/null || " ++ grep_cmd] [] None).
Proof. vm_compute. split; reflexivity. Qed.

(** The connection string of [pg setup] names the application itself, so a
    standby whose conninfo was copied from it keeps the name [syncctl]: the
    name given to [appendConnInfoAppname], which is the replication slot's
    and not the secondary's, is not used, and the lag query, which asks for
    the secondary's name, finds no row. *)
Lemma setup_conninfo_named p : Contains (ReplicationConnInfo p).1 "application_name=" = true.
Proof.
  apply Contains_true. unfold ReplicationConnInfo, dsnFrom. cbn [fst].
  rewrite bool_decide_eq_true_2 by done. generalize (JoinWith (render_pair <$> dsn_pairs p (pg_ReplicationUser p) None "replication") [SPC]).
  intros l. exists (l ++ [SPC]), "syncctl". rewrite <- app_assoc. reflexivity.
Qed.

Example setup_keeps_the_name :
  let sc := Build_SiteConfig "us" [] (Build_PostgresConfig "db" 5432 [] [] [] [] [] "slot_us" [] [] [] [])
    (Build_GitStorage [] [] false) (Build_ObjectStoreConfig [] None []) None [] in
  SlotName (setup_options ex_two false "/data" sc) = "slot_us" ∧
  new_conf "slot_us" "primary_conninfo = 'user=repl application_name=syncctl'" =
    "primary_conninfo = 'user=repl application_name=syncctl'" ++ [LF].
Proof. split; reflexivity. Qed.

(** [failover] without a name takes the first of several secondaries. *)
Example failover_takes_the_first :
  failover_run (DbKey.ex_env ex_line) ex_two true [] true false = Promote (DbKey.ex_env ex_line) (SetForce (Failover.New ex_two true) false) "us".
Proof. reflexivity. Qed.

(** ** Runs *)

Definition ex_flags (dry : bool) : globalFlags := mkFlags "config.yaml" [] "text" dry false.
Definition ex_read (_ : gostr) : res gostr := Ok "the file".
Definition ex_decode (_ : gostr) : res Config := Ok ex_two_fs.

Definition ex_status (connect : nat → gostr → option error) : outcome (list frag) * dstate :=
  pg_status_cmd ex_getenv ex_parse ex_read ex_decode ToLowerASCII PostgresRec.ex_pg_env connect (λ i, Itoa (Z.of_nat i))
    (λ _, Err errNoRows) (ex_flags false) (mkD [] (mkPools 0 ∅)).

(** The first secondary's pool is refused: the primary's is closed again. *)
Example status_example :
  p_next (d_pools (ex_status (λ _ _, None)).2) = 3 ∧ p_open (d_pools (ex_status (λ _ _, None)).2) = ∅ ∧
  let '(r, s) := ex_status (λ i _, if decide (i = 1) then Some (ErrExternal "refused") else None) in
  (match r with Returns (Err _) => true | _ => false end) = true ∧ p_next (d_pools s) = 2 ∧ p_open (d_pools s) = ∅.
Proof. vm_compute. split_and!; reflexivity. Qed.

Lemma commands_gated_witness :
  (failover_cmd ex_getenv ex_parse ex_read ex_decode ToLowerASCII (DbKey.ex_env ex_line) (ex_flags false) "us" false true (mkState false 0 [])).2
    = mkState false 0 [].
Proof.
  destruct (commands_gated ex_getenv ex_parse ex_read ex_decode ToLowerASCII (DbKey.ex_env ex_line) (λ _, Ok [])
    (λ _ _, Ok []) (λ _ _ _, None) (ex_flags false)) as [H _].
  apply H. left. reflexivity.
Defined.

Lemma commands_close_pools_witness :
  p_open (d_pools (ex_status (λ _ _, None)).2) = ∅.
Proof.
  destruct (commands_close_pools ex_getenv ex_parse ex_read ex_decode ToLowerASCII PostgresRec.ex_pg_env (λ _ _, None)
    (λ i, Itoa (Z.of_nat i)) (λ _, Err errNoRows) (λ _, None) (λ _, None) (λ _, false)
    Ok (λ r _ _, r) (λ _, Err errNoRows) (λ _, Err errNoRows) (λ _, Err errNoRows) elements (λ _, []) ex_more ex_page
    (ex_flags false) (mkD [] (mkPools 0 ∅)) (no_pools_ok 0)) as (H & _).
  exact H.
Defined.
