(* ===== verification/Commands.v ===== *)
(** * cmd/syncctl: the table of commands and flags

    What [newRootCmd] declares, as data, with the values that each command's
    body takes from its flags.  The parsing of a command line is cobra's; it
    is a parameter with the documented laws of long flags, shorthands and
    subcommands.  The command lines that the runbook prints are followed
    through the shell's words and this table to the bodies in Cli.v. *)
From Stdlib Require Import Ascii ZArith Lia SpecFloat.
From stdpp Require Import prelude strings gmap list.
From S2P Require Import Prelude World GoStrings ShellQuote ConfigData Config Failover InitCmd Build Cli Template Runbook.
Open Scope go_scope.

(** ** The code *)

Inductive flag_kind := FString (dflt : gostr) | FBool (dflt : bool).

Record flag := mkFlag { fl_name : gostr; fl_short : gostr; fl_kind : flag_kind }.

Definition StringVar (name dflt : gostr) : flag := mkFlag name [] (FString dflt).
Definition StringVarP (name short dflt : gostr) : flag := mkFlag name short (FString dflt).
Definition BoolVar (name : gostr) (dflt : bool) : flag := mkFlag name [] (FBool dflt).

(** The commands that run something. *)
Inductive cmd_id :=
| CVersion | CConfigValidate | CServe | CPGSetup | CPGStatus | CSync | CDBKey | CFailover | CAdopt
| CRunbook | CSLA | CDoctor | CInit.

#[export] Instance cmd_id_eq_dec : EqDecision cmd_id.
Proof. solve_decision. Defined.

(** [c_RunE] is [None] for a command that only groups others. *)
#[warnings="-register-all"]
Inductive command := mkCommand {
  c_Use : gostr;
  c_RunE : option cmd_id;
  c_Flags : list flag;
  c_Required : list gostr;
  c_Persistent : list flag;
  c_Commands : list command;
}.

Definition leaf (use : gostr) (id : cmd_id) (flags : list flag) (required : list gostr) : command :=
  mkCommand use (Some id) flags required [] [].

Definition newVersionCmd : command := leaf "version" CVersion [] [].
Definition newConfigValidateCmd : command := leaf "config-validate" CConfigValidate [] [].
Definition newServeCmd : command := leaf "serve" CServe [] [].
Definition newPGSetupCmd : command :=
  leaf "setup" CPGSetup [StringVar "data-dir" []; StringVar "secondary" []] ["secondary"].
Definition newPGStatusCmd : command := leaf "status" CPGStatus [] [].
Definition newPGCmd : command := mkCommand "pg" None [] [] [] [newPGSetupCmd; newPGStatusCmd].
Definition newSyncCmd : command := leaf "sync" CSync [] [].
Definition newDBKeyCmd : command := leaf "dbkey" CDBKey [] [].
Definition newFailoverCmd : command :=
  leaf "failover" CFailover [StringVar "secondary" []; BoolVar "yes" false; BoolVar "force" false] [].
Definition newAdoptCmd : command :=
  leaf "adopt-as-secondary" CAdopt
    [StringVar "old-primary-ssh" []; StringVar "new-primary" []; BoolVar "wipe-pgdata" false] [].
Definition newRunbookCmd : command := leaf "runbook" CRunbook [] [].
Definition newSLACmd : command := leaf "sla" CSLA [StringVar "metrics-url" []] [].
Definition newDoctorCmd : command := leaf "doctor" CDoctor [] [].
Definition newInitCmd : command := leaf "init" CInit [StringVarP "output" "o" "config.yaml"] [].

Definition newRootCmd : command :=
  mkCommand "syncctl" None [] []
    [StringVarP "config" "c" "config.yaml"; StringVar "log-level" []; StringVar "log-format" [];
     BoolVar "dry-run" false; BoolVar "allow-literal-secrets" false]
    [newVersionCmd; newConfigValidateCmd; newServeCmd; newPGCmd; newSyncCmd; newDBKeyCmd; newFailoverCmd;
     newAdoptCmd; newRunbookCmd; newSLACmd; newDoctorCmd; newInitCmd].

(** *** Values of flags *)

Record values := mkValues { v_str : gmap gostr gostr; v_bool : gmap gostr bool; v_set : gset gostr }.

Definition str (v : values) (n : gostr) : gostr := default [] (v_str v !! n).
Definition bool_of (v : values) (n : gostr) : bool := default false (v_bool v !! n).

Definition add_default (f : flag) (v : values) : values :=
  match fl_kind f with
  | FString d => mkValues (<[fl_name f := d]> (v_str v)) (v_bool v) (v_set v)
  | FBool d => mkValues (v_str v) (<[fl_name f := d]> (v_bool v)) (v_set v)
  end.

Definition defaults (fs : list flag) (v : values) : values := foldr add_default v fs.

Definition set_str (n x : gostr) (v : values) : values :=
  mkValues (<[n := x]> (v_str v)) (v_bool v) ({[n]} ∪ v_set v).
Definition set_bool (n : gostr) (b : bool) (v : values) : values :=
  mkValues (v_str v) (<[n := b]> (v_bool v)) ({[n]} ∪ v_set v).

(** [globalFlags], from the persistent flags. *)
Definition globals (v : values) : globalFlags :=
  mkFlags (str v "config") (str v "log-level") (str v "log-format") (bool_of v "dry-run")
    (bool_of v "allow-literal-secrets").

(** *** The bodies, with their flags *)

Section bodies.
Context (getenv : gostr → option gostr) (url_Parse : gostr → res URL).
Context (readFile : gostr → res gostr) (decode : gostr → res Config) (ToLower : gostr → gostr) (E : Env).

Definition failover_RunE (v : values) : ST fstate (outcome unit) :=
  failover_cmd getenv url_Parse readFile decode ToLower E (globals v)
    (str v "secondary") (bool_of v "yes") (bool_of v "force").

Definition adopt_RunE (v : values) : IO (outcome unit) :=
  adopt_cmd getenv url_Parse readFile decode ToLower E (globals v)
    (str v "old-primary-ssh") (str v "new-primary") (bool_of v "wipe-pgdata").

(** [runbook] prints what [Generate] writes. *)
Definition runbook_cmd (print_other : rval → gostr) (range_other : rval → res (list rval)) (g : globalFlags)
    : IO (outcome gostr) :=
  with_config getenv url_Parse readFile decode ToLower g (λ cfg, mret (Generate print_other range_other cfg)).
End bodies.

(** *** version *)

Record Info := mkInfo {
  i_Version : gostr; i_Commit : gostr; i_BuildDate : gostr; i_GoVersion : gostr; i_OS : gostr; i_Arch : gostr }.

(** The build-time variables may be overridden by the linker. *)
Definition default_build : gostr * gostr * gostr := ("0.0.0-dev", "unknown", "unknown").

Definition Current (build : gostr * gostr * gostr) (runtime_Version GOOS GOARCH : gostr) : Info :=
  mkInfo build.1.1 build.1.2 build.2 runtime_Version GOOS GOARCH.

Definition Info_String (i : Info) : gostr :=
  "syncctl " ++ i_Version i ++ " (commit=" ++ i_Commit i ++ ", built=" ++ i_BuildDate i ++ ", " ++
  i_OS i ++ "/" ++ i_Arch i ++ ")".

Definition version_cmd (build : gostr * gostr * gostr) (runtime_Version GOOS GOARCH : gostr) : gostr :=
  Info_String (Current build runtime_Version GOOS GOARCH) ++ [LF].

(** *** main *)

(** What [main] writes to the standard error and its exit status, for the
    result of [Execute]. *)
Definition main (r : err) : list frag * Z :=
  match r with
  | Ok _ => ([], 0%Z)
  | Err err => ([FS "error: "; FV err; FS [LF]], 1%Z)
  end.

(** ** Cobra *)

Definition find_flag (n : gostr) (fs : list flag) : option flag_kind :=
  fl_kind <$> List.find (λ f, bool_decide (fl_name f = n)) fs.
Definition find_short (s : gostr) (fs : list flag) : option flag :=
  List.find (λ f, bool_decide (fl_short f = s)) fs.
Definition find_command (w : gostr) (cs : list command) : option command :=
  List.find (λ c, bool_decide (c_Use c = w)) cs.

(** A parser of command lines: [cobra inherited c v args] runs on [args] at
    the command [c], whose ancestors have the persistent flags [inherited],
    with the values [v] so far. *)
Definition parser : Type := list flag → command → values → list gostr → res (cmd_id * values).

(** The flags that [c] accepts. *)
Definition in_scope (inherited : list flag) (c : command) : list flag := c_Flags c ++ c_Persistent c ++ inherited.

(** What cobra documents: subcommands come by name, [--name value] sets a
    string flag, [--name] a boolean one, [-s value] a shorthand; other long
    flags are errors; and a command runs when its required flags are set. *)
Class CobraLaws (cobra : parser) : Prop := {
  cobra_sub fs c v w args c' : find_command w (c_Commands c) = Some c' →
    cobra fs c v (w :: args) = cobra (c_Persistent c ++ fs) c' (defaults (c_Flags c' ++ c_Persistent c') v) args;
  cobra_string fs c v n d x args : c_Commands c = [] → find_flag n (in_scope fs c) = Some (FString d) →
    cobra fs c v (("--" ++ n) :: x :: args) = cobra fs c (set_str n x v) args;
  cobra_bool fs c v n d args : c_Commands c = [] → find_flag n (in_scope fs c) = Some (FBool d) →
    cobra fs c v (("--" ++ n) :: args) = cobra fs c (set_bool n true v) args;
  cobra_short fs c v s n d x args : c_Commands c = [] → length s = 1 → s ≠ "-" →
    find_short s (in_scope fs c) = Some (mkFlag n s (FString d)) →
    cobra fs c v (("-" ++ s) :: x :: args) = cobra fs c (set_str n x v) args;
  cobra_unknown fs c v n args : c_Commands c = [] → find_flag n (in_scope fs c) = None →
    n ≠ [] → n ≠ "help" → "="%char ∉ n → is_Ok (cobra fs c v (("--" ++ n) :: args)) = false;
  cobra_run fs c v id : c_RunE c = Some id → (∀ n, n ∈ c_Required c → n ∈ v_set v) → cobra fs c v [] = Ok (id, v);
  cobra_required fs c v n : n ∈ c_Required c → n ∉ v_set v → is_Ok (cobra fs c v []) = false;
}.

(** [newRootCmd().Execute()] on the words after the program's name. *)
Definition Execute_root (cobra : parser) (args : list gostr) : res (cmd_id * values) :=
  cobra [] newRootCmd (defaults (c_Persistent newRootCmd) (mkValues ∅ ∅ ∅)) args.

(** ** The command lines *)

Definition failover_args (name confirm : gostr) : list gostr := ["failover"; "--secondary"; name; "--" ++ confirm].
Definition adopt_args (host : gostr) (new_primary : option gostr) : list gostr :=
  ["adopt-as-secondary"; "--old-primary-ssh"; host] ++
  match new_primary with Some n => ["--new-primary"; n] | None => [] end.

Definition command_line (args : list gostr) : gostr := JoinWith ("syncctl" :: args : list gostr) [SPC].

(** The flags without [-c] and with or without [--dry-run]. *)
Definition default_globals (dry : bool) : globalFlags := mkFlags "config.yaml" [] [] dry false.

Section lines.
Context (cobra : parser) `{!CobraLaws cobra}.

Lemma run_failover_line name confirm b : (confirm, b) ∈ [("yes" : gostr, true); ("dry-run" : gostr, false)] →
  ∃ v, Execute_root cobra (failover_args name confirm) = Ok (CFailover, v) ∧
    globals v = default_globals (negb b) ∧ str v "secondary" = name ∧ bool_of v "yes" = b ∧ bool_of v "force" = false.
Proof.
  intros Hin. unfold Execute_root, failover_args.
  rewrite (cobra_sub _ _ _ "failover" _ newFailoverCmd) by reflexivity.
  change ("--secondary" : gostr) with ("--" ++ "secondary" : gostr).
  rewrite (cobra_string _ _ _ "secondary" []) by reflexivity.
  rewrite !elem_of_cons in Hin. destruct Hin as [[= -> ->]|[[= -> ->]|Hin]]; [| |by apply elem_of_nil in Hin];
    rewrite (cobra_bool _ _ _ _ false), (cobra_run _ _ _ CFailover) by (reflexivity || intros ? Hn; by apply elem_of_nil in Hn);
    eexists; (split; [reflexivity|]); split_and!; vm_compute; reflexivity.
Qed.

Lemma run_adopt_line host new_primary :
  ∃ v, Execute_root cobra (adopt_args host new_primary) = Ok (CAdopt, v) ∧
    globals v = default_globals false ∧ str v "old-primary-ssh" = host ∧
    str v "new-primary" = default [] new_primary ∧ bool_of v "wipe-pgdata" = false.
Proof.
  unfold Execute_root, adopt_args. cbn [app].
  rewrite (cobra_sub _ _ _ "adopt-as-secondary" _ newAdoptCmd) by reflexivity.
  change ("--old-primary-ssh" : gostr) with ("--" ++ "old-primary-ssh" : gostr).
  rewrite (cobra_string _ _ _ "old-primary-ssh" []) by reflexivity.
  destruct new_primary as [n|].
  - change ("--new-primary" : gostr) with ("--" ++ "new-primary" : gostr).
    rewrite (cobra_string _ _ _ "new-primary" []), (cobra_run _ _ _ CAdopt) by (reflexivity || intros ? Hn; by apply elem_of_nil in Hn).
    eexists; (split; [reflexivity|]); split_and!; vm_compute; reflexivity.
  - rewrite (cobra_run _ _ _ CAdopt) by (reflexivity || intros ? Hn; by apply elem_of_nil in Hn).
    eexists; (split; [reflexivity|]); split_and!; vm_compute; reflexivity.
Qed.

(** The text printed after a promotion names a flag that does not exist. *)
Lemma post_failover_flag_unknown name : is_Ok (Execute_root cobra ["adopt-as-secondary"; "--secondary"; name]) = false.
Proof.
  unfold Execute_root. rewrite (cobra_sub _ _ _ "adopt-as-secondary" _ newAdoptCmd) by reflexivity.
  change ("--secondary" : gostr) with ("--" ++ "secondary" : gostr).
  apply cobra_unknown; [reflexivity|reflexivity|discriminate|discriminate|]. closed_decide.
Qed.

End lines.

(** The words of a command line whose arguments are safe. *)
Definition safe_arg (w : gostr) : Prop := forallb (in_set safeChars) w = true ∧ w ≠ [].

Lemma safe_word w l : forallb (in_set safeChars) w = true → w ≠ [] → Forall safe_arg l → Forall safe_arg (w :: l).
Proof. intros H1 H2 Hl. by constructor. Qed.

Lemma safe_const w l : forallb (in_set safeChars) w && negb (bool_decide (w = [])) = true →
  Forall safe_arg l → Forall safe_arg (w :: l).
Proof. intros [H1 H2%negb_true_iff%bool_decide_eq_false]%andb_true_iff Hl. by constructor. Qed.

Lemma command_line_words args : Forall safe_arg args →
  shell_words (command_line args) = Some ("syncctl" :: args : list gostr).
Proof.
  intros Ha. apply shell_words_raw. constructor; [apply raw_word_safe; [reflexivity|discriminate]|].
  induction Ha as [|w args [Hs Hw] _ IH]; constructor; [by apply raw_word_safe|done].
Qed.

Lemma failover_line_command name : failover_line name = "    " ++ command_line (failover_args name "yes") ++ [LF].
Proof. unfold failover_line, command_line, failover_args. cbn. by rewrite <- !app_assoc. Qed.

Lemma adopt_line_command host several : adopt_line host several =
  "    " ++ command_line (adopt_args host (if several then Some ("<promoted-secondary>" : gostr) else None)) ++ [LF].
Proof. unfold adopt_line, command_line, adopt_args. destruct several; cbn; by rewrite <- ?app_assoc. Qed.

(** C15: the commands of the runbook do what the runbook says.  For a
    configuration with a secondary, when the first secondary's name and the
    primary's host are not empty and need no quoting, the failover line of the document is read by the shell and by cobra as
    the failover command with the first secondary and the confirmation,
    without force; with [--dry-run] in place of [--yes] it is the same
    command as a dry run; and the adopt-as-secondary line, with the name of
    the promoted secondary where it is asked for, is the role swap with
    that host and that secondary, keeping the old data directory. *)
Theorem runbook_commands_run cobra getenv url_Parse readFile decode ToLower E print_other range_other cfg s rest doc :
  CobraLaws cobra →
  cfg_Secondaries cfg = s :: rest → Generate print_other range_other cfg = Ok doc →
  isSafe (site_Name s) = true → site_Name s ≠ [] →
  isSafe (site_SSHHost (cfg_Primary cfg)) = true → site_SSHHost (cfg_Primary cfg) ≠ [] →
  let failover := failover_RunE getenv url_Parse readFile decode ToLower E in
  let adopt := adopt_RunE getenv url_Parse readFile decode ToLower E in
  let host := site_SSHHost (cfg_Primary cfg) in
  occurs ("    " ++ command_line (failover_args (site_Name s) "yes") ++ [LF]) doc ∧
  (∀ confirm dry, (confirm, dry) ∈ [("yes" : gostr, false); ("dry-run" : gostr, true)] →
    let args := failover_args (site_Name s) confirm in
    shell_words (command_line args) = Some ("syncctl" :: args : list gostr) ∧
    ∃ v, Execute_root cobra args = Ok (CFailover, v) ∧
      failover v = failover_cmd getenv url_Parse readFile decode ToLower E (default_globals dry)
                     (site_Name s) (negb dry) false) ∧
  occurs ("    " ++ command_line (adopt_args host
    (if several_secondaries cfg then Some ("<promoted-secondary>" : gostr) else None)) ++ [LF]) doc ∧
  (∀ promoted, (∀ n, promoted = Some n → isSafe n = true ∧ n ≠ []) →
    let args := adopt_args host promoted in
    shell_words (command_line args) = Some ("syncctl" :: args : list gostr) ∧
    ∃ v, Execute_root cobra args = Ok (CAdopt, v) ∧
      adopt v = adopt_cmd getenv url_Parse readFile decode ToLower E (default_globals false) host (default [] promoted) false).
Proof.
  intros Hlaws Hs Hgen Hn1 Hn2 Hh1 Hh2 failover adopt host.
  assert (doc = render cfg) as ->.
  { unfold Generate in Hgen. rewrite parse_runbook, runbook_renders in Hgen. by injection Hgen. }
  rewrite isSafe_bytes in Hn1, Hh1. split; [|split; [|split]].
  - rewrite <- failover_line_command. pose proof (render_failover cfg) as Hf.
    unfold firstSecondaryName in Hf. by rewrite Hs in Hf.
  - intros confirm dry Hin args. split.
    + apply command_line_words. unfold args, failover_args. apply safe_const; [reflexivity|].
      apply safe_const; [reflexivity|]. apply safe_word; [done..|].
      rewrite !elem_of_cons, elem_of_nil in Hin.
      destruct Hin as [[= -> _]|[[= -> _]|[]]]; (apply safe_const; [reflexivity|constructor]).
    + destruct (run_failover_line cobra (site_Name s) confirm (negb dry)) as (v & Hv & Hg & H1 & H2 & H3).
      { rewrite !elem_of_cons, elem_of_nil in Hin |- *. destruct Hin as [[= -> ->]|[[= -> ->]|[]]]; [by left|by right; left]. }
      exists v. split; [done|]. unfold failover, failover_RunE. by rewrite Hg, H1, H2, H3, negb_involutive.
  - rewrite <- adopt_line_command. exact (render_adopt cfg).
  - intros promoted Hp args. split.
    + apply command_line_words. unfold args, adopt_args. cbn [app].
      apply safe_const; [reflexivity|]. apply safe_const; [reflexivity|]. apply safe_word; [done..|].
      destruct promoted as [n|]; [|constructor]. destruct (Hp n eq_refl) as [Hs1 Hs2]. rewrite isSafe_bytes in Hs1.
      apply safe_const; [reflexivity|]. apply safe_word; [done..|constructor].
    + destruct (run_adopt_line cobra host promoted) as (v & Hv & Hg & H1 & H2 & H3).
      exists v. split; [done|]. unfold adopt, adopt_RunE. by rewrite Hg, H1, H2, H3.
Qed.

(** *** The next steps of the wizard *)

Definition on_file (w path : gostr) : list gostr := [w; "-c"; path].

Lemma run_on_file cobra `{!CobraLaws cobra} w id path : (w, id) ∈ [("doctor" : gostr, CDoctor); ("serve" : gostr, CServe)] →
  ∃ v, Execute_root cobra (on_file w path) = Ok (id, v) ∧ globals v = mkFlags path [] [] false false.
Proof.
  intros Hin. unfold Execute_root, on_file. rewrite !elem_of_cons, elem_of_nil in Hin.
  destruct Hin as [[= -> ->]|[[= -> ->]|[]]];
    [rewrite (cobra_sub _ _ _ "doctor" _ newDoctorCmd) by reflexivity
    |rewrite (cobra_sub _ _ _ "serve" _ newServeCmd) by reflexivity];
    change ("-c" : gostr) with ("-" ++ "c" : gostr);
    (rewrite (cobra_short _ _ _ "c" "config" "config.yaml") by (reflexivity || discriminate));
    (erewrite cobra_run by (reflexivity || intros ? Hn; by apply elem_of_nil in Hn));
    (eexists; split; [reflexivity|]); vm_compute; reflexivity.
Qed.

Lemma export_line_printed v path : v ∈ exported_vars → occurs (export_line v) (next_steps path).
Proof.
  intros Hv. unfold next_steps. set (rest := ("  2. Run: syncctl doctor -c " : gostr) ++ _).
  apply list_elem_of_split in Hv as (l1 & l2 & ->). rewrite fmap_app, fmap_cons, join_app_gostr.
  change (mjoin (export_line v :: (export_line <$> l2))) with (export_line v ++ mjoin (export_line <$> l2)).
  exists ([LF] ++ "Config written to " ++ path ++ [LF] ++ [LF] ++ "Next steps:" ++ [LF] ++
    "  1. Export the required environment variables:" ++ [LF] ++ mjoin (export_line <$> l1)),
    (mjoin (export_line <$> l2) ++ rest). by rewrite <- !app_assoc.
Qed.

Lemma step_line_printed w path : w ∈ ["doctor" : gostr; "serve"] →
  occurs (" Run: " ++ command_line (on_file w path) ++ [LF]) (next_steps path).
Proof.
  intros Hw. rewrite !elem_of_cons, elem_of_nil in Hw. unfold next_steps.
  set (exports := mjoin (export_line <$> exported_vars)).
  set (start := ([LF] ++ "Config written to " ++ path ++ [LF] ++ [LF] ++ "Next steps:" ++ [LF] ++
    "  1. Export the required environment variables:" ++ [LF] ++ exports : gostr)).
  assert (command_line (on_file w path) = "syncctl " ++ w ++ " -c " ++ path) as ->.
  { unfold command_line, on_file. cbn. reflexivity. }
  set (setup := ("  3. Run: syncctl pg setup --secondary <name> --data-dir /var/opt/gitlab/postgresql/data" ++ [LF] : gostr)).
  destruct Hw as [->|[->|[]]].
  - exists (start ++ "  2."), (setup ++ "  4. Run: syncctl serve -c " ++ path ++ [LF]).
    unfold start, setup. by rewrite <- !app_assoc.
  - exists (start ++ "  2. Run: syncctl doctor -c " ++ path ++ [LF] ++ setup ++ "  4."), [].
    unfold start, setup. by rewrite <- !app_assoc.
Qed.

(** C40: the wizard's file and its next steps.  When [init] succeeds it has
    written one file, the answers' configuration, at the path given (or at
    config.yaml).  Whatever was typed, its lines are exactly those of the
    template, an answer never filling more than its own line; every secret
    line refers to an environment variable, never an answer, and the printed
    text tells to export that variable; and for a path that needs no quoting
    the printed doctor and serve lines are read by the shell and by cobra
    as those commands on that very file, with every other flag unset. *)
Theorem init_next_steps cobra create write path t files t' files' :
  CobraLaws cobra →
  init_cmd create write path (t, files) = (nil_error, (t', files')) →
  let file := if bool_decide (path = []) then "config.yaml" else path in
  let '(answers, t1) := RunWithInput t in
  ∃ text, t_out t' = t_out t1 ++ text ∧ files' = files ++ [(file, GenerateYAML answers)] ∧
  SplitByte (GenerateYAML answers) LF = yaml_lines answers ++ [[]] ∧
  (∀ l, l ∈ yaml_lines answers → line_key l ∈ secret_keys →
     ∃ v, line_value l = "${" ++ v ++ "}" ∧ occurs (export_line v) text) ∧
  (isSafe file = true → ∀ w id, (w, id) ∈ [("doctor" : gostr, CDoctor); ("serve" : gostr, CServe)] →
     occurs (" Run: " ++ command_line (on_file w file) ++ [LF]) text ∧
     shell_words (command_line (on_file w file)) = Some ("syncctl" :: on_file w file : list gostr) ∧
     ∃ v, Execute_root cobra (on_file w file) = Ok (id, v) ∧ globals v = mkFlags file [] [] false false).
Proof.
  intros Hlaws Hi file. unfold init_cmd in Hi. pose proof (proj1 (wizard_file t)) as Hlines. destruct (RunWithInput t) as [answers t1]. fold file in Hi.
  destruct (create file); [done|]. destruct (write file); [done|]. injection Hi as <- <-.
  exists (next_steps file). split; [done|]. split; [done|]. split; [exact Hlines|]. split.
  - intros l Hl Hk. pose proof (yaml_secrets answers) as Hs. rewrite Forall_forall in Hs.
    pose proof (Hs l Hl Hk) as Hp.
    change placeholders with ((λ v : gostr, "${" ++ v ++ "}") <$> exported_vars) in Hp.
    apply list_elem_of_fmap in Hp as (v & Hv & Hin). exists v. split; [done|by apply export_line_printed].
  - intros Hf w id Hin. assert (w ∈ ["doctor" : gostr; "serve"]) as Hw.
    { clear -Hin. rewrite !elem_of_cons in Hin. destruct Hin as [[= -> _]|[[= -> _]|Hin]]; [by left|by right; left|].
      by apply elem_of_nil in Hin. }
    split; [by apply step_line_printed|]. split; [|by apply run_on_file].
    apply command_line_words. unfold on_file. rewrite isSafe_bytes in Hf.
    assert (file ≠ []) as Hne by (unfold file; case_bool_decide; done).
    rewrite !elem_of_cons, elem_of_nil in Hw. destruct Hw as [->|[->|[]]];
      (apply safe_const; [reflexivity|]; apply safe_const; [reflexivity|]; apply safe_word; [done..|constructor]).
Qed.

(** ** A parser with the laws *)

(** Long flags, shorthands and subcommands, as documented. *)
Fixpoint simple_cobra (fuel : nat) (fs : list flag) (c : command) (v : values) (args : list gostr)
    : res (cmd_id * values) :=
  match fuel with
  | O => Err (Errorf [FS "out of fuel"])
  | S fuel =>
      match args with
      | [] =>
          match c_RunE c with
          | Some id =>
              if forallb (λ n, bool_decide (n ∈ v_set v)) (c_Required c) then Ok (id, v)
              else Err (Errorf [FS "required flag(s) not set"])
          | None => Err (Errorf [FS "help"])
          end
      | w :: args =>
          match find_command w (c_Commands c) with
          | Some c' => simple_cobra fuel (c_Persistent c ++ fs) c' (defaults (c_Flags c' ++ c_Persistent c') v) args
          | None =>
              let scope := in_scope fs c in
              let string_flag n :=
                match args with
                | x :: args => simple_cobra (pred fuel) fs c (set_str n x v) args
                | [] => Err (Errorf [FS "flag needs an argument: "; FS w])
                end in
              match w with
              | "-"%char :: "-"%char :: n =>
                  match find_flag n scope with
                  | Some (FString _) => string_flag n
                  | Some (FBool _) => simple_cobra fuel fs c (set_bool n true v) args
                  | None => Err (Errorf [FS "unknown flag: "; FS w])
                  end
              | ["-"%char; s] =>
                  match find_short [s] scope with
                  | Some f => string_flag (fl_name f)
                  | None => Err (Errorf [FS "unknown shorthand flag: "; FS w])
                  end
              | _ => Err (Errorf [FS "unknown command "; FS w])
              end
          end
      end
  end.

Definition ex_cobra : parser := λ fs c v args, simple_cobra (S (length args)) fs c v args.

#[export] Instance ex_cobra_laws : CobraLaws ex_cobra.
Proof.
  split; unfold ex_cobra.
  - intros fs c v w args c' Hc. cbn [length]. generalize (S (length args)). intros k. cbn [simple_cobra]. by rewrite Hc.
  - intros fs c v n d x args Hc Hf. cbn [length]. generalize (S (length args)). intros k.
    cbn [simple_cobra app]. rewrite Hc. cbn [find_command List.find]. by rewrite Hf.
  - intros fs c v n d args Hc Hf. cbn [length]. generalize (S (length args)). intros k.
    cbn [simple_cobra app]. rewrite Hc. cbn [find_command List.find]. by rewrite Hf.
  - intros fs c v s n d x args Hc Hs Hd Hf. destruct s as [|b [|]]; try done.
    cbn [length]. generalize (S (length args)). intros k.
    cbn [simple_cobra app]. rewrite Hc. cbn [find_command List.find].
    rewrite Hf. cbn [fl_name pred]. assert (b ≠ "-"%char) as Hb by by intros ->. clear -Hb.
    destruct b as [[] [] [] [] [] [] [] []]; done.
  - intros fs c v n args Hc Hf Hn _ _. cbn [length simple_cobra app]. rewrite Hc. cbn. by rewrite Hf.
  - intros fs c v id Hr Hs. cbn [length simple_cobra]. rewrite Hr.
    assert (forallb (λ n, bool_decide (n ∈ v_set v)) (c_Required c) = true) as ->; [|done].
    apply forallb_forall. intros n Hn. apply bool_decide_eq_true_2, Hs. by apply list_elem_of_In.
  - intros fs c v n Hn Hns. cbn [length simple_cobra]. destruct (c_RunE c); [|done].
    destruct (forallb _ _) eqn:Ef; [|done]. rewrite forallb_forall in Ef.
    specialize (Ef n ltac:(by apply list_elem_of_In)). by apply bool_decide_eq_true in Ef.
Qed.

(** ** Examples *)

Lemma runbook_commands_run_witness :
  ∃ s rest, cfg_Secondaries ex_two_fs = s :: rest ∧
  ∃ v, Execute_root ex_cobra (failover_args (site_Name s) "yes") = Ok (CFailover, v) ∧
    failover_RunE ex_getenv ex_parse ex_read ex_decode ToLowerASCII Failover.ex_env v =
    failover_cmd ex_getenv ex_parse ex_read ex_decode ToLowerASCII Failover.ex_env (default_globals false)
      (site_Name s) true false.
Proof.
  destruct (cfg_Secondaries ex_two_fs) as [|s rest] eqn:Hs; [discriminate|]. exists s, rest. split; [reflexivity|].
  injection Hs as Hs1 Hs2.
  destruct (runbook_commands_run ex_cobra ex_getenv ex_parse ex_read ex_decode ToLowerASCII Failover.ex_env
    ex_print ex_range ex_two_fs s rest (render ex_two_fs)) as (_ & H & _).
  - exact ex_cobra_laws.
  - rewrite <- Hs1, <- Hs2. reflexivity.
  - unfold Generate. rewrite parse_runbook. apply runbook_renders.
  - rewrite <- Hs1. vm_compute. reflexivity.
  - rewrite <- Hs1. vm_compute. discriminate.
  - vm_compute. reflexivity.
  - vm_compute. discriminate.
  - destruct (H "yes" false ltac:(left)) as [_ Hv]. exact Hv.
Defined.

Lemma init_next_steps_witness :
  ∃ answers t files, init_cmd (λ _, None) (λ _, None) [] (mkTerm [] [], []) = (nil_error, (t, files)) ∧
  files = [("config.yaml" : gostr, GenerateYAML answers)] ∧
  ∃ v, Execute_root ex_cobra (on_file "serve" "config.yaml") = Ok (CServe, v) ∧
    globals v = mkFlags "config.yaml" [] [] false false.
Proof.
  destruct (init_cmd (λ _, None) (λ _, None) [] (mkTerm [] [], [])) as [r [t files]] eqn:Hi.
  assert (r = nil_error) as -> by (change r with (r, (t, files)).1; rewrite <- Hi; vm_compute; reflexivity).
  pose proof (init_next_steps ex_cobra _ _ [] _ _ t files ex_cobra_laws Hi) as H. cbv zeta in H.
  destruct (RunWithInput (mkTerm [] [])) as [answers t1]. destruct H as (text & _ & Hf & _ & _ & Hrun).
  exists answers, t, files. split; [reflexivity|]. split; [exact Hf|].
  destruct (Hrun eq_refl "serve" CServe ltac:(by right; left)) as (_ & _ & Hv). exact Hv.
Defined.

(** The command lines of the documentation, with the commands they run. *)
Definition documented : list (list gostr * cmd_id) :=
  [ (["config-validate"; "-c"; "config.yaml"], CConfigValidate);
    (["doctor"; "-c"; "config.yaml"], CDoctor);
    (["serve"; "-c"; "config.yaml"], CServe);
    (["sync"; "-c"; "config.yaml"], CSync);
    (["dbkey"; "-c"; "config.yaml"], CDBKey);
    (["sla"; "-c"; "config.yaml"], CSLA);
    (["runbook"; "-c"; "config.yaml"], CRunbook);
    (["init"; "-o"; "config.yaml"], CInit);
    (["pg"; "status"; "-c"; "config.yaml"], CPGStatus);
    (["pg"; "setup"; "--secondary"; "us"; "--data-dir"; "/var/opt/gitlab/postgresql/data"], CPGSetup);
    (["failover"; "--secondary"; "us"; "--dry-run"; "-c"; "config.yaml"], CFailover);
    (["adopt-as-secondary"; "--old-primary-ssh"; "eu:22"; "-c"; "config.yaml"], CAdopt) ].

Example documented_commands :
  Forall (λ x, match Execute_root ex_cobra x.1 with
               | Ok (id, v) => id = x.2 ∧ configPath (globals v) = "config.yaml"
               | Err _ => False
               end) documented.
Proof. repeat constructor; vm_compute; reflexivity. Qed.

(** [pg setup] without its required flag. *)
Example setup_needs_secondary : is_Ok (Execute_root ex_cobra ["pg"; "setup"; "--data-dir"; "/d"]) = false.
Proof. vm_compute. reflexivity. Qed.

Example version_example : version_cmd default_build "go1.24" "linux" "amd64" =
  "syncctl 0.0.0-dev (commit=unknown, built=unknown, linux/amd64)" ++ [LF].
Proof. reflexivity. Qed.
