(* ===== verification/Serve.v ===== *)
(** * cmd/syncctl: the life of [serve]

    [serve] starts up to four goroutines, each of which sends its result on a
    channel with a buffer of four, and waits for the context or for the first
    message.  The two HTTP listeners (internal/metrics and internal/webhook)
    have the same [Start]; the runner and the failover controller run their
    loops, [Reconciler.Run] and [Failover.Run].  The goroutines, the channel
    and the wait are a step relation. *)
From Stdlib Require Import Ascii ZArith Lia.
From stdpp Require Import prelude strings gmap list.
From S2P Require Import Prelude World ConfigData Config Reconciler Rsync Failover Consistency Build Sweep Cli.
Open Scope go_scope.

(** ** The code *)

(** The two outcomes of the [select] of [Start]: the context is done (the
    server is then shut down), or [ListenAndServe] returned. *)
Inductive select_case := CtxDone | Served (err : error).

Definition is_ErrServerClosed (err : error) : bool :=
  match err with ErrSentinel n => bool_decide (n = "http.ErrServerClosed") | _ => false end.

Definition Start (c : select_case) : option error :=
  match c with
  | CtxDone => None
  | Served err => if is_ErrServerClosed err then None else Some err
  end.

(** The webhook receiver's [Start] listens with TLS when [WithTLS] gave it a
    certificate; then its [select] is the same. *)
Inductive listen := ListenAndServe | ListenAndServeTLS (certFile keyFile : gostr).

Definition webhook_listens (s : webhook_server) : listen :=
  if serves_tls s then ListenAndServeTLS (ws_tlsCert s) (ws_tlsKey s) else ListenAndServe.

Definition webhook_Start (s : webhook_server) (outcome : listen → select_case) : option error :=
  Start (outcome (webhook_listens s)).

Inductive task := TMetrics | TRunner | TWebhook | TFailover.

#[export] Instance task_eq_dec : EqDecision task.
Proof. solve_decision. Defined.

(** The goroutines that [serve] starts. *)
Definition tasks (s : serving) : list task :=
  [TMetrics; TRunner] ++ (if sv_webhook s then [TWebhook] else []) ++ (if sv_failover s then [TFailover] else []).

(** What the main goroutine is doing. *)
Inductive main_phase :=
| Waiting                            (** in the [select] *)
| Stopping                           (** in [<-ctx.Done()] after a nil message *)
| Returned (err : option error)
| Crashed.                           (** a goroutine panicked *)

Record serve_state := mkServeState {
  ss_done : bool;                    (** the context *)
  ss_running : list task;
  ss_chan : list (option error);     (** [errCh], oldest message first *)
  ss_phase : main_phase;
}.

Definition errCh_capacity : nat := 4.

Section serve.
Context (sv : serving).

(** In the environment of a goroutine [ctx.Done()] is ready in a [select]
    only when the context, at [d], is done. *)
Definition follows_context (d : bool) (E : Env) : Prop := ∀ h iv, env_timer E h iv = false → d = true.

(** How a goroutine may end, with what it sends: the loops end when their
    function returns, whatever the reconcilers [ms] do and the health checks
    find. *)
Inductive ends (d : bool) : task → option error → Prop :=
| ends_metrics c : (c = CtxDone → d = true) → ends d TMetrics (Start c)
| ends_webhook w outcome : sv_webhook sv = Some w → (outcome (webhook_listens w) = CtxDone → d = true) →
    ends d TWebhook (webhook_Start w outcome)
| ends_runner E fuel ms h h' : follows_context d E →
    Reconciler.Run E fuel (sv_interval sv) ms h = (Some true, h') → ends d TRunner None
| ends_failover c E fuel s s' : sv_failover sv = Some c → follows_context d E →
    Failover.Run E fuel c s = (Some true, s') → ends d TFailover None.

(** How a goroutine may panic: in its loop, or in a reconciler. *)
Inductive panics : task → Prop :=
| panics_runner E fuel ms h h' : Reconciler.Run E fuel (sv_interval sv) ms h = (None, h') → panics TRunner
| panics_reconcile E r h : Machine E → r ∈ sv_recs sv → rec_panics E r h → panics TRunner
| panics_failover c E fuel s s' : sv_failover sv = Some c → Failover.Run E fuel c s = (None, s') → panics TFailover.

(** [serve] has not returned. *)
Definition live (p : main_phase) : Prop := p = Waiting ∨ p = Stopping.

(** When [serve] returns, or a goroutine panics, the process ends and all
    goroutines with it. *)
Inductive serve_step : serve_state → serve_state → Prop :=
| step_cancel l ch p : live p → serve_step (mkServeState false l ch p) (mkServeState true l ch p)
| step_panic d i t l ch p : live p → l !! i = Some t → panics t →
    serve_step (mkServeState d l ch p) (mkServeState d [] ch Crashed)
| step_end d i t e l ch p : live p → l !! i = Some t → ends d t e → length ch < errCh_capacity →
    serve_step (mkServeState d l ch p) (mkServeState d (delete i l) (ch ++ [e]) p)
| step_done l ch : serve_step (mkServeState true l ch Waiting) (mkServeState true [] ch (Returned None))
| step_error d l e ch : serve_step (mkServeState d l (Some e :: ch) Waiting) (mkServeState d [] ch (Returned (Some e)))
| step_nil d l ch : serve_step (mkServeState d l (None :: ch) Waiting) (mkServeState d l ch Stopping)
| step_stop l ch : serve_step (mkServeState true l ch Stopping) (mkServeState true [] ch (Returned None)).

Definition serve_init : serve_state := mkServeState false (tasks sv) [] Waiting.
End serve.

(** ** The loops *)

Lemma run_loop_ended E fuel iv ms h h' : run_loop E fuel iv ms h = (true, h') → ∃ h1, env_timer E h1 iv = false.
Proof.
  revert h. induction fuel as [|fuel IH]; intros h; cbn [run_loop]; [done|].
  unfold mbind, ST_bind, io_after. destruct (env_timer E h iv) eqn:Et; [|by exists h].
  destruct (sweep E ms _) as [log h1]. apply IH.
Qed.

Lemma watch_ended E fuel c s s' : watch E fuel c s = (true, s') → ∃ h1, env_timer E h1 (fc_checkInterval c) = false.
Proof.
  revert s. induction fuel as [|fuel IH]; intros s; cbn [watch]; [done|].
  unfold mbind, ST_bind. rewrite lift_run. unfold io_after. cbn [fst snd].
  destruct (env_timer E (fs_hist s) (fc_checkInterval c)) eqn:Et; [|by exists (fs_hist s)].
  destruct (check E c _) as [[] s1]. apply IH.
Qed.

(** A loop ends only when the context is done, and panics only without a
    positive interval. *)
Lemma loop_ends_done sv d t e : ends sv d t e → t = TRunner ∨ t = TFailover → d = true ∧ e = None.
Proof.
  intros [c _|w o _ _|E fuel ms h h' Hf Hr|c E fuel s s' _ Hf Hr] Hl; [by destruct Hl|by destruct Hl|split; [|done]..].
  - unfold Reconciler.Run in Hr. destruct (sv_interval sv <=? 0)%Z; [done|]. unfold mbind, ST_bind in Hr.
    destruct (sweep E ms h) as [log h1]. destruct (run_loop E fuel _ ms h1) as [b h2] eqn:El. injection Hr as -> ->.
    apply run_loop_ended in El as [h3 Ht]. by eapply Hf.
  - unfold Failover.Run in Hr. destruct (fc_checkInterval c <=? 0)%Z; [done|]. unfold mbind, ST_bind in Hr.
    destruct (watch E fuel c s) as [b s1] eqn:El. injection Hr as -> ->. apply watch_ended in El as [h3 Ht]. by eapply Hf.
Qed.

Lemma panics_interval sv t : panics sv t →
  (sv_interval sv ≤ 0)%Z ∨ ∃ c, sv_failover sv = Some c ∧ (fc_checkInterval c ≤ 0)%Z.
Proof.
  intros [E fuel ms h h' Hr|E r h HM _ Hp|c E fuel s s' Hc Hr].
  - left. unfold Reconciler.Run in Hr. destruct (Z.leb_spec (sv_interval sv) 0); [done|]. unfold mbind, ST_bind in Hr.
    destruct (sweep E ms h) as [log h1]. by destruct (run_loop E fuel _ ms h1).
  - by apply rec_no_panic in Hp.
  - right. exists c. split; [done|]. unfold Failover.Run in Hr. destruct (Z.leb_spec (fc_checkInterval c) 0); [done|].
    unfold mbind, ST_bind in Hr. by destruct (watch E fuel c s).
Qed.

(** ** The life of [serve] *)

Section life.
Context (sv : serving).

Lemma tasks_count : length (tasks sv) ≤ errCh_capacity.
Proof. unfold tasks, errCh_capacity. destruct (sv_webhook sv), (sv_failover sv); cbn; lia. Qed.

(** The error is what a listener returned. *)
Definition listener_error (e : error) : Prop := ∃ d t, (t = TMetrics ∨ t = TWebhook) ∧ ends sv d t (Some e).

(** What holds throughout. *)
Record serve_ok (s : serve_state) : Prop := {
  so_room : length (ss_running s) + length (ss_chan s) ≤ errCh_capacity;
  so_done : ss_phase s = Returned None → ss_done s = true;
  so_sent : ∀ e, Some e ∈ ss_chan s → listener_error e;
  so_error : ∀ e, ss_phase s = Returned (Some e) → listener_error e;
  so_crash : ss_phase s = Crashed → ∃ t, panics sv t;
  so_loops : live (ss_phase s) → ss_done s = false → TRunner ∈ ss_running s ∧ (TFailover ∈ tasks sv → TFailover ∈ ss_running s);
}.

Lemma init_ok : serve_ok (serve_init sv).
Proof.
  split; cbn [serve_init ss_running ss_chan ss_phase ss_done]; try done.
  - pose proof tasks_count. cbn [length]. lia.
  - by intros e ?%elem_of_nil.
  - intros _ _. split; [unfold tasks; right; left|done].
Qed.

Lemma elem_of_delete_ne {A} (l : list A) i x y : l !! i = Some x → y ≠ x → y ∈ l → y ∈ delete i l.
Proof.
  intros Hx Hne Hy. rewrite (delete_Permutation l i x Hx), elem_of_cons in Hy. by destruct Hy.
Qed.

Lemma step_end_ok d i t e l ch p : l !! i = Some t → ends sv d t e → length ch < errCh_capacity →
  serve_ok (mkServeState d l ch p) → serve_ok (mkServeState d (delete i l) (ch ++ [e]) p).
Proof.
  intros Hi He Hl [H1 H2 H3 H4 H5 H6]. cbn [ss_running ss_chan ss_phase ss_done] in *.
  split; cbn [ss_running ss_chan ss_phase ss_done]; try done.
  - rewrite length_app, length_delete by by eexists. pose proof (lookup_lt_Some _ _ _ Hi). cbn [length]. lia.
  - intros e' [Hin|Hin%list_elem_of_singleton]%elem_of_app; [by apply H3|subst e]. exists d, t. split; [|done].
    destruct t; [by left| |by right|]; by destruct (loop_ends_done _ _ _ _ He (ltac:(auto))) as [_ ?].
  - intros Hp Hd. destruct (H6 Hp Hd) as [Hr Hf].
    split; [|intros Hin; specialize (Hf Hin)]; (eapply elem_of_delete_ne; [exact Hi| |done]);
      intros <-; destruct (loop_ends_done _ _ _ _ He (ltac:(auto))) as [Hd' _]; by rewrite Hd' in Hd.
Qed.

Lemma serve_step_ok s s' : serve_step sv s s' → serve_ok s → serve_ok s'.
Proof.
  intros Hs Hok.
  destruct Hs as [l ch p Hp|d i t l ch p Hp Hi Ht|d i t e l ch p Hp Hi He Hl|l ch|d l e ch|d l ch|l ch];
    [| |by eapply step_end_ok| | | |]; destruct Hok as [H1 H2 H3 H4 H5 H6];
    cbn [ss_running ss_chan ss_phase ss_done length] in *; split;
    cbn [ss_running ss_chan ss_phase ss_done length] in *; try done; try lia; try (by intros [|]).
  - intros _. by exists t.
  - intros e' Hin. apply H3. by right.
  - intros e' [= <-]. apply H3. left.
  - intros e' Hin. apply H3. by right.
  - intros _. apply H6. by left.
Qed.

(** Every step uses something up. *)
Definition fuel_of (s : serve_state) : nat :=
  2 * length (ss_running s) + length (ss_chan s) + (if ss_done s then 0 else 1) +
  match ss_phase s with Waiting | Stopping => 1 | _ => 0 end.

Lemma serve_step_fuel s s' : serve_step sv s s' → fuel_of s' < fuel_of s.
Proof.
  intros Hs. destruct Hs as [l ch p Hp|d i t l ch p Hp Hi Ht|d i t e l ch p Hp Hi He Hl|l ch|d l e ch|d l ch|l ch];
    unfold fuel_of; cbn [ss_running ss_chan ss_phase ss_done length]; try lia.
  - destruct Hp as [->| ->]; lia.
  - rewrite length_app, length_delete by by eexists. pose proof (lookup_lt_Some _ _ _ Hi). cbn [length]. lia.
Qed.

Lemma serve_runs n s s' : nsteps (serve_step sv) n s s' → serve_ok s → serve_ok s' ∧ n + fuel_of s' ≤ fuel_of s.
Proof.
  induction 1 as [s|n s s1 s2 H12 _ IH]; intros Hok; [split; [done|lia]|].
  pose proof (serve_step_fuel _ _ H12). destruct (IH (serve_step_ok _ _ H12 Hok)). split; [done|lia].
Qed.

(** C29: the life of [serve].  In every run, of at most ten steps (ends of
    goroutines, messages and the end of the context): the channel has room
    for the message of each goroutine, so that none blocks when it sends; as
    long as [serve] has not returned and the context is not done, the runner
    and the failover controller are still in their loops; [serve] returns
    without an error only when the context is done, and with an error only
    when it is that of a listener; once the context is done, [serve] can
    return at once; and it crashes only when the interval of a ticker is not
    positive: no reconciler panics. *)
Theorem serve_life n s : nsteps (serve_step sv) n (serve_init sv) s →
  n ≤ 10 ∧
  (ss_running s ≠ [] → length (ss_chan s) < errCh_capacity) ∧
  (live (ss_phase s) → ss_done s = false →
     TRunner ∈ ss_running s ∧ (sv_failover sv ≠ None → TFailover ∈ ss_running s)) ∧
  (ss_phase s = Returned None → ss_done s = true) ∧
  (∀ e, ss_phase s = Returned (Some e) → listener_error e) ∧
  (ss_done s = true → live (ss_phase s) → ∃ s', serve_step sv s s' ∧ ss_phase s' = Returned None) ∧
  (ss_phase s = Crashed → (sv_interval sv ≤ 0)%Z ∨ ∃ c, sv_failover sv = Some c ∧ (fc_checkInterval c ≤ 0)%Z).
Proof.
  intros Hn. pose proof tasks_count as Ht. destruct (serve_runs _ _ _ Hn init_ok) as [[H1 H2 H3 H4 H5 H6] Hf].
  split; [|split; [|split; [|split; [|split; [|split]]]]]; try done.
  - unfold fuel_of, errCh_capacity in *. cbn in Hf, Ht. lia.
  - intros Hne. destruct (ss_running s); [done|]. cbn in H1. lia.
  - intros Hp Hd. destruct (H6 Hp Hd) as [Hr Hfo]. split; [done|]. intros Hne. apply Hfo. unfold tasks.
    destruct (sv_failover sv); [|done]. rewrite !elem_of_app. right. right. left.
  - intros Hd [Hp|Hp]; destruct s as [d l ch p]; cbn in *; subst; eexists; (split; [constructor|done]).
  - intros Hc. destruct (H5 Hc) as [t Hp]. by eapply panics_interval.
Qed.
End life.

(** With a valid configuration, the receiver that [serve] builds listens with
    TLS exactly when a certificate or a key is given, and then with both. *)
Lemma webhook_listens_tls url_Parse cfg cfg' w recs wh :
  validate url_Parse cfg = Ok cfg' → cfg_Webhook cfg = Some w → buildWebhookServer w recs = Ok wh →
  webhook_listens wh =
    (if bool_decide (wh_TLSCert w = [] ∧ wh_TLSKey w = []) then ListenAndServe
     else ListenAndServeTLS (wh_TLSCert w) (wh_TLSKey w)).
Proof.
  intros Hv Hw Hb. apply validate_Ok in Hv as [Hv _]. pose proof (v_tls _ _ Hv _ Hw) as Htls. clear Hv.
  unfold buildWebhookServer, Webhook.NewServer in Hb. case_bool_decide; [done|].
  unfold webhook_listens, serves_tls. repeat case_bool_decide; injection Hb as <-; cbn in *; try done; naive_solver.
Qed.

(** A negative interval is accepted; the runner then crashes [serve]. *)
Example negative_interval_crashes :
  let cfg := Build_Config (cfg_Primary ex_two_fs) (cfg_Secondaries ex_two_fs)
    (Build_SyncConfig (-1) 0 0 false false (SpecFloat.S754_zero false)) (cfg_Metrics ex_two_fs) (cfg_Log ex_two_fs) []
    None None None (cfg_SSH ex_two_fs) in
  let sv := mkServing [] (sync_SweepInterval (cfg_Sync (apply_defaults cfg))) [] None None in
  validate ex_parse cfg = Ok (apply_defaults cfg) ∧
  ∃ s, serve_step sv (serve_init sv) s ∧ ss_phase s = Crashed.
Proof.
  cbv zeta. split; [vm_compute; reflexivity|].
  exists (mkServeState false [] [] Crashed). split; [|reflexivity].
  apply (step_panic _ false 1 TRunner); [by left|reflexivity|].
  eapply (panics_runner _ ex_rsync_env 0 [] []). vm_compute. reflexivity.
Qed.

Definition ex_serving : serving := mkServing ":9101" (5 * Minute) [] None None.

(** The metrics listener fails to bind; [serve] returns its error, and the
    process ends. *)
Definition ex_bind_error : error := ErrExternal "address already in use".
Definition ex_bind_fails : serve_state := mkServeState false [] [] (Returned (Some ex_bind_error)).

Lemma ex_bind_runs : nsteps (serve_step ex_serving) 2 (serve_init ex_serving) ex_bind_fails.
Proof.
  eapply nsteps_l.
  - apply (step_end _ false 0 TMetrics (Some ex_bind_error)); [by left|reflexivity| |unfold errCh_capacity; cbn; lia].
    apply (ends_metrics _ false (Served ex_bind_error)). discriminate.
  - eapply nsteps_l; [apply step_error|constructor].
Qed.

(** The context ends; the runner leaves its loop and sends its message,
    which [serve] takes before it sees the context. *)
Definition ex_cancelled_env : Env := {|
  env_exec := env_exec ex_rsync_env; env_get := env_get ex_rsync_env; env_hops := env_hops ex_rsync_env;
  env_disk := env_disk ex_rsync_env; env_draw := env_draw ex_rsync_env; env_sql := env_sql ex_rsync_env;
  env_ctx _ := Some ctx_Canceled; env_timer _ _ := false |}.

Definition ex_stopping : serve_state := mkServeState true [TMetrics] [] Stopping.

Lemma ex_stop_runs : nsteps (serve_step ex_serving) 3 (serve_init ex_serving) ex_stopping.
Proof.
  eapply nsteps_l; [apply step_cancel; by left|]. eapply nsteps_l; [|eapply nsteps_l; [apply step_nil|constructor]].
  apply (step_end _ true 1 TRunner None); [by left|reflexivity| |unfold errCh_capacity; cbn; lia].
  eapply (ends_runner _ true ex_cancelled_env 1 [] []); [done|vm_compute; reflexivity].
Qed.

Lemma serve_life_witness :
  listener_error ex_serving ex_bind_error ∧ ∃ s', serve_step ex_serving ex_stopping s' ∧ ss_phase s' = Returned None.
Proof.
  split.
  - apply (serve_life ex_serving 2 ex_bind_fails ex_bind_runs). reflexivity.
  - apply (serve_life ex_serving 3 ex_stopping ex_stop_runs); [reflexivity|by right].
Defined.
