(* ===== verification/System.v ===== *)
(** * The system: everything that [serve] runs, together

    [serve] enables read-only mode, then the runner, the webhook receiver
    and the failover controller run beside each other until the process
    ends.  The history of the process is an interleaving of one history for
    each goroutine; this file says what may be in it.  The parts are those of
    Cli.v, Sweep.v, Receiver.v, Failover.v and Serve.v. *)
From Stdlib Require Import Ascii ZArith Lia SpecFloat.
From stdpp Require Import prelude strings gmap list.
From S2P Require Import Prelude World GoStrings SshExec ReadOnly ConfigData Config Reconciler Rsync GitFetch Registry.
From S2P Require Import Consistency ApiValidator PostgresRec ObjectStorage Webhook Failover Metrics Doctor Build Receiver.
From S2P Require Import Sweep Cli Serve.
Open Scope go_scope.

(** ** Interleavings *)

(** [h] takes, one after the other, the events of the histories [ls]. *)
Inductive interleaves : list history → history → Prop :=
| il_done ls : Forall (λ l, l = []) ls → interleaves ls []
| il_event ls i e l h : ls !! i = Some (e :: l) → interleaves (<[i := l]> ls) h → interleaves ls (e :: h).

Lemma interleaves_Forall P ls h : interleaves ls h → Forall (Forall P) ls → Forall P h.
Proof.
  induction 1 as [ls Hls|ls i e l h Hi _ IH]; intros Hf; [constructor|].
  pose proof (Forall_lookup_1 _ _ _ _ Hf Hi) as [He Hl]%Forall_cons. constructor; [done|].
  apply IH. by apply Forall_insert.
Qed.

(** One history alone. *)
Lemma interleaves_second l : interleaves [[]; l] l.
Proof.
  induction l as [|e l IH]; [by repeat constructor|]. by apply (il_event _ 1 e l).
Qed.

(** ** The code *)

Section system.
Context (ToLower : gostr → gostr) (url_Parse : gostr → res URL) (url_String : gostr → res gostr).
Context (with_query : gostr → gostr → gostr → gostr) (json_path : gostr → res gostr).
Context (json_token : gostr → res token_body) (json_catalog json_tags : gostr → res (list gostr)).
Context (range_set : gset gostr → list gostr) (pool_name : nat → gostr) (scan_float64 : sql_row → res spec_float).
Context {P : Type} (NewPaginator : lister → P) (HasMorePages : P → bool)
  (NextPage : P → IO (res (list (option Z)) * P)).

Abbreviation sweeps' E := (sweeps E ToLower url_Parse url_String with_query json_token json_catalog json_tags
  range_set pool_name scan_float64 NewPaginator HasMorePages NextPage).

(** [Runner.Run]: a sweep at once and one for each tick; a sweep may leave
    its loop before any reconciler, when the context is done.  [out] are the
    results it has logged. *)
Inductive runner_turns (E : Env) (recs : list site_rec) (interval : Z)
    : list (site_rec * Result) → sweep_state → sweep_state → Prop :=
| turn_first k s out s1 : sweeps' E (take k recs) s out s1 → runner_turns E recs interval out s s1
| turn_next k s out1 a h out2 s2 : runner_turns E recs interval out1 s (mkSweep a h) →
    sweeps' E (take k recs) (mkSweep a (h ++ [EvSleep interval])) out2 s2 →
    runner_turns E recs interval (out1 ++ out2) s s2.

(** What a goroutine of [serve] has done at some time, in an environment in
    which the others also act; [seen] are the requests received. *)
Definition local (sv : serving) (seen : list request) (t : task) (l : history) : Prop :=
  ∃ E full, l `prefix_of` full ∧
    match t with
    | TMetrics => full = []
    | TRunner => Machine E ∧ (0 < sv_interval sv)%Z ∧
        ∃ out a, runner_turns E (sv_recs sv) (sv_interval sv) out (mkSweep ∅ []) (mkSweep a full)
    | TWebhook => ∃ wh s, sv_webhook sv = Some wh ∧
        rtc (receiver_step json_path E None (ws_fetcher wh)) (receiver_init wh) s ∧ rx_seen s = seen ∧ full = rx_hist s
    | TFailover => ∃ c fuel ended s, sv_failover sv = Some c ∧
        Failover.Run E fuel c (mkState false 0 []) = (Some ended, s) ∧ full = fs_hist s
    end.

(** The history of the process, after its start. *)
Definition serve_history (sv : serving) (seen : list request) (h : history) : Prop :=
  ∃ ls, Forall2 (local sv seen) (tasks sv) ls ∧ interleaves ls h.

(** ** The loop of the runner

    Reconciler.v has [Runner.Run] as a function over any reconcilers; here
    it is a relation, since some of these run concurrently.  When each
    [Reconcile] is a function, the two agree. *)

(** [m] is [Reconcile] of [r], with the token caches at [a]. *)
Definition implements (E : Env) (a : gmap gostr (gmap gostr gostr * gmap gostr gostr)) (r : site_rec) (m : IO Result) : Prop :=
  ∀ h, rec_runs E ToLower url_Parse url_String with_query json_token json_catalog json_tags range_set pool_name
         scan_float64 NewPaginator HasMorePages NextPage r (mkSweep a h) (m h).1 (mkSweep a (m h).2).

Definition as_reconciler (r : site_rec) (m : IO Result) : Reconciler := {| Reconciler.Name := rec_Name r; Reconciler.Reconcile := m |}.

(** A sweep of the function is one of the relation, with the same log. *)
Lemma sweep_refines (E : Env) a recs ms h log h' : Forall2 (implements E a) recs ms →
  sweep E (zip_with as_reconciler recs ms) h = (log, h') →
  ∃ k out, sweeps' E (take k recs) (mkSweep a h) out (mkSweep a h') ∧
    log = (λ p : site_rec * Result, (rec_Name p.1, log_level p.2)) <$> out.
Proof.
  intros HF. revert h log h'. induction HF as [|r m recs ms Hm _ IH]; intros h log h'.
  { intros [= <- <-]. exists 0, []. split; [constructor|done]. }
  cbn [zip_with Reconciler.sweep as_reconciler Reconciler.Reconcile Reconciler.Name]. unfold mbind, ST_bind, io_ctx_Err.
  destruct (env_ctx E h) as [e|]. { intros [= <- <-]. exists 0, []. split; [constructor|done]. }
  specialize (Hm h). destruct (m h) as [result h1]. destruct (sweep E _ h1) as [rest h2] eqn:Es.
  intros [= <- <-]. destruct (IH _ _ _ Es) as (k & out & Hs & ->).
  exists (S k), ((r, result) :: out). split; [by econstructor|done].
Qed.

(** The loop takes the turns of the relation; a wait that the end of the
    context cut short is followed by nothing. *)
Lemma Run_refines (E : Env) a recs ms fuel iv h ended h' : Forall2 (implements E a) recs ms →
  Reconciler.Run E fuel iv (zip_with as_reconciler recs ms) h = (Some ended, h') →
  ∃ out h1, runner_turns E recs iv out (mkSweep a h) (mkSweep a h1) ∧
    h' = h1 ++ (if ended then [EvSleep iv] else []).
Proof.
  intros HF. unfold Reconciler.Run. destruct (iv <=? 0)%Z; [done|]. unfold mbind, ST_bind.
  destruct (sweep E _ h) as [log h0] eqn:Es.
  destruct (sweep_refines E a recs ms h log h0 HF Es) as (k & out & Hs & _).
  pose proof (turn_first E recs iv k _ _ _ Hs) as Hturns. clear Es Hs.
  destruct (run_loop E fuel iv _ h0) as [b h2] eqn:El. intros [= -> ->]. revert out h0 Hturns El.
  induction fuel as [|fuel IH]; intros out h0 Hturns; cbn [run_loop].
  { intros [= <- <-]. exists out, h0. by rewrite app_nil_r. }
  unfold mbind, ST_bind, io_after. destruct (env_timer E h0 iv).
  - destruct (sweep E _ (h0 ++ [EvSleep iv])) as [log1 h1] eqn:Es.
    destruct (sweep_refines E a recs ms _ log1 h1 HF Es) as (k1 & out1 & Hs & _).
    apply (IH (out ++ out1)). by eapply turn_next.
  - intros [= <- <-]. by exists out, h0.
Qed.

(** ** The specification *)

Definition secret_of (cfg : Config) : gostr := match cfg_Webhook cfg with Some w => wh_SecretToken w | None => [] end.

(** Whether the failover controller may act by itself. *)
Definition acts_alone (cfg : Config) : bool :=
  match cfg_Failover cfg with
  | Some f => fo_AutoFailover f && sync_FailoverEnabled (cfg_Sync cfg)
  | None => false
  end.

(** What [serve] may do. *)
Inductive serve_may (cfg : Config) (dry : bool) (seen : list request) (e : event) : Prop :=
| may_replicate : replicates cfg dry e → serve_may cfg dry seen e
| may_enable sc : sync_ReadOnlySecondary (cfg_Sync cfg) = true → dry = false → sc ∈ cfg_Secondaries cfg →
    e ∈ (enable_cmds ≫= λ cmd, ssh_event Default (site_SSHHost sc) cmd None) → serve_may cfg dry seen e
| may_lookup pool path : is_Some (cfg_Webhook cfg) → served json_path (secret_of cfg) seen path →
    e = EvSQL pool lookup_sql [path] → serve_may cfg dry seen e
| may_probe : sync_FailoverEnabled (cfg_Sync cfg) = true → is_probe e → serve_may cfg dry seen e
| may_promote sc : acts_alone cfg = true → dry = false → sc ∈ cfg_Secondaries cfg →
    e ∈ on_host (Failover.New cfg dry) (site_SSHHost sc) promotion_cmds → serve_may cfg dry seen e.

(** ** Lemmas *)

Lemma observed_may cfg dry seen e : observes [] e → serve_may cfg dry seen e.
Proof. intros He. apply may_replicate, (observes_replicates cfg dry []); [|done]. by intros x ?%elem_of_nil. Qed.

Lemma issues_only `{HasHistory St} (m : ST St err) evs : issues m evs → Only (λ e, e ∈ evs) m.
Proof.
  intros Hm s. destruct (m s) as [r s'] eqn:Er. destruct (Hm _ _ _ Er) as (t & [k ->] & Ht & _).
  exists t. split; [done|]. apply Forall_forall. intros e He. apply elem_of_app. by left.
Qed.

Section configured.
Context (cfg : Config) (dry : bool) (seen : list request).
Context (Hpaths : paths_ok cfg) (Hhost : plain_host (site_SSHHost (cfg_Primary cfg))).
Context (Hroot : git_Mode (site_Git (cfg_Primary cfg)) = "rsync" → git_ReposPath (site_Git (cfg_Primary cfg)) ≠ []).
Context (NextPage_reads : ∀ p, Only (observes []) (NextPage p)).

Abbreviation may := (serve_may cfg dry seen).

Lemma enable_may E sites : sync_ReadOnlySecondary (cfg_Sync cfg) = true → sites ⊆ cfg_Secondaries cfg →
  Only may (enable_readonly E dry sites).
Proof.
  intros Hro. induction sites as [|sc sites IH]; intros Hsub; cbn [enable_readonly]; [apply _|].
  apply only_bind; [|intros [?|?]; [|apply _]].
  - destruct dry eqn:Hd.
    + intros h. exists []. destruct (Enable E (site_SSHHost sc) true h) as [r h'] eqn:Er.
      apply run_cmds_dry in Er as [-> _]. by rewrite app_nil_r.
    + eapply only_weaken; [|exact (issues_only _ _ (run_cmds_issues E (site_SSHHost sc) Default enable_cmds))].
      intros e He. apply (may_enable _ _ _ _ sc); [exact Hro|reflexivity|apply Hsub; left|exact He].
  - apply IH. intros x Hx. apply Hsub. by right.
Qed.

Lemma runner_may E `{!Machine E} recs pgRec iv out s s' : Forall (from_build cfg dry pgRec) recs → runner_turns E recs iv out s s' →
  adds may (sw_hist s) (sw_hist s').
Proof using Hpaths Hhost Hroot NextPage_reads.
  intros Hb Hr. assert (∀ k s o s1, sweeps' E (take k recs) s o s1 → adds may (sw_hist s) (sw_hist s1)) as Hs.
  { intros k s0 o s1 Hs. eapply adds_weaken; [apply may_replicate|].
    eapply (sweeps_replicate E ToLower url_Parse url_String with_query json_token json_catalog json_tags range_set
      pool_name scan_float64 NewPaginator HasMorePages NextPage NextPage_reads cfg dry Hpaths Hhost Hroot pgRec); [|exact Hs].
    by apply Forall_take. }
  induction Hr as [k s out s1 H1|k s out1 a h out2 s2 _ IH H2]; [by eapply Hs|].
  etrans; [exact IH|]. transitivity (h ++ [EvSleep iv]); [by apply adds_one, observed_may|exact (Hs _ _ _ _ H2)].
Qed.

Lemma fetcher_built recs pgRec gf : Forall (from_build cfg dry pgRec) recs → find_fetcher recs = Some gf →
  ∃ sc site pool, sc ∈ cfg_Secondaries cfg ∧
    gf = GitFetch.New (site_SSHHost (cfg_Primary cfg)) (git_ReposPath (site_Git sc)) site pool dry (SSHExecConfig cfg).
Proof.
  induction 1 as [|r recs Hr _ IH]; [done|]. destruct r; cbn [find_fetcher]; try exact IH.
  intros [= ->]. destruct Hr as [|(sc & Hsc & Hb)]; [done|]. inversion Hb; subst. by eexists sc, _, _.
Qed.

Lemma receiver_may E w recs pgRec wh s : Forall (from_build cfg dry pgRec) recs →
  cfg_Webhook cfg = Some w → buildWebhookServer w recs = Ok wh →
  rtc (receiver_step json_path E None (ws_fetcher wh)) (receiver_init wh) s → rx_seen s = seen →
  Forall may (rx_hist s).
Proof using Hpaths.
  intros Hb Hw Hwh Hrun Hseen. destruct (init_receiver_ok json_path (ws_fetcher wh) _ _ _ Hwh) as (Hok & Ho & _).
  destruct (receiver_run_ok _ _ _ _ _ _ Hrun Hok Ho) as [_ [_ _ Hh]].
  apply buildWebhookServer_parts in Hwh as (_ & _ & Hf & _). rewrite Hf, Hseen in Hh. clear Hrun Hok Ho.
  eapply Forall_impl; [exact Hh|]. intros e [->|[[Hq _]%own_metric_quiet|(gf & path & Hgf & Hs & [(pool & _ & ->)|(hd & id & rel & _ & Hfa)])]].
  - by apply observed_may.
  - by apply observed_may.
  - apply (may_lookup _ _ _ _ pool path); [by eexists| |done]. unfold secret_of. by rewrite Hw.
  - destruct (fetcher_built _ _ _ Hb Hgf) as (sc & site & pl & Hsc & ->).
    apply may_replicate. by eapply fetch_at_replicates.
Qed.

Lemma controller_may e : sync_FailoverEnabled (cfg_Sync cfg) = true → is_Some (cfg_Failover cfg) →
  round_event (Failover.New cfg dry) e → may e.
Proof.
  intros Hen [f Hf] [Hp|[->|(Ha & Hd & _ & target & sec & _ & Hs & He)]].
  - by apply may_probe.
  - by apply observed_may.
  - unfold Failover.New in Ha, Hd. rewrite Hf in Ha, Hd. cbn [fc_autoFailover fc_dryRun] in Ha, Hd.
    apply (may_promote _ _ _ _ sec); [|done| |done].
    + unfold acts_alone. by rewrite Hf, Ha, Hen.
    + unfold Failover.findSecondary in Hs. destruct (List.find _ _) as [sc|] eqn:Ef; [|done]. injection Hs as <-.
      apply List.find_some in Ef as [Hin _]. apply list_elem_of_In.
      unfold Failover.New in Hin. by rewrite Hf in Hin.
Qed.

(** The history of one goroutine. *)
Lemma local_may sv pgRec t l : (∀ recs, recs = sv_recs sv → Forall (from_build cfg dry pgRec) recs) →
  (∀ wh, sv_webhook sv = Some wh → ∃ w, cfg_Webhook cfg = Some w ∧ buildWebhookServer w (sv_recs sv) = Ok wh) →
  (∀ c, sv_failover sv = Some c → sync_FailoverEnabled (cfg_Sync cfg) = true ∧ is_Some (cfg_Failover cfg) ∧ c = Failover.New cfg dry) →
  local sv seen t l → Forall may l.
Proof using Hpaths Hhost Hroot NextPage_reads.
  intros Hb Hwh Hfo (E & full & [k ->] & Ht). specialize (Hb _ eq_refl).
  assert (Forall may (l ++ k)) as [? _]%Forall_app; [|done]. generalize dependent (l ++ k). clear l k. intros full Ht.
  destruct t.
  - subst. constructor.
  - destruct Ht as (HM & _ & out & a & Hr). destruct (runner_may _ _ _ _ _ _ _ Hb Hr) as (evs & Heq & Hf). cbn in Heq. by subst.
  - destruct Ht as (wh & s & Hs & Hrun & Hseen & ->). destruct (Hwh _ Hs) as (w & Hw & Hbw).
    by eapply receiver_may.
  - destruct Ht as (c & fuel & ended & s & Hc & Hrun & ->). destruct (Hfo _ Hc) as (Hen & Hf & ->).
    destruct (Run_events _ _ _ _ _ _ Hrun) as (evs & -> & He). eapply Forall_impl; [exact He|].
    intros e. by apply controller_may.
Qed.
End configured.

(** In a dry run. *)
Lemma dry_exec cfg seen name args env stdin : serve_may cfg true seen (EvExec name args env stdin) →
  name = "rsync" ∧ ("--dry-run" : gostr) ∈ args ∨
  (∃ repo, EvExec name args env stdin = fsck_event repo) ∨
  name = "ssh" ∧ ∃ cmd, last args = Some cmd ∧ cmd ∈ probe_cmds.
Proof.
  assert (∀ c host src dst, mirror_run c host true src dst (EvExec name args env stdin) → name = "rsync" ∧ ("--dry-run" : gostr) ∈ args) as Hm.
  { intros c host src dst (ep & sshCmd & opts & from & _ & _ & [= -> -> _ _] & -> & _). split; [done|].
    rewrite !elem_of_app. left. right. left. }
  intros [[Ho|sc Hsc Hr|sc pr Hsc Hp Hr|? ? ? ? ? ? [=]|sc repo Hsc _ He]|? ? [=]|? ? ? ? [=]|_ [(u & hd & [=])|(cmd & Hc & Hin)]|? ? [=]].
  - done.
  - left. by eapply Hm.
  - left. by eapply Hm.
  - right. left. by exists repo.
  - right. right. unfold remote_cmd in Hc. case_bool_decide; [|done]. split; [done|]. by exists cmd.
Qed.

(** *** The start *)

Section start.
Context (E : Env) (connect : nat → gostr → option error) (LoadDefaultConfig : gostr → option error).
Context (reg : collector → option error) (already : error → bool).

Lemma serve_with_parts cfg dry recs h sv h' : serve_with E cfg dry recs h = (Ok sv, h') →
  sv_recs sv = recs ∧
  (h' = h ∨ sync_ReadOnlySecondary (cfg_Sync cfg) = true ∧ h' = (enable_readonly E dry (cfg_Secondaries cfg) h).2) ∧
  (∀ wh, sv_webhook sv = Some wh → ∃ w, cfg_Webhook cfg = Some w ∧ buildWebhookServer w recs = Ok wh) ∧
  (∀ c, sv_failover sv = Some c →
     sync_FailoverEnabled (cfg_Sync cfg) = true ∧ is_Some (cfg_Failover cfg) ∧ c = Failover.New cfg dry).
Proof.
  unfold serve_with. set (fo := match cfg_Failover cfg with Some _ => _ | None => _ end).
  assert (∀ c, fo = Some c → sync_FailoverEnabled (cfg_Sync cfg) = true ∧ is_Some (cfg_Failover cfg) ∧ c = Failover.New cfg dry) as Hfo.
  { unfold fo. intros c. destruct (cfg_Failover cfg); [|done]. destruct (sync_FailoverEnabled _); [|done].
    intros [= <-]. by split; [|split; [eexists|]]. }
  clearbody fo. set (ro := if sync_ReadOnlySecondary (cfg_Sync cfg) then _ else _).
  assert ((ro h).2 = h ∨ sync_ReadOnlySecondary (cfg_Sync cfg) = true ∧
    (ro h).2 = (enable_readonly E dry (cfg_Secondaries cfg) h).2) as Hro.
  { unfold ro. destruct (sync_ReadOnlySecondary (cfg_Sync cfg)); [by right|by left]. }
  clearbody ro. unfold mbind, ST_bind. destruct (ro h) as [[[]|e] h1]; cbn in Hro; [|done].
  destruct (cfg_Webhook cfg) as [w|]; [destruct (buildWebhookServer w recs) as [wh|e] eqn:Hb; [|done]|];
    intros [= <- <-]; cbn [sv_recs sv_webhook sv_failover]; (split; [done|]); (split; [done|]); (split; [|done]); [|done].
  intros ? [= <-]. by exists w.
Qed.

Lemma serve_start_parts cfg dry s sv pgRec s' :
  serve_start url_Parse ToLower E connect pool_name LoadDefaultConfig reg already cfg dry s = (Ok (sv, pgRec), s') →
  (∃ p', buildReconcilers ToLower url_Parse LoadDefaultConfig connect pool_name cfg dry (d_pools s) = (Ok (sv_recs sv, pgRec), p')) ∧
  (d_hist s' = d_hist s ∨ sync_ReadOnlySecondary (cfg_Sync cfg) = true ∧
     d_hist s' = (enable_readonly E dry (cfg_Secondaries cfg) (d_hist s)).2) ∧
  (∀ wh, sv_webhook sv = Some wh → ∃ w, cfg_Webhook cfg = Some w ∧ buildWebhookServer w (sv_recs sv) = Ok wh) ∧
  (∀ c, sv_failover sv = Some c →
     sync_FailoverEnabled (cfg_Sync cfg) = true ∧ is_Some (cfg_Failover cfg) ∧ c = Failover.New cfg dry).
Proof.
  unfold serve_start. destruct (Register reg already); [|done].
  unfold lift_pools, lift_io, mbind, ST_bind.
  destruct (buildReconcilers _ _ _ _ _ cfg dry (d_pools s)) as [[[recs pg]|e] p']; [|done]. cbn [d_hist d_pools].
  destruct (serve_with E cfg dry recs (d_hist s)) as [[sv0|e] h1] eqn:Ew; [|by destruct (pg_Close _ _)].
  intros [= <- <- <-]. destruct (serve_with_parts _ _ _ _ _ _ Ew) as (<- & Hh & Hw & Hf).
  split; [by eexists|]. by split.
Qed.

(** C1: what [serve] may do.  For a configuration that [validate] accepted,
    without a warning about a path, with a directory for the repositories of
    each secondary and no blank blob path, and with a primary's host that is
    not an IPv6 address, take everything that [serve] does from its start on:
    however its goroutines interleave and whatever hosts, databases,
    registries, buckets, file systems, timers and clients answer ([Machine]
    says what a walk and a random draw are), it replicates one way (as a sweep does); enables read-only mode on the
    secondaries, if that is configured and the run is not dry; looks up the
    projects that authentic webhooks name; probes the primary, if failover is
    enabled; and promotes a secondary only with failover enabled, automatic
    failover on and no dry run.  A dry run runs nothing but
    [rsync --dry-run], [git fsck] and reads of the key.  (What the excluded
    configurations do is shown by [blank_destination_is_root] and
    [ipv6_host_misread].) *)
Theorem serve_effects cfg0 cfg dry s sv pgRec s' seen h :
  (∀ p, Only (observes []) (NextPage p)) →
  validate url_Parse cfg0 = Ok cfg → paths_ok cfg → plain_host (site_SSHHost (cfg_Primary cfg)) →
  serve_start url_Parse ToLower E connect pool_name LoadDefaultConfig reg already cfg dry s = (Ok (sv, pgRec), s') →
  serve_history sv seen h →
  ∃ start, d_hist s' = d_hist s ++ start ∧ Forall (serve_may cfg dry seen) (start ++ h) ∧
  (dry = true → ∀ name args env stdin, EvExec name args env stdin ∈ start ++ h →
     name = "rsync" ∧ ("--dry-run" : gostr) ∈ args ∨
     (∃ repo, EvExec name args env stdin = fsck_event repo) ∨
     name = "ssh" ∧ ∃ cmd, last args = Some cmd ∧ cmd ∈ probe_cmds).
Proof.
  intros Hpage [Hv ->]%validate_Ok Hpaths Hhost Hst (ls & Hls & Hil).
  assert (git_Mode (site_Git (cfg_Primary cfg0)) = "rsync" → git_ReposPath (site_Git (cfg_Primary cfg0)) ≠ []) as Hroot.
  { intros Hm. destruct (v_mode _ _ Hv) as [Hf|[_ Hne]]; [by rewrite Hm in Hf|done]. }
  destruct (serve_start_parts _ _ _ _ _ _ Hst) as ([p' Hb%buildReconcilers_built] & Hstart & Hwh & Hfo).
  assert (∃ start, d_hist s' = d_hist s ++ start ∧ Forall (serve_may (apply_defaults cfg0) dry seen) start) as (start & Hs & Hfs).
  { destruct Hstart as [->|[Hro ->]]; [exists []; by rewrite app_nil_r|].
    by apply (enable_may (apply_defaults cfg0) dry seen E). }
  assert (Forall (serve_may (apply_defaults cfg0) dry seen) (start ++ h)) as Hall.
  { apply Forall_app. split; [done|]. apply (interleaves_Forall _ _ _ Hil).
    clear Hil. induction Hls as [|t l ts ls Hl _ IH]; constructor; [|exact IH].
    eapply local_may; try done. by intros ? ->. }
  exists start. split; [done|]. split; [done|]. intros -> name args env stdin He.
  rewrite Forall_forall in Hall. by eapply dry_exec, Hall.
Qed.
End start.
End system.

(** ** Runs *)

Definition ex_cfg : Config := ex_mirror "/srv/git".
Definition ex_pool_name (i : nat) : gostr := Itoa (Z.of_nat i).
Definition ex_scan : sql_row → res spec_float := λ _, Err errNoRows.

Definition ex_started : res (serving * pg_reconciler) * dstate :=
  serve_start ex_parse ToLowerASCII ex_rsync_env (λ _ _, None) ex_pool_name (λ _, None) (λ _, None) (λ _, false)
    (apply_defaults ex_cfg) true (mkD [] (mkPools 0 ∅)).

Definition ex_sv : serving := match ex_started.1 with Ok (sv, _) => sv | Err _ => ex_serving end.
Definition ex_pg : pg_reconciler := match sv_recs ex_sv with RecPG r :: _ => r | _ => mkPg 0 [] end.
Definition ex_mirroring : option git_rsync := match sv_recs ex_sv with _ :: RecRsync r :: _ => Some r | _ => None end.

(** The first two reconcilers of the first sweep of a dry run. *)
Definition ex_swept : history :=
  match ex_mirroring with
  | Some r => (gr_Reconcile ex_rsync_env r (pg_Reconcile ex_rsync_env ex_pool_name ex_scan ex_pg []).2).2
  | None => []
  end.

Abbreviation ex_history_of := (serve_history ToLowerASCII ex_parse Ok (λ r _ _, r) (λ _, Err errNoRows)
  (λ _, Err errNoRows) (λ _, Err errNoRows) (λ _, Err errNoRows) elements ex_pool_name ex_scan (λ _ : lister, [[Some 5%Z]]) ex_more ex_page).

Lemma ex_serve_history : ex_history_of ex_sv [] ex_swept.
Proof.
  exists [[]; ex_swept]. split; [|exact (interleaves_second ex_swept)].
  assert (tasks ex_sv = [TMetrics; TRunner]) as -> by (vm_compute; reflexivity).
  constructor; [by exists ex_rsync_env, []|]. constructor; [|constructor].
  exists ex_rsync_env, ex_swept. split; [done|]. split; [apply _|]. split; [vm_compute; reflexivity|].
  assert (∃ r, ex_mirroring = Some r ∧ take 2 (sv_recs ex_sv) = [RecPG ex_pg; RecRsync r]) as (r & Hr & Hrecs)
    by (eexists; split; vm_compute; reflexivity).
  unfold ex_swept. rewrite Hr.
  destruct (pg_Reconcile ex_rsync_env ex_pool_name ex_scan ex_pg []) as [r1 h1] eqn:E1.
  destruct (gr_Reconcile ex_rsync_env r h1) as [r2 h2] eqn:E2. cbn [snd]. rewrite E2. cbn [snd].
  exists [(RecPG ex_pg, r1); (RecRsync r, r2)], ∅. eapply turn_first with (k := 2). rewrite Hrecs.
  eapply sweeps_cons; [eapply runs_io; [apply io_pg|exact E1]|].
  eapply sweeps_cons; [eapply runs_io; [apply io_rsync|exact E2]|constructor].
Qed.

Lemma serve_effects_witness :
  rsync_ends ex_swept = Some ["root@eu:/srv/git/"; "/srv/git/" : gostr] ∧
  ∀ name args env stdin, EvExec name args env stdin ∈ ex_swept →
     name = "rsync" ∧ ("--dry-run" : gostr) ∈ args ∨
     (∃ repo, EvExec name args env stdin = fsck_event repo) ∨
     name = "ssh" ∧ ∃ cmd, last args = Some cmd ∧ cmd ∈ probe_cmds.
Proof.
  split; [vm_compute; reflexivity|].
  assert (validate ex_parse ex_cfg = Ok (apply_defaults ex_cfg)) as Hv by (vm_compute; reflexivity).
  assert (∀ p, Only (observes []) (ex_page p)) as Hpage.
  { intros [|? p] h; exists []; rewrite app_nil_r; split; done. }
  assert (plain_host (site_SSHHost (cfg_Primary (apply_defaults ex_cfg)))) as Hh.
  { intros ep Hep. vm_compute in Hep. injection Hep as <-. closed_decide. }
  pose proof ex_serve_history as Hhist. unfold ex_sv in Hhist.
  assert (is_Ok ex_started.1 = true) as Hok by (vm_compute; reflexivity).
  destruct ex_started as [[[sv pgRec]|e] s'] eqn:Eb; [|discriminate Hok]. cbn [fst] in Hhist.
  destruct (serve_effects ToLowerASCII ex_parse Ok (λ r _ _, r) (λ _, Err errNoRows)
    (λ _, Err errNoRows) (λ _, Err errNoRows) (λ _, Err errNoRows) elements ex_pool_name ex_scan (λ _ : lister, [[Some 5%Z]]) ex_more ex_page
    ex_rsync_env (λ _ _, None) (λ _, None) (λ _, None) (λ _, false)
    ex_cfg (apply_defaults ex_cfg) true (mkD [] (mkPools 0 ∅)) sv pgRec s' [] ex_swept Hpage Hv ex_mirror_paths Hh Eb Hhist)
    as (start & _ & _ & Hd).
  intros name args env stdin He. apply (Hd eq_refl name args env stdin). apply elem_of_app. right. exact He.
Defined.

(** *** A promotion does not end the sweeps

    The failover controller promotes the secondary on its own; the runner
    does not know, and goes on mirroring from the old primary into the
    directories of the site that has just been promoted. *)
Definition ex_auto_cfg : Config :=
  Build_Config (cfg_Primary ex_cfg) (cfg_Secondaries ex_cfg)
    (Build_SyncConfig 0 0 0 true false (S754_zero false)) (cfg_Metrics ex_cfg) (cfg_Log ex_cfg) [] None None
    (Some (Build_FailoverConfig [] 0 0 [] [] true [])) (cfg_SSH ex_cfg).

Definition ex_auto_started : res (serving * pg_reconciler) * dstate :=
  serve_start ex_parse ToLowerASCII ex_rsync_env (λ _ _, None) ex_pool_name (λ _, None) (λ _, None) (λ _, false)
    (apply_defaults ex_auto_cfg) false (mkD [] (mkPools 0 ∅)).

Definition ex_auto_sv : serving := match ex_auto_started.1 with Ok (sv, _) => sv | Err _ => ex_serving end.

(** Three failed rounds, and a promotion. *)
Definition ex_auto_watched : option bool * fstate :=
  match sv_failover ex_auto_sv with
  | Some c => Failover.Run Failover.ex_env 3 c (mkState false 0 [])
  | None => (None, mkState false 0 [])
  end.

Definition ex_auto_swept : (Result * Result) * history :=
  match sv_recs ex_auto_sv with
  | RecPG p :: RecRsync r :: _ =>
      let '(r1, h1) := pg_Reconcile ex_rsync_env ex_pool_name ex_scan p [] in
      let '(r2, h2) := gr_Reconcile ex_rsync_env r h1 in ((r1, r2), h2)
  | _ => ((mkResult true 0 [] 0 0, mkResult true 0 [] 0 0), [])
  end.

(** The third history, and then the second. *)
Lemma interleaves_third_second l k : interleaves [[]; l; k] (k ++ l).
Proof.
  induction k as [|e k IH]; [|by apply (il_event _ 2 e k)].
  induction l as [|e l IH]; [by repeat constructor|]. by apply (il_event _ 1 e l).
Qed.

Example mirroring_goes_on :
  validate ex_parse ex_auto_cfg = Ok (apply_defaults ex_auto_cfg) ∧
  ∃ before after, ex_history_of ex_auto_sv [] (before ++ after) ∧
    last (omap remote_cmd before) = Some ("sudo gitlab-ctl start" : gostr) ∧
    (∃ e, e ∈ before ∧ remote_cmd e = Some pg_promote_cmd) ∧
    rsync_ends after = Some ["root@eu:/srv/git/"; "/srv/git/" : gostr].
Proof.
  split; [vm_compute; reflexivity|].
  exists (fs_hist ex_auto_watched.2), ex_auto_swept.2. split; [|split; [|split]].
  - exists [[]; ex_auto_swept.2; fs_hist ex_auto_watched.2]. split; [|apply interleaves_third_second].
    assert (tasks ex_auto_sv = [TMetrics; TRunner; TFailover]) as -> by (vm_compute; reflexivity).
    constructor; [by exists ex_rsync_env, []|]. constructor; [|constructor; [|constructor]].
    + exists ex_rsync_env, ex_auto_swept.2. split; [done|]. split; [apply _|]. split; [vm_compute; reflexivity|].
      assert (∃ p r, take 2 (sv_recs ex_auto_sv) = [RecPG p; RecRsync r] ∧ drop 2 (sv_recs ex_auto_sv) ≠ []) as (p & r & Hrecs & _)
        by (do 2 eexists; split; [vm_compute; reflexivity|discriminate]).
      unfold ex_auto_swept. destruct (sv_recs ex_auto_sv) as [|p' [|r' recs]]; [done|done|]. injection Hrecs as -> ->.
      destruct (pg_Reconcile ex_rsync_env ex_pool_name ex_scan p []) as [r1 h1] eqn:E1.
      destruct (gr_Reconcile ex_rsync_env r h1) as [r2 h2] eqn:E2. cbn [snd].
      exists [(RecPG p, r1); (RecRsync r, r2)], ∅. eapply turn_first with (k := 2). cbn [take].
      eapply sweeps_cons; [eapply runs_io; [apply io_pg|exact E1]|].
      eapply sweeps_cons; [eapply runs_io; [apply io_rsync|exact E2]|constructor].
    + exists Failover.ex_env, (fs_hist ex_auto_watched.2). split; [done|].
      assert (is_Some (sv_failover ex_auto_sv) ∧ ex_auto_watched.1 = Some false) as [[c Hc] Hend]
        by (vm_compute; split; [by eexists|reflexivity]).
      exists c, 3, false, ex_auto_watched.2. split; [done|]. split; [|done].
      rewrite <- Hend. unfold ex_auto_watched. rewrite Hc. apply surjective_pairing.
  - vm_compute. reflexivity.
  - assert (Some pg_promote_cmd ∈ remote_cmd <$> fs_hist ex_auto_watched.2) as (e & He & Hin)%list_elem_of_fmap by closed_decide.
    by exists e.
  - vm_compute. reflexivity.
Qed.
