(* ===== verification/Monitoring.v ===== *)
(** * Monitoring: what the SLA report says about a running [serve]

    The reconcilers run in one goroutine of [serve], report through metrics,
    and [syncctl sla] reads those back from a scrape, possibly on another
    host.  This file follows a failure all the way: from the [Result] that
    the runner logs (Reports.v), through the interleaving of the goroutines
    (System.v) and the metric vectors (Metrics.v), into the summary (Sla.v). *)
From Stdlib Require Import Ascii ZArith Lia SpecFloat.
From stdpp Require Import prelude strings gmap list.
From S2P Require Import Prelude World GoStrings SshExec ConfigData Config Reconciler Signals Rsync GitFetch Registry.
From S2P Require Import Consistency PostgresRec ObjectStorage Webhook Failover Doctor Sla Metrics Build Receiver Sweep Reports.
From S2P Require Import Cli Serve System.
Open Scope go_scope.

(** ** Interleavings *)

Lemma interleaves_sublist ls h i l : interleaves ls h → ls !! i = Some l → l `sublist_of` h.
Proof.
  intros Hh. revert i l. induction Hh as [ls Hls|ls j e k h Hj _ IH]; intros i l Hi.
  - pose proof (Forall_lookup_1 _ _ _ _ Hls Hi) as ->. constructor.
  - destruct (decide (i = j)) as [->|Hne].
    + rewrite Hj in Hi. injection Hi as <-. constructor. apply (IH j).
      apply list_lookup_insert_eq. by eapply lookup_lt_Some.
    + constructor. apply (IH i). by rewrite list_lookup_insert_ne.
Qed.

Lemma interleaves_from ls h e : interleaves ls h → e ∈ h → ∃ i l, ls !! i = Some l ∧ e ∈ l.
Proof.
  intros Hh He. assert (Forall (Forall (λ x, ∃ i l, ls !! i = Some l ∧ x ∈ l)) ls) as Hls.
  { apply Forall_lookup. intros i l Hi. apply Forall_forall. intros x Hx. by exists i, l. }
  pose proof (interleaves_Forall _ _ _ Hh Hls) as Hf. rewrite Forall_forall in Hf. by apply Hf.
Qed.

Lemma sublist_drifts (l h : history) : l `sublist_of` h → length (filter is_drift l) ≤ length (filter is_drift h).
Proof. induction 1 as [|e l h _ IH|e l h _ IH]; rewrite ?filter_cons; repeat case_decide; cbn [length]; lia. Qed.

Lemma signals_sublist h : signals h `sublist_of` h.
Proof. induction h as [|e h IH]; [constructor|]. unfold signals. cbn [List.filter]. destruct (is_signal e); by constructor. Qed.

(** ** The goroutines *)

Lemma runner_task sv i : tasks sv !! i = Some TRunner → i = 1.
Proof.
  unfold tasks. destruct i as [|[|i]]; [done|done|]. cbn. intros Hi%list_elem_of_lookup_2.
  apply elem_of_app in Hi. revert Hi. destruct (sv_webhook sv), (sv_failover sv); rewrite ?list_elem_of_singleton, ?elem_of_nil; naive_solver.
Qed.

Section monitoring.
Context (ToLower : gostr → gostr) (url_Parse : gostr → res URL) (url_String : gostr → res gostr).
Context (with_query : gostr → gostr → gostr → gostr) (json_path : gostr → res gostr).
Context (json_token : gostr → res token_body) (json_catalog json_tags : gostr → res (list gostr)).
Context (range_set : gset gostr → list gostr) (pool_name : nat → gostr) (scan_float64 : sql_row → res spec_float).
Context {P : Type} (NewPaginator : lister → P) (HasMorePages : P → bool)
  (NextPage : P → IO (res (list (option Z)) * P)).
Context (NextPage_gets : ∀ p, Only is_get (NextPage p)).

Abbreviation runner_turns' := (runner_turns ToLower url_Parse url_String with_query json_token json_catalog json_tags
  range_set pool_name scan_float64 NewPaginator HasMorePages NextPage).
Abbreviation local' := (local ToLower url_Parse url_String with_query json_path json_token json_catalog json_tags
  range_set pool_name scan_float64 NewPaginator HasMorePages NextPage).

(** All the results of the runner, and all its signals. *)
Lemma runner_sent E cfg dry pgRec recs iv out s s' : Forall (from_build cfg dry pgRec) recs →
  runner_turns' E recs iv out s s' → ∃ evs, sw_hist s' = sw_hist s ++ evs ∧ sent out (signals evs).
Proof using NextPage_gets.
  intros Hb Hr. assert (∀ k, Forall (from_build cfg dry pgRec) (take k recs)) as Hk by (intros k; by apply Forall_take).
  induction Hr as [k s out s1 H1|k s out1 a h out2 s2 _ (e1 & H1 & S1) H2].
  - eapply sweeps_sent; [exact NextPage_gets|apply Hk|exact H1].
  - eapply sweeps_sent in H2 as (e2 & H2 & S2); [|exact NextPage_gets|apply Hk]. cbn [sw_hist] in H1, H2. subst h.
    exists (e1 ++ EvSleep iv :: e2). rewrite signals_app. split; [by rewrite H2, <- !app_assoc|].
    apply sent_app; [done|exact S2].
Qed.

(** The other goroutines only ever record a sync of the webhook trigger. *)
Lemma local_syncs E cfg dry connect LoadDefaultConfig reg already s sv pgRec s' seen t l c :
  serve_start url_Parse ToLower E connect pool_name LoadDefaultConfig reg already cfg dry s = (Ok (sv, pgRec), s') →
  t ≠ TRunner → local' sv seen t l → EvLastSync c ∈ l → c = "webhook_trigger".
Proof.
  intros (_ & _ & Hwh & _)%serve_start_parts Ht (E' & full & Hpre & Hl) Hin.
  assert (EvLastSync c ∈ full) as Hin' by (destruct Hpre as [k ->]; apply elem_of_app; by left).
  clear Hin Hpre. destruct t; [subst; by apply elem_of_nil in Hin'|done|..].
  - destruct Hl as (wh & rs & Hs & Hrun & _ & ->). destruct (Hwh _ Hs) as (w & _ & Hb).
    destruct (init_receiver_ok json_path (ws_fetcher wh) _ _ _ Hb) as (Hok & Ho & _).
    destruct (receiver_run_ok _ _ _ _ _ _ Hrun Hok Ho) as [_ [_ _ Hh]]. rewrite Forall_forall in Hh.
    destruct (Hh _ Hin') as [He|[[([u|err] & Hj)|(sev & He)]|(gf & path & _ & _ & [(pool & _ & He)|(hd & id & rel & _ & Hf)])]]; try done.
    + cbn in Hj. rewrite !elem_of_cons, elem_of_nil in Hj. destruct_or!; by simplify_eq.
    + cbn in Hj. rewrite !elem_of_cons, elem_of_nil in Hj. destruct_or!; by simplify_eq.
    + by destruct Hf as (_ & ep & cmd & p & _ & _ & _ & ?).
  - destruct Hl as (ctl & fuel & ended & fs & _ & Hrun & ->).
    apply Run_events in Hrun as (evs & He & Hf). rewrite He in Hin'. rewrite Forall_forall in Hf.
    destruct (Hf _ Hin') as [[(url & hd & ?)|(cmd & Hc & _)]|[?|(_ & _ & _ & target & sec & _ & _ & Hon)]]; try done.
    apply list_elem_of_bind in Hon as (cmd & Hon & _). by apply remote_cmd_event in Hon.
Qed.

(** C3: a failure reaches the report.  Take a [serve] that started, whose
    runner has logged the results [out]; whatever the other goroutines did
    in between, scrape its metrics.  Then the drift count of the SLA report
    is at least the number of results that were not OK, other than those of
    the PostgreSQL check and of cancelled runs; so a report without drift
    means that each result of the other reconcilers was OK or was cancelled.
    A component other than [webhook_trigger] has a last-sync time only if one
    of its results was OK.  And a PostgreSQL check that failed, without being
    cancelled, has set the lag of some secondary to -1. *)
Theorem failures_reach_the_report E cfg dry connect LoadDefaultConfig reg already s sv pgRec s' seen
    ls h i l E' out a time mfs clock order :
  serve_start url_Parse ToLower E connect pool_name LoadDefaultConfig reg already cfg dry s = (Ok (sv, pgRec), s') →
  Forall2 (local' sv seen) (tasks sv) ls → interleaves ls h →
  tasks sv !! i = Some TRunner → ls !! i = Some l →
  runner_turns' E' (sv_recs sv) (sv_interval sv) out (mkSweep ∅ []) (mkSweep a l) →
  (Z.of_nat (length h) < 2 ^ 53)%Z → gathered (replay time h) mfs → traversal mfs order →
  let report := buildReport clock order in
  (Z.of_nat (length (List.filter drift_failure out)) ≤ DriftCount report)%Z ∧
  (DriftCount report = 0%Z → ∀ r res, (r, res) ∈ out → (∀ pg, r ≠ RecPG pg) → OK res = true ∨ was_cancelled res = true) ∧
  (∀ c, is_Some (st_sync (replay time h) !! c) →
     c = "webhook_trigger" ∨ ∃ r res, (r, res) ∈ out ∧ rec_Name r = c ∧ OK res = true) ∧
  (∀ pg res, (RecPG pg, res) ∈ out → OK res = false → was_cancelled res = false → ∃ sec, None ∈ lags_of h sec).
Proof using NextPage_gets.
  intros Hst Hls Hil Hi Hl Hrun Hlen Hg Ht report.
  pose proof (serve_start_parts _ _ _ _ _ _ _ _ _ _ _ _ _ _ Hst) as ([p' Hb%buildReconcilers_built] & _).
  destruct (runner_sent _ _ _ _ _ _ _ _ _ Hb Hrun) as (evs & Hev & Hsent). cbn [sw_hist app] in Hev. subst evs.
  pose proof (interleaves_sublist _ _ _ _ Hil Hl) as Hsub.
  assert (DriftCount report = Z.of_nat (length (filter is_drift h))) as Hd.
  { assert (report = reference clock mfs) as -> by (apply buildReport_ref; [apply Hg|done]).
    unfold reference. cbn [DriftCount]. change ("syncctl_drift_total" : gostr) with (FQName DriftTotal).
    rewrite (drift_sum_history time h mfs Hlen Hg). apply wrap64_id. pose proof (length_filter is_drift h).
    unfold in_int64, int64_min, int64_max. lia. }
  assert (length (List.filter drift_failure out) ≤ length (filter is_drift h)) as Hle.
  { etrans; [by apply drifts_of_failures|]. etrans; [apply sublist_drifts, signals_sublist|by apply sublist_drifts]. }
  split; [lia|]. split; [|split].
  - intros Hz r res Hin Hpg. assert (¬ drift_failure (r, res) = true) as Hnf.
    { intros Hf. assert ((r, res) ∈ List.filter drift_failure out) as Hx by (by rewrite list_elem_of_In, List.filter_In, <- list_elem_of_In).
      destruct (List.filter drift_failure out); [by apply elem_of_nil in Hx|]. cbn in Hle. lia. }
    unfold drift_failure in Hnf. cbn [fst snd] in Hnf. destruct r; [by edestruct Hpg|..];
      (destruct (OK res), (was_cancelled res); auto).
  - intros c [x Hx]. rewrite replay_sync in Hx. apply last_Some_elem_of in Hx.
    assert (EvLastSync c ∈ h) as Hc.
    { unfold synced in Hx. apply list_elem_of_omap in Hx as ([j e] & Hj & He). cbn in He.
      apply list_elem_of_lookup in Hj as [n Hj]. rewrite list_lookup_imap in Hj.
      destruct (h !! n) as [e'|] eqn:Hn; [|done]. injection Hj as _ ->. destruct e; try done. case_decide; [|done]. subst.
      by eapply list_elem_of_lookup_2. }
    destruct (interleaves_from _ _ _ Hil Hc) as (j & lj & Hj & Hcj).
    destruct (Forall2_lookup_r _ _ _ _ _ Hls Hj) as (t & Htj & Hloc).
    destruct (decide (t = TRunner)) as [->|Hne]; [right|left; by eapply local_syncs].
    assert (j = i) as ->.
    { by rewrite (runner_task _ _ Htj), (runner_task _ _ Hi). }
    rewrite Hl in Hj. injection Hj as <-. apply (sync_of_ok _ (signals l)); [done|]. by apply elem_of_signals.
  - intros pg res Hin Hok Hc. destruct (lag_of_failure _ _ _ _ Hsent Hin Hok Hc) as (sec & Hs). exists sec.
    apply elem_of_signals in Hs as [Hs _]. unfold lags_of. apply list_elem_of_omap. exists (EvPGLag sec None).
    split; [|by rewrite decide_True]. by eapply elem_of_sublist.
Qed.
End monitoring.

(** ** Runs *)

(** Nothing can be reached. *)
Definition ex_down : Env := {|
  env_exec _ _ _ _ _ := ([], Some (ErrExternal "exit status 255"));
  env_get _ _ _ := Err (ErrExternal "no route to host");
  env_hops _ _ := [];
  env_disk _ _ := NFile;
  env_draw _ _ _ := 0;
  env_sql _ _ _ _ := Err (ErrExternal "no route to host");
  env_ctx _ := None;
  env_timer _ _ := true |}.

#[export] Instance ex_down_machine : Machine ex_down.
Proof. split; cbn; [intros; constructor|lia]. Qed.

Definition ex_down_swept : Result * history :=
  match ex_mirroring with
  | Some r => gr_Reconcile ex_down r (pg_Reconcile ex_down ex_pool_name ex_scan ex_pg []).2
  | None => (mkResult true 0 [] 0 0, [])
  end.

Definition ex_down_store : store := replay ex_time ex_down_swept.2.

(** Both checks of the first sweep failed: the replication by a lag of -1,
    the mirroring by a critical drift. *)
Example down_signals :
  signals ex_down_swept.2 = [EvPGLag "us" None; EvDrift "git_rsync" "critical"] ∧
  DriftCount (buildReport ex_clock (map_to_list (gather_of ex_down_store collectors)).*2) = 1%Z.
Proof. vm_compute. split; reflexivity. Qed.

Abbreviation ex_turns := (runner_turns ToLowerASCII ex_parse Ok (λ r _ _, r) (λ _, Err errNoRows)
  (λ _, Err errNoRows) (λ _, Err errNoRows) elements ex_pool_name ex_scan (λ _ : lister, [[Some 5%Z]]) ex_more ex_page).

Lemma ex_down_turns : ∃ out,
  ex_turns ex_down (sv_recs ex_sv) (sv_interval ex_sv) out (mkSweep ∅ []) (mkSweep ∅ ex_down_swept.2) ∧
  length (List.filter drift_failure out) = 1.
Proof.
  assert (∃ r, ex_mirroring = Some r ∧ take 2 (sv_recs ex_sv) = [RecPG ex_pg; RecRsync r]) as (r & Hr & Hrecs)
    by (eexists; split; vm_compute; reflexivity).
  assert (OK ex_down_swept.1 = false ∧ was_cancelled ex_down_swept.1 = false) as [Hok Hc] by (vm_compute; split; reflexivity).
  unfold ex_down_swept in *. rewrite Hr in *.
  destruct (pg_Reconcile ex_down ex_pool_name ex_scan ex_pg []) as [r1 h1] eqn:E1. cbn [snd] in *.
  destruct (gr_Reconcile ex_down r h1) as [r2 h2] eqn:E2. cbn [fst snd] in *.
  exists [(RecPG ex_pg, r1); (RecRsync r, r2)]. split.
  - eapply turn_first with (k := 2). rewrite Hrecs.
    eapply sweeps_cons; [eapply runs_io; [apply io_pg|exact E1]|].
    eapply sweeps_cons; [eapply runs_io; [apply io_rsync|exact E2]|constructor].
  - unfold drift_failure. cbn. by rewrite Hok, Hc.
Qed.

Lemma failures_reach_the_report_witness :
  (1 ≤ DriftCount (buildReport ex_clock (map_to_list (gather_of ex_down_store collectors)).*2))%Z.
Proof.
  destruct ex_down_turns as (out & Hrun & Hn). pose proof Hrun as Hloc. unfold ex_sv in Hrun, Hloc.
  assert (is_Ok ex_started.1 = true ∧ tasks ex_sv = [TMetrics; TRunner] ∧ (0 < sv_interval ex_sv)%Z) as (Hok & Htasks & Hiv)
    by (vm_compute; split_and!; reflexivity).
  unfold ex_sv in Htasks, Hiv. destruct ex_started as [[[sv pgRec]|e] s'] eqn:Eb; [|discriminate Hok]. cbn [fst] in *.
  destruct (failures_reach_the_report ToLowerASCII ex_parse Ok (λ r _ _, r) (λ _, Err errNoRows) (λ _, Err errNoRows)
    (λ _, Err errNoRows) (λ _, Err errNoRows) elements ex_pool_name ex_scan (λ _ : lister, [[Some 5%Z]]) ex_more ex_page)
    with (E := ex_rsync_env) (cfg := apply_defaults ex_cfg) (dry := true) (connect := λ (_ : nat) (_ : gostr), @None error)
      (LoadDefaultConfig := λ _ : gostr, @None error) (reg := λ _ : collector, @None error) (already := λ _ : error, false)
      (s := mkD [] (mkPools 0 ∅)) (sv := sv) (pgRec := pgRec) (s' := s') (seen := @nil request)
      (ls := [[]; ex_down_swept.2]) (h := ex_down_swept.2) (i := 1) (l := ex_down_swept.2) (E' := ex_down) (out := out)
      (a := ∅ : gmap gostr (gmap gostr gostr * gmap gostr gostr))
      (time := ex_time) (mfs := gather_of ex_down_store collectors) (clock := ex_clock)
      (order := (map_to_list (gather_of ex_down_store collectors)).*2) as (H & _).
  - intros [|? p] h; exists []; rewrite app_nil_r; split; done.
  - exact Eb.
  - rewrite Htasks. constructor; [by exists ex_rsync_env, []|]. constructor; [|constructor].
    exists ex_down, ex_down_swept.2. split; [done|]. split; [apply _|]. split; [exact Hiv|]. by exists out, ∅.
  - apply interleaves_second.
  - by rewrite Htasks.
  - reflexivity.
  - exact Hrun.
  - vm_compute. reflexivity.
  - apply gathered_gather.
  - unfold traversal. reflexivity.
  - rewrite Hn in H. exact H.
Defined.
